(* ===== verification/_CoqProject ===== *)
-Q . S2P
Prelude.v
Primality.v
Errors.v
Secmem.v
Storage.v
FileBackend.v
FileStore.v
SecurityErrors.v
Group.v
Types.v
Hashing.v
CurveLib.v
Digests.v
Libraries.v
Secp256k1.v
Ristretto255.v
Ed25519.v
P256.v
Ed448.v
Suites.v
Curves.v
Reputation.v
CommitmentTracker.v
Validator.v
Authenticator.v
Signer.v
Keystore.v
KeystoreFiles.v
Serialization.v
ZGroup.v
Poly.v
Helpers.v
Keygen.v
Participant.v
Aggregator.v
Protocol.v
SuiteLaws.v
Oracles.v
Registry.v
Mock.v
Signing.v
Preprocess.v
Batch.v
Rerandomized.v
Dkg.v
Refresh.v
Repairable.v
Service.v
Session.v
Coordinator.v
Cli.v
CliDisk.v
Vectors.v
Ceremony.v
Flags.v
CliMain.v
CLib.v
Witnesses.v
SystemWitnesses.v
SecurityWitnesses.v
SuiteWitnesses.v
StoreWitnesses.v
CliWitnesses.v
