(* ===== verification/Prelude.v ===== *)
(** * go-frost: a machine-checked model of the FROST threshold signature library

    The repository implements FROST (RFC 9591) threshold Schnorr signatures in
    Go: a group of [n] participants holds shares of a signing key, any [t] of
    them sign together, fewer learn nothing.  This development translates the
    library's packages into Rocq and proves that they do what they promise.

    ** How the program fits together

    - [pkg/frost] declares the data types, participant identifiers and errors.
    - [group] and [ciphersuite] are interfaces: a prime-order group and the five
      domain-separated hash functions.  Everything above is written against them.
    - [helpers] holds the shared computations: encoding and validation of
      commitment lists, polynomials and Lagrange coefficients, binding factors,
      group commitments, challenges, nonces.
    - [keygen] splits a key with a trusted dealer; [keygen/dkg] does it without
      one in three rounds; [keygen/refresh] and [keygen/repairable] change and
      recover shares afterwards.
    - [signing] runs the two rounds of the protocol, aggregates the shares, finds
      cheaters, and offers preprocessing, batch verification and rerandomized
      signatures on top.
    - [group/*] adapt five third-party curve libraries to the group interface and
      [ciphersuite/*] build the five ciphersuites of the RFC on them.
    - The coordinator of [signing] drives participants over an interface and
      consults the components of [security]: reputation, commitment and nonce
      trackers, authenticators, validators and the sanitizer of error messages.
    - [service] wraps key generation, signing and verification for applications
      and manages asynchronous sessions; [serialization] defines wire formats.
    - [keystore] keeps key packages and group keys as JSON in a storage backend;
      [pkg/storage] has two of them, in memory and in files.  [pkg/secmem] holds
      secrets in sealed enclaves and [pkg/signer] Ed25519 keys for the
      authenticators of [security].
    - [cmd/frost] is the command line: a dealer, a one-shot [sign], and the
      commands of separate signers, which exchange files.  [cmd/libfrost] exports
      the service to C.

    ** Files and what they model (Go file -> Rocq Module)

    - [Prelude.v]: bytes, outcomes, loops, map iteration, [sort.Slice], tactics.
      [Primality.v] has no code: certificates of primality.
    - [Errors.v]: errors.go.  [SecurityErrors.v] ([security]): security/errors.go.
    - [Group.v]: crypto/rand as a state monad, group/interface.go and
      ciphersuite/interface.go as classes, and the class [GroupLaws], the contract
      of the group interface, against which every protocol theorem is proved.
    - [Types.v]: types.go, identifier.go.
    - [Hashing.v]: the hash functions as parameters, [expandMessageXMD],
      [domainSeparate].
    - [CurveLib.v]: [AdapterLaws], what an adapter of a curve library has to get
      right, and [restrict_laws], which derives [GroupLaws] from it.
      [Libraries.v]: the calls the adapters make, with their documented laws, and
      the loops the adapters share.
    - [Secp256k1.v], [Ristretto255.v], [Ed25519.v], [P256.v], [Ed448.v] (a Module
      of the Go package's name in each): group/*/*.go.
    - [Suites.v] (a Module per ciphersuite): ciphersuite/*/ciphersuite.go.
      [SuiteLaws.v] has no code: the suites under the protocol's contracts.
      [Oracles.v] has no code: the strings the suites hash.
      [Registry.v] ([ciphersuite]): the identifiers and hooks of
      ciphersuite/interface.go.
    - [Mock.v] ([testutil]): helpers/testutil/mock_group.go, mock_ciphersuite.go.
    - [Vectors.v] ([testvectors]): test/testvectors/vectors.go, and a run of the
      library on the inputs of a vector.  It runs over [Digests.v] ([digests]) and
      [Curves.v] ([curves]), which have no code: SHA-2, SHAKE256 and the five
      curves as executable instances of the parameters, on the machine integers
      of the kernel.
    - [Reputation.v] ([reputation]), [CommitmentTracker.v] ([memory], [nonce]),
      [Validator.v] ([validator]), [Authenticator.v] ([authenticator]):
      security/reputation.go, commitment_tracker.go, frost_nonce_tracker.go,
      validator.go, config.go, authenticator.go.
    - [Serialization.v] ([serialization]): serialization/header.go, serializer.go.
    - [ZGroup.v]: a concrete prime-order group that discharges [GroupLaws], and a
      toy ciphersuite; the group of all witnesses.
    - [Poly.v]: the mathematics of polynomials over the scalar field.
    - [Helpers.v] ([commitmentListEncoder], [polynomialHelper],
      [bindingFactorComputer], [groupCommitmentComputer], [challengeComputer],
      [nonceGenerator]): helpers/*.go, one Module per Go type.
    - [Keygen.v] ([vss], [dealer]): keygen/vss.go, dealer.go, keygen.go,
      reconstruct.go.
    - [Participant.v] ([participant]): signing/participant.go.
    - [Aggregator.v] ([aggregator], [strategy]): signing/aggregator.go,
      strategy.go.
    - [Protocol.v]: no code of its own; the protocol end to end.
    - [Signing.v] ([signing], [signingPackage]): signing/signing.go, package.go.
    - [Preprocess.v], [Batch.v], [Rerandomized.v]: the files of the same name.
    - [Dkg.v] ([dkg]), [Refresh.v] ([refresh]), [Repairable.v] ([repairable]):
      keygen/dkg/*.go, keygen/refresh, keygen/repairable.
    - [Service.v] ([service]): service/frost.go.
    - [Session.v] ([session]): service/session_manager.go.
    - [Coordinator.v] ([coordinator]): signing/coordinator.go.
    - [Secmem.v] ([secmem]): pkg/secmem.  [Signer.v] ([signer]): pkg/signer.
    - [Storage.v] ([storage], [memory_backend]): pkg/storage/backend.go, errors.go,
      memory.go; the interface as the class [Backend] and its contract as
      [BackendLaws].  [FileBackend.v] ([os], [file_backend]): pkg/storage/file.go
      over a tree of files; [FileStore.v] has no code: the file backend's instance
      of the contract.
    - [Keystore.v] ([keystore], [adapter], [memory_storage], [stored],
      [keychain]) and [KeystoreFiles.v] ([file_storage]): keystore/*.go.
    - [Cli.v] ([cli]): cmd/frost/main.go, a definition per command over its parsed
      flags, in a state of a disk and a random source.  [CliDisk.v] and
      [Ceremony.v] have no code: triples for the commands on a disk that works,
      and the commands one after the other.  [Flags.v] ([flag]): what main.go uses
      of the package flag.  [CliMain.v] ([frost]): the flag sets, usage texts and
      the process of main.go, from its arguments to its exit status.  [CLib.v]
      ([libfrost]): cmd/libfrost/libfrost.go.
    - [Witnesses.v], [SystemWitnesses.v], [SecurityWitnesses.v],
      [SuiteWitnesses.v], [StoreWitnesses.v], [CliWitnesses.v]: every theorem with hypotheses applied to
      a run of the definitions.

    Definitions keep the names of the Go functions; a Go method is a definition
    in the Module of its receiver, record fields carry a prefix where two structs
    share a field name, and a loop body that needs a name of its own is called
    [.._step] or [check_..].

    ** Conventions

    - A call returns [Res A]: a value, an error (an [error] with the code's own
      wrapping), or [Panic] for a nil dereference or an index out of range.  An
      interface value that may be nil is an [option]; using it goes through
      [deref].
    - Code that reads crypto/rand runs in [Rand], which threads the source.  A
      read may fail; [rng_works] is the assumption that it does not, where a
      theorem promises success.
    - [uint32] is [Z] with [is_uint32] and an explicit [mod 2^32] wherever the
      code computes with it; encodings use [Z.shiftr] and [byte.of_Z].
    - A Go map is a [gmap]; ranging over it uses [range_entries], in an order the
      class [MapOrder] leaves open, so theorems hold for every iteration order.
    - The loops of the modelled code are bounded ([for range], counted loops) and
      are structural recursions, with one exception: the rejection sampling of
      P-256 and secp256k1 ([reject_loop]) runs until the source gives a number in
      range.  It takes a number of allowed reads; [random_scalar_returns] shows
      that every allowance beyond the first good read gives the same result.  In
      the [Group] instances [Panic] stands for a run that used up its allowance.
    - The curve libraries, [crypto/*], [regexp], SHA-2, SHAKE, memguard and
      encoding/json are parameters.
      Their laws are classes, each with an instance in a witness file; the concrete
      curves of [Curves.v] serve to run the definitions, and no law is proved of
      them.  Points of
      a library are taken up to the library's own equality.
    - Theorems over the deployed suites are about an adapter's valid values
      ([restrict]): reduced scalars, and points of the prime-order group.  The
      adapter's own operations keep to them, except that the decoders of
      Ed25519 and Ed448 may give other points ([deployed_contract],
      [subgroup_checks]); what the protocol does with those is not covered.
    - Methods that return byte slices return fresh copies; wiping a copy that is
      unreachable afterwards is not represented.  [Zeroize] methods are modelled
      by the values they leave behind.
    - Locked methods are atomic steps; a concurrent execution is a sequence of
      them ([session.step], [session.manager_step], and the atomic steps of the
      coordinator).
    - A storage backend copies the data it is given and gives out copies, as both
      backends of the repository do.
    - Calls to [os] work on a tree of directories and files without symbolic links
      and permissions, under absolute paths; every call may fail, a write after
      any part of its data ([os.fs_fault]), and the states the disk passes through
      are logged ([os.fs_trace]).  Theorems about what a call leaves behind hold
      for every pattern of failures; those that promise success assume a disk that
      [works].  The clock is an argument of the calls that read it.
    - Hash functions are arbitrary functions; inequations such as
      [session_chal pk l msg <> 0] exclude the collisions the code reports as
      errors.

    ** What the theorems show

    - End to end: [threshold_signing], [service_signs], [rerandomized_signing],
      [dkg_agreement], [coordinator_signs]: honest quorums of at least [t] succeed
      and their signatures verify; [deployed_signing]: so they do over each of the
      five ciphersuites, under the suite's own verifier.
      As tests of the definitions, the examples of [Vectors.v] run them on the
      inputs of the RFC's five test vectors and obtain every recorded value.
    - Groups and suites: [deployed_contract], [verifiers_agree], [hash_to_field],
      [suite_oracles], [random_scalar_returns], [subgroup_checks],
      [deployed_wires_apart]; [mock_contract] and [mock_signing] for the mocks.
    - Security components: [tracker_refinement], [nonce_reuse_refused],
      [nonces_used_once], [exclusion_policy], [excluded_not_asked],
      [blame_is_local], [authentication_sound], [sanitize_discloses].
    - Against cheaters: [verified_aggregate_verifies], [honest_never_blamed],
      [AggregateWithVerification_spec], [aggregateWithAllCheaterDetection_spec],
      [strategies_agree]; [Part2_spec], [Part3_consistent], [Part3_blames_cheaters],
      [proof_of_knowledge_extracts] for key generation; [batch_sound].
    - Secret sharing: [threshold_reconstruction], [shares_hide_secret],
      [VerifyShare_correct], [refresh_keeps_secret], [repair_recovers_share].
    - Each operation on every branch: the [_spec] and [_accepts] theorems.
    - State: [GetCommitmentList_spec], [session_progress], [accepted_is_final],
      [session_never_signs] for sessions in every reachable state, [Next_hands_out_once] for the nonce
      queue.
    - Encodings: [Encode_injective], [identifier_roundtrip],
      [deserialize_serialize].
    - Storage: [memory_reads] and [ttl_horizon] for the in-memory backend;
      [put_is_atomic] and [keys_stay_below_base] for the file backend whatever
      fails, [file_store_is_a_map] on a working disk; [keystore_roundtrip],
      [storage_keys] and [concurrent_stores] for the key store over any backend
      that keeps the contract, [files_keep_packages] over files.
    - Secrets: [secret_lifecycle], [purge_is_final], [ZeroString_spec],
      [signer_authenticates].
    - The command line: [ceremony_signs] and [one_shot_signs] run the commands from
      key generation to verification over the files they exchange, and
      [ceremony_by_arguments] the processes that start them; every command is read
      back from its arguments ([arguments_roundtrip]), the usage texts are true
      ([usage_accurate]), and [process_ends] says what an exit leaves undone;
      [sign_takes_two] and [commit_refuses] are the limits of [sign] and [commit].
      For the C library, [frost_verify_spec] and [frost_sign_never_signs].
    - Where the code falls short of its intention: [Sign_refuses_dealer_quorum],
      [session_never_signs], [failed_recording_stays], [sessions_confused], the
      first part of [subgroup_checks], the last part of [secret_lifecycle],
      [concurrent_stores], [stored_package_signs_alone], [dot_key_escapes],
      [Part3_truncates], the
      second part of [ceremony_by_arguments], [sign_takes_two], the panic of
      [commit_refuses], the skipped clean-up of [process_ends], the last part of
      [mock_contract], [frost_sign_never_signs].

    ** Not modelled

    - Timing and memory locking have no functional effect; of the signal handler
      that [secmem.Init] installs only that it is installed once is stated.
    - The lines that the commands of cmd/frost print; of cmd/libfrost the memory
      behind C pointers.
    - [Registry] of ciphersuite/interface.go, which nothing implements; the group
      in keygen/test_helpers.go and, but for the vectors, the code under src/test,
      which are tests.
    - The field and point arithmetic of the curve libraries, which is not in the
      repository. *)

From Stdlib Require Import ZArith Lia.
From Stdlib Require Strings.Byte.
From stdpp Require Export base list strings gmap sorting.
From coqutil Require Export Byte Word.LittleEndianList.

#[export] Set Default Goal Selector "!".

(** ** Bytes and fixed-width integers

    Go's [[]byte] is a list of [Byte.byte]; [byte(x)] is [byte.of_Z x], which
    keeps the low eight bits.  [uint32] values are integers in [[0, 2^32)]. *)

Abbreviation bytes := (list Init.Byte.byte).

#[export] Instance byte_eq_dec : EqDecision Init.Byte.byte := Stdlib.Strings.Byte.byte_eq_dec.

Definition uint32_max : Z := 2 ^ 32 - 1.
Definition is_uint32 (z : Z) : Prop := (0 ≤ z ≤ uint32_max)%Z.

#[export] Instance is_uint32_dec z : Decision (is_uint32 z).
Proof. unfold is_uint32. apply _. Defined.

(** A Go [int] is a 64-bit two's complement integer. *)
Definition wrap_int (z : Z) : Z := ((z + 2 ^ 63) mod 2 ^ 64 - 2 ^ 63)%Z.

Lemma wrap_int_small z : (- 2 ^ 63 ≤ z < 2 ^ 63)%Z → wrap_int z = z.
Proof. intros Hz. unfold wrap_int. rewrite Z.mod_small; lia. Qed.

Lemma wrap_int_add_l n m : wrap_int (wrap_int n + m) = wrap_int (n + m).
Proof.
  unfold wrap_int. f_equal.
  replace ((n + 2 ^ 63) mod 2 ^ 64 - 2 ^ 63 + m + 2 ^ 63)%Z
    with ((n + 2 ^ 63) mod 2 ^ 64 + m)%Z by lia.
  rewrite Zplus_mod_idemp_l. f_equal. lia.
Qed.

(** [make([]byte, n)]: [n] zero bytes. *)
Definition zero_bytes (n : nat) : bytes := replicate n (byte.of_Z 0).

(** The value of a byte string read least significant byte first (which is
    [le_combine]) and most significant byte first. *)
Definition be_combine (bs : bytes) : Z := le_combine (reverse bs).

Lemma le_combine_zeros bs n : le_combine (bs ++ zero_bytes n) = le_combine bs.
Proof.
  assert (zero_bytes n = List.repeat Byte.x00 n) as ->.
  { unfold zero_bytes. induction n as [|n IH]; cbn; [done | by rewrite IH]. }
  apply le_combine_app_0.
Qed.

Lemma reverse_zero_bytes n : reverse (zero_bytes n) = zero_bytes n.
Proof. apply reverse_replicate. Qed.

(** ** Outcomes of Go calls

    A Go function that returns [(T, error)] ends in a value, in a non-nil
    error, or in a run-time panic (nil dereference, index out of range). *)

Section Outcomes.
Context {Err : Type}.

Inductive Outcome (A : Type) : Type :=
| Ok (a : A)
| Fail (e : Err)
| Panic.

Arguments Ok {A} a.
Arguments Fail {A} e.
Arguments Panic {A}.

Definition outcome_bind {A B} (f : A → Outcome B) (m : Outcome A) : Outcome B :=
  match m with
  | Ok a => f a
  | Fail e => Fail e
  | Panic => Panic
  end.

Definition outcome_fmap {A B} (f : A → B) (m : Outcome A) : Outcome B :=
  match m with
  | Ok a => Ok (f a)
  | Fail e => Fail e
  | Panic => Panic
  end.

(** [if cond { return err }] *)
Definition fail_if (b : bool) (e : Err) : Outcome unit :=
  if b then Fail e else Ok ().

(** [if err != nil { return f(err) }]: the caller wraps the callee's error. *)
Definition wrap {A} (f : Err → Err) (m : Outcome A) : Outcome A :=
  match m with
  | Ok a => Ok a
  | Fail e => Fail (f e)
  | Panic => Panic
  end.

(** A method call on (or a field access through) a possibly nil value. *)
Definition deref {A} (o : option A) : Outcome A :=
  match o with
  | Some a => Ok a
  | None => Panic
  end.

(** [l[i]] with Go's bounds check. *)
Definition index {A} (l : list A) (i : nat) : Outcome A := deref (l !! i).

Definition is_ok {A} (m : Outcome A) : bool :=
  match m with Ok _ => true | _ => false end.
End Outcomes.

Arguments Outcome Err A : clear implicits.
Arguments Ok {Err A} a.
Arguments Fail {Err A} e.
Arguments Panic {Err A}.

#[export] Instance outcome_mret Err : MRet (Outcome Err) := λ A a, Ok a.
#[export] Instance outcome_mbind Err : MBind (Outcome Err) := λ A B f m, outcome_bind f m.
#[export] Instance outcome_fmap_inst Err : FMap (Outcome Err) := λ A B f m, outcome_fmap f m.
#[export] Instance outcome_eq_dec Err A `{!EqDecision Err, !EqDecision A} :
  EqDecision (Outcome Err A).
Proof. solve_decision. Defined.

(** [for _, x := range l { ... }] with an accumulator and early return. *)
Fixpoint range_loop {Err A B} (body : B → A → Outcome Err B) (l : list A) (acc : B)
  : Outcome Err B :=
  match l with
  | [] => Ok acc
  | x :: l' => match body acc x with
               | Ok acc' => range_loop body l' acc'
               | Fail e => Fail e
               | Panic => Panic
               end
  end.

(** [for i, x := range l { out[i] = f(x) }] with early return. *)
Fixpoint range_map {Err A B} (f : A → Outcome Err B) (l : list A) : Outcome Err (list B) :=
  match l with
  | [] => Ok []
  | x :: l' => match f x with
               | Ok y => match range_map f l' with
                         | Ok ys => Ok (y :: ys)
                         | Fail e => Fail e
                         | Panic => Panic
                         end
               | Fail e => Fail e
               | Panic => Panic
               end
  end.

(** ** Inversion and totality lemmas *)

Section OutcomeLemmas.
Context {Err A B : Type}.
Implicit Types (m : Outcome Err A) (k : A → Outcome Err B).

Lemma bind_Ok m k b : (m ≫= k) = Ok b ↔ ∃ a, m = Ok a ∧ k a = Ok b.
Proof. destruct m; simpl; naive_solver. Qed.

Lemma bind_Fail m k e :
  (m ≫= k) = Fail e ↔ m = Fail e ∨ ∃ a, m = Ok a ∧ k a = Fail e.
Proof. destruct m; simpl; naive_solver. Qed.

Lemma fmap_Fail (f : A → B) m e : (f <$> m) = Fail e ↔ m = Fail e.
Proof. destruct m; simpl; naive_solver. Qed.

Lemma wrap_Fail (f : Err → Err) m e : wrap f m = Fail e ↔ ∃ e', m = Fail e' ∧ e = f e'.
Proof. destruct m; simpl; naive_solver. Qed.

Lemma deref_Fail (o : option A) e : deref (Err := Err) o ≠ Fail e.
Proof. by destruct o. Qed.

Lemma fail_if_Fail b (e e' : Err) : fail_if b e = Fail e' ↔ b = true ∧ e' = e.
Proof. destruct b; simpl; naive_solver. Qed.

(** Panics propagate through a chain of calls from one of its links. *)
Lemma bind_no_panic m k :
  m ≠ Panic → (∀ a, m = Ok a → k a ≠ Panic) → (m ≫= k) ≠ Panic.
Proof. destruct m; simpl; naive_solver. Qed.

Lemma fmap_no_panic (f : A → B) m : m ≠ Panic → (f <$> m) ≠ Panic.
Proof. by destruct m. Qed.

Lemma wrap_no_panic (f : Err → Err) m : m ≠ Panic → wrap f m ≠ Panic.
Proof. by destruct m. Qed.

Lemma fail_if_no_panic b (e : Err) : fail_if b e ≠ Panic.
Proof. by destruct b. Qed.

Lemma bind_ext m k k' : (∀ a, m = Ok a → k a = k' a) → (m ≫= k) = (m ≫= k').
Proof. destruct m; simpl; auto. Qed.

Lemma fmap_Ok (f : A → B) m b : (f <$> m) = Ok b ↔ ∃ a, m = Ok a ∧ b = f a.
Proof. destruct m; simpl; naive_solver. Qed.

Lemma wrap_Ok (f : Err → Err) m a : wrap f m = Ok a ↔ m = Ok a.
Proof. destruct m; simpl; naive_solver. Qed.

Lemma fail_if_Ok b (e : Err) u : fail_if b e = Ok u ↔ b = false.
Proof. destruct b, u; simpl; naive_solver. Qed.

Lemma deref_Ok (o : option A) a : deref (Err := Err) o = Ok a ↔ o = Some a.
Proof. destruct o; simpl; naive_solver. Qed.
End OutcomeLemmas.

Section LoopLemmas.
Context {Err A B : Type}.
Implicit Types (l : list A).

Lemma range_map_Ok (f : A → Outcome Err B) l ys :
  range_map f l = Ok ys ↔ Forall2 (λ x y, f x = Ok y) l ys.
Proof.
  revert ys. induction l as [|x l IH]; intros ys; simpl.
  - split; [intros [= <-]; constructor | by inversion 1].
  - destruct (f x) as [y|e|] eqn:Hf.
    + destruct (range_map f l) as [ys'|e|].
      * split; [intros [= <-]; constructor; [done | by apply IH] |].
        inversion 1 as [|? y' ? ys'' Hy Hys]; subst.
        apply IH in Hys. congruence.
      * split; [done |]. inversion 1 as [|? y' ? ys'' Hy Hys]; subst.
        apply IH in Hys. congruence.
      * split; [done |]. inversion 1 as [|? y' ? ys'' Hy Hys]; subst.
        apply IH in Hys. congruence.
    + split; [done | inversion 1; congruence].
    + split; [done | inversion 1; congruence].
Qed.

Lemma range_map_total (f : A → Outcome Err B) (g : A → B) l :
  (∀ x, x ∈ l → f x = Ok (g x)) → range_map f l = Ok (g <$> l).
Proof.
  induction l as [|x l IH]; intros H; simpl; [done |].
  rewrite H by apply list_elem_of_here.
  by rewrite IH by (intros; apply H; by apply list_elem_of_further).
Qed.

Lemma range_loop_total (body : B → A → Outcome Err B) (g : B → A → B) l acc :
  (∀ acc x, x ∈ l → body acc x = Ok (g acc x)) →
  range_loop body l acc = Ok (foldl g acc l).
Proof.
  revert acc. induction l as [|x l IH]; intros acc H; simpl; [done |].
  rewrite H by apply list_elem_of_here.
  apply IH. intros; apply H. by apply list_elem_of_further.
Qed.

(** A loop keeps an invariant that every successful iteration keeps. *)
Lemma range_loop_inv (P : B → Prop) (body : B → A → Outcome Err B) l acc r :
  P acc →
  (∀ acc x acc', x ∈ l → P acc → body acc x = Ok acc' → P acc') →
  range_loop body l acc = Ok r → P r.
Proof.
  revert acc. induction l as [|x l IH]; intros acc HP Hstep; simpl.
  - by intros [= <-].
  - destruct (body acc x) as [acc'|e|] eqn:Hb; [| done | done].
    apply IH.
    + eapply Hstep; [apply list_elem_of_here | done | done].
    + intros a y a' Hy. apply Hstep. by apply list_elem_of_further.
Qed.

(** Every iteration of a loop that returns has itself returned. *)
Lemma range_loop_each (body : B → A → Outcome Err B) l acc r x :
  range_loop body l acc = Ok r → x ∈ l → ∃ a a', body a x = Ok a'.
Proof.
  revert acc. induction l as [|y l IH]; intros acc; simpl.
  - intros _ H. by apply not_elem_of_nil in H.
  - destruct (body acc y) as [acc'|e|] eqn:Hb; [| done | done].
    intros Hl [->|Hx]%elem_of_cons; [eauto | by eapply IH].
Qed.

(** A mapping loop fails with the error of the first element that fails. *)
Lemma range_map_Fail (f : A → Outcome Err B) l e :
  range_map f l = Fail e ↔
  ∃ pre x suf, l = pre ++ x :: suf ∧ Forall (λ y, ∃ v, f y = Ok v) pre ∧ f x = Fail e.
Proof.
  induction l as [|x l IH]; simpl.
  - split; [done | by intros ([|] & ? & ? & ? & _)].
  - destruct (f x) as [y|e'|] eqn:Hf.
    + transitivity (range_map f l = Fail e); [destruct (range_map f l); naive_solver |].
      rewrite IH. split.
      * intros (pre & z & suf & -> & Hp & Hz). exists (x :: pre), z, suf.
        split; [done |]. split; [constructor; eauto | done].
      * intros ([|x' pre] & z & suf & [= <- ->] & Hp & Hz); [congruence |].
        apply Forall_cons in Hp as [_ Hp]. eauto 10.
    + split.
      * intros [= ->]. exists [], x, l. auto.
      * intros ([|x' pre] & z & suf & [= <- ->] & Hp & Hz); [congruence |].
        apply Forall_cons in Hp as [[v Hv] _]. congruence.
    + split; [done |].
      intros ([|x' pre] & z & suf & [= <- ->] & Hp & Hz); [congruence |].
      apply Forall_cons in Hp as [[v Hv] _]. congruence.
Qed.

Lemma range_map_no_panic (f : A → Outcome Err B) l :
  (∀ x, x ∈ l → f x ≠ Panic) → range_map f l ≠ Panic.
Proof.
  induction l as [|x l IH]; simpl; [done |]. intros H.
  pose proof (H x (list_elem_of_here _ _)). destruct (f x); [| done | done].
  assert (range_map f l ≠ Panic) by (apply IH; intros; apply H; by apply list_elem_of_further).
  by destruct (range_map f l).
Qed.
End LoopLemmas.

(** A loop whose body first computes a value from the element and then folds
    it into the accumulator is a mapping loop followed by a fold. *)
Lemma range_loop_map {Err A B C} (f : A → Outcome Err C) (k : B → C → B) l (acc : B) body :
  (∀ acc x, x ∈ l → body acc x = (k acc <$> f x)) →
  range_loop body l acc = (foldl k acc <$> range_map f l).
Proof.
  revert acc. induction l as [|x l IH]; intros acc H; [done |]. simpl.
  rewrite H by apply list_elem_of_here. destruct (f x) as [v|e|]; simpl; [| done | done].
  rewrite IH by (intros; apply H; by apply list_elem_of_further).
  by destruct (range_map f l).
Qed.

(** A loop that stores one value per key. *)
Lemma foldl_insert_lookup {B} (l : list (Z * B)) (m : gmap Z B) k :
  NoDup l.*1 →
  foldl (λ m '(k, v), <[k := v]> m) m l !! k =
    match (list_to_map l : gmap Z B) !! k with Some v => Some v | None => m !! k end.
Proof.
  revert m. induction l as [|[k' v] l IH]; intros m Hnd; [done |].
  rewrite fmap_cons in Hnd. apply NoDup_cons in Hnd as [Hk Hnd]. cbn [foldl list_to_map foldr].
  rewrite IH by done. destruct (decide (k = k')) as [->|Hne].
  - apply not_elem_of_list_to_map_1 in Hk. cbn in *. rewrite Hk. by rewrite !lookup_insert_eq.
  - cbn. rewrite !lookup_insert_ne by done. done.
Qed.

Lemma range_loop_ext {Err A B} (body body' : B → A → Outcome Err B) l acc :
  (∀ a x, body a x = body' a x) → range_loop body l acc = range_loop body' l acc.
Proof.
  intros H. revert acc. induction l as [|x l IH]; intros acc; cbn; [done |].
  rewrite H. destruct (body' acc x); [apply IH | done | done].
Qed.

(** A check loop, whose accumulator is unit, accepts when every check does, and
    fails with the error of one of the checks. *)
Lemma check_loop_Ok {Err A} (f : A → Outcome Err unit) l u :
  range_loop (λ _ x, f x) l u = Ok () ↔ Forall (λ x, f x = Ok ()) l.
Proof.
  destruct u. induction l as [|x l IH]; cbn; [by split; [constructor |] |].
  rewrite Forall_cons. destruct (f x) as [[]|e|]; [rewrite IH; tauto | |]; split; naive_solver.
Qed.

Lemma range_loop_Fail {Err A B} (body : B → A → Outcome Err B) l acc e :
  range_loop body l acc = Fail e → ∃ acc' x, x ∈ l ∧ body acc' x = Fail e.
Proof.
  revert acc. induction l as [|x l IH]; intros acc; cbn; [done |].
  destruct (body acc x) as [acc'|e'|] eqn:Hb; [| | done].
  - intros (a & y & Hy & He)%IH. exists a, y. split; [by apply list_elem_of_further | done].
  - intros [= ->]. exists acc, x. split; [apply list_elem_of_here | done].
Qed.

Lemma range_map_fmap {Err A B C} (h : A → B) (f : B → Outcome Err C) l :
  range_map f (h <$> l) = range_map (λ a, f (h a)) l.
Proof. induction l as [|a l IH]; [done |]. cbn. by rewrite IH. Qed.

Lemma zip_fmap_both {A B C} (f : A → B) (h : A → C) l :
  zip (f <$> l) (h <$> l) = (λ a, (f a, h a)) <$> l.
Proof. induction l as [|a l IH]; [done |]. cbn. by f_equal. Qed.

Lemma foldl_app_concat {A B} (f : A → list B) l acc :
  foldl (λ acc x, acc ++ f x) acc l = acc ++ concat (f <$> l).
Proof.
  revert acc. induction l as [|x l IH]; intros acc; simpl; [by rewrite app_nil_r |].
  by rewrite IH, app_assoc.
Qed.

(** Concatenation of equal-length injective chunks is injective. *)
Lemma concat_chunks_inj {A B} (P : A → Prop) (f : A → list B) n l1 l2 :
  0 < n →
  (∀ x, P x → length (f x) = n) →
  (∀ x y, P x → P y → f x = f y → x = y) →
  Forall P l1 → Forall P l2 → concat (f <$> l1) = concat (f <$> l2) → l1 = l2.
Proof.
  intros Hn Hlen Hinj H1. revert l2. induction H1 as [|x l1 Hx H1 IH]; intros l2 H2 Heq.
  - destruct H2 as [|y l2 Hy H2]; [done |]. apply (f_equal length) in Heq.
    simpl in Heq. rewrite length_app, Hlen in Heq by done. lia.
  - destruct H2 as [|y l2 Hy H2].
    + apply (f_equal length) in Heq. simpl in Heq. rewrite length_app, Hlen in Heq by done. lia.
    + simpl in Heq. apply app_inj_1 in Heq as [Hh Ht]; [| by rewrite !Hlen].
      f_equal; [by apply Hinj | by apply IH].
Qed.

(** ** The [seen] loop

    [seen := map[..]bool{}; for _, x := range l { check x; if seen[key x] ... }]:
    it accepts exactly the lists whose elements pass the check and whose keys
    are pairwise distinct. *)

Section SeenLoop.
Context {Err A : Type} (key : A → Z) (check : A → Outcome Err unit) (dup : A → Err).

Definition seen_body (seen : gset Z) (x : A) : Outcome Err (gset Z) :=
  _ ← check x;
  _ ← fail_if (bool_decide (key x ∈ seen)) (dup x);
  Ok ({[key x]} ∪ seen).

Lemma seen_loop_Ok l seen r :
  range_loop seen_body l seen = Ok r ↔
  Forall (λ x, check x = Ok ()) l ∧ NoDup (key <$> l) ∧
  (∀ x, x ∈ l → key x ∉ seen) ∧ r = list_to_set (key <$> l) ∪ seen.
Proof.
  revert seen. induction l as [|x l IH]; intros seen; cbn [range_loop].
  - split.
    + intros [= ->]. split_and!; [constructor | constructor | set_solver | set_solver].
    + intros (_ & _ & _ & ->). f_equal. set_solver.
  - rewrite Forall_cons, fmap_cons, NoDup_cons.
    unfold seen_body at 1. destruct (check x) as [[]|e|];
      [| split; naive_solver | split; naive_solver].
    cbn [mbind outcome_mbind outcome_bind]. case_bool_decide as Hs; cbn [fail_if mbind outcome_mbind outcome_bind].
    + split; [done |]. intros (_ & _ & Hn & _).
      exfalso. apply (Hn x); [apply list_elem_of_here | done].
    + rewrite IH. split.
      * intros (Hc & Hnd & Hn & ->). split_and!; [done | done | | done | | set_solver].
        -- intros (y & Hxy & Hy)%list_elem_of_fmap. specialize (Hn y Hy).
           rewrite Hxy in Hn. set_solver.
        -- intros y [->|Hy]%elem_of_cons; [done |]. specialize (Hn y Hy). set_solver.
      * intros ([_ Hc] & [Hx Hnd] & Hn & ->).
        split_and!; [done | done | | set_solver].
        intros y Hy. rewrite not_elem_of_union, not_elem_of_singleton. split.
        -- intros Hyx. apply Hx. apply list_elem_of_fmap. eauto.
        -- apply Hn. by apply list_elem_of_further.
Qed.

Lemma seen_loop_Fail l seen e :
  range_loop seen_body l seen = Fail e → ∃ x, x ∈ l ∧ (check x = Fail e ∨ e = dup x).
Proof.
  revert seen. induction l as [|x l IH]; intros seen; cbn [range_loop]; [done |].
  unfold seen_body at 1. destruct (check x) as [[]|e'|] eqn:Hc; cbn; [| | done].
  - case_bool_decide; cbn [fail_if outcome_bind mbind outcome_mbind].
    + intros [= <-]. exists x. split; [apply list_elem_of_here | by right].
    + intros (y & Hy & Hd)%IH. exists y. split; [by apply list_elem_of_further | done].
  - intros [= ->]. exists x. split; [apply list_elem_of_here | by left].
Qed.

Lemma seen_loop_no_panic l seen :
  (∀ x, x ∈ l → check x ≠ Panic) → range_loop seen_body l seen ≠ Panic.
Proof.
  revert seen. induction l as [|x l IH]; intros seen H; cbn [range_loop]; [done |].
  pose proof (H x (list_elem_of_here _ _)) as Hx.
  assert (∀ y, y ∈ l → check y ≠ Panic) as Hl
    by (intros y Hy; apply H; by apply list_elem_of_further).
  unfold seen_body at 1. destruct (check x) as [[]|e'|]; cbn; [| done | done].
  case_bool_decide; cbn; [done | by apply IH].
Qed.
End SeenLoop.

(** [ok_inv H] decomposes a hypothesis that a call chain returned [Ok]. *)
Ltac ok_inv_step :=
  match goal with
  | H : (_ ≫= _) = Ok _ |- _ =>
      let a := fresh "r" in let H1 := fresh "Hr" in
      apply bind_Ok in H as (a & H1 & H)
  | H : wrap _ _ = Ok _ |- _ => apply wrap_Ok in H
  | H : fail_if _ _ = Ok _ |- _ => apply fail_if_Ok in H
  | H : deref _ = Ok _ |- _ => apply deref_Ok in H
  | H : (_ <$> _) = Ok _ |- _ =>
      let a := fresh "r" in let H1 := fresh "Hr" in
      apply fmap_Ok in H as (a & H1 & H)
  | H : Ok _ = Ok _ |- _ => injection H as H
  | H : Fail _ = Ok _ |- _ => discriminate H
  | H : Panic = Ok _ |- _ => discriminate H
  | H : mret _ = Ok _ |- _ => injection H as H
  end.

Ltac ok_inv := repeat ok_inv_step.

(** [fail_inv H] follows a hypothesis that a call chain returned an error to the
    call that produced it, one goal per call. *)
Ltac fail_inv_step :=
  match goal with
  | H : (_ ≫= _) = Fail _ |- _ =>
      let a := fresh "r" in let Ha := fresh "Hr" in
      apply bind_Fail in H as [H | (a & Ha & H)]
  | H : (_ <$> _) = Fail _ |- _ => apply fmap_Fail in H
  | H : wrap _ _ = Fail _ |- _ =>
      let e := fresh "e" in let He := fresh "He" in apply wrap_Fail in H as (e & He & H)
  | H : fail_if _ _ = Fail _ |- _ =>
      let Hb := fresh "Hb" in apply fail_if_Fail in H as (Hb & H)
  | H : deref _ = Fail _ |- _ => by apply deref_Fail in H
  | H : Ok _ = Fail _ |- _ => discriminate H
  | H : Panic = Fail _ |- _ => discriminate H
  end.

Ltac fail_inv := repeat fail_inv_step.

(** [no_panic] follows a chain of calls and leaves the calls that could panic. *)
Ltac no_panic_step :=
  match goal with
  | |- (_ ≫= _) ≠ Panic => apply bind_no_panic; [| intros ? ?]
  | |- (_ <$> _) ≠ Panic => apply fmap_no_panic
  | |- wrap _ _ ≠ Panic => apply wrap_no_panic
  | |- fail_if _ _ ≠ Panic => apply fail_if_no_panic
  | |- Ok _ ≠ Panic => discriminate
  | |- Fail _ ≠ Panic => discriminate
  end.

Ltac no_panic := repeat no_panic_step.

(** Computes the head call of a chain of calls. *)
Ltac step := cbn [fail_if wrap deref mbind outcome_mbind outcome_bind mret outcome_mret].


#[export] Instance Ok_inj {Err A} : Inj eq eq (@Ok Err A).
Proof. by intros x y [=]. Qed.

(** ** Ranging over a Go map

    A Go map is a [gmap]; [for k, v := range m] visits its entries in an order
    the language leaves open, possibly a different one at every range statement.
    [range_order s] is the order taken at the [s]-th range statement of a
    function. *)

Class MapOrder : Type := {
  range_order : nat → ∀ {K A : Type}, list (K * A) → list (K * A);
  range_order_perm s {K A} (l : list (K * A)) : range_order s l ≡ₚ l;
}.

Definition range_entries `{MapOrder} (s : nat) `{Countable K} {A} (m : gmap K A)
  : list (K * A) :=
  range_order s (map_to_list m).

(** Two orders, for the examples. *)
Definition sorted_order : MapOrder :=
  {| range_order := λ _ _ _ l, l; range_order_perm := λ _ _ _ l, reflexivity l |}.
Definition reversed_order : MapOrder :=
  {| range_order := λ _ _ _ l, reverse l; range_order_perm := λ _ _ _ l, reverse_Permutation l |}.

Section RangeEntries.
Context `{MapOrder} `{Countable K} {A : Type}.
Implicit Types (m : gmap K A).

Lemma range_entries_perm s m : range_entries s m ≡ₚ map_to_list m.
Proof. apply range_order_perm. Qed.

Lemma elem_of_range_entries s m k x : (k, x) ∈ range_entries s m ↔ m !! k = Some x.
Proof. by rewrite range_entries_perm, elem_of_map_to_list. Qed.

Lemma range_entries_NoDup s m : NoDup (range_entries s m).*1.
Proof. rewrite range_entries_perm. apply NoDup_fst_map_to_list. Qed.

Lemma range_entries_length s m : length (range_entries s m) = size m.
Proof. rewrite range_entries_perm. apply length_map_to_list. Qed.
End RangeEntries.

(** ** Lists *)

Section ListLemmas.
Context {A : Type}.

(** Go's [s[lo:hi]]. *)
Definition slice (l : list A) (lo hi : nat) : list A := take (hi - lo) (drop lo l).

Lemma slice_app_mid (l1 l2 l3 : list A) :
  slice (l1 ++ l2 ++ l3) (length l1) (length l1 + length l2) = l2.
Proof.
  unfold slice. rewrite drop_app_length.
  replace (length l1 + length l2 - length l1) with (length l2) by lia.
  apply take_app_length.
Qed.
End ListLemmas.

Section FirstMatch.
Context {A : Type} (key : A → Z).

(** The first element of a slice with a given key: the [for ... break]
    search the code repeats. *)
Fixpoint find_by (k : Z) (l : list A) : option A :=
  match l with
  | [] => None
  | x :: l' => if (key x =? k)%Z then Some x else find_by k l'
  end.

Lemma find_by_Some k l x : find_by k l = Some x → x ∈ l ∧ key x = k.
Proof.
  induction l as [|y l IH]; simpl; [done |].
  case_match eqn:E.
  - intros [= ->]. split; [apply list_elem_of_here | lia].
  - intros [??]%IH. split; [by apply list_elem_of_further | done].
Qed.

Lemma find_by_None k l : find_by k l = None ↔ k ∉ key <$> l.
Proof.
  induction l as [|y l IH]; simpl; [split; [set_solver | done] |].
  rewrite not_elem_of_cons.
  destruct (Z.eqb_spec (key y) k) as [->|Hne].
  - split; [done | tauto].
  - rewrite IH. split; [intros ?; split; [congruence | done] | by intros []].
Qed.

Lemma find_by_NoDup l x : NoDup (key <$> l) → x ∈ l → find_by (key x) l = Some x.
Proof.
  induction l as [|y l IH]; simpl; [set_solver |].
  intros [Hy Hl]%NoDup_cons [->|Hx]%elem_of_cons.
  - by rewrite Z.eqb_refl.
  - destruct (Z.eqb_spec (key y) (key x)) as [He|]; [| by apply IH].
    exfalso. apply Hy. rewrite He. apply list_elem_of_fmap. eauto.
Qed.
End FirstMatch.

(** ** [sort.Slice]

    Go's [sort.Slice(s, func(i, j) bool { return s[i].key < s[j].key })] leaves a
    permutation of [s] that is sorted by the key.  The library leaves the order
    of equal keys open; the callers sort lists with pairwise distinct keys, or
    reject the list afterwards, so any sorting function models it. *)

Section SortSlice.
Context {A : Type} (key : A → Z).

Definition key_le (x y : A) : Prop := (key x ≤ key y)%Z.

#[export] Instance key_le_dec : RelDecision key_le.
Proof. intros x y. unfold key_le. apply _. Defined.
#[export] Instance key_le_total : Total key_le.
Proof. intros x y. unfold key_le. lia. Qed.
#[export] Instance key_le_trans : Transitive key_le.
Proof. intros x y z. unfold key_le. lia. Qed.

Definition sort_Slice (l : list A) : list A := merge_sort key_le l.

Lemma sort_Slice_perm l : sort_Slice l ≡ₚ l.
Proof. apply merge_sort_Permutation. Qed.

Lemma sort_Slice_le l : StronglySorted key_le (sort_Slice l).
Proof. apply StronglySorted_merge_sort; apply _. Qed.

Lemma StronglySorted_key_lt l :
  StronglySorted key_le l → NoDup (key <$> l) → StronglySorted Z.lt (key <$> l).
Proof.
  induction 1 as [|x l Hs IH Hx]; intros Hnd; [constructor |].
  rewrite fmap_cons in *. apply NoDup_cons in Hnd as [Hn Hnd]. constructor; [by apply IH |].
  apply Forall_fmap, Forall_forall. intros y Hy. rewrite Forall_forall in Hx.
  specialize (Hx y Hy). unfold key_le in Hx. cbn.
  assert (key x ≠ key y); [| lia]. intros He. apply Hn. rewrite He. by apply list_elem_of_fmap_2.
Qed.

Lemma sort_Slice_lt l : NoDup (key <$> l) → StronglySorted Z.lt (key <$> sort_Slice l).
Proof.
  intros Hnd. apply StronglySorted_key_lt; [apply sort_Slice_le |].
  by rewrite sort_Slice_perm.
Qed.

(** Lists with distinct keys have one sorted permutation. *)
Lemma sorted_unique l l' :
  l ≡ₚ l' → StronglySorted Z.lt (key <$> l) → StronglySorted Z.lt (key <$> l') → l = l'.
Proof.
  intros Hp H H'.
  assert (Hlt : ∀ k, StronglySorted Z.lt (key <$> k) →
            StronglySorted (λ x y, key x < key y)%Z k).
  { induction k as [|x k IH]; intros Hk; [constructor |]. rewrite fmap_cons in Hk.
    apply StronglySorted_inv in Hk as [Hk Hx]. constructor; [by apply IH |].
    exact (proj1 (Forall_fmap _ _ _) Hx). }
  assert (AntiSymm (=) (λ x y, key x < key y)%Z) by (intros x y Hxy Hyx; lia).
  apply (StronglySorted_unique (λ x y, key x < key y)%Z); auto.
Qed.

Lemma sort_Slice_unique l l' : l ≡ₚ l' → NoDup (key <$> l) → sort_Slice l = sort_Slice l'.
Proof.
  intros Hp Hnd. apply sorted_unique; [by rewrite !sort_Slice_perm | by apply sort_Slice_lt |].
  apply sort_Slice_lt. by rewrite <-Hp.
Qed.
End SortSlice.

(** Sorting by a key that a map preserves. *)
Lemma sort_Slice_fmap {A B} (f : A → B) (kA : A → Z) (kB : B → Z) l :
  (∀ x, kB (f x) = kA x) → NoDup (kA <$> l) →
  sort_Slice kB (f <$> l) = f <$> sort_Slice kA l.
Proof.
  intros Hk Hnd.
  assert (Hf : ∀ k : list A, kB <$> (f <$> k) = kA <$> k).
  { intros k. rewrite <-list_fmap_compose. by apply list_fmap_ext; intros; apply Hk. }
  apply (sorted_unique kB).
  - by rewrite !sort_Slice_perm.
  - apply sort_Slice_lt. by rewrite Hf.
  - rewrite Hf. by apply sort_Slice_lt.
Qed.
