(* ===== verification/Primality.v ===== *)
(** * Primality certificates

    Pocklington's criterion as a checker: a certificate for [N] names prime
    factors of [N - 1], each with its own certificate, and a base.  Powers are
    computed by repeated squaring, so that the orders of the deployed groups
    are certified by evaluation; small primes are tried by division.  The order
    of the group of Ed25519 and ristretto255, which the mock group of the tests
    uses too, is certified at the end. *)

From Stdlib Require Import Znumtheory Zcong.
From Stdlib Require Import ZmodInv.
From S2P Require Export Prelude.

Local Open Scope Z_scope.

(** ** Trial division *)

Fixpoint no_divisor (n : nat) (d p : Z) : bool :=
  match n with
  | O => true
  | S n' => negb (p mod d =? 0) && no_divisor n' (d + 1) p
  end.

Lemma no_divisor_spec n d p k :
  no_divisor n d p = true → d ≤ k < d + Z.of_nat n → p mod k ≠ 0.
Proof.
  revert d. induction n as [|n IH]; intros d; [lia |].
  simpl. intros [Hd Hn]%andb_prop Hk. destruct (decide (k = d)) as [->|].
  - by apply negb_true_iff, Z.eqb_neq in Hd.
  - apply (IH (d + 1) Hn). lia.
Qed.

(** A number that is not prime has a divisor up to its square root. *)
Lemma small_divisor p : 1 < p → ¬ prime p → ∃ k, 1 < k ∧ k * k ≤ p ∧ (k | p).
Proof.
  intros Hp (d & Hd1 & [q Hq])%not_prime_divide; [| done].
  destruct (Z.le_gt_cases d q).
  - exists d. split; [lia |]. split; [nia | by exists q].
  - assert (1 < q) by nia. exists q. split; [done |]. split; [nia |]. exists d. lia.
Qed.

Lemma prime_by_trial p n :
  1 < p → p < (2 + Z.of_nat n) * (2 + Z.of_nat n) → no_divisor n 2 p = true → prime p.
Proof.
  intros Hp Hn Hd. destruct (prime_dec p) as [|Hnp]; [done | exfalso].
  apply small_divisor in Hnp as (k & Hk1 & Hkk & Hk); [| done].
  apply (no_divisor_spec n 2 p k Hd); [nia |]. apply Z.mod_divide; [lia | done].
Qed.

(** ** Powers modulo [n] *)

Fixpoint pow_pos_mod (a : Z) (e : positive) (n : Z) : Z :=
  match e with
  | xH => a mod n
  | xO e => let b := pow_pos_mod a e n in (b * b) mod n
  | xI e => let b := pow_pos_mod a e n in ((b * b) mod n * a) mod n
  end.

Definition pow_mod (a e n : Z) : Z :=
  match e with Zpos e => pow_pos_mod a e n | _ => a ^ e mod n end.

Lemma pow_pos_mod_spec a e n : pow_pos_mod a e n = a ^ Zpos e mod n.
Proof.
  induction e as [e IH|e IH|]; cbn [pow_pos_mod].
  - rewrite IH, Pos2Z.inj_xI, Z.pow_add_r, Z.pow_1_r, (Z.mul_comm 2), Z.pow_mul_r, Z.pow_2_r by lia.
    by rewrite <-Zmult_mod, Zmult_mod_idemp_l.
  - rewrite IH, Pos2Z.inj_xO, (Z.mul_comm 2), Z.pow_mul_r, Z.pow_2_r by lia.
    by rewrite <-Zmult_mod.
  - by rewrite Z.pow_1_r.
Qed.

Lemma pow_mod_spec a e n : pow_mod a e n = a ^ e mod n.
Proof. destruct e; [done | apply pow_pos_mod_spec | done]. Qed.

(** ** Pocklington's criterion *)

(** Powers of [a] modulo a divisor of [n]. *)
Lemma pow_one_divisor a e n p :
  1 < p → 0 < n → (p | n) → a ^ e mod n = 1 → a ^ e mod p = 1.
Proof.
  intros Hp Hn Hd He. by rewrite <-(Z.mod_mod_divide _ n p Hd), He, Z.mod_1_l.
Qed.

(** Two coprime exponents that give one: the base is one. *)
Lemma pow_one_coprime b u v p :
  1 < p → 2 ≤ u → 0 ≤ v → Z.coprime v u → b ^ u mod p = 1 → b ^ v mod p = 1 → b mod p = 1.
Proof.
  intros Hp Hu Hv Huv Hbu Hbv.
  pose proof (Z.invmod_coprime v u Hu Huv) as Hi. rewrite Z.mul_comm in Hi.
  pose proof (Z.mod_pos_bound (Z.invmod v u) u ltac:(lia)) as Hr. rewrite Z.mod_invmod in Hr.
  set (w := Z.invmod v u) in *.
  assert (v * w = 1 + u * (v * w / u)) as He by (rewrite (Z.div_mod (v * w) u) at 1 by lia; lia).
  assert (0 ≤ v * w / u) as Hq by (apply Z.div_pos; nia).
  assert (∀ e k, 0 ≤ e → 0 ≤ k → b ^ e mod p = 1 → b ^ (e * k) mod p = 1) as Hone.
  { intros e k He0 Hk H1. by rewrite Z.pow_mul_r, <-Z.mod_pow_l, H1, Z.pow_1_l, Z.mod_1_l by done. }
  pose proof (Hone v w Hv (proj1 Hr) Hbv) as H1. rewrite He in H1.
  rewrite Z.pow_add_r, Z.pow_1_r, <-Zmult_mod_idemp_r in H1 by nia.
  by rewrite (Hone u), Z.mul_1_r in H1 by lia.
Qed.

Lemma pocklington_step n a q p :
  Z.prime p → (p | n) → Z.prime q → (q | n - 1) → 1 < n →
  a ^ (n - 1) mod n = 1 → Z.gcd (a ^ ((n - 1) / q) mod n - 1) n = 1 → (q | p - 1).
Proof.
  intros Hp Hpn Hq Hqn Hn Ha Hg. pose proof (Z.prime_ge_2 p Hp). pose proof (Z.prime_ge_2 q Hq).
  set (b := a ^ ((n - 1) / q)) in *.
  assert (b ^ q mod p = 1) as Hb.
  { unfold b. rewrite <-Z.pow_mul_r by (try apply Z.div_pos; lia).
    rewrite Z.mul_comm, <-Z_div_exact_full_2 by (try apply Z.mod_divide; (lia || done)).
    apply (pow_one_divisor a (n - 1) n); (lia || done). }
  destruct (decide ((p - 1) mod q = 0)) as [Hm|Hnd]; [apply Z.mod_divide; [lia | done] |].
  exfalso. rewrite Z.mod_divide in Hnd by lia.
  assert (b mod p ≠ 0) as Hb0.
  { intros Hz. rewrite <-Z.mod_pow_l, Hz, Z.pow_0_l, Z.mod_0_l in Hb by lia. done. }
  assert (b mod p = 1) as Hb1.
  { apply (pow_one_coprime b q (p - 1)); try done; try lia.
    - unfold Z.coprime. rewrite Z.gcd_comm. by apply Z.coprime_prime_l.
    - by apply Z.fermat_nz. }
  assert (p | 1) as H1%Z.divide_1_r_nonneg; [| lia..].
  rewrite <-Hg. apply Z.gcd_greatest; [| done].
  apply Z.mod_divide; [lia |]. by rewrite <-Zminus_mod_idemp_l, Z.mod_mod_divide, Hb1.
Qed.

Lemma exists_prime_divisor k : 1 < k → ∃ p, Z.prime p ∧ (p | k).
Proof.
  induction (Z.lt_wf 0 k) as [k _ IH]. intros Hk.
  destruct (prime_dec k) as [Hp|Hp]; [exists k; by rewrite prime_alt |].
  apply small_divisor in Hp as (d & Hd & Hdd & Hdk); [| done].
  destruct (IH d) as (p & Hp & Hpd); [nia | done |]. exists p. split; [done | by transitivity d].
Qed.

(** Distinct primes that divide [m] have a product that does. *)
Lemma prime_product_divides fs m :
  Forall Z.prime fs → NoDup fs → Forall (λ q, (q | m)) fs → (foldr Z.mul 1 fs | m).
Proof.
  assert (∀ q fs, Z.prime q → Forall Z.prime fs → (q | foldr Z.mul 1 fs) → q ∈ fs) as Hin.
  { clear. intros q fs Hq. induction 1 as [|x fs Hx _ IH]; cbn [foldr].
    - intros H1%Z.divide_1_r_nonneg; pose proof (Z.prime_ge_2 q Hq); lia.
    - intros [Hqx|Hqf]%Z.divide_prime_mul; [| set_solver | done].
      apply Z.divide_prime_prime in Hqx as ->; [set_solver | done..]. }
  induction fs as [|q fs IH]; cbn [foldr]; [intros; apply Z.divide_1_l |].
  intros [Hq Hfs]%Forall_cons [Hnq Hnd]%NoDup_cons [Hqm Hfm]%Forall_cons.
  destruct (IH Hfs Hnd Hfm) as [k ->]. assert (q | k) as [j ->].
  { apply (Z.gauss q (foldr Z.mul 1 fs)); [by rewrite Z.mul_comm |].
    apply Z.coprime_prime_l; [done | auto]. }
  exists j. ring.
Qed.

Lemma pocklington n a fs :
  1 < n → Forall Z.prime fs → NoDup fs → Forall (λ q, (q | n - 1)) fs →
  a ^ (n - 1) mod n = 1 →
  Forall (λ q, Z.gcd (a ^ ((n - 1) / q) mod n - 1) n = 1) fs →
  n < (foldr Z.mul 1 fs + 1) * (foldr Z.mul 1 fs + 1) → Z.prime n.
Proof.
  intros Hn Hfs Hnd Hdiv Ha Hg Hbig. apply prime_alt.
  destruct (prime_dec n) as [|Hnp]; [done | exfalso].
  apply small_divisor in Hnp as (k & Hk1 & Hkk & Hk); [| done].
  destruct (exists_prime_divisor k Hk1) as (p & Hp & Hpk).
  pose proof (Z.divide_pos_le p k ltac:(lia) Hpk). pose proof (Z.prime_ge_2 p Hp).
  assert (0 ≤ foldr Z.mul 1 fs) as Hpos.
  { clear -Hfs. induction Hfs as [|q fs Hq%Z.prime_ge_2]; cbn [foldr]; nia. }
  assert (foldr Z.mul 1 fs | p - 1) as Hd%Z.divide_pos_le; [| nia..].
  apply prime_product_divides; [done.. |]. rewrite !Forall_forall in *. intros q Hq.
  apply (pocklington_step n a q p); auto. by transitivity k.
Qed.

(** ** Certificates *)

Inductive step :=
| Trial (n : Z) (bound : nat)
| Pocklington (n a : Z) (factors : list Z).

Definition step_number (s : step) : Z :=
  match s with Trial n _ => n | Pocklington n _ _ => n end.

(** [known] holds the primes that were certified before. *)
Definition check_step (known : list Z) (s : step) : bool :=
  match s with
  | Trial n b => (1 <? n) && (n <? (2 + Z.of_nat b) * (2 + Z.of_nat b)) && no_divisor b 2 n
  | Pocklington n a fs =>
      let F := foldr Z.mul 1 fs in
      (1 <? n) && bool_decide (NoDup fs) && (n <? (F + 1) * (F + 1))
      && (pow_mod a (n - 1) n =? 1)
      && forallb (λ q, bool_decide (q ∈ known) && ((n - 1) mod q =? 0)
                       && (Z.gcd (pow_mod a ((n - 1) / q) n - 1) n =? 1)) fs
  end.

Fixpoint check_steps (known : list Z) (ss : list step) : bool :=
  match ss with
  | [] => true
  | s :: ss => check_step known s && check_steps (step_number s :: known) ss
  end.

Lemma check_step_sound known s :
  Forall Z.prime known → check_step known s = true → Z.prime (step_number s).
Proof.
  intros Hk. destruct s as [n b|n a fs]; cbn [check_step step_number].
  - rewrite !andb_true_iff, !Z.ltb_lt. intros [[H1 H2] H3].
    by apply prime_alt, (prime_by_trial n b).
  - rewrite !andb_true_iff, !Z.ltb_lt, Z.eqb_eq, bool_decide_eq_true, forallb_forall, pow_mod_spec.
    intros [[[[H1 Hnd] H2] Ha] Hall].
    assert (∀ q, q ∈ fs → Z.prime q ∧ (q | n - 1) ∧ Z.gcd (a ^ ((n - 1) / q) mod n - 1) n = 1)
      as Hq.
    { intros q Hq. specialize (Hall q (proj1 (list_elem_of_In _ _) Hq)).
      rewrite !andb_true_iff, !Z.eqb_eq, bool_decide_eq_true, pow_mod_spec in Hall.
      destruct Hall as [[Hin Hm] Hg]. rewrite Forall_forall in Hk. pose proof (Hk q Hin) as Hp.
      split; [done |]. split; [| done]. apply Z.mod_divide; [| done].
      pose proof (Z.prime_ge_2 q Hp). lia. }
    apply (pocklington n a fs); try done; apply Forall_forall; intros q Hin; by apply Hq.
Qed.

Lemma check_steps_sound ss known n :
  Forall Z.prime known → check_steps known ss = true → n ∈ step_number <$> ss → Z.prime n.
Proof.
  revert known. induction ss as [|s ss IH]; intros known Hk; cbn [check_steps];
    [by intros _ ?%elem_of_nil |].
  intros [Hs Hss]%andb_true_iff. rewrite fmap_cons, elem_of_cons.
  pose proof (check_step_sound known s Hk Hs). intros [-> | Hin]; [done |].
  apply (IH (step_number s :: known)); [by constructor | done..].
Qed.

(** ** The order of Ed25519 and ristretto255 *)

Definition ed25519_order : Z := 2 ^ 252 + 27742317777372353535851937790883648493.

Definition ed25519_certificate : list step :=
  [Trial 1361 36; Trial 2851 52; Trial 531581 728; Trial 1224481 1106;
   Pocklington 1257559732178653 2 [1224481; 531581];
   Pocklington 4434155615661930479 2 [1257559732178653];
   Pocklington 172054593956031949258510691 2 [4434155615661930479];
   Pocklington 19757330305831588566944191468367130476339 2 [172054593956031949258510691];
   Pocklington 276602624281642239937218680557139826668747 2
     [19757330305831588566944191468367130476339];
   Pocklington ed25519_order 2 [276602624281642239937218680557139826668747]].

Lemma ed25519_order_prime : Z.prime ed25519_order.
Proof.
  apply (check_steps_sound ed25519_certificate []);
    [constructor | by vm_compute | repeat constructor].
Qed.
