(* ===== verification/Errors.v ===== *)
(** * Errors of [pkg/frost/errors.go]

    The typed errors of the protocol as an inductive type: the package-level
    sentinels, the wrapping structs with their fields, and the errors that
    come from outside the repository (crypto/rand, a storage medium) or are
    package-level values of other packages as opaque messages.  [FreshError m]
    is the result of [errors.New(m)] in a function body, which is no package's
    value whatever its text, and [Errorf p e] that of
    [fmt.Errorf("%s: %w", p, e)].  [KeystoreError] is the struct of
    keystore/errors.go, whose values without a wrapped error are that package's
    own.  [Unwrap], [errors.Is], [errors.As] on
    [CulpritError] and the message rendering are functions on it. *)

From stdpp Require Import pretty.
From S2P Require Import Prelude.

(** The sentinels of errors.go. *)
Inductive sentinel : Set :=
| ErrInvalidParameters
| ErrInvalidParticipant
| ErrInvalidCommitment
| ErrInvalidSignatureShare
| ErrInvalidSignature
| ErrInvalidThreshold
| ErrInsufficientParticipants
| ErrDuplicateParticipant
| ErrInvalidKeyShare
| ErrInvalidPolynomial
| ErrDeserializationFailed
| ErrSerializationFailed
| ErrIdentityElement
| ErrZeroScalar
| ErrInvalidNonce
| ErrInvalidBindingFactor
| ErrInvalidGroupCommitment
| ErrInvalidChallenge
| ErrUnsortedCommitments
| ErrEmptyCommitmentList
| ErrInvalidConfiguration.

#[export] Instance sentinel_eq_dec : EqDecision sentinel.
Proof. solve_decision. Defined.

(** The error values the library returns. *)
Inductive error : Set :=
| Sentinel (s : sentinel)
| ParameterError (Param Reason : string) (Err : option error)
| ParticipantError (Identifier : Z) (Reason : string) (Err : option error)
| VerificationError (Operation Reason : string) (Err : option error)
| SignatureShareError (culprits : list Z) (Reason : string) (Err : option error)
| ProofOfKnowledgeError (Identifier : Z) (Reason : string) (Err : option error)
| SecretShareError (Identifier : Z) (Reason : string) (Err : option error)
| Errorf (prefix : string) (Err : error)
| KeystoreError (Op : string) (Err : option error)
| FreshError (msg : string)
| OpaqueError (msg : string).

#[export] Instance error_eq_dec : EqDecision error.
Proof.
  unfold EqDecision. fix go 1. intros x y. pose proof (go : EqDecision error).
  unfold Decision. decide equality; solve_decision.
Defined.

(** Abbreviations for the constructor calls: the code always passes a non-nil
    wrapped error. *)
Definition NewParameterError (parameter reason : string) (err : error) : error :=
  ParameterError parameter reason (Some err).
Definition NewParticipantError (identifier : Z) (reason : string) (err : error) : error :=
  ParticipantError identifier reason (Some err).
Definition NewVerificationError (operation reason : string) (err : error) : error :=
  VerificationError operation reason (Some err).
Definition NewSignatureShareError (culprits : list Z) (reason : string) (err : error) : error :=
  SignatureShareError culprits reason (Some err).
Definition NewProofOfKnowledgeError (identifier : Z) (reason : string) (err : error) : error :=
  ProofOfKnowledgeError identifier reason (Some err).
Definition NewSecretShareError (identifier : Z) (reason : string) (err : error) : error :=
  SecretShareError identifier reason (Some err).

Definition AddCulprit (e : error) (id : Z) : error :=
  match e with
  | SignatureShareError culprits reason err => SignatureShareError (culprits ++ [id]) reason err
  | _ => e
  end.

(** The [Unwrap] methods. *)
Definition Unwrap (e : error) : option error :=
  match e with
  | Sentinel _ | OpaqueError _ | FreshError _ => None
  | ParameterError _ _ err | ParticipantError _ _ err | VerificationError _ _ err
  | SignatureShareError _ _ err | ProofOfKnowledgeError _ _ err
  | SecretShareError _ _ err | KeystoreError _ err => err
  | Errorf _ err => Some err
  end.

(** The unwrap chain [errors.Is] and [errors.As] walk. *)
Fixpoint chain (e : error) : list error :=
  e :: match e with
       | Sentinel _ | OpaqueError _ | FreshError _ => []
       | ParameterError _ _ err | ParticipantError _ _ err | VerificationError _ _ err
       | SignatureShareError _ _ err | ProofOfKnowledgeError _ _ err
       | SecretShareError _ _ err | KeystoreError _ err =>
           match err with Some e' => chain e' | None => [] end
       | Errorf _ err => chain err
       end.

(** The [Culprits] methods: [None] for the types that do not implement
    [CulpritError]. *)
Definition Culprits (e : error) : option (list Z) :=
  match e with
  | ParticipantError id _ _ => Some [id]
  | SignatureShareError culprits _ _ => Some culprits
  | ProofOfKnowledgeError id _ _ => Some [id]
  | SecretShareError id _ _ => Some [id]
  | _ => None
  end.

(** [errors.Is(err, s)] for a sentinel [s]. *)
Definition errors_Is (e : error) (s : sentinel) : bool :=
  existsb (λ e', match e' with Sentinel s' => bool_decide (s' = s) | _ => false end) (chain e).

(** [errors.Is(err, target)] for any package-level value. *)
Definition errors_Is_value (e target : error) : bool :=
  existsb (λ e', bool_decide (e' = target)) (chain e).

(** [GetCulprits]: [errors.As] stops at the first error of the chain that
    implements [CulpritError]; nil becomes the empty list. *)
Definition GetCulprits (e : error) : list Z :=
  match omap Culprits (chain e) with
  | c :: _ => c
  | [] => []
  end.

(** ** Messages *)

Definition sentinel_msg (s : sentinel) : string :=
  match s with
  | ErrInvalidParameters => "invalid parameters"
  | ErrInvalidParticipant => "invalid participant"
  | ErrInvalidCommitment => "invalid commitment"
  | ErrInvalidSignatureShare => "invalid signature share"
  | ErrInvalidSignature => "invalid signature"
  | ErrInvalidThreshold => "invalid threshold"
  | ErrInsufficientParticipants => "insufficient participants"
  | ErrDuplicateParticipant => "duplicate participant"
  | ErrInvalidKeyShare => "invalid key share"
  | ErrInvalidPolynomial => "invalid polynomial"
  | ErrDeserializationFailed => "deserialization failed"
  | ErrSerializationFailed => "serialization failed"
  | ErrIdentityElement => "identity element not allowed"
  | ErrZeroScalar => "zero scalar not allowed"
  | ErrInvalidNonce => "invalid nonce"
  | ErrInvalidBindingFactor => "invalid binding factor"
  | ErrInvalidGroupCommitment => "invalid group commitment"
  | ErrInvalidChallenge => "invalid challenge"
  | ErrUnsortedCommitments => "commitment list must be sorted by identifier"
  | ErrEmptyCommitmentList => "commitment list cannot be empty"
  | ErrInvalidConfiguration => "invalid configuration"
  end.

(** The [Error()] methods; [fmt.Sprintf]'s [%d] is decimal printing. *)
Fixpoint Error (e : error) : string :=
  let suffix err := match err with Some e' => ": " +:+ Error e' | None => "" end in
  match e with
  | Sentinel s => sentinel_msg s
  | OpaqueError msg | FreshError msg => msg
  | Errorf p err => p +:+ ": " +:+ Error err
  | ParameterError p r err => "parameter " +:+ p +:+ " is invalid: " +:+ r +:+ suffix err
  | ParticipantError id r err => "participant " +:+ pretty id +:+ ": " +:+ r +:+ suffix err
  | VerificationError op r err => "verification failed for " +:+ op +:+ ": " +:+ r +:+ suffix err
  | SignatureShareError [] r err => "invalid signature share: " +:+ r +:+ suffix err
  | SignatureShareError [id] r err =>
      "invalid signature share from participant " +:+ pretty id +:+ ": " +:+ r +:+ suffix err
  | SignatureShareError culprits r err =>
      "invalid signature shares from " +:+ pretty (Z.of_nat (length culprits))
        +:+ " participants: " +:+ r +:+ suffix err
  | ProofOfKnowledgeError id r err =>
      "invalid proof of knowledge from participant " +:+ pretty id +:+ ": " +:+ r +:+ suffix err
  | SecretShareError id r err =>
      "invalid secret share from participant " +:+ pretty id +:+ ": " +:+ r +:+ suffix err
  | KeystoreError op err => "keystore: " +:+ op +:+ suffix err
  end.

(** The outcome of a call whose error is a FROST error. *)
Abbreviation Res := (Outcome error).

(** ** Lemmas *)

Lemma chain_unwrap e e' : Unwrap e = Some e' → chain e = e :: chain e'.
Proof. destruct e; simpl; intros; simplify_eq; done. Qed.

Lemma chain_leaf e : Unwrap e = None → chain e = [e].
Proof. destruct e; simpl; intros; simplify_eq; done. Qed.

(** [errors.Is] sees through every wrapping layer. *)
Lemma errors_Is_wrapped e e' s :
  Unwrap e = Some e' → errors_Is e' s = true → errors_Is e s = true.
Proof.
  intros Hu. unfold errors_Is. rewrite (chain_unwrap _ _ Hu). simpl. intros ->.
  by rewrite orb_true_r.
Qed.

Lemma errors_Is_Sentinel s s' : errors_Is (Sentinel s) s' = bool_decide (s = s').
Proof. unfold errors_Is. simpl. apply orb_false_r. Qed.

(** An error type that carries culprits hides those of the errors it wraps. *)
Lemma GetCulprits_outermost e c : Culprits e = Some c → GetCulprits e = c.
Proof. unfold GetCulprits. destruct e; simpl; intros; simplify_eq; done. Qed.

Lemma GetCulprits_transparent e e' :
  Culprits e = None → Unwrap e = Some e' → GetCulprits e = GetCulprits e'.
Proof.
  intros Hc Hu. unfold GetCulprits. rewrite (chain_unwrap _ _ Hu). cbn. by rewrite Hc.
Qed.

(** Closes [∃ e, m = Fail e ∧ ...] when [m] computes to an error. *)
Ltac fails_with := eexists; split; [reflexivity | repeat split; reflexivity].
