(* ===== verification/Secmem.v ===== *)
(** * Secrets in protected memory: [pkg/secmem/secmem.go]

    A [SecretBytes] holds data sealed in an enclave of the memguard library,
    opens it into a buffer and seals the buffer again.  memguard is a
    parameter.  The theorems follow one secret through every interleaving of
    the calls of its users: an access gives the original data or the error of a
    destroyed secret, and [Destroy] is final exactly when no buffer is open at
    that moment; [Purge] always is, since the library's next session does not
    open what an earlier one sealed.  [ZeroString] writes to a string's memory,
    which other strings may share. *)

From S2P Require Export Prelude.
From S2P Require Export Errors.

(** Memguard: sealing a buffer that is alive, and opening an enclave into a new
    buffer. *)
Class Enclaves : Type := { Enclave : Type }.
Class Memguard : Type := {
  mg_Enclaves :: Enclaves;
  mg_Seal : bytes → Enclave;
  mg_Open : Enclave → Res bytes;
}.
(** The library seals with the key of its session; the sessions of a process are
    numbered. *)
Class MemguardSessions : Type := {
  ms_Enclaves :: Enclaves;
  ms_Seal : nat → bytes → Enclave;
  ms_Open : nat → Enclave → Res bytes;
}.
Definition in_session `{MemguardSessions} (k : nat) : Memguard :=
  {| mg_Enclaves := ms_Enclaves; mg_Seal := ms_Seal k; mg_Open := ms_Open k |}.
Class MemguardLaws (M : Memguard) : Prop := {
  law_mg_Open b : b ≠ [] → mg_Open (mg_Seal b) = Ok b;
}.

(** "Existing Enclave objects will no longer be decryptable." *)
Class MemguardSessionsLaws (M : MemguardSessions) : Prop := {
  law_ms_Open k b : b ≠ [] → ms_Open k (ms_Seal k b) = Ok b;
  law_ms_other k k' b : k ≠ k' → ∃ e, ms_Open k' (ms_Seal k b) = Fail e;
}.
#[export] Instance in_session_laws `{!MemguardSessions} `{!MemguardSessionsLaws _} k :
  MemguardLaws (in_session k).
Proof. split. apply law_ms_Open. Qed.

Module secmem.

Definition ErrDestroyed : error := OpaqueError "secmem: secret has been destroyed".
Definition ErrNilSecret : error := OpaqueError "secmem: secret is nil".

(** The value of a slice after [subtle.ConstantTimeCopy(1, b, zeros)]. *)
Definition ZeroBytes (b : bytes) : bytes :=
  if length b =? 0 then b else zero_bytes (length b).

(** A locked buffer is alive with its contents, or destroyed. *)
Definition LockedBuffer : Type := option bytes.

Section Data.
Context `{Enclaves}.

Record SecretBytes := {
  enclave : option Enclave;
  sb_size : nat;
}.

(** One secret, which may be nil, and its users' buffers under handles. *)
Record world := {
  w_secret : option SecretBytes;
  w_buffers : gmap nat LockedBuffer;
}.

(** Some user has opened the secret and not sealed it again. *)
Definition open_buffer (w : world) : Prop := ∃ i b, w_buffers w !! i = Some (Some b).
End Data.

Section Defs.
Context `{Memguard}.

(** [buf.Bytes()]: nil for a destroyed buffer. *)
Definition buf_Bytes (buf : LockedBuffer) : bytes := default [] buf.

(** [buf.Seal()] destroys the buffer; of a destroyed one it makes no enclave. *)
Definition buf_Seal (buf : LockedBuffer) : option Enclave := mg_Seal <$> buf.

(** The secret, which may be nil, and the caller's slice after the call. *)
Definition NewSecretBytes (data : bytes) : option SecretBytes * bytes :=
  if length data =? 0 then (None, data)
  else
    let size := length data in
    let buf : LockedBuffer := Some data in
    (Some {| enclave := buf_Seal buf; sb_size := size |}, ZeroBytes data).

Definition Open (s : option SecretBytes) : Res LockedBuffer :=
  match s with
  | None => Fail ErrNilSecret
  | Some s =>
      match enclave s with
      | None => Fail ErrDestroyed
      | Some e => Some <$> mg_Open e
      end
  end.

(** The secret after the call; the buffer is destroyed by it. *)
Definition Reseal (buf : option LockedBuffer) (s : option SecretBytes) : option SecretBytes :=
  match s, buf with
  | Some s, Some buf => Some {| enclave := buf_Seal buf; sb_size := sb_size s |}
  | _, _ => s
  end.

(** The buffer that is opened to be destroyed leaves no trace. *)
Definition Destroy (s : option SecretBytes) : option SecretBytes :=
  match s with
  | None => None
  | Some s => Some {| enclave := None; sb_size := 0 |}
  end.

Definition Size (s : option SecretBytes) : nat :=
  match s with None => 0 | Some s => sb_size s end.

(** The deferred [Reseal] runs however [fn] ends; [fn] only reads. *)
Definition WithSecret {A} (secret : option SecretBytes) (fn : bytes → Res A)
  : Res A * option SecretBytes :=
  match secret with
  | None => (Fail ErrNilSecret, secret)
  | Some _ =>
      match Open secret with
      | Ok buf => (fn (buf_Bytes buf), Reseal (Some buf) secret)
      | Fail err => (Fail err, secret)
      | Panic => (Panic, secret)
      end
  end.

(** ** One secret and its users

    The methods lock the secret, so that they are atomic steps. *)

Definition initial (data : bytes) : world :=
  {| w_secret := (NewSecretBytes data).1; w_buffers := ∅ |}.

Definition destroyed (w : world) : world :=
  {| w_secret := Destroy (w_secret w); w_buffers := w_buffers w |}.

Inductive step : relation world :=
| step_Open w i buf :
    w_buffers w !! i = None →
    Open (w_secret w) = Ok buf →
    step w {| w_secret := w_secret w; w_buffers := <[i := buf]> (w_buffers w) |}
| step_Reseal w i buf :
    w_buffers w !! i = Some buf →
    step w {| w_secret := Reseal (Some buf) (w_secret w);
              w_buffers := <[i := None]> (w_buffers w) |}
| step_Destroy w : step w (destroyed w).
End Defs.

(** ** The library's session *)

Section Sessions.
Context `{MemguardSessions}.

(** The process: [initOnce] has run its function, how often the library was
    told to catch interrupts, the session, and a secret with its users. *)
Record process := {
  initOnce : bool;
  catching : nat;
  session : nat;
  contents : world (H := ms_Enclaves);
}.

Definition Init (p : process) : process :=
  if initOnce p then p
  else {| initOnce := true; catching := S (catching p); session := session p;
          contents := contents p |}.

(** [memguard.Purge] destroys the buffers and starts a session with a new key. *)
Definition Purge (p : process) : process :=
  {| initOnce := initOnce p; catching := catching p; session := S (session p);
     contents := {| w_secret := w_secret (contents p);
                    w_buffers := (λ _, None) <$> w_buffers (contents p) |} |}.

Inductive process_step : relation process :=
| process_Init p : process_step p (Init p)
| process_Purge p : process_step p (Purge p)
| process_use p w :
    step (H := in_session (session p)) (contents p) w →
    process_step p {| initOnce := initOnce p; catching := catching p; session := session p;
                      contents := w |}.

(** A process that has just created a secret. *)
Definition created (k : nat) (data : bytes) : process :=
  {| initOnce := false; catching := 0; session := k;
     contents := initial (H := in_session k) data |}.
End Sessions.

(** ** Strings

    A string is an address and a length; strings may share bytes.  Bytes of the
    program's text are not writable, and writing to them is a fault, which ends
    the process. *)

Record StringHeader := { sh_Data : Z; sh_Len : nat }.

Record Memory := { mem_bytes : gmap Z byte; mem_writable : gset Z }.

Definition addresses (s : StringHeader) : list Z :=
  (λ i, (sh_Data s + Z.of_nat i)%Z) <$> seq 0 (sh_Len s).

Definition read_string (m : Memory) (s : StringHeader) : option bytes :=
  mapM (λ a, mem_bytes m !! a) (addresses s).

(** [copy(dst, src)] to consecutive addresses. *)
Fixpoint write_bytes (m : Memory) (l : list (Z * byte)) : Res Memory :=
  match l with
  | [] => Ok m
  | (a, b) :: l =>
      if decide (a ∈ mem_writable m)
      then write_bytes {| mem_bytes := <[a := b]> (mem_bytes m); mem_writable := mem_writable m |} l
      else Panic
  end.

Definition ZeroString (s : option StringHeader) (m : Memory) : Res Memory :=
  match s with
  | None => Ok m
  | Some hdr =>
      if sh_Len hdr =? 0 then Ok m
      else write_bytes m (zip (addresses hdr) (zero_bytes (sh_Len hdr)))
  end.
End secmem.

(** The secret was destroyed. *)
Definition gone `{Enclaves} (s : option secmem.SecretBytes) : Prop :=
  secmem.enclave <$> s = Some None.

Section Facts.
Context {M : Memguard} `{!MemguardLaws M}.
Import secmem.

(** The secret is sealed with its data. *)
Definition holds (s : option SecretBytes) (data : bytes) : Prop :=
  enclave <$> s = Some (Some (mg_Seal data)).

Lemma NewSecretBytes_holds data : data ≠ [] → holds (NewSecretBytes data).1 data.
Proof. by destruct data. Qed.

Lemma Open_holds s data : data ≠ [] → holds s data → Open s = Ok (Some data).
Proof.
  intros Hd Hs. destruct s as [[e z]|]; [| done]. unfold holds in Hs. cbn in *.
  injection Hs as ->. by rewrite (law_mg_Open data Hd).
Qed.

Lemma Open_gone s : gone s → Open s = Fail ErrDestroyed.
Proof. intros Hs. destruct s as [[e z]|]; [| done]. by injection Hs as ->. Qed.

Lemma Destroy_gone s data : holds s data ∨ gone s → gone (Destroy s).
Proof. by destruct s as [s|]; intros [|]. Qed.

Lemma Reseal_holds s data b :
  holds s data ∨ gone s → holds (Reseal (Some (Some b)) s) b.
Proof. by destruct s as [s|]; intros [|]. Qed.

Lemma Reseal_gone s data : holds s data ∨ gone s → gone (Reseal (Some None) s).
Proof. by destruct s as [s|]; intros [|]. Qed.

(** A secret that holds its data still does after [WithSecret]. *)
Lemma WithSecret_holds {A} s data (fn : bytes → Res A) :
  data ≠ [] → holds s data →
  (WithSecret s fn).1 = fn data ∧ holds (WithSecret s fn).2 data.
Proof.
  intros Hd Hs. unfold WithSecret. rewrite (Open_holds s data Hd Hs).
  destruct s as [s|]; [| done]. split; [done |]. apply (Reseal_holds _ data). by left.
Qed.

Lemma WithSecret_gone {A} s (fn : bytes → Res A) :
  gone s → WithSecret s fn = (Fail ErrDestroyed, s).
Proof.
  intros Hs. unfold WithSecret. rewrite (Open_gone s Hs). by destruct s.
Qed.

(** The states of a secret that was created with [data]. *)
Definition world_ok (data : bytes) (w : world) : Prop :=
  (holds (w_secret w) data ∨ gone (w_secret w)) ∧
  map_Forall (λ _ buf, buf = Some data ∨ buf = None) (w_buffers w).

Lemma initial_ok data : data ≠ [] → world_ok data (initial data).
Proof. intros Hd. split; [left; by apply NewSecretBytes_holds | apply map_Forall_empty]. Qed.

Lemma step_ok data w w' : data ≠ [] → step w w' → world_ok data w → world_ok data w'.
Proof.
  intros Hd Hst [Hs Hb]. destruct Hst as [w i buf Hi Ho|w i buf Hi|w]; split; cbn.
  - done.
  - apply map_Forall_insert_2; [| done]. destruct Hs as [Hs|Hs].
    + rewrite (Open_holds _ _ Hd Hs) in Ho. injection Ho as <-. by left.
    + by rewrite (Open_gone _ Hs) in Ho.
  - destruct (Hb i buf Hi) as [-> | ->].
    + left. by apply (Reseal_holds _ data).
    + right. by apply (Reseal_gone _ data).
  - apply map_Forall_insert_2; [by right | done].
  - right. by apply (Destroy_gone _ data).
  - done.
Qed.

Lemma steps_ok data w w' : data ≠ [] → rtc step w w' → world_ok data w → world_ok data w'.
Proof. intros Hd. induction 1; [done |]. intros. eauto using step_ok. Qed.

(** Without an open buffer a destroyed secret stays destroyed. *)
Lemma gone_forever w w' :
  rtc step w w' → gone (w_secret w) → ¬ open_buffer w → gone (w_secret w') ∧ ¬ open_buffer w'.
Proof.
  intros Hst. induction Hst as [w|w w1 w2 Hst _ IH]; [done |]. intros Hg Hn.
  apply IH; clear IH; destruct Hst as [w i buf Hi Ho|w i buf Hi|w]; cbn in *.
  - done.
  - destruct buf as [b|]; [by destruct Hn; exists i, b |]. by apply (Reseal_gone _ []); right.
  - by apply (Destroy_gone _ []); right.
  - by rewrite (Open_gone _ Hg) in Ho.
  - intros (j & b & Hj). cbn in Hj.
    apply lookup_insert_Some in Hj as [[_ ?]|[_ Hj]]; [done |]. apply Hn. by exists j, b.
  - done.
Qed.

(** C31: through every interleaving of [Open], [Reseal] and [Destroy] by its
    users, an access to a secret gives the data it was created with or the
    error of a destroyed secret.  [Destroy] is final exactly when no user has
    the secret open: otherwise the user's [Reseal] makes it accessible again,
    with a size of zero. *)
Theorem secret_lifecycle data w :
  data ≠ [] → rtc step (initial data) w →
  (Open (w_secret w) = Ok (Some data) ∨ Open (w_secret w) = Fail ErrDestroyed) ∧
  ((∀ w', rtc step (destroyed w) w' → Open (w_secret w') = Fail ErrDestroyed)
   ↔ ¬ open_buffer w) ∧
  (open_buffer w →
   ∃ w', rtc step (destroyed w) w' ∧ Open (w_secret w') = Ok (Some data)
         ∧ Size (w_secret w') = 0).
Proof.
  intros Hd Hst. pose proof (steps_ok data _ _ Hd Hst (initial_ok data Hd)) as [Hs Hb].
  pose proof (Destroy_gone _ data Hs) as Hg.
  assert (open_buffer w → ∃ w', rtc step (destroyed w) w' ∧ Open (w_secret w') = Ok (Some data)
            ∧ Size (w_secret w') = 0) as Hback.
  { intros (i & b & Hi). destruct (Hb i _ Hi) as [[= ->]|?]; [| done].
    eexists. split; [by apply rtc_once, (step_Reseal (destroyed w) i) |]. split.
    - apply Open_holds; [done |]. cbn. apply (Reseal_holds _ data). by right.
    - cbn. by destruct (w_secret w). }
  split_and!; [| split | done].
  - destruct Hs as [Hs|Hs]; [left; by apply Open_holds | right; by apply Open_gone].
  - intros Hfin Ho. destruct (Hback Ho) as (w' & Hw & Hopen & _).
    by rewrite (Hfin w' Hw) in Hopen.
  - intros Hn w' Hw. apply Open_gone. by apply (gone_forever _ _ Hw).
Qed.
End Facts.

(** ** The process and its sessions *)

Section Process.
Context `{MS : MemguardSessions} `{!MemguardSessionsLaws MS}.
Import secmem.

(** [Init] is idempotent: the interrupt handler is installed once, in every
    run. *)
Lemma Init_idempotent p : Init (Init p) = Init p.
Proof. unfold Init. destruct (initOnce p) eqn:E; [by rewrite E | done]. Qed.

Lemma init_once k data p :
  rtc process_step (created k data) p → catching p = (if initOnce p then 1 else 0).
Proof.
  intros H. assert (catching (created k data) = if initOnce (created k data) then 1 else 0) as H0
    by done. revert H0. induction H as [|p p1 p2 Hst _ IH]; [done |]. intros Hp. apply IH.
  destruct Hst as [p|p|p w]; [| done..]. unfold Init.
  destruct (initOnce p) eqn:E; [by rewrite E | cbn; by rewrite Hp].
Qed.

(** Sealed in session [j]. *)
Definition sealed (s : option SecretBytes) (j : nat) (data : bytes) : Prop :=
  enclave <$> s = Some (Some (ms_Seal j data)).

Definition buffers_of (data : bytes) (w : world) : Prop :=
  map_Forall (λ _ buf, buf = Some data ∨ buf = None) (w_buffers w).

Definition process_ok (data : bytes) (p : process) : Prop :=
  ((∃ j, j ≤ session p ∧ sealed (w_secret (contents p)) j data) ∨ gone (w_secret (contents p))) ∧
  buffers_of data (contents p).

(** The secret belongs to an earlier session, and nobody has it open. *)
Definition locked_out (data : bytes) (p : process) : Prop :=
  ((∃ j, j < session p ∧ sealed (w_secret (contents p)) j data) ∨ gone (w_secret (contents p))) ∧
  ¬ open_buffer (contents p).

Lemma gone_enclave s : gone s → ∃ n, s = Some {| enclave := None; sb_size := n |}.
Proof. destruct s as [[e n]|]; [| done]. intros [= ->]. eauto. Qed.

Lemma sealed_enclave s j data :
  sealed s j data → ∃ n, s = Some {| enclave := Some (ms_Seal j data); sb_size := n |}.
Proof. destruct s as [[e n]|]; [| done]. intros [= ->]. eauto. Qed.

(** What opening gives in session [k]: the data, only if it was sealed in it. *)
Lemma Open_session s data k buf :
  data ≠ [] → (∃ j, sealed s j data) ∨ gone s →
  Open (H := in_session k) s = Ok buf → buf = Some data ∧ sealed s k data.
Proof.
  intros Hd [[j (n & ->)%sealed_enclave]|(n & ->)%gone_enclave]; [| done].
  cbn. destruct (decide (j = k)) as [->|Hne].
  - rewrite law_ms_Open by done. by intros [= <-].
  - destruct (law_ms_other j k data Hne) as [e ->]. done.
Qed.

Lemma locked_out_fails data p :
  data ≠ [] → locked_out data p →
  ∃ e, Open (H := in_session (session p)) (w_secret (contents p)) = Fail e.
Proof.
  intros Hd [[(j & Hj & (n & Hs)%sealed_enclave)|(n & Hs)%gone_enclave] _]; rewrite Hs; cbn; [| eauto].
  destruct (law_ms_other j (session p) data) as [e ->]; [lia | eauto].
Qed.

Lemma Reseal_buffer data k s (j : nat) :
  sealed s j data ∨ gone s → ∀ b, sealed (Reseal (H := in_session k) (Some (Some b)) s) k b
                                 ∧ gone (Reseal (H := in_session k) (Some None) s).
Proof. by intros [(n & ->)%sealed_enclave|(n & ->)%gone_enclave] b. Qed.

Lemma process_step_ok data p p' :
  data ≠ [] → process_step p p' → process_ok data p → process_ok data p'.
Proof.
  intros Hd Hst [Hs Hb]. destruct Hst as [p|p|p w Hst].
  - unfold Init. by destruct (initOnce p).
  - split; cbn.
    + destruct Hs as [(j & Hj & Hs)|]; [left; exists j; split; [lia | done] | by right].
    + intros i b (x & <- & _)%lookup_fmap_Some. by right.
  - assert ((∃ j, sealed (w_secret (contents p)) j data) ∨ gone (w_secret (contents p))) as Hs'
      by naive_solver. remember (contents p) as w0 eqn:Hw0.
    destruct Hst as [w i buf Hi Ho|w i buf Hi|w]; split; cbn; try done.
    + apply map_Forall_insert_2; [| done]. left. by eapply Open_session.
    + assert (∃ j, sealed (w_secret w) j data ∨ gone (w_secret w)) as [j Hj]
        by (destruct Hs' as [[j ?]|?]; [exists j | exists 0]; auto).
      destruct (Reseal_buffer data (session p) _ j Hj data) as [Hr Hg].
      destruct (Hb i buf Hi) as [-> | ->]; [left; by exists (session p) | by right].
    + apply map_Forall_insert_2; [by right | done].
    + right. destruct Hs' as [[j (n & ->)%sealed_enclave]|(n & ->)%gone_enclave]; done.
Qed.

Lemma locked_out_step data p p' :
  data ≠ [] → process_step p p' → locked_out data p → locked_out data p'.
Proof.
  intros Hd Hst Hl. pose proof (locked_out_fails data p Hd Hl) as [e He].
  destruct Hl as [Hs Hb]. destruct Hst as [p|p|p w Hst].
  - unfold Init. by destruct (initOnce p).
  - split; cbn.
    + destruct Hs as [(j & Hj & Hs)|]; [left; exists j; split; [lia | done] | by right].
    + intros (i & b & Hi). cbn in Hi. by apply lookup_fmap_Some in Hi as (x & ? & _).
  - remember (contents p) as w0 eqn:Hw0.
    destruct Hst as [w i buf Hi Ho|w i buf Hi|w]; cbn in *.
    + by rewrite He in Ho.
    + destruct buf as [b|]; [by destruct Hb; exists i, b |]. split; cbn.
      * right. destruct Hs as [(j & _ & (n & ->)%sealed_enclave)|(n & ->)%gone_enclave]; done.
      * intros (i' & b & Hi'). cbn in Hi'. apply lookup_insert_Some in Hi' as [[_ ?]|[_ Hi']]; [done |].
        apply Hb. by exists i', b.
    + split; cbn; [| done]. right.
      destruct Hs as [(j & _ & (n & ->)%sealed_enclave)|(n & ->)%gone_enclave]; done.
Qed.

(** [Purge] is final, where [Destroy] is not: however the process ran before,
    and whoever had the secret open, every later access fails, also after
    further calls of [Init], [Purge] and the methods. *)
Theorem purge_is_final k data p p' :
  data ≠ [] → rtc process_step (created k data) p → rtc process_step (Purge p) p' →
  ∃ e, Open (H := in_session (session p')) (w_secret (contents p')) = Fail e.
Proof.
  intros Hd H1 H2. apply (locked_out_fails data); [done |].
  assert (process_ok data p) as [Hs _].
  { revert H1. assert (process_ok data (created k data)) as H0.
    { split; [left; exists k; split; [done | by destruct data] | apply map_Forall_empty]. }
    revert H0. clear -Hd MemguardSessionsLaws0. intros H0 H1. induction H1; [done |].
    eauto using process_step_ok. }
  assert (locked_out data (Purge p)) as Hl.
  { split; cbn.
    - destruct Hs as [(j & Hj & Hs)|]; [left; exists j; split; [lia | done] | by right].
    - intros (i & b & Hi). cbn in Hi. by apply lookup_fmap_Some in Hi as (x & ? & _). }
  clear -Hd Hl H2 MemguardSessionsLaws0. induction H2; [done |]. eauto using locked_out_step.
Qed.
End Process.

(** ** Strings *)

Section Strings.
Import secmem.

Lemma write_bytes_Ok m l :
  NoDup l.*1 → Forall (λ a, a ∈ mem_writable m) l.*1 →
  ∃ m', write_bytes m l = Ok m' ∧ mem_writable m' = mem_writable m ∧
    (∀ a b, (a, b) ∈ l → mem_bytes m' !! a = Some b) ∧
    (∀ a, a ∉ l.*1 → mem_bytes m' !! a = mem_bytes m !! a).
Proof.
  revert m. induction l as [|[a b] l IH]; intros m; cbn [write_bytes fmap list_fmap fst].
  - intros _ _. exists m. split_and!; [done | done | set_solver | done].
  - intros [Ha Hnd]%NoDup_cons [Hw Hl]%Forall_cons. rewrite decide_True by done.
    destruct (IH {| mem_bytes := <[a := b]> (mem_bytes m); mem_writable := mem_writable m |})
      as (m' & -> & Hm & Hin & Hout); [done | done |].
    exists m'. split_and!; [done | done | |].
    + intros x y [[= -> ->]|Hxy]%elem_of_cons; [| by apply Hin].
      rewrite Hout by done. apply lookup_insert_eq.
    + intros x [Hx Hxl]%not_elem_of_cons. rewrite Hout by done. by apply lookup_insert_ne.
Qed.

Lemma write_bytes_fault m l :
  ¬ Forall (λ a, a ∈ mem_writable m) l.*1 → write_bytes m l = Panic.
Proof.
  revert m. induction l as [|[a b] l IH]; intros m; cbn [write_bytes fmap list_fmap fst].
  - intros []. constructor.
  - intros Hn. destruct (decide (a ∈ mem_writable m)) as [Ha|]; [| done].
    apply IH. cbn. intros Hl. apply Hn. by constructor.
Qed.

Lemma addresses_NoDup s : NoDup (addresses s).
Proof. apply NoDup_fmap_2; [intros x y; lia | apply NoDup_seq]. Qed.

Lemma zeros_fst s : (zip (addresses s) (zero_bytes (sh_Len s))).*1 = addresses s.
Proof.
  apply fst_zip. unfold addresses, zero_bytes. rewrite length_fmap, length_seq, length_replicate. lia.
Qed.

(** [ZeroString] wipes a string's bytes and nothing else; every string that
    shares them reads zeros there, and a string of the program's text makes the
    process fault. *)
Theorem ZeroString_spec s m :
  sh_Len s ≠ 0 →
  (Forall (λ a, a ∈ mem_writable m) (addresses s) →
     ∃ m', ZeroString (Some s) m = Ok m' ∧ mem_writable m' = mem_writable m ∧
       (∀ a, mem_bytes m' !! a = if decide (a ∈ addresses s) then Some (byte.of_Z 0)
                                 else mem_bytes m !! a) ∧
       ∀ s', addresses s' ## addresses s → read_string m' s' = read_string m s') ∧
  (¬ Forall (λ a, a ∈ mem_writable m) (addresses s) → ZeroString (Some s) m = Panic).
Proof.
  intros Hl. unfold ZeroString. rewrite (proj2 (Nat.eqb_neq _ _) Hl). split.
  - intros Hw. destruct (write_bytes_Ok m (zip (addresses s) (zero_bytes (sh_Len s))))
      as (m' & -> & Hm & Hin & Hout); [rewrite zeros_fst; apply addresses_NoDup | by rewrite zeros_fst |].
    rewrite zeros_fst in Hout.
    assert (∀ a, mem_bytes m' !! a = if decide (a ∈ addresses s) then Some (byte.of_Z 0)
                                     else mem_bytes m !! a) as Hbytes.
    { intros a. destruct (decide (a ∈ addresses s)) as [Ha|Ha]; [| by apply Hout].
      rewrite <-zeros_fst in Ha. apply list_elem_of_fmap in Ha as ([a' b] & -> & Hab). cbn.
      rewrite (Hin _ _ Hab). apply elem_of_zip_r, elem_of_replicate in Hab as [-> _]. done. }
    exists m'. split_and!; [done | done | done |]. intros s' Hd. unfold read_string.
    apply Forall_mapM_ext, Forall_forall. intros a Ha. rewrite Hbytes. destruct (decide _); [by destruct (Hd a) | done].
  - intros Hw. apply write_bytes_fault. by rewrite zeros_fst.
Qed.
End Strings.
