(* ===== verification/Storage.v ===== *)
(** * Storage backends: [pkg/storage]

    [Backend] is the interface of backend.go, with the laws its clients use for
    the keys a backend accepts; [memory_backend] is memory.go.  Time is in
    nanoseconds and passed in by the caller; the zero time means that an entry
    does not expire.  The theorem: what the in-memory backend answers is
    determined by the history of calls, as the last [Put] of the key that was
    not deleted since and has not expired; the clean-up of expired entries
    cannot be told from the answers of a read. *)

From S2P Require Export Prelude.
From S2P Require Export Errors.

Module storage.

Definition ErrNotFound : error := OpaqueError "storage: key not found".
Definition ErrAlreadyExists : error := OpaqueError "storage: key already exists".
Definition ErrInvalidKey : error := OpaqueError "storage: invalid key".
Definition ErrPermissionDenied : error := OpaqueError "storage: permission denied".
Definition ErrStorageClosed : error := OpaqueError "storage: backend is closed".

(** A nil metadata map reads as the empty one. *)
Record Options := {
  Permissions : Z;
  Metadata : gmap string string;
  TTL : Z;
}.

Definition DefaultOptions : Options := {| Permissions := 384; Metadata := ∅; TTL := 0 |}.

(** [strings.HasPrefix(key, prefix)] and [strings.Contains(s, sub)] *)
Definition HasPrefix (key prefix : string) : bool := String.prefix prefix key.

Fixpoint Contains (s sub : string) : bool :=
  HasPrefix s sub || match s with EmptyString => false | String _ s' => Contains s' sub end.
End storage.

Lemma length_append (s t : string) : String.length (s +:+ t) = String.length s + String.length t.
Proof.
  induction s as [|c s IH]; [done |].
  change (String c s +:+ t) with (String c (s +:+ t)). cbn. by rewrite IH.
Qed.

(** ** The interface; the first argument of a call is the clock *)

Class Backend : Type := {
  b_state : Type;
  b_Put : Z → string → bytes → option storage.Options → b_state → Res unit * b_state;
  b_Get : Z → string → b_state → Res bytes;
  b_Delete : string → b_state → Res unit * b_state;
  b_Exists : Z → string → b_state → Res bool;
  b_List : Z → string → b_state → Res (list string);
  b_Close : b_state → Res unit * b_state;
}.

(** An open backend holds data under the keys it accepts, and answers [notFound]
    for the others.  Data stored without a time to live stays until it is
    deleted. *)
Class BackendLaws (B : Backend) (notFound : error) : Type := {
  b_accepts : string → Prop;
  b_open : b_state → Prop;
  b_live : Z → b_state → gmap string bytes;
  law_b_Get now k s : b_open s → b_accepts k →
    b_Get now k s = match b_live now s !! k with
                    | Some d => Ok d
                    | None => Fail notFound
                    end;
  law_b_Exists now k s : b_open s → b_accepts k →
    b_Exists now k s = Ok (bool_decide (is_Some (b_live now s !! k)));
  law_b_List now p s : b_open s →
    ∃ keys, b_List now p s = Ok keys ∧ NoDup keys ∧
      ∀ k, k ∈ keys ↔ storage.HasPrefix k p = true ∧ is_Some (b_live now s !! k);
  law_b_Put now k d o s : b_open s → b_accepts k →
    storage.TTL (default storage.DefaultOptions o) = 0%Z →
    (b_Put now k d o s).1 = Ok () ∧ b_open (b_Put now k d o s).2 ∧
    ∀ now', b_live now' (b_Put now k d o s).2 = <[k := d]> (b_live now' s);
  law_b_Delete k s : b_open s → b_accepts k →
    b_open (b_Delete k s).2 ∧
    (∀ now', b_live now' (b_Delete k s).2 = delete k (b_live now' s)) ∧
    (∀ now, is_Some (b_live now s !! k) → (b_Delete k s).1 = Ok ()) ∧
    ((b_Delete k s).1 = Ok () ∨ (b_Delete k s).1 = Fail notFound);
}.

(** ** memory.go *)

Module memory_backend.
Section Defs.
Context `{MapOrder}.
Import storage.

Record memoryEntry := {
  data : bytes;
  metadata : gmap string string;
  expiration : option Z;
}.

Record MemoryBackend := {
  entries : gmap string memoryEntry;
  closed : bool;
}.

Definition NewMemoryBackend : MemoryBackend := {| entries := ∅; closed := false |}.

(** [if opts.TTL > 0 { expiration = time.Now().Add(time.Duration(opts.TTL) *
    time.Second) }]: the product is a 64-bit integer.  [None] is the zero time. *)
Definition deadline (now TTL : Z) : option Z :=
  if (0 <? TTL)%Z then Some (now + wrap_int (TTL * 1000000000))%Z else None.

(** [!entry.expiration.IsZero() && now.After(entry.expiration)] *)
Definition expired (now : Z) (entry : memoryEntry) : bool :=
  match expiration entry with
  | None => false
  | Some expiration => (expiration <? now)%Z
  end.

Definition Put (now : Z) (key : string) (data : bytes) (opts : option Options)
    (m : MemoryBackend) : Res unit * MemoryBackend :=
  if bool_decide (key = "") then (Fail ErrInvalidKey, m)
  else
    let opts := default DefaultOptions opts in
    if closed m then (Fail ErrStorageClosed, m)
    else
      (Ok (), {| entries := <[key := {| data := data; metadata := Metadata opts;
                                        expiration := deadline now (TTL opts) |}]> (entries m);
                 closed := closed m |}).

Definition Get (now : Z) (key : string) (m : MemoryBackend) : Res bytes :=
  _ ← fail_if (bool_decide (key = "")) ErrInvalidKey;
  _ ← fail_if (closed m) ErrStorageClosed;
  match entries m !! key with
  | None => Fail ErrNotFound
  | Some entry => if expired now entry then Fail ErrNotFound else Ok (data entry)
  end.

Definition Delete (key : string) (m : MemoryBackend) : Res unit * MemoryBackend :=
  if bool_decide (key = "") then (Fail ErrInvalidKey, m)
  else if closed m then (Fail ErrStorageClosed, m)
  else match entries m !! key with
       | None => (Fail ErrNotFound, m)
       | Some _ => (Ok (), {| entries := delete key (entries m); closed := closed m |})
       end.

Definition Exists_ (now : Z) (key : string) (m : MemoryBackend) : Res bool :=
  _ ← fail_if (bool_decide (key = "")) ErrInvalidKey;
  _ ← fail_if (closed m) ErrStorageClosed;
  match entries m !! key with
  | None => Ok false
  | Some entry => Ok (negb (expired now entry))
  end.

Definition List_ (now : Z) (prefix : string) (m : MemoryBackend) : Res (list string) :=
  _ ← fail_if (closed m) ErrStorageClosed;
  Ok (foldl (λ keys '(key, entry),
               if expired now entry then keys
               else if bool_decide (prefix = "") || HasPrefix key prefix then keys ++ [key]
               else keys) [] (range_entries 0 (entries m))).

Definition Close (m : MemoryBackend) : Res unit * MemoryBackend :=
  if closed m then (Ok (), m) else (Ok (), {| entries := ∅; closed := true |}).

Definition cleanExpired (now : Z) (m : MemoryBackend) : MemoryBackend :=
  if closed m then m
  else {| entries := foldl (λ entries '(key, entry),
                              if expired now entry then delete key entries else entries)
                       (entries m) (range_entries 0 (entries m));
          closed := closed m |}.

#[export] Instance backend : Backend := {|
  b_state := MemoryBackend; b_Put := Put; b_Get := Get; b_Delete := Delete;
  b_Exists := Exists_; b_List := List_; b_Close := Close |}.
End Defs.
End memory_backend.

Section MemoryFacts.
Context `{MapOrder}.
Import storage memory_backend.
Implicit Types (m : MemoryBackend) (k key prefix : string) (now : Z).

(** What can be read at a time. *)
Definition live now m : gmap string bytes :=
  omap (λ e, if expired now e then None else Some (data e)) (entries m).

Lemma live_lookup now m k :
  live now m !! k = match entries m !! k with
                    | Some e => if expired now e then None else Some (data e)
                    | None => None
                    end.
Proof. unfold live. rewrite lookup_omap. by destruct (entries m !! k). Qed.

(** [List] keeps the keys of the live entries that have the prefix. *)
Definition listed now prefix (p : string * memoryEntry) : Prop :=
  expired now p.2 = false ∧ HasPrefix p.1 prefix = true.

#[local] Instance listed_dec now prefix p : Decision (listed now prefix p).
Proof. unfold listed. apply _. Defined.

Lemma HasPrefix_nil k : HasPrefix k "" = true.
Proof. by destruct k. Qed.

Lemma list_loop now prefix (l : list (string * memoryEntry)) acc :
  foldl (λ keys '(key, entry),
           if expired now entry then keys
           else if bool_decide (prefix = "") || HasPrefix key prefix then keys ++ [key]
           else keys) acc l
  = acc ++ (filter (listed now prefix) l).*1.
Proof.
  revert acc. induction l as [|[k e] l IH]; intros acc; cbn [foldl]; [by rewrite app_nil_r |].
  assert (bool_decide (prefix = "") || HasPrefix k prefix = HasPrefix k prefix) as ->.
  { case_bool_decide as Hp; [| done]. subst. by rewrite HasPrefix_nil. }
  rewrite IH. unfold listed. destruct (expired now e) eqn:He.
  { rewrite filter_cons_False; [done |]. intros [Hx _]. cbn in Hx. congruence. }
  destruct (HasPrefix k prefix) eqn:Hp.
  - rewrite filter_cons_True by done. by rewrite <-app_assoc.
  - rewrite filter_cons_False; [done |]. intros [_ Hx]. cbn [fst] in Hx. congruence.
Qed.

Lemma List_spec now prefix m :
  closed m = false →
  ∃ keys, List_ now prefix m = Ok keys ∧ NoDup keys ∧
    ∀ k, k ∈ keys ↔ HasPrefix k prefix = true ∧ is_Some (live now m !! k).
Proof.
  intros Hc. unfold List_. rewrite Hc. step. eexists. split; [done |].
  rewrite list_loop, app_nil_l. split.
  - eapply sublist_NoDup; [apply (range_entries_NoDup 0 (entries m)) |].
    apply fmap_sublist, sublist_filter.
  - intros k. rewrite list_elem_of_fmap, live_lookup. split.
    + intros ([k' e] & -> & [[He Hp] Hin]%list_elem_of_filter). cbn in *.
      apply elem_of_range_entries in Hin. rewrite Hin, He. by split.
    + intros [Hp [d Hd]]. destruct (entries m !! k) as [e|] eqn:He; [| done].
      destruct (expired now e) eqn:Hx; [done |]. exists (k, e). split; [done |].
      apply list_elem_of_filter. split; [by split | by apply elem_of_range_entries].
Qed.

(** The clean-up loop deletes the expired entries it visits. *)
Lemma clean_loop now (l : list (string * memoryEntry)) (acc : gmap string memoryEntry) k :
  NoDup l.*1 →
  foldl (λ entries '(key, entry),
           if expired now entry then delete key entries else entries) acc l !! k
  = match (list_to_map l : gmap string memoryEntry) !! k with
    | Some e => if expired now e then None else acc !! k
    | None => acc !! k
    end.
Proof.
  revert acc. induction l as [|[k' e] l IH]; intros acc Hnd; [done |].
  apply NoDup_cons in Hnd as [Hk Hnd]. apply not_elem_of_list_to_map_1 in Hk. cbn [fst] in Hk.
  cbn [foldl]. rewrite IH by done. rewrite list_to_map_cons.
  destruct (decide (k' = k)) as [->|Hne].
  - rewrite Hk, lookup_insert_eq. destruct (expired now e); [apply lookup_delete_eq | done].
  - rewrite lookup_insert_ne by done. destruct (expired now e); [| done].
    by rewrite lookup_delete_ne.
Qed.

Lemma cleanExpired_lookup now m k :
  closed m = false →
  entries (cleanExpired now m) !! k =
    match entries m !! k with
    | Some e => if expired now e then None else Some e
    | None => None
    end.
Proof.
  intros Hc. unfold cleanExpired. rewrite Hc. cbn [entries].
  rewrite clean_loop by apply range_entries_NoDup.
  assert ((list_to_map (range_entries 0 (entries m)) : gmap string memoryEntry) = entries m) as ->.
  { rewrite <-(list_to_map_to_list (entries m)) at 2.
    apply list_to_map_proper; [apply range_entries_NoDup | apply range_entries_perm]. }
  by destruct (entries m !! k) as [e|].
Qed.

(** ** The in-memory backend keeps the contract of the interface *)

Lemma expired_never now e : expiration e = None → expired now e = false.
Proof. unfold expired. by intros ->. Qed.

#[export] Program Instance memory_laws : BackendLaws backend ErrNotFound := {|
  b_accepts := λ k, k ≠ "";
  b_open := λ m, closed m = false;
  b_live := live;
|}.
Next Obligation.
  intros now k m Ho Hk. cbn in *. unfold Get. rewrite bool_decide_false, Ho by done. step.
  rewrite live_lookup. destruct (entries m !! k) as [e|]; [| done]. by destruct (expired now e).
Qed.
Next Obligation.
  intros now k m Ho Hk. cbn in *. unfold Exists_. rewrite bool_decide_false, Ho by done. step.
  rewrite live_lookup. destruct (entries m !! k) as [e|]; [| done]. by destruct (expired now e).
Qed.
Next Obligation. intros now p m Ho. by apply List_spec. Qed.
Next Obligation.
  intros now k d o m Ho Hk Ht. cbn in *. unfold Put. rewrite bool_decide_false, Ho by done.
  split_and!; [done | done |]. intros now'. apply map_eq. intros k'. rewrite live_lookup.
  cbn [snd entries]. rewrite Ht. destruct (decide (k = k')) as [->|Hne].
  - rewrite !lookup_insert_eq. by rewrite expired_never.
  - rewrite !lookup_insert_ne by done. by rewrite live_lookup.
Qed.
Next Obligation.
  intros k m Ho Hk. cbn in *. unfold Delete. rewrite bool_decide_false, Ho by done.
  destruct (entries m !! k) as [e|] eqn:He; cbn [fst snd].
  - split_and!; [done | | done | by left].
    intros now'. apply map_eq. intros k'. rewrite live_lookup. cbn [entries].
    destruct (decide (k = k')) as [->|Hne].
    + by rewrite !lookup_delete_eq.
    + rewrite !lookup_delete_ne by done. by rewrite live_lookup.
  - assert (∀ now, live now m !! k = None) as Hl by (intros; by rewrite live_lookup, He).
    split_and!; [done | | | by right].
    + intros now'. symmetry. by apply delete_id.
    + intros now. rewrite Hl. by intros [].
Qed.
End MemoryFacts.

(** ** Reads are determined by the history of calls *)

(** The calls that change the backend, latest first, with their clock. *)
Inductive event :=
| EPut (now : Z) (key : string) (d : bytes) (opts : option storage.Options)
| EDelete (key : string)
| EClose
| EClean (now : Z).

Section History.
Context `{MapOrder}.
Import storage memory_backend.
Implicit Types (h : list event) (k key prefix : string) (now : Z).

Definition apply_event (e : event) (m : MemoryBackend) : MemoryBackend :=
  match e with
  | EPut now key d opts => (Put now key d opts m).2
  | EDelete key => (Delete key m).2
  | EClose => (Close m).2
  | EClean now => cleanExpired now m
  end.

Fixpoint run h : MemoryBackend :=
  match h with
  | [] => NewMemoryBackend
  | e :: h => apply_event e (run h)
  end.

(** The last data put under a key and not deleted, with its deadline. *)
Fixpoint last_put h key : option (option Z * bytes) :=
  match h with
  | [] => None
  | EPut now key' d opts :: h =>
      if bool_decide (key' = key)
      then Some (deadline now (TTL (default DefaultOptions opts)), d) else last_put h key
  | EDelete key' :: h => if bool_decide (key' = key) then None else last_put h key
  | (EClose | EClean _) :: h => last_put h key
  end.

Definition readable h now key : option bytes :=
  match last_put h key with
  | Some (Some t, d) => if (now <=? t)%Z then Some d else None
  | Some (None, d) => Some d
  | None => None
  end.

Definition is_closed h : bool :=
  existsb (λ e, match e with EClose => true | _ => false end) h.

(** The clean-ups of a history happened in the past. *)
Definition cleaned_before now h : Prop :=
  Forall (λ e, match e with EClean t => (t ≤ now)%Z | _ => True end) h.

Lemma closed_run h : closed (run h) = is_closed h.
Proof.
  unfold is_closed. induction h as [|e h IH]; [done |].
  destruct e as [now k d o|k| |now]; cbn [run apply_event existsb orb].
  - unfold Put. case_bool_decide; [done |]. destruct (closed (run h)) eqn:Hc; cbn; congruence.
  - unfold Delete. case_bool_decide; [done |]. destruct (closed (run h)) eqn:Hc; [cbn; congruence |].
    destruct (entries (run h) !! k); cbn; congruence.
  - unfold Close. by destruct (closed (run h)) eqn:Hc.
  - unfold cleanExpired. destruct (closed (run h)) eqn:Hc; cbn; congruence.
Qed.

(** While it is open, what is live is what the history makes readable. *)
Lemma run_live h now key :
  cleaned_before now h → is_closed h = false → key ≠ "" →
  live now (run h) !! key = readable h now key.
Proof.
  intros Hcl Ho Hk. revert Hcl Ho. unfold readable.
  induction h as [|e h IH]; intros Hcl Ho; [done |].
  apply Forall_cons in Hcl as [He Hcl]. cbn in Ho. apply orb_false_iff in Ho as [Hne Ho].
  specialize (IH Hcl Ho). pose proof (closed_run h : _ = existsb _ _) as Hc. rewrite Ho in Hc.
  rewrite live_lookup in *. destruct e as [now' k d o|k| |now']; cbn [run apply_event last_put].
  - unfold Put. case_bool_decide as Hk'.
    { subst k. rewrite (bool_decide_false ("" = key)) by done. exact IH. }
    rewrite Hc. cbn [snd entries]. case_bool_decide as Heq.
    + subst k. rewrite lookup_insert_eq. unfold expired. cbn [expiration data].
      destruct (deadline _ _) as [t|]; [| done]. rewrite Z.ltb_antisym. by destruct (now <=? t)%Z.
    + by rewrite lookup_insert_ne.
  - unfold Delete. case_bool_decide as Hk'.
    { subst k. rewrite (bool_decide_false ("" = key)) by done. exact IH. }
    rewrite Hc. destruct (entries (run h) !! k) as [en|] eqn:Hen; cbn [snd entries];
      case_bool_decide as Heq.
    + subst k. by rewrite lookup_delete_eq.
    + by rewrite lookup_delete_ne.
    + subst k. by rewrite Hen.
    + exact IH.
  - done.
  - rewrite cleanExpired_lookup by done. rewrite <-IH. cbn in He.
    destruct (entries (run h) !! key) as [en|]; [| done].
    destruct (expired now' en) eqn:Hx; [| done]. unfold expired in *.
    destruct (expiration en) as [t|]; [| done]. apply Z.ltb_lt in Hx.
    by rewrite (proj2 (Z.ltb_lt _ _)) by lia.
Qed.

Lemma entries_nonempty h : entries (run h) !! "" = None.
Proof.
  induction h as [|e h IH]; [done |]. destruct e as [now k d o|k| |now]; cbn.
  - unfold Put. case_bool_decide; [done |]. destruct (closed (run h)); [done |].
    cbn. by rewrite lookup_insert_ne.
  - unfold Delete. case_bool_decide; [done |]. destruct (closed (run h)); [done |].
    destruct (entries (run h) !! k); [| done]. cbn. by rewrite lookup_delete_ne.
  - unfold Close. by destruct (closed (run h)).
  - destruct (closed (run h)) eqn:Hc; [unfold cleanExpired; by rewrite Hc |].
    rewrite cleanExpired_lookup by done. by rewrite IH.
Qed.

(** C29: after any history of calls, a read of the in-memory backend at a time
    not before its clean-ups answers with the last data put under the key, if
    it was not deleted since and has not reached its deadline, and refuses the
    empty key and every read once closed; the listing is exact and without
    repetition.  The clean-up of expired entries leaves all these answers as
    they are. *)
Theorem memory_reads h now :
  cleaned_before now h →
  (∀ key, Get now key (run h) =
     if bool_decide (key = "") then Fail ErrInvalidKey
     else if is_closed h then Fail ErrStorageClosed
     else match readable h now key with Some d => Ok d | None => Fail ErrNotFound end) ∧
  (∀ key, Exists_ now key (run h) =
     if bool_decide (key = "") then Fail ErrInvalidKey
     else if is_closed h then Fail ErrStorageClosed
     else Ok (bool_decide (is_Some (readable h now key)))) ∧
  (∀ prefix, if is_closed h then List_ now prefix (run h) = Fail ErrStorageClosed
     else ∃ keys, List_ now prefix (run h) = Ok keys ∧ NoDup keys ∧
            ∀ k, k ∈ keys ↔ k ≠ "" ∧ HasPrefix k prefix = true ∧ is_Some (readable h now k)).
Proof.
  intros Hcl. pose proof (closed_run h) as Hc. split_and!.
  - intros k. unfold Get. case_bool_decide as Hk; [done |]. step. rewrite Hc.
    destruct (is_closed h) eqn:Ho; [done |]. step.
    rewrite <-(run_live h now k Hcl Ho Hk), live_lookup.
    destruct (entries (run h) !! k) as [e|]; [| done]. by destruct (expired now e).
  - intros k. unfold Exists_. case_bool_decide as Hk; [done |]. step. rewrite Hc.
    destruct (is_closed h) eqn:Ho; [done |]. step.
    rewrite <-(run_live h now k Hcl Ho Hk), live_lookup.
    destruct (entries (run h) !! k) as [e|]; [| done]. by destruct (expired now e).
  - intros p. destruct (is_closed h) eqn:Ho.
    { unfold List_. by rewrite Hc. }
    destruct (List_spec now p (run h)) as (keys & Hl & Hnd & Hin); [by rewrite Hc |].
    exists keys. split; [done |]. split; [done |]. intros k. rewrite Hin.
    destruct (decide (k = "")) as [->|Hk].
    + rewrite live_lookup, entries_nonempty. split; [by intros [_ []] | by intros [[] _]].
    + rewrite (run_live h now k Hcl Ho Hk). tauto.
Qed.

(** C30: a time to live is a number of seconds that is multiplied into a signed
    64-bit number of nanoseconds, [ns].  For every positive time to live the
    entry is readable exactly until [ns] after it was put.  Up to 9223372036
    seconds [ns] is the time asked for; from there up to 18446744073 seconds it
    has wrapped around to a time in the past, and the entry cannot be read at
    all; then it wraps to short times: 18446744074 seconds, 584 years, last 290
    milliseconds. *)
Theorem ttl_horizon now now' key d ttl m :
  key ≠ "" → closed m = false → (0 < ttl < 2 ^ 63)%Z → (now ≤ now')%Z →
  let m' := (Put now key d (Some {| Permissions := 384; Metadata := ∅; TTL := ttl |}) m).2 in
  let ns := ((ttl * 1000000000 + 2 ^ 63) mod 2 ^ 64 - 2 ^ 63)%Z in
  let readable_for (span : Z) := if (now' <=? now + span)%Z then Ok d else Fail ErrNotFound in
  Get now' key m' = readable_for ns ∧
  ((ttl ≤ 9223372036)%Z → Get now' key m' = readable_for (ttl * 1000000000)%Z) ∧
  ((9223372036 < ttl ≤ 18446744073)%Z → Get now' key m' = Fail ErrNotFound) ∧
  (ttl = 18446744074%Z → Get now' key m' = readable_for 290448384%Z).
Proof.
  intros Hk Hm Ht Hn m' ns readable_for.
  assert (Get now' key m' = readable_for ns) as ->.
  { unfold m', readable_for, Put, Get. rewrite !bool_decide_false, Hm by done. step.
    cbn [closed snd entries default id]. step. rewrite lookup_insert_eq. unfold expired, deadline.
    cbn [expiration data TTL]. rewrite (proj2 (Z.ltb_lt 0 ttl)) by lia. cbv iota.
    fold (wrap_int (ttl * 1000000000)) in ns. rewrite Z.ltb_antisym. by destruct (now' <=? _)%Z. }
  split; [done |]. split_and!; intros Hr; unfold readable_for, ns.
  - by rewrite Z.mod_small, Z.add_simpl_r by lia.
  - replace (ttl * 1000000000 + 2 ^ 63)%Z with (ttl * 1000000000 - 2 ^ 63 + 1 * 2 ^ 64)%Z by lia.
    rewrite Z.mod_add, Z.mod_small by lia. by rewrite (proj2 (Z.leb_gt now' _)) by lia.
  - by subst.
Qed.

(** Deleting tells whether an expired entry was cleaned up: it still succeeds on
    an entry that no read finds. *)
Lemma delete_expired_succeeds now key d :
  key ≠ "" → (0 < now)%Z →
  let m := (Put now key d (Some {| Permissions := 384; Metadata := ∅; TTL := 1 |})
              NewMemoryBackend).2 in
  let later := (now + 1000000001)%Z in
  Get later key m = Fail ErrNotFound ∧ (Delete key m).1 = Ok () ∧
  (Delete key (cleanExpired later m)).1 = Fail ErrNotFound.
Proof.
  intros Hk Hn m later.
  assert (∀ e, expiration e = Some (now + 1000000000)%Z → expired later e = true) as Hx.
  { intros e He. unfold expired. rewrite He.
    by rewrite (proj2 (Z.ltb_lt _ _)) by (unfold later; lia). }
  assert (∃ e, m = {| entries := {[key := e]}; closed := false |} ∧
               expired later e = true) as (e & -> & He).
  { unfold m, Put. rewrite bool_decide_false by done. cbn [closed snd default].
    eexists. split; [done |]. by apply Hx. }
  split_and!.
  - unfold Get. rewrite bool_decide_false by done. step. cbn [closed entries]. step.
    by rewrite lookup_singleton_eq, He.
  - unfold Delete. rewrite bool_decide_false by done. cbn [closed entries].
    by rewrite lookup_singleton_eq.
  - unfold Delete. rewrite bool_decide_false by done.
    change (closed (cleanExpired later _)) with false. cbv beta iota.
    rewrite cleanExpired_lookup by done. cbn [entries]. by rewrite lookup_singleton_eq, He.
Qed.
End History.
