(* ===== verification/FileBackend.v ===== *)
(** * The file backend: [pkg/storage/file.go]

    [os] and [path/filepath] on a tree of directories and files without
    symbolic links, and the backend on top of them.  Paths are absolute and
    written as their list of segments; a relative base path stands for the
    absolute one that the system resolves it to.  An operating-system call may
    fail at any time, a write after part of its data.  Every state the disk
    passes through is logged as a ghost component.

    The theorems: an accepted key never leaves the base directory; [Put]
    replaces the data of a key atomically, in every state the disk passes
    through and whichever call fails; and on a disk that works the backend keeps
    the contract of [Storage.v] for the keys of the key store. *)

From Stdlib Require Import Ascii.
From S2P Require Export Storage.

(** ** path/filepath *)

Definition path : Type := list string.

(** [strings.Split(s, "/")] *)
Fixpoint split_slash (s : string) : list string :=
  match s with
  | EmptyString => [EmptyString]
  | String c s' =>
      if decide (c = "/"%char) then EmptyString :: split_slash s'
      else match split_slash s' with
           | seg :: segs => String c seg :: segs
           | [] => [String c EmptyString]
           end
  end.

(** One step of [filepath.Clean] on a rooted path. *)
Definition clean_step (p : path) (seg : string) : path :=
  if bool_decide (seg = "") || bool_decide (seg = ".") then p
  else if bool_decide (seg = "..") then removelast p
  else p ++ [seg].

Definition Clean (s : string) : path := foldl clean_step [] (split_slash s).

Definition Join (basePath key : string) : path := Clean (basePath +:+ "/" +:+ key).

Definition Dir_ (p : path) : path := removelast p.

Definition render (p : path) : string :=
  match p with
  | [] => "/"
  | _ => foldr (λ seg s, "/" +:+ seg +:+ s) "" p
  end.

(** [fullPath + suffix] *)
Definition add_suffix (p : path) (suffix : string) : path :=
  match last p with
  | None => [suffix]
  | Some seg => removelast p ++ [seg +:+ suffix]
  end.

(** The path below the base, with forward slashes. *)
Definition Rel (segs : list string) : string :=
  match segs with
  | [] => "."
  | seg :: segs => foldl (λ s seg, s +:+ "/" +:+ seg) seg segs
  end.

(** [strings.HasSuffix] *)
Fixpoint HasSuffix (s suffix : string) : bool :=
  bool_decide (s = suffix) || match s with EmptyString => false | String _ s' => HasSuffix s' suffix end.

(** ** os *)

Module os.

Definition ENOENT : error := OpaqueError "no such file or directory".
Definition EACCES : error := OpaqueError "permission denied".
Definition ENOTDIR : error := OpaqueError "not a directory".
Definition EISDIR : error := OpaqueError "is a directory".
Definition ENOTEMPTY : error := OpaqueError "directory not empty".

Definition IsNotExist (err : error) : bool := bool_decide (err = ENOENT).
Definition IsPermission (err : error) : bool := bool_decide (err = EACCES).

Inductive node := Dir | File (d : bytes).

#[export] Instance node_eq_dec : EqDecision node.
Proof. solve_decision. Defined.

Abbreviation nodes := (gmap path node).

(** The disk, the calls that will fail, each after how many bytes and how, the
    number of calls so far, and the states the disk has been in. *)
Record Fs := {
  fs_nodes : nodes;
  fs_fault : nat → option (nat * error);
  fs_calls : nat;
  fs_trace : list nodes;
}.

Definition Os (A : Type) : Type := Fs → Res A * Fs.

#[export] Instance os_mret : MRet Os := λ A a fs, (Ok a, fs).
#[export] Instance os_mbind : MBind Os := λ A B k m fs,
  match m fs with
  | (Ok a, fs') => k a fs'
  | (Fail e, fs') => (Fail e, fs')
  | (Panic, fs') => (Panic, fs')
  end.

Definition fail {A} (e : error) : Os A := λ fs, (Fail e, fs).
Definition panic {A} : Os A := λ fs, (Panic, fs).

Definition ok_or {A} (f : error → error) (m : Os A) : Os A := λ fs,
  let '(r, fs') := m fs in (wrap f r, fs').

(** The result of a call as a value, for code that goes on after an error. *)
Definition attempt {A} (m : Os A) : Os (Res A) := λ fs, let '(r, fs') := m fs in (Ok r, fs').

Definition move (n : nodes) (fs : Fs) : Fs :=
  {| fs_nodes := n; fs_fault := fs_fault fs; fs_calls := S (fs_calls fs);
     fs_trace := fs_trace fs ++ [n] |}.

(** A call that fails as announced, or acts on the tree. *)
Definition call {A} (f : nodes → Res (A * nodes)) : Os A := λ fs,
  match fs_fault fs (fs_calls fs) with
  | Some (_, e) => (Fail e, move (fs_nodes fs) fs)
  | None => match f (fs_nodes fs) with
            | Ok (a, n) => (Ok a, move n fs)
            | Fail e => (Fail e, move (fs_nodes fs) fs)
            | Panic => (Panic, move (fs_nodes fs) fs)
            end
  end.

(** The root is always a directory. *)
Definition node_at (n : nodes) (p : path) : option node :=
  match p with [] => Some Dir | _ => n !! p end.

(** Resolution walks through directories. *)
Fixpoint resolve (n : nodes) (pre rest : path) : Res node :=
  match rest with
  | [] => match node_at n pre with Some x => Ok x | None => Fail ENOENT end
  | seg :: rest =>
      match node_at n pre with
      | Some Dir => resolve n (pre ++ [seg]) rest
      | Some (File _) => Fail ENOTDIR
      | None => Fail ENOENT
      end
  end.

Definition Stat (p : path) : Os node := call (λ n, x ← resolve n [] p; Ok (x, n)).

Definition ReadFile (p : path) : Os bytes := call (λ n,
  x ← resolve n [] p;
  match x with File d => Ok (d, n) | Dir => Fail EISDIR end).

(** The parent directory of an entry that is to be changed. *)
Definition parent_ok (n : nodes) (p : path) : Res unit :=
  x ← resolve n [] (Dir_ p);
  match x with Dir => Ok () | File _ => Fail ENOTDIR end.

Definition Mkdir (p : path) : Os unit := call (λ n,
  _ ← parent_ok n p;
  match node_at n p with None => Ok ((), <[p := Dir]> n) | Some _ => Ok ((), n) end).

(** From the top down, every directory that is missing is made. *)
Fixpoint mkdir_loop (pre rest : path) : Os unit :=
  match rest with
  | [] => mret ()
  | seg :: rest =>
      let p := pre ++ [seg] in
      r ← attempt (Stat p);
      match r with
      | Ok Dir => mkdir_loop p rest
      | Ok (File _) => fail ENOTDIR
      | _ => _ ← Mkdir p; mkdir_loop p rest
      end
  end.
Definition MkdirAll (p : path) : Os unit := mkdir_loop [] p.

(** [os.WriteFile] truncates the file, writes and closes it; when it fails, the
    part that was written stays. *)
Definition write_part (p : path) (d : bytes) (n : nodes) : Res nodes :=
  _ ← parent_ok n p;
  match node_at n p with
  | Some Dir => Fail EISDIR
  | _ => Ok (<[p := File d]> n)
  end.
Definition WriteFile (p : path) (d : bytes) : Os unit := λ fs,
  let n := fs_nodes fs in
  match write_part p [] n with
  | Ok n0 =>
      let part k := <[p := File (take k d)]> n0 in
      let written := match fs_fault fs (fs_calls fs) with
                     | Some (k, _) => k
                     | None => length d
                     end in
      ((match fs_fault fs (fs_calls fs) with Some (_, e) => Fail e | None => Ok () end),
       {| fs_nodes := part written; fs_fault := fs_fault fs; fs_calls := S (fs_calls fs);
          fs_trace := fs_trace fs ++ (part <$> seq 0 (S written)) |})
  | Fail e => (Fail e, move n fs)
  | Panic => (Panic, move n fs)
  end.

Definition Rename (old new : path) : Os unit := call (λ n,
  x ← resolve n [] old;
  _ ← parent_ok n new;
  match x, node_at n new with
  | File _, Some Dir => Fail EISDIR
  | _, _ => Ok ((), <[new := x]> (delete old n))
  end).

(** Some entry lies in the directory. *)
Definition has_children (n : nodes) (p : path) : bool :=
  bool_decide (map_Exists (λ q _, q ≠ [] ∧ Dir_ q = p) n).

Definition Remove (p : path) : Os unit := call (λ n,
  x ← resolve n [] p;
  match x with
  | File _ => Ok ((), delete p n)
  | Dir => if bool_decide (p = []) || has_children n p then Fail ENOTEMPTY
           else Ok ((), delete p n)
  end).
End os.

(** ** file.go *)

Module file_backend.
Section Defs.
Context `{MapOrder}.
Import storage os.

Record FileBackend := {
  basePath : string;
  closed : bool;
}.

Definition NewFileBackend (basePath : string) : Os FileBackend :=
  if bool_decide (basePath = "")
  then fail (FreshError "storage: base path cannot be empty")
  else
    _ ← ok_or (Errorf "storage: failed to create base directory") (MkdirAll (Clean basePath));
    mret {| basePath := basePath; closed := false |}.

(** The checks every call on a key starts with. *)
Definition check_key (f : FileBackend) (key : string) : Res unit :=
  _ ← fail_if (bool_decide (key = "")) ErrInvalidKey;
  _ ← fail_if (Contains key "..") ErrInvalidKey;
  fail_if (closed f) ErrStorageClosed.

Definition checked {A} (f : FileBackend) (key : string) (m : Os A) : Os A := λ fs,
  match check_key f key with
  | Ok _ => m fs
  | Fail e => (Fail e, fs)
  | Panic => (Panic, fs)
  end.

(** Permissions, metadata and the time to live leave no trace in the tree. *)
Definition Put (key : string) (data : bytes) (opts : option Options) (f : FileBackend) : Os unit :=
  checked f key (
    let fullPath := Join (basePath f) key in
    let dir := Dir_ fullPath in
    _ ← ok_or (Errorf "storage: failed to create directory") (MkdirAll dir);
    let tmpPath := add_suffix fullPath ".tmp" in
    _ ← ok_or (Errorf "storage: failed to write file") (WriteFile tmpPath data);
    r ← attempt (Rename tmpPath fullPath);
    match r with
    | Ok _ => mret ()
    | Fail err =>
        _ ← attempt (Remove tmpPath);
        fail (Errorf "storage: failed to rename file" err)
    | Panic => panic
    end).

Definition map_error (what : string) (err : error) : error :=
  if IsNotExist err then ErrNotFound
  else if IsPermission err then ErrPermissionDenied
  else Errorf what err.

Definition Get (key : string) (f : FileBackend) : Os bytes :=
  checked f key (ok_or (map_error "storage: failed to read file")
                   (ReadFile (Join (basePath f) key))).

(** The parents of a removed file, innermost first; the path is given from its
    end. *)
Fixpoint cleanEmptyDirs (base : string) (rdir : path) : Os unit :=
  let dir := reverse rdir in
  if bool_decide (render dir = base) then mret ()
  else if negb (HasPrefix (render dir) base) then mret ()
  else
    err ← attempt (Remove dir);
    match err with
    | Ok _ => match rdir with [] => mret () | _ :: rdir => cleanEmptyDirs base rdir end
    | _ => mret ()
    end.

Definition Delete (key : string) (f : FileBackend) : Os unit :=
  checked f key (
    let fullPath := Join (basePath f) key in
    _ ← ok_or (map_error "storage: failed to delete file") (Remove fullPath);
    cleanEmptyDirs (basePath f) (reverse (Dir_ fullPath))).

Definition Exists_ (key : string) (f : FileBackend) : Os bool :=
  checked f key (
    let fullPath := Join (basePath f) key in
    r ← attempt (Stat fullPath);
    match r with
    | Ok _ => mret true
    | Fail err => if IsNotExist err then mret false
                  else fail (Errorf "storage: failed to stat file" err)
    | Panic => panic
    end).

(** [filepath.Walk]'s visit of an entry: files below the base, without the
    temporary ones, that have the prefix. *)
Definition visit (base : path) (prefix : string) (keys : list string) (e : path * node)
  : list string :=
  match e with
  | (_, Dir) => keys
  | (p, File _) =>
      if bool_decide (take (length base) p = base) then
        let relPath := Rel (drop (length base) p) in
        if HasSuffix relPath ".tmp" then keys
        else if bool_decide (prefix = "") || HasPrefix relPath prefix then keys ++ [relPath]
        else keys
      else keys
  end.

(** The order of the visits is left open.  A failing call stands for an error at
    the base directory; subdirectories can always be read here. *)
Definition Walk (base : path) (prefix : string) : Os (list string) := call (λ n,
  _ ← resolve n [] base;
  Ok (foldl (visit base prefix) [] (range_entries 0 n), n)).

Definition List_ (prefix : string) (f : FileBackend) : Os (list string) :=
  if closed f then fail ErrStorageClosed
  else
    r ← attempt (Walk (Clean (basePath f)) prefix);
    match r with
    | Ok keys => mret keys
    | Fail err => if IsNotExist err then mret []
                  else fail (Errorf "storage: failed to list keys" err)
    | Panic => panic
    end.

Definition Close (f : FileBackend) : FileBackend := {| basePath := basePath f; closed := true |}.

(** The backend and the disk it works on. *)
#[export] Instance backend : Backend := {|
  b_state := FileBackend * Fs;
  b_Put now key data opts s :=
    let '(r, fs) := Put key data opts s.1 s.2 in (r, (s.1, fs));
  b_Get now key s := (Get key s.1 s.2).1;
  b_Delete key s := let '(r, fs) := Delete key s.1 s.2 in (r, (s.1, fs));
  b_Exists now key s := (Exists_ key s.1 s.2).1;
  b_List now prefix s := (List_ prefix s.1 s.2).1;
  b_Close s := (Ok (), (Close s.1, s.2));
|}.
End Defs.
End file_backend.

(** ** Paths *)

Definition key_segs (key : string) : list string :=
  filter (λ seg, seg ≠ "" ∧ seg ≠ ".") (split_slash key).

Lemma split_slash_cons s : ∃ seg segs, split_slash s = seg :: segs.
Proof.
  destruct s as [|c s]; [by eexists _, _ |]. cbn. destruct (decide _); [by eexists _, _ |].
  destruct (split_slash s); by eexists _, _.
Qed.

Lemma split_slash_app s t : split_slash (s +:+ "/" +:+ t) = split_slash s ++ split_slash t.
Proof.
  induction s as [|c s IH]; [done |].
  change (String c s +:+ "/" +:+ t) with (String c (s +:+ "/" +:+ t)). cbn [split_slash].
  rewrite IH. destruct (decide _); [done |].
  by destruct (split_slash_cons s) as (seg & segs & ->).
Qed.

Lemma prefix_dot c s t : String.prefix "." (String c s) = String.prefix "." (String c t).
Proof.
  change (String.prefix "." (String c s)) with (if ascii_dec "."%char c then String.prefix "" s else false).
  change (String.prefix "." (String c t)) with (if ascii_dec "."%char c then String.prefix "" t else false).
  destruct (ascii_dec _ c); [| done]. by destruct s, t.
Qed.

Lemma split_first s seg segs :
  split_slash s = seg :: segs → String.prefix "." seg = true → String.prefix "." s = true.
Proof.
  destruct s as [|c s]; cbn [split_slash]; [by intros [= <- _] |].
  destruct (decide (c = "/"%char)) as [->|Hc]; [by intros [= <- _] |].
  destruct (split_slash s) as [|seg' segs']; intros [= <- _];
    intros H; erewrite prefix_dot; exact H.
Qed.

(** A segment of a string without [..] has none. *)
Lemma split_no_dots s :
  storage.Contains s ".." = false → Forall (λ seg, storage.Contains seg ".." = false) (split_slash s).
Proof.
  induction s as [|c s IH]; [by constructor |]. cbn [split_slash storage.Contains].
  intros [Hp Hs]%orb_false_iff. specialize (IH Hs).
  destruct (decide _); [by constructor |].
  destruct (split_slash s) as [|seg segs] eqn:He; [by destruct (split_slash_cons s) as (? & ? & ?); congruence |].
  apply Forall_cons in IH as [Hseg Hsegs]. constructor; [| done].
  cbn [storage.Contains]. rewrite Hseg, orb_false_r. unfold storage.HasPrefix in *.
  change (String.prefix ".." (String c seg))
    with (if ascii_dec "."%char c then String.prefix "." seg else false).
  change (String.prefix ".." (String c s))
    with (if ascii_dec "."%char c then String.prefix "." s else false) in Hp.
  destruct (ascii_dec _ c); [| done]. destruct (String.prefix "." seg) eqn:Hd; [| done].
  by rewrite (split_first _ _ _ He Hd) in Hp.
Qed.

Lemma clean_segs p segs :
  Forall (λ seg, storage.Contains seg ".." = false) segs →
  foldl clean_step p segs = p ++ filter (λ seg, seg ≠ "" ∧ seg ≠ ".") segs.
Proof.
  intros H. revert p. induction H as [|seg segs Hseg _ IH]; intros p; [by rewrite app_nil_r |].
  cbn [foldl]. rewrite IH. unfold clean_step. destruct (decide (seg ≠ "" ∧ seg ≠ ".")) as [[H1 H2]|Hn].
  - rewrite filter_cons_True by done. rewrite !bool_decide_false by (try done; by intros ->).
    cbn [orb]. by rewrite <-app_assoc.
  - rewrite filter_cons_False by done.
    destruct (decide (seg = "")) as [->|H1]; [done |].
    destruct (decide (seg = ".")) as [->|H2]; [done |]. by destruct Hn.
Qed.

(** A key without [..] is a path below the base. *)
Lemma Join_below base key :
  storage.Contains key ".." = false → Join base key = Clean base ++ key_segs key.
Proof.
  intros Hk. unfold Join, Clean. rewrite split_slash_app, foldl_app.
  by apply clean_segs, split_no_dots.
Qed.

Lemma key_segs_ok key :
  storage.Contains key ".." = false →
  Forall (λ seg, seg ≠ "" ∧ seg ≠ "." ∧ seg ≠ "..") (key_segs key).
Proof.
  intros Hk. apply Forall_forall. intros seg [[H1 H2] Hin]%list_elem_of_filter.
  pose proof (split_no_dots _ Hk) as H. rewrite Forall_forall in H. specialize (H _ Hin).
  split_and!; try done. by intros ->.
Qed.

(** ** How a program changes the tree *)

Section Steps.
Import os.
Context (R : nodes → nodes → Prop) `{!PreOrder R}.
Implicit Types (n : nodes) (fs : Fs) (p q : path).

(** Every state the disk passes through, and the last one, is related to the
    first one. *)
Definition steps {A} (m : Os A) : Prop := ∀ fs,
  let fs' := (m fs).2 in
  (∃ new, fs_trace fs' = fs_trace fs ++ new ∧ Forall (λ n, R n (fs_nodes fs)) new) ∧
  R (fs_nodes fs') (fs_nodes fs).

Lemma steps_idle {A} (r : Res A) : steps (λ fs, (r, fs)).
Proof. intros fs. split; [exists []; by rewrite app_nil_r | done]. Qed.

Lemma steps_bind {A B} (m : Os A) (k : A → Os B) :
  steps m → (∀ a, steps (k a)) → steps (m ≫= k).
Proof.
  intros Hm Hk fs. specialize (Hm fs). cbn in Hm. unfold mbind, os_mbind.
  destruct (m fs) as [[a|e|] fs1]; [| exact Hm | exact Hm].
  cbn in Hm. destruct Hm as ((new1 & Ht1 & Hn1) & Ha1). specialize (Hk a fs1). cbn in Hk. cbn.
  destruct Hk as ((new2 & Ht2 & Hn2) & Ha2). split; [| exact (transitivity Ha2 Ha1)].
  exists (new1 ++ new2). rewrite Ht2, Ht1, app_assoc. split; [done |].
  apply Forall_app. split; [done |]. eapply Forall_impl; [exact Hn2 |].
  intros n Hn. exact (transitivity Hn Ha1).
Qed.

Lemma steps_attempt {A} (m : Os A) : steps m → steps (attempt m).
Proof. intros Hm fs. specialize (Hm fs). unfold attempt. destruct (m fs). exact Hm. Qed.

Lemma steps_ok_or {A} f (m : Os A) : steps m → steps (ok_or f m).
Proof. intros Hm fs. specialize (Hm fs). unfold ok_or. destruct (m fs). exact Hm. Qed.

Lemma steps_move n fs : R n (fs_nodes fs) →
  (∃ new, fs_trace (move n fs) = fs_trace fs ++ new ∧ Forall (λ n, R n (fs_nodes fs)) new) ∧
  R (fs_nodes (move n fs)) (fs_nodes fs).
Proof. intros H. split; [| done]. exists [n]. split; [done |]. by constructor. Qed.

Lemma steps_call {A} (f : nodes → Res (A * nodes)) :
  (∀ n a n', f n = Ok (a, n') → R n' n) → steps (call f).
Proof.
  intros Hf fs. unfold call. destruct (fs_fault fs _) as [[k e]|]; [by apply steps_move |].
  destruct (f (fs_nodes fs)) as [[a n]|e|] eqn:He; apply steps_move; [| done | done].
  by eapply Hf.
Qed.

Lemma steps_Stat p : steps (Stat p).
Proof. apply steps_call. intros n a n' H. by destruct (resolve n [] p); simplify_eq/=. Qed.

Lemma steps_ReadFile p : steps (ReadFile p).
Proof. apply steps_call. intros n a n' H. by destruct (resolve n [] p) as [[]| |]; simplify_eq/=. Qed.

Lemma steps_Mkdir p : (∀ n, node_at n p = None → R (<[p := Dir]> n) n) → steps (Mkdir p).
Proof.
  intros Hp. apply steps_call. intros n a n' H. destruct (parent_ok n p); [| done | done].
  cbn in H. specialize (Hp n). destruct (node_at n p); simplify_eq; [done |]. by apply Hp.
Qed.

Lemma steps_WriteFile p d : (∀ n x, R (<[p := x]> n) n) → steps (WriteFile p d).
Proof.
  intros Hp fs. unfold WriteFile.
  destruct (write_part p [] (fs_nodes fs)) as [n0|e|] eqn:Hw; [| by apply steps_move..].
  assert (R n0 (fs_nodes fs)) as Hn0.
  { unfold write_part in Hw. apply bind_Ok in Hw as (u & _ & Hw).
    destruct (node_at _ p) as [[|d']|]; simplify_eq; apply Hp. }
  assert (∀ k, R (<[p := File (take k d)]> n0) (fs_nodes fs)) as Hk.
  { intros k. exact (transitivity (Hp _ _) Hn0). }
  split; [| apply Hk]. eexists. split; [done |].
  apply Forall_fmap, Forall_forall. intros k _. apply Hk.
Qed.

Lemma steps_Rename p q : (∀ n x, R (<[q := x]> (delete p n)) n) → steps (Rename p q).
Proof.
  intros Hp. apply steps_call. intros n a n' H.
  destruct (resolve n [] p) as [x| |]; [| done | done]. cbn in H.
  destruct (parent_ok n q); [| done | done]. cbn in H. specialize (Hp n x).
  by destruct x, (node_at n q) as [[]|]; simplify_eq.
Qed.

Lemma steps_Remove p : (p ≠ [] → ∀ n, R (delete p n) n) → steps (Remove p).
Proof.
  intros Hp. apply steps_call. intros n a n' H. destruct (decide (p = [])) as [->|Hne]; [done |].
  specialize (Hp Hne n).
  destruct (resolve n [] p) as [[|d]| |]; cbn in H; [| | done | done].
  - by destruct (bool_decide (p = []) || has_children n p); simplify_eq.
  - by simplify_eq.
Qed.

Lemma steps_mkdir_loop pre rest :
  (∀ q n, q `prefix_of` pre ++ rest → length pre < length q → node_at n q = None →
          R (<[q := Dir]> n) n) →
  steps (mkdir_loop pre rest).
Proof.
  revert pre. induction rest as [|seg rest IH]; intros pre HP; [apply (steps_idle (Ok ())) |].
  cbn [mkdir_loop].
  assert (steps (mkdir_loop (pre ++ [seg]) rest)) as Hrest.
  { apply IH. intros q n Hq Hl. apply HP; [by rewrite <-app_assoc in Hq |].
    rewrite length_app in Hl. cbn in Hl. lia. }
  assert (steps (Mkdir (pre ++ [seg]))) as Hmk.
  { apply steps_Mkdir. intros n. apply HP; [exists rest; by rewrite <-app_assoc |].
    rewrite length_app. cbn. lia. }
  apply steps_bind; [apply steps_attempt, steps_Stat |].
  intros [[|d]|e|]; [done | apply steps_idle | |]; by apply steps_bind.
Qed.

Lemma steps_MkdirAll p :
  (∀ q n, q `prefix_of` p → q ≠ [] → node_at n q = None → R (<[q := Dir]> n) n) →
  steps (MkdirAll p).
Proof.
  intros HP. apply steps_mkdir_loop. intros q n Hq Hl. apply HP; [done |].
  intros ->. cbn in Hl. lia.
Qed.
End Steps.

(** ** What the backend may change *)

Section Confinement.
Context `{MapOrder}.
Import os file_backend.
Implicit Types (n : nodes) (fs : Fs) (p q base : path) (f : FileBackend).

(** Nothing changes outside [P]. *)
Definition agree (P : path → Prop) n' n : Prop := ∀ q, ¬ P q → n' !! q = n !! q.

#[export] Instance agree_preorder P : PreOrder (agree P).
Proof.
  split; [by intros n q Hq |]. intros n1 n2 n3 H1 H2 q Hq. by rewrite (H1 q Hq), (H2 q Hq).
Qed.

(** What is outside [P] stays, and directories may be added. *)
Definition keeps (P : path → Prop) n' n : Prop :=
  ∀ q, ¬ P q → n' !! q = n !! q ∨ (n !! q = None ∧ n' !! q = Some Dir).

#[export] Instance keeps_preorder P : PreOrder (keeps P).
Proof.
  split; [by intros n q Hq; left |]. intros n1 n2 n3 H1 H2 q Hq.
  destruct (H1 q Hq) as [?|[? ?]], (H2 q Hq) as [?|[? ?]];
    first [left; congruence | right; split; congruence | congruence].
Qed.

Definition below base q : Prop := ∃ segs, segs ≠ [] ∧ q = base ++ segs.

(** Outside of the base, only the base itself and the directories above it may
    be made. *)
Definition confined base n' n : Prop :=
  ∀ q, ¬ below base q →
    n' !! q = n !! q ∨ (n !! q = None ∧ n' !! q = Some Dir ∧ q `prefix_of` base).

#[export] Instance confined_preorder base : PreOrder (confined base).
Proof.
  split; [by intros n q Hq; left |]. intros n1 n2 n3 H1 H2 q Hq.
  destruct (H1 q Hq) as [?|(? & ? & ?)], (H2 q Hq) as [?|(? & ? & ?)];
    first [left; congruence | right; split_and!; congruence].
Qed.

Lemma node_at_None n q : node_at n q = None → n !! q = None.
Proof. by destruct q. Qed.

Lemma agree_insert P n p x : P p → agree P (<[p := x]> n) n.
Proof. intros Hp q Hq. apply lookup_insert_ne. by intros ->. Qed.

Lemma agree_delete P n p : P p → agree P (delete p n) n.
Proof. intros Hp q Hq. apply lookup_delete_ne. by intros ->. Qed.

Lemma agree_keeps P n n' : agree P n' n → keeps P n' n.
Proof. intros Ha q Hq. left. by apply Ha. Qed.

Lemma agree_confined base n n' : agree (below base) n' n → confined base n' n.
Proof. intros Ha q Hq. left. by apply Ha. Qed.

Lemma keeps_mkdir P n q : node_at n q = None → keeps P (<[q := Dir]> n) n.
Proof.
  intros Hn%node_at_None q' _. destruct (decide (q = q')) as [<-|Hne].
  - right. by rewrite lookup_insert_eq.
  - left. by apply lookup_insert_ne.
Qed.

Lemma steps_checked R `{!PreOrder R} {A} f key (m : Os A) :
  steps R m → steps R (checked f key m).
Proof. intros Hm fs. unfold checked. destruct (check_key f key); [apply Hm | by apply steps_idle..]. Qed.

(** The four kinds of change that [Put] makes. *)
Lemma Put_steps R `{!PreOrder R} key data opts f :
  let full := Join (basePath f) key in
  let tmp := add_suffix full ".tmp" in
  (∀ q n, q `prefix_of` Dir_ full → q ≠ [] → node_at n q = None → R (<[q := Dir]> n) n) →
  (∀ n x, R (<[tmp := x]> n) n) →
  (∀ n x, R (<[full := x]> (delete tmp n)) n) →
  (∀ n, R (delete tmp n) n) →
  steps R (Put key data opts f).
Proof.
  intros full tmp Hd Hw Hr Hx. apply (steps_checked R).
  apply (steps_bind R); [by apply (steps_ok_or R), (steps_MkdirAll R) | intros _].
  apply (steps_bind R); [by apply (steps_ok_or R), (steps_WriteFile R) | intros _].
  apply (steps_bind R); [by apply (steps_attempt R), (steps_Rename R) |].
  intros [u|e|]; [by apply (steps_idle R) | | by apply (steps_idle R)].
  apply (steps_bind R); [by apply (steps_attempt R), (steps_Remove R) | intros _].
  by apply (steps_idle R).
Qed.

Lemma reads_steps key prefix f :
  steps eq (Get key f) ∧ steps eq (Exists_ key f) ∧ steps eq (List_ prefix f).
Proof.
  split_and!.
  - apply (steps_checked eq), (steps_ok_or eq), (steps_ReadFile eq).
  - apply (steps_checked eq), (steps_bind eq); [apply (steps_attempt eq), (steps_Stat eq) |].
    intros [u|e|]; [apply (steps_idle eq) | | apply (steps_idle eq)].
    destruct (IsNotExist e); apply (steps_idle eq).
  - unfold List_. destruct (closed f); [apply (steps_idle eq) |].
    apply (steps_bind eq).
    + apply (steps_attempt eq), (steps_call eq). intros n a n' He.
      by destruct (resolve n [] _); simplify_eq/=.
    + intros [u|e|]; [apply (steps_idle eq) | | apply (steps_idle eq)].
      destruct (IsNotExist e); apply (steps_idle eq).
Qed.
End Confinement.

Lemma prefix_app_cases {A} (q l1 l2 : list A) :
  q `prefix_of` l1 ++ l2 → q `prefix_of` l1 ∨ ∃ k, k ≠ [] ∧ q = l1 ++ k.
Proof.
  intros Hq. destruct (prefix_weak_total q l1 (l1 ++ l2) Hq) as [|[k ->]].
  - by exists l2.
  - by left.
  - destruct k as [|x k]; [left; by rewrite app_nil_r | right; by exists (x :: k)].
Qed.

Lemma add_suffix_app base segs s :
  segs ≠ [] → add_suffix (base ++ segs) s = base ++ add_suffix segs s.
Proof.
  intros Hs. destruct (exists_last Hs) as (l & seg & ->). unfold add_suffix.
  rewrite app_assoc, !last_snoc, !removelast_last. by rewrite app_assoc.
Qed.

Lemma add_suffix_nonempty segs s : add_suffix segs s ≠ [].
Proof. unfold add_suffix. destruct (last segs); [| done]. by destruct (removelast segs). Qed.

Lemma add_suffix_ne p c s : add_suffix p (String c s) ≠ p.
Proof.
  destruct (decide (p = [])) as [->|Hp]; [done |].
  destruct (exists_last Hp) as (l & seg & ->). unfold add_suffix.
  rewrite last_snoc, removelast_last. intros [_ [= Hs]]%app_inj_2; [| done].
  apply (f_equal String.length) in Hs. rewrite length_append in Hs. cbn in Hs. lia.
Qed.

Lemma Dir_prefix p : Dir_ p `prefix_of` p.
Proof.
  destruct (decide (p = [])) as [->|Hp]; [done |]. destruct (exists_last Hp) as (l & seg & ->).
  unfold Dir_. rewrite removelast_last. by exists [seg].
Qed.

(** The rendering of a clean path is no longer than what it was written as. *)
Definition path_length (p : path) : nat := sum_list_with (λ seg, S (String.length seg)) p.

Lemma clean_length p segs : path_length (foldl clean_step p segs) ≤ path_length p + path_length segs.
Proof.
  revert p. induction segs as [|seg segs IH]; intros p; cbn [foldl]; [cbn; lia |].
  etrans; [apply IH |]. unfold path_length. cbn [sum_list_with].
  enough (path_length (clean_step p seg) ≤ path_length p + S (String.length seg)) as H
    by (unfold path_length in H; lia).
  unfold clean_step, path_length. destruct (_ || _); [lia |]. destruct (bool_decide _).
  - destruct (decide (p = [])) as [->|Hp]; [cbn; lia |]. destruct (exists_last Hp) as (l & x & ->).
    rewrite removelast_last, sum_list_with_app. lia.
  - rewrite sum_list_with_app. cbn. lia.
Qed.

Lemma split_slash_length s : path_length (split_slash s) = S (String.length s).
Proof.
  induction s as [|c s IH]; [done |]. cbn [split_slash]. destruct (decide _).
  - unfold path_length in *. cbn. lia.
  - destruct (split_slash_cons s) as (seg & segs & He). rewrite He in *.
    unfold path_length in *. cbn in *. lia.
Qed.

Lemma render_length p : String.length (render p) = if decide (p = []) then 1 else path_length p.
Proof.
  assert (∀ l, String.length (foldr (λ seg s, "/" +:+ seg +:+ s) "" l) = path_length l) as Hf.
  { induction l as [|seg l IH]; [done |]. cbn [foldr].
    change (String.length ("/" +:+ ?x)) with (S (String.length x)).
    cbn [String.append String.length]. rewrite length_append, IH. unfold path_length. cbn. lia. }
  destruct p as [|seg p]; [done |]. rewrite decide_False by done. apply Hf.
Qed.

Lemma Clean_length s :
  storage.HasPrefix s "/" = true → String.length (render (Clean s)) ≤ String.length s.
Proof.
  intros Hs. destruct s as [|c s]; [done |]. rewrite render_length.
  destruct (decide _); [cbn; lia |]. unfold Clean.
  assert (c = "/"%char) as ->.
  { unfold storage.HasPrefix in Hs.
    change (String.prefix "/" (String c s))
      with (if ascii_dec "/"%char c then String.prefix "" s else false) in Hs.
    by destruct (ascii_dec "/"%char c). }
  cbn [split_slash]. rewrite decide_True by done. cbn [foldl].
  etrans; [apply clean_length |]. rewrite split_slash_length. change (clean_step [] "") with ([] : path). cbn. lia.
Qed.

Lemma HasPrefix_app s p : storage.HasPrefix s p = true → ∃ t, s = p +:+ t.
Proof.
  unfold storage.HasPrefix. revert s. induction p as [|c p IH]; intros s H; [by exists s |].
  destruct s as [|d s]; [done |]. cbn in H. destruct (ascii_dec c d) as [<-|]; [| done].
  destruct (IH _ H) as [t ->]. by exists t.
Qed.

(** A directory that [cleanEmptyDirs] removes is below the base. *)
Lemma clean_guard base segs dir :
  storage.HasPrefix base "/" = true → dir `prefix_of` Clean base ++ segs →
  render dir ≠ base → storage.HasPrefix (render dir) base = true → below (Clean base) dir.
Proof.
  intros Habs Hdir Hne [t Ht]%HasPrefix_app.
  destruct (prefix_app_cases _ _ _ Hdir) as [[k Hk]|Hb]; [| exact Hb]. exfalso.
  pose proof (Clean_length _ Habs) as Hl.
  assert (String.length (render dir) ≤ String.length (render (Clean base))) as Hd.
  { rewrite Hk, !render_length. destruct (decide (dir = [])) as [->|Hn].
    - cbn [app]. rewrite decide_True by done. destruct k as [|x k]; [done |].
      rewrite decide_False by done. unfold path_length. cbn. lia.
    - rewrite (decide_False (P := dir = [])), (decide_False (P := dir ++ k = [])); [| by destruct dir | done]. unfold path_length. rewrite sum_list_with_app. apply Nat.le_add_r. }
  assert (t = "") as ->.
  { apply (f_equal String.length) in Ht. rewrite length_append in Ht. destruct t; [done |].
    cbn in Ht. lia. }
  apply Hne. rewrite Ht. clear. induction base as [|c b IH]; [done |].
  change (String c b +:+ "") with (String c (b +:+ "")). by rewrite IH.
Qed.

Section Theorems.
Context `{MapOrder}.
Import os file_backend.
Implicit Types (n : nodes) (fs : Fs) (p q base : path) (f : FileBackend).

(** *** Confinement *)

Lemma cleanEmptyDirs_steps bp rdir segs :
  storage.HasPrefix bp "/" = true → reverse rdir `prefix_of` Clean bp ++ segs →
  steps (agree (below (Clean bp))) (cleanEmptyDirs bp rdir).
Proof.
  intros Habs. induction rdir as [|seg rdir IH]; intros Hdir; cbn [cleanEmptyDirs];
    (case_bool_decide as Hne; [apply (steps_idle _ (Ok ())) |]);
    (destruct (storage.HasPrefix (render _) bp) eqn:Hp; cbn [negb];
       [| apply (steps_idle _ (Ok ()))]);
    pose proof (clean_guard _ _ _ Habs Hdir Hne Hp) as Hb.
  - destruct Hb as (k & Hk & Hr). by destruct (Clean bp), k.
  - apply (steps_bind _).
    + apply steps_attempt, steps_Remove; [apply _ |]. intros _ n. by apply agree_delete.
    + intros [u|e|]; [| apply (steps_idle _ (Ok ()))..]. apply IH.
      etrans; [| exact Hdir]. rewrite reverse_cons. by exists [seg].
Qed.

Lemma refused_key {A} f key fs (m : Os A) :
  key = "" ∨ storage.Contains key ".." = true → checked f key m fs = (Fail storage.ErrInvalidKey, fs).
Proof.
  unfold checked, check_key. case_bool_decide; [done |]. intros [->|Hk]; [done |]. by rewrite Hk.
Qed.

(** C26: a key cannot leave the base directory.  Every call refuses the empty key
    and a key with [..] and leaves the disk alone.  For an accepted key that
    names something, whatever calls fail on the way and in every state the disk
    passes through, [Put] changes entries below the base only, apart from
    making the base itself and the directories above it where they are missing;
    [Delete] with its clean-up of empty directories changes entries strictly
    below an absolute base only; and the reads change nothing. *)
Theorem keys_stay_below_base f key data opts :
  (key = "" ∨ storage.Contains key ".." = true →
   ∀ fs, Put key data opts f fs = (Fail storage.ErrInvalidKey, fs) ∧
         Get key f fs = (Fail storage.ErrInvalidKey, fs) ∧
         Delete key f fs = (Fail storage.ErrInvalidKey, fs) ∧
         Exists_ key f fs = (Fail storage.ErrInvalidKey, fs)) ∧
  (key_segs key ≠ [] → steps (confined (Clean (basePath f))) (Put key data opts f)) ∧
  (storage.HasPrefix (basePath f) "/" = true →
   key_segs key ≠ [] → steps (agree (below (Clean (basePath f)))) (Delete key f)) ∧
  steps eq (Get key f) ∧ steps eq (Exists_ key f) ∧
  (∀ prefix, steps eq (List_ prefix f)).
Proof.
  split_and!; [| | | apply (reads_steps key "" f) | apply (reads_steps key "" f) |
               intros prefix; apply (reads_steps key prefix f)].
  - intros Hk fs. split_and!; by apply refused_key.
  - intros Hs. destruct (storage.Contains key "..") eqn:Hk.
    { intros fs. unfold Put. rewrite refused_key by auto. apply (steps_idle _). }
    assert (below (Clean (basePath f)) (Join (basePath f) key)) as Hb
      by (rewrite Join_below by done; by eexists).
    assert (below (Clean (basePath f)) (add_suffix (Join (basePath f) key) ".tmp")) as Ht.
    { rewrite Join_below, add_suffix_app by done. eexists. split; [| done].
      apply add_suffix_nonempty. }
    apply (Put_steps (confined (Clean (basePath f)))); [| intros n x | intros n x | intros n].
    + intros q n Hq _ Hn%node_at_None q' Hb'.
      destruct (decide (q = q')) as [->|Hne]; [| left; by apply lookup_insert_ne].
      right. rewrite lookup_insert_eq. split_and!; [done | done |].
      rewrite Join_below in Hq by done. unfold Dir_ in Hq. rewrite removelast_app in Hq by done.
      by destruct (prefix_app_cases _ _ _ Hq) as [|Hbq].
    + by apply agree_confined, agree_insert.
    + etrans; [by apply agree_confined, agree_insert | by apply agree_confined, agree_delete].
    + by apply agree_confined, agree_delete.
  - intros Habs Hs. destruct (storage.Contains key "..") eqn:Hk.
    { intros fs. unfold Delete. rewrite refused_key by auto. apply (steps_idle _). }
    apply (steps_checked _), (steps_bind _).
    + apply (steps_ok_or _), (steps_Remove _). intros _ n. apply agree_delete.
      rewrite Join_below by done. by eexists.
    + intros _. apply (cleanEmptyDirs_steps _ _ (key_segs key)); [done |].
      rewrite reverse_involutive, <-Join_below by done. apply Dir_prefix.
Qed.

(** *** Atomic replacement *)

Definition same p n' n : Prop := n' !! p = n !! p.

#[export] Instance same_preorder p : PreOrder (same p).
Proof. split; [done |]. intros n1 n2 n3 H1 H2. unfold same in *. congruence. Qed.

Lemma resolve_node n pre rest x : resolve n pre rest = Ok x → node_at n (pre ++ rest) = Some x.
Proof.
  revert pre. induction rest as [|seg rest IH]; intros pre; cbn [resolve].
  - rewrite app_nil_r. destruct (node_at n pre); by intros [= ->].
  - destruct (node_at n pre) as [[]|]; [| done..]. intros Hr%IH. by rewrite <-app_assoc in Hr.
Qed.

(** Only the entries on the way matter. *)
Lemma resolve_ext n n' pre rest :
  (∀ q, q `prefix_of` pre ++ rest → node_at n' q = node_at n q) →
  resolve n' pre rest = resolve n pre rest.
Proof.
  revert pre. induction rest as [|seg rest IH]; intros pre Hq; cbn [resolve].
  - rewrite Hq; [done |]. by rewrite app_nil_r.
  - rewrite (Hq pre) by (by exists (seg :: rest)). destruct (node_at n pre) as [[]|]; [| done..].
    apply IH. intros q. rewrite <-app_assoc. apply Hq.
Qed.

Lemma resolve_snoc n pre rest seg :
  resolve n pre (rest ++ [seg]) =
    match resolve n pre rest with
    | Ok Dir => resolve n (pre ++ rest ++ [seg]) []
    | Ok (File _) => Fail ENOTDIR
    | Fail e => Fail e
    | Panic => Panic
    end.
Proof.
  revert pre. induction rest as [|s rest IH]; intros pre; cbn [resolve app].
  - by destruct (node_at n pre) as [[]|].
  - destruct (node_at n pre) as [[]|]; [| done..]. rewrite IH. cbn [resolve].
    by rewrite <-app_assoc.
Qed.

Lemma WriteFile_ok p d fs fs' : WriteFile p d fs = (Ok (), fs') → fs_nodes fs' !! p = Some (File d).
Proof.
  unfold WriteFile. destruct (write_part _ _ _) as [n0|e|]; [| done..].
  destruct (fs_fault fs (fs_calls fs)) as [[k e]|]; [done |]. intros [= <-]. cbn.
  by rewrite lookup_insert_eq, take_ge by lia.
Qed.

(** A renamed file is at its new place, or nothing has changed. *)
Lemma Rename_file p q d fs :
  p ≠ [] → fs_nodes fs !! p = Some (File d) →
  let '(r, fs') := Rename p q fs in
  fs_trace fs' = fs_trace fs ++ [fs_nodes fs'] ∧
  match r with
  | Ok _ => q ≠ [] ∧ parent_ok (fs_nodes fs) q = Ok () ∧
            fs_nodes fs' = <[q := File d]> (delete p (fs_nodes fs))
  | _ => fs_nodes fs' = fs_nodes fs
  end.
Proof.
  intros Hp Hd. unfold Rename, call. destruct (fs_fault fs _) as [[k e]|]; [done |].
  destruct (resolve _ [] p) as [x|e|] eqn:Hr; cbn; [| done..].
  apply resolve_node in Hr. destruct p as [|s p]; [done |]. cbn [node_at app] in Hr.
  assert (x = File d) as -> by congruence.
  destruct (parent_ok _ q) as [[]|e|] eqn:Hpar; cbn; [| done..].
  destruct (node_at _ q) as [[]|] eqn:Hq; cbn; [done | |].
  all: split_and!; [done | | done | done].
  all: intros ->; cbn in Hq; congruence.
Qed.

(** A file in an existing directory can be read. *)
Lemma resolve_file n p q d :
  p ≠ [] → ¬ q `prefix_of` Dir_ p → parent_ok n p = Ok () →
  resolve (<[p := File d]> (delete q n)) [] p = Ok (File d).
Proof.
  intros Hp Hq Hpar. unfold parent_ok in Hpar. apply bind_Ok in Hpar as ([] & Hpar & H1); [| done].
  destruct (exists_last Hp) as (l & seg & ->). unfold Dir_ in *. rewrite removelast_last in *.
  rewrite resolve_snoc, (resolve_ext n).
  - rewrite Hpar. cbn. destruct (l ++ [seg]) eqn:He; [done |]. cbn. by rewrite lookup_insert_eq.
  - intros q' Hq'. destruct q' as [|x q']; [done |]. cbn.
    rewrite lookup_insert_ne, lookup_delete_ne; [done | by intros -> |].
    intros He. apply prefix_length in Hq'. rewrite <-He, length_app in Hq'. cbn in Hq'. lia.
Qed.

Lemma add_suffix_length p s : p ≠ [] → length (add_suffix p s) = length p.
Proof.
  intros Hp. destruct (exists_last Hp) as (l & seg & ->). unfold add_suffix.
  by rewrite last_snoc, removelast_last, !length_app.
Qed.

Lemma not_prefix_Dir p s : p ≠ [] → ¬ add_suffix p s `prefix_of` Dir_ p.
Proof.
  intros Hp Hq%prefix_length. rewrite add_suffix_length in Hq by done.
  destruct (exists_last Hp) as (l & seg & ->). unfold Dir_ in Hq.
  rewrite removelast_last, length_app in Hq. cbn in Hq. lia.
Qed.

Lemma MkdirAll_same p : steps (same p) (MkdirAll (Dir_ p)).
Proof.
  apply (steps_MkdirAll _). intros q n Hq Hne _. apply lookup_insert_ne. intros ->.
  destruct (exists_last Hne) as (l & seg & ->). apply prefix_length in Hq.
  unfold Dir_ in Hq. rewrite removelast_last, length_app in Hq. cbn in Hq. lia.
Qed.

(** What a state of the disk may hold at a path while data is put there. *)
Definition old_or_new p data n0 n : Prop := n !! p = n0 !! p ∨ n !! p = Some (File data).

(** The states of a put so far, and the one it leaves. *)
Definition put_so_far p data fs fs' : Prop :=
  ∃ new, fs_trace fs' = fs_trace fs ++ new ∧ Forall (old_or_new p data (fs_nodes fs)) new.

Lemma put_so_far_same p data fs {A} (m : Os A) :
  steps (same p) m → let fs' := (m fs).2 in
  put_so_far p data fs fs' ∧ fs_nodes fs' !! p = fs_nodes fs !! p.
Proof.
  intros Hm. destruct (Hm fs) as [(new & Ht & Hn) He]. split; [| done].
  exists new. split; [done |]. eapply Forall_impl; [exact Hn |]. intros n H'. by left.
Qed.

Lemma put_so_far_trans p data fs fs1 fs2 :
  put_so_far p data fs fs1 → fs_nodes fs1 !! p = fs_nodes fs !! p → put_so_far p data fs1 fs2 →
  put_so_far p data fs fs2.
Proof.
  intros (new1 & Ht1 & Hn1) He (new2 & Ht2 & Hn2). exists (new1 ++ new2).
  rewrite Ht2, Ht1, app_assoc. split; [done |]. apply Forall_app. split; [done |].
  eapply Forall_impl; [exact Hn2 |]. unfold old_or_new. by rewrite He.
Qed.

(** The last part of [Put], with the data in the temporary file. *)
Definition replace_file (tmp full : path) : Os unit :=
  r ← attempt (Rename tmp full);
  match r with
  | Ok _ => mret ()
  | Fail err => _ ← attempt (Remove tmp); fail (Errorf "storage: failed to rename file" err)
  | Panic => panic
  end.

Lemma replace_file_spec p data fs :
  let tmp := add_suffix p ".tmp" in
  fs_nodes fs !! tmp = Some (File data) →
  let '(r, fs') := replace_file tmp p fs in
  put_so_far p data fs fs' ∧
  match r with
  | Ok _ => fs_nodes fs' !! p = Some (File data) ∧ fs_nodes fs' !! tmp = None ∧
            resolve (fs_nodes fs') [] p = Ok (File data)
  | _ => fs_nodes fs' !! p = fs_nodes fs !! p
  end.
Proof.
  intros tmp Hd. assert (tmp ≠ p) as Htp by apply add_suffix_ne.
  pose proof (Rename_file tmp p data fs (add_suffix_nonempty _ _) Hd) as Hr.
  unfold replace_file, mbind at 1, os_mbind at 1, attempt at 1.
  destruct (Rename tmp p fs) as [r fs1]. destruct Hr as [Ht Hr].
  destruct r as [u|e|]; cbn.
  - destruct Hr as (Hp & Hpar & He). rewrite He. split_and!.
    + exists [fs_nodes fs1]. split; [done |]. constructor; [| done]. right.
      rewrite He. by rewrite lookup_insert_eq.
    + by rewrite lookup_insert_eq.
    + rewrite lookup_insert_ne by done. apply lookup_delete_eq.
    + apply resolve_file; [done | by apply not_prefix_Dir |]. by destruct u.
  - assert (put_so_far p data fs fs1) as H1.
    { exists [fs_nodes fs1]. split; [done |]. constructor; [| done]. left. by rewrite Hr. }
    assert (steps (same p) (attempt (Remove tmp))) as Hrm.
    { apply (steps_attempt _), (steps_Remove _). intros _ n. by apply lookup_delete_ne. }
    pose proof (put_so_far_same p data fs1 _ Hrm) as [H2 He].
    unfold mbind, os_mbind, attempt in *. destruct (Remove tmp fs1) as [r fs2]. cbn in *.
    split; [| by rewrite He, Hr]. eapply put_so_far_trans; [done | by rewrite Hr | done].
  - split; [| by rewrite Hr]. exists [fs_nodes fs1]. split; [done |].
    constructor; [| done]. left. by rewrite Hr.
Qed.

Lemma Put_outcome f key data opts fs :
  let full := Join (basePath f) key in
  let '(r, fs') := Put key data opts f fs in
  put_so_far full data fs fs' ∧
  match r with
  | Ok _ => fs_nodes fs' !! full = Some (File data) ∧
            fs_nodes fs' !! add_suffix full ".tmp" = None ∧
            check_key f key = Ok () ∧ resolve (fs_nodes fs') [] full = Ok (File data)
  | _ => fs_nodes fs' !! full = fs_nodes fs !! full
  end.
Proof.
  intros full. set (tmp := add_suffix full ".tmp").
  pose proof (MkdirAll_same full) as Hmk. apply (steps_ok_or _ (Errorf "storage: failed to create directory")) in Hmk.
  assert (steps (same full) (ok_or (Errorf "storage: failed to write file") (WriteFile tmp data))) as Hw.
  { apply (steps_ok_or _), (steps_WriteFile _). intros n x. apply lookup_insert_ne, add_suffix_ne. }
  unfold Put, checked. destruct (check_key f key) as [u|e|] eqn:Hk;
    [| by split; [exists []; rewrite app_nil_r |]..].
  fold full tmp. fold (replace_file tmp full).
  pose proof (put_so_far_same full data fs _ Hmk) as [H1 He1].
  unfold mbind at 1, os_mbind at 1.
  destruct (ok_or _ (MkdirAll _) fs) as [[u1|e|] fs1]; cbn in H1, He1; [| done..].
  pose proof (put_so_far_same full data fs1 _ Hw) as [H2 He2].
  unfold mbind, os_mbind.
  destruct (ok_or _ (WriteFile _ _) fs1) as [r2 fs2] eqn:Hwr; cbn in H2, He2.
  pose proof (put_so_far_trans _ _ _ _ _ H1 He1 H2) as H12.
  destruct r2 as [u2|e|]; [| by split; [| congruence]..].
  assert (fs_nodes fs2 !! tmp = Some (File data)) as Htmp.
  { unfold ok_or in Hwr. destruct (WriteFile tmp data fs1) as [[[]|e|] fs2'] eqn:Hwf; [| done..].
    cbn in Hwr. simplify_eq. by eapply WriteFile_ok. }
  pose proof (replace_file_spec full data fs2 Htmp) as Hrep. fold tmp in Hrep.
  destruct (replace_file tmp full fs2) as [r3 fs3]. destruct Hrep as [H3 Hr3].
  split; [exact (put_so_far_trans _ _ _ _ _ H12 (eq_trans He2 He1) H3) |].
  destruct r3 as [u3|e|]; [| by rewrite Hr3, He2, He1..].
  destruct Hr3 as (Hfull & Hnone & Hres). by destruct u.
Qed.

Lemma Put_keeps f key data opts :
  let full := Join (basePath f) key in
  steps (keeps (λ q, q = full ∨ q = add_suffix full ".tmp")) (Put key data opts f).
Proof.
  intros full. apply (Put_steps _); [intros q n _ _; apply keeps_mkdir | intros n x | intros n x | intros n].
  - apply agree_keeps, agree_insert. by right.
  - etrans; [apply agree_keeps, agree_insert; by left | apply agree_keeps, agree_delete; by right].
  - apply agree_keeps, agree_delete. by right.
Qed.

(** C25: [Put] replaces the data of a key atomically.  In every state the disk
    passes through, whichever calls fail and after however many bytes, the file
    of the key is the old one or the complete new one; when [Put] returns
    without an error it is the new one, can be read back, and the temporary
    file is gone; when it returns an error it is the old one.  No other entry
    changes than these two, apart from directories that are made. *)
Theorem put_is_atomic f key data opts fs :
  let full := Join (basePath f) key in
  let tmp := add_suffix full ".tmp" in
  (let '(r, fs') := Put key data opts f fs in
   (∃ new, fs_trace fs' = fs_trace fs ++ new ∧
      Forall (λ n, n !! full = fs_nodes fs !! full ∨ n !! full = Some (File data)) new) ∧
   match r with
   | Ok _ => fs_nodes fs' !! full = Some (File data) ∧ fs_nodes fs' !! tmp = None ∧
             (fs_fault fs' (fs_calls fs') = None → (Get key f fs').1 = Ok data)
   | _ => fs_nodes fs' !! full = fs_nodes fs !! full
   end) ∧
  steps (keeps (λ q, q = full ∨ q = tmp)) (Put key data opts f).
Proof.
  intros full tmp. split; [| apply Put_keeps].
  pose proof (Put_outcome f key data opts fs) as Hp. fold full in Hp.
  destruct (Put key data opts f fs) as [r fs']. destruct Hp as [Hst Hr]. split; [exact Hst |].
  destruct r as [u|e|]; [| done..]. destruct Hr as (Hfull & Hnone & Hk & Hres).
  split_and!; [done | done |]. intros Hf.
  unfold Get, checked, ok_or, ReadFile, call. rewrite Hk, Hf. fold full. by rewrite Hres.
Qed.
End Theorems.
