(* ===== verification/FileStore.v ===== *)
(** * The file backend keeps the contract of a storage backend

    On a disk that works, the file backend of [FileBackend.v] answers as a map
    from keys to data for the keys of three plain segments that the key store
    uses: it is an instance of the interface's laws of [Storage.v], so that the
    theorems of the key store hold over files. *)

From Stdlib Require Import Ascii.
From S2P Require Export FileBackend.

Section Disk.
Import os.
Implicit Types (n : nodes) (fs : Fs) (p q base : path).

(** ** Trees: every entry is in a directory *)

Definition tree n : Prop := ∀ q x, n !! q = Some x → q ≠ [] ∧ node_at n (Dir_ q) = Some Dir.

Lemma Dir_snoc p seg : Dir_ (p ++ [seg]) = p.
Proof. apply removelast_last. Qed.

Lemma node_at_lookup n q : q ≠ [] → node_at n q = n !! q.
Proof. by destruct q. Qed.

Lemma node_at_snoc n q seg : node_at n (q ++ [seg]) = n !! (q ++ [seg]).
Proof. by destruct q. Qed.

Lemma node_at_insert n p x q :
  p ≠ [] → node_at (<[p := x]> n) q = if decide (q = p) then Some x else node_at n q.
Proof.
  intros Hp. destruct (decide (q = p)) as [->|Hne].
  - rewrite node_at_lookup by done. apply lookup_insert_eq.
  - destruct q; [done |]. cbn. by apply lookup_insert_ne.
Qed.

Lemma node_at_delete n p q :
  p ≠ [] → node_at (delete p n) q = if decide (q = p) then None else node_at n q.
Proof.
  intros Hp. destruct (decide (q = p)) as [->|Hne].
  - rewrite node_at_lookup by done. apply lookup_delete_eq.
  - destruct q; [done |]. cbn. by apply lookup_delete_ne.
Qed.

Lemma tree_ancestor n q k x :
  tree n → k ≠ [] → node_at n (q ++ k) = Some x → node_at n q = Some Dir.
Proof.
  intros Ht. revert x. induction k as [|seg k IH] using rev_ind; intros x Hk Hx; [done |].
  rewrite app_assoc, node_at_snoc in Hx. apply Ht in Hx as [_ Hx]. rewrite Dir_snoc in Hx.
  destruct (decide (k = [])) as [->|Hk']; [by rewrite app_nil_r in Hx |]. by eapply IH.
Qed.

Lemma tree_prefix n q p x : tree n → q `prefix_of` p → q ≠ p → node_at n p = Some x → node_at n q = Some Dir.
Proof.
  intros Ht [k ->] Hne. apply tree_ancestor; [done |]. intros ->. by rewrite app_nil_r in Hne.
Qed.

Lemma tree_insert n p x :
  tree n → p ≠ [] → node_at n (Dir_ p) = Some Dir → (x = Dir ∨ node_at n p ≠ Some Dir) →
  tree (<[p := x]> n).
Proof.
  intros Ht Hp Hd Hx q y Hq.
  assert (∀ q', node_at n q' = Some Dir → node_at (<[p := x]> n) q' = Some Dir) as Hdir.
  { intros q' Hq'. rewrite node_at_insert by done. destruct (decide (q' = p)) as [->|]; [| done].
    destruct Hx as [->|Hx]; [done |]. by rewrite Hq' in Hx. }
  destruct (decide (q = p)) as [->|Hne]; [by auto |].
  rewrite lookup_insert_ne in Hq by done. destruct (Ht _ _ Hq). auto.
Qed.

Lemma tree_delete n p :
  tree n → p ≠ [] → (∀ q x, n !! q = Some x → Dir_ q ≠ p) → tree (delete p n).
Proof.
  intros Ht Hp Hc q y [Hne Hq]%lookup_delete_Some. destruct (Ht _ _ Hq). split; [done |].
  rewrite node_at_delete, decide_False; [done | by eapply Hc | done].
Qed.

(** Where no file is in the way, resolution finds what is there. *)
Lemma resolve_tree n pre rest :
  tree n → (∀ q d, q `prefix_of` pre ++ rest → q ≠ pre ++ rest → node_at n q ≠ Some (File d)) →
  resolve n pre rest = match node_at n (pre ++ rest) with Some x => Ok x | None => Fail ENOENT end.
Proof.
  intros Ht. revert pre. induction rest as [|seg rest IH]; intros pre Hf; cbn [resolve].
  - by rewrite app_nil_r.
  - assert (pre ≠ pre ++ seg :: rest) as Hne.
    { intros He%(f_equal length). rewrite length_app in He. cbn in He. lia. }
    specialize (Hf pre) as Hpre. destruct (node_at n pre) as [[|d]|] eqn:Hp.
    + specialize (IH (pre ++ [seg])). rewrite <-app_assoc in IH. by apply IH.
    + exfalso. apply (Hpre d); [by exists (seg :: rest) | done | done].
    + destruct (node_at n (pre ++ seg :: rest)) eqn:Hx; [| done].
      by rewrite (tree_ancestor n pre (seg :: rest) _ Ht ltac:(done) Hx) in Hp.
Qed.

(** ** A disk that works *)

Definition works fs : Prop := ∀ i, fs_fault fs i = None.

Lemma call_works {A} (f : nodes → Res (A * nodes)) fs :
  works fs → call f fs = match f (fs_nodes fs) with
                         | Ok (a, n) => (Ok a, move n fs)
                         | Fail e => (Fail e, move (fs_nodes fs) fs)
                         | Panic => (Panic, move (fs_nodes fs) fs)
                         end.
Proof. intros Hw. unfold call. by rewrite Hw. Qed.

(** All directories on the way exist, and nothing else has changed. *)
Definition made p n' n : Prop :=
  ∀ q, node_at n' q = if decide (q `prefix_of` p) then Some Dir else node_at n q.

Lemma mkdir_loop_ok pre rest fs :
  works fs → tree (fs_nodes fs) → node_at (fs_nodes fs) pre = Some Dir →
  (∀ q d, q `prefix_of` pre ++ rest → node_at (fs_nodes fs) q ≠ Some (File d)) →
  ∃ fs', mkdir_loop pre rest fs = (Ok (), fs') ∧ fs_fault fs' = fs_fault fs ∧
         tree (fs_nodes fs') ∧ made (pre ++ rest) (fs_nodes fs') (fs_nodes fs).
Proof.
  revert pre fs. induction rest as [|seg rest IH]; intros pre fs Hw Ht Hpre Hf; cbn [mkdir_loop].
  - exists fs. split_and!; [done.. |]. intros q. rewrite app_nil_r. destruct (decide _) as [Hq|]; [| done].
    destruct (decide (q = pre)) as [->|Hne]; [done |]. by eapply tree_prefix.
  - set (p := pre ++ [seg]).
    assert (p ++ rest = pre ++ seg :: rest) as Hp by (unfold p; by rewrite <-app_assoc).
    assert (p `prefix_of` pre ++ seg :: rest) as Hpp by (exists rest; by rewrite Hp).
    unfold mbind, os_mbind, attempt, Stat. rewrite call_works by done.
    rewrite (resolve_tree _ [] p); [cbn [app] | done |].
    2:{ intros q d Hq _. apply Hf. by etrans. }
    destruct (node_at (fs_nodes fs) p) as [[|d]|] eqn:Hn; [| by destruct (Hf p d) |]; step.
    + destruct (IH p (move (fs_nodes fs) fs)) as (fs' & H1 & H2 & H3 & H4); [done.. | |].
      { by rewrite Hp. }
      rewrite Hp in H4. by exists fs'.
    + unfold Mkdir. rewrite call_works by done. unfold parent_ok.
      assert (Dir_ p = pre) as Hdp by apply Dir_snoc.
      rewrite Hdp, (resolve_tree _ [] pre); [cbn [app fs_nodes move] | done |].
      2:{ intros q d Hq _. apply Hf. etrans; [exact Hq |]. by exists (seg :: rest). }
      rewrite Hpre. step. rewrite Hn. step.
      set (n1 := <[p := Dir]> (fs_nodes fs)).
      assert (p ≠ []) as Hp0 by (unfold p; by destruct pre).
      assert (∀ q, node_at n1 q = if decide (q = p) then Some Dir else node_at (fs_nodes fs) q) as Hn1
        by (intros; by apply node_at_insert).
      destruct (IH p (move n1 (move (fs_nodes fs) fs))) as (fs' & H1 & H2 & H3 & H4).
      * done.
      * apply tree_insert; [done | done | | by left]. by rewrite Hdp.
      * cbn. rewrite Hn1. by rewrite decide_True.
      * intros q d Hq. rewrite Hp in Hq. cbn. rewrite Hn1. destruct (decide _); [done |]. by apply Hf.
      * rewrite Hp in H4. exists fs'. split_and!; [done.. |]. intros q. rewrite H4. cbn. rewrite Hn1.
        destruct (decide (q `prefix_of` _)) as [|Hq]; [done |].
        rewrite decide_False; [done |]. by intros ->.
Qed.

Lemma resolve_present n p x : tree n → node_at n p = Some x → resolve n [] p = Ok x.
Proof.
  intros Ht Hx. rewrite (resolve_tree n [] p Ht); cbn [app]; [by rewrite Hx |].
  intros q d Hq Hne. by rewrite (tree_prefix n q p x Ht Hq Hne Hx).
Qed.

Lemma file_has_no_children n p d q x :
  tree n → node_at n p = Some (File d) → n !! q = Some x → Dir_ q ≠ p.
Proof. intros Ht Hp Hq <-. destruct (Ht _ _ Hq) as [_ Hd]. congruence. Qed.

Lemma WriteFile_works p d fs :
  works fs → tree (fs_nodes fs) → p ≠ [] → node_at (fs_nodes fs) (Dir_ p) = Some Dir →
  node_at (fs_nodes fs) p ≠ Some Dir →
  ∃ fs', WriteFile p d fs = (Ok (), fs') ∧ fs_fault fs' = fs_fault fs ∧ tree (fs_nodes fs') ∧
    ∀ q, node_at (fs_nodes fs') q = if decide (q = p) then Some (File d) else node_at (fs_nodes fs) q.
Proof.
  intros Hw Ht Hp Hd Hx. unfold WriteFile, write_part, parent_ok.
  rewrite (resolve_present _ _ _ Ht Hd). step.
  assert (∀ n0, n0 = <[p := File []]> (fs_nodes fs) →
    tree (<[p := File (take (length d) d)]> n0) ∧
    ∀ q, node_at (<[p := File (take (length d) d)]> n0) q =
         if decide (q = p) then Some (File d) else node_at (fs_nodes fs) q) as Hn.
  { intros n0 ->. rewrite insert_insert_eq, take_ge by lia. split.
    - apply tree_insert; auto.
    - intros q. by apply node_at_insert. }
  destruct (node_at (fs_nodes fs) p) as [[|d']|] eqn:Hnp; [done | |];
    rewrite Hw; eexists; (split; [done |]); cbn; (split; [done |]); by apply Hn.
Qed.

Lemma Rename_works p q d fs :
  works fs → tree (fs_nodes fs) → p ≠ [] → q ≠ [] → p ≠ q →
  node_at (fs_nodes fs) p = Some (File d) → node_at (fs_nodes fs) (Dir_ q) = Some Dir →
  node_at (fs_nodes fs) q ≠ Some Dir →
  ∃ fs', Rename p q fs = (Ok (), fs') ∧ fs_fault fs' = fs_fault fs ∧ tree (fs_nodes fs') ∧
    ∀ r, node_at (fs_nodes fs') r =
         if decide (r = q) then Some (File d) else if decide (r = p) then None
         else node_at (fs_nodes fs) r.
Proof.
  intros Hw Ht Hp Hq Hpq Hf Hd Hx. unfold Rename. rewrite call_works by done.
  rewrite (resolve_present _ _ _ Ht Hf). step. unfold parent_ok.
  rewrite (resolve_present _ _ _ Ht Hd). step.
  assert (tree (<[q := File d]> (delete p (fs_nodes fs))) ∧ ∀ r,
    node_at (<[q := File d]> (delete p (fs_nodes fs))) r =
      if decide (r = q) then Some (File d) else if decide (r = p) then None
      else node_at (fs_nodes fs) r) as [Htn Hn].
  { split.
    - apply tree_insert; [| done | |].
      + apply tree_delete; [done | done |]. intros r x. by apply (file_has_no_children _ _ d).
      + rewrite node_at_delete, decide_False by (done || congruence). done.
      + right. rewrite node_at_delete, decide_False by done. done.
    - intros r. rewrite node_at_insert by done. destruct (decide (r = q)); [done |].
      by apply node_at_delete. }
  destruct (node_at (fs_nodes fs) q) as [[|d']|] eqn:Hnq; [done | |];
    eexists; (split; [done |]); by split.
Qed.

Lemma Remove_works p x fs :
  works fs → tree (fs_nodes fs) → p ≠ [] → node_at (fs_nodes fs) p = Some x →
  (x = Dir → has_children (fs_nodes fs) p = false) →
  ∃ fs', Remove p fs = (Ok (), fs') ∧ fs_fault fs' = fs_fault fs ∧ tree (fs_nodes fs') ∧
    ∀ q, node_at (fs_nodes fs') q = if decide (q = p) then None else node_at (fs_nodes fs) q.
Proof.
  intros Hw Ht Hp Hx Hc. unfold Remove. rewrite call_works by done.
  rewrite (resolve_present _ _ _ Ht Hx). step.
  assert (tree (delete p (fs_nodes fs))) as Htn.
  { apply tree_delete; [done | done |]. intros q y Hq. destruct x as [|d].
    - specialize (Hc eq_refl). apply bool_decide_eq_false in Hc. intros Hd. apply Hc.
      exists q, y. split; [done |]. split; [by apply (Ht _ _ Hq) | done].
    - by apply (file_has_no_children (fs_nodes fs) _ d _ y). }
  destruct x as [|d]; [rewrite Hc, bool_decide_false by done; step |];
    eexists; (split; [done |]); (split; [done |]); (split; [done |]);
    intros q; by apply node_at_delete.
Qed.

Lemma Remove_full p fs :
  works fs → resolve (fs_nodes fs) [] p = Ok Dir → has_children (fs_nodes fs) p = true →
  Remove p fs = (Fail ENOTEMPTY, move (fs_nodes fs) fs).
Proof.
  intros Hw Hr Hc. unfold Remove. rewrite call_works, Hr by done. step. by rewrite Hc, orb_true_r.
Qed.

Lemma Remove_missing p fs :
  works fs → resolve (fs_nodes fs) [] p = Fail ENOENT →
  Remove p fs = (Fail ENOENT, move (fs_nodes fs) fs).
Proof. intros Hw Hr. unfold Remove. by rewrite call_works, Hr. Qed.
End Disk.

(** ** Keys of three plain segments *)

Definition good_seg (seg : string) : Prop :=
  seg ≠ "" ∧ seg ≠ "." ∧ storage.Contains seg "/" = false.

Definition file_key (key : string) : Prop :=
  ∃ segs, length segs = 3 ∧ Forall good_seg segs ∧ key = Rel segs ∧
          storage.Contains key ".." = false ∧ HasSuffix key ".tmp" = false.

Lemma prefix_char c c' s t :
  storage.HasPrefix (String c s) (String c' t) = bool_decide (c' = c) && storage.HasPrefix s t.
Proof.
  unfold storage.HasPrefix.
  change (String.prefix (String c' t) (String c s)) with (if ascii_dec c' c then String.prefix t s else false).
  destruct (ascii_dec c' c) as [Hc|Hc]; [by rewrite bool_decide_true | by rewrite bool_decide_false].
Qed.

Lemma Contains_slash_app a b :
  storage.Contains (a +:+ b) "/" = storage.Contains a "/" || storage.Contains b "/".
Proof.
  induction a as [|c a IH]; [done |].
  change (String c a +:+ b) with (String c (a +:+ b)). cbn [storage.Contains].
  rewrite IH, !prefix_char, <-orb_assoc. by destruct (a +:+ b), a.
Qed.

Lemma split_slash_seg seg : storage.Contains seg "/" = false → split_slash seg = [seg].
Proof.
  induction seg as [|c s IH]; [done |]. cbn [storage.Contains split_slash].
  rewrite prefix_char. intros [Hc Hs]%orb_false_iff. rewrite (IH Hs).
  rewrite decide_False; [done |]. intros ->. rewrite bool_decide_true in Hc by done. by destruct s.
Qed.

Lemma split_slash_Rel segs : segs ≠ [] → Forall good_seg segs → split_slash (Rel segs) = segs.
Proof.
  intros Hne Hs. destruct segs as [|seg segs]; [done |]. unfold Rel.
  apply Forall_cons in Hs as [(_ & _ & Hseg) Hs]. apply split_slash_seg in Hseg.
  change (seg :: segs) with ([seg] ++ segs). rewrite <-Hseg. generalize seg. clear Hne Hseg seg.
  induction Hs as [|x l (_ & _ & Hx) _ IH]; intros s; cbn [foldl]; [by rewrite app_nil_r |].
  by rewrite IH, split_slash_app, (split_slash_seg x Hx), <-app_assoc.
Qed.

Lemma Rel_inj segs segs' :
  segs ≠ [] → segs' ≠ [] → Forall good_seg segs → Forall good_seg segs' →
  Rel segs = Rel segs' → segs = segs'.
Proof.
  intros H1 H2 H3 H4 He. by rewrite <-(split_slash_Rel segs), <-(split_slash_Rel segs'), He.
Qed.

Lemma key_segs_Rel segs : segs ≠ [] → Forall good_seg segs → key_segs (Rel segs) = segs.
Proof.
  intros Hne Hs. unfold key_segs. rewrite split_slash_Rel by done. clear Hne.
  induction Hs as [|x l (H1 & H2 & _) _ IH]; [done |]. by rewrite filter_cons_True, IH.
Qed.

(** ** The states in which the store works, and what can be read in them *)

Section Live.
Context `{MapOrder}.
Import os file_backend.
Implicit Types (n : nodes) (fs : Fs) (p q : path) (s : FileBackend * Fs).

Definition base_of s : path := Clean (basePath s.1).

(** Below the base, directories for the first two segments of a key and files
    for the third. *)
Definition layers (base : path) n : Prop := ∀ segs x,
  segs ≠ [] → n !! (base ++ segs) = Some x →
  Forall good_seg segs ∧
  match x with Dir => length segs < 3 | File _ => length segs = 3 end.

Record store_ok s : Prop := {
  ok_open : closed s.1 = false;
  ok_abs : storage.HasPrefix (basePath s.1) "/" = true;
  ok_works : works s.2;
  ok_tree : tree (fs_nodes s.2);
  ok_base : node_at (fs_nodes s.2) (base_of s) = Some Dir;
  ok_layers : layers (base_of s) (fs_nodes s.2);
}.

Definition data_at n p : option bytes :=
  match n !! p with Some (File d) => Some d | _ => None end.

Lemma data_at_Some n p d : data_at n p = Some d ↔ n !! p = Some (File d).
Proof. unfold data_at. destruct (n !! p) as [[]|]; split; congruence. Qed.

Definition names (base : path) (prefix : string) (l : list (path * node)) : list string :=
  foldl (visit base prefix) [] l.

Definition live_files s : gmap string bytes :=
  map_imap (λ k _, data_at (fs_nodes s.2) (base_of s ++ split_slash k))
    (gset_to_gmap () (list_to_set (names (base_of s) "" (map_to_list (fs_nodes s.2)))) : gmap string ()).

(** [List] visits the files below the base that are not temporary. *)
Lemma visit_loop base prefix l acc k :
  k ∈ foldl (visit base prefix) acc l ↔
  k ∈ acc ∨ ∃ segs d, (base ++ segs, File d) ∈ l ∧ k = Rel segs ∧
                      HasSuffix k ".tmp" = false ∧ storage.HasPrefix k prefix = true.
Proof.
  revert acc. induction l as [|[p x] l IH]; intros acc; cbn [foldl].
  { split; [by left | intros [?|(? & ? & Hin & _)]; [done |]]. by apply not_elem_of_nil in Hin. }
  rewrite IH.
  assert (k ∈ visit base prefix acc (p, x) ↔ k ∈ acc ∨
            ∃ segs d, p = base ++ segs ∧ x = File d ∧ k = Rel segs ∧
                      HasSuffix k ".tmp" = false ∧ storage.HasPrefix k prefix = true) as Hv.
  { unfold visit. destruct x as [|d].
    { split; [by left | intros [?|(? & ? & _ & ? & _)]; done]. }
    case_bool_decide as Hp.
    2:{ split; [by left | intros [?|(segs & ? & -> & _)]; [done |]]. by rewrite take_app_length in Hp. }
    assert (p = base ++ drop (length base) p) as Hps
      by (by rewrite <-(take_drop (length base) p), Hp at 1).
    generalize dependent (drop (length base) p). intros segs Hps.
    assert (bool_decide (prefix = "") || storage.HasPrefix (Rel segs) prefix
            = storage.HasPrefix (Rel segs) prefix) as ->.
    { case_bool_decide; [| done]. subst prefix. by rewrite HasPrefix_nil. }
    destruct (HasSuffix (Rel segs) ".tmp") eqn:Ht.
    { split; [by left | intros [?|(segs' & ? & He & _ & -> & Hs & _)]; [done |]].
      rewrite Hps in He. apply (inj (base ++.)) in He. congruence. }
    destruct (storage.HasPrefix (Rel segs) prefix) eqn:Hpre.
    - rewrite elem_of_app, list_elem_of_singleton. split.
      + intros [?| ->]; [by left | right]. by exists segs, d.
      + intros [?|(segs' & ? & He & _ & -> & _)]; [by left | right].
        rewrite Hps in He. by apply (inj (base ++.)) in He as <-.
    - split; [by left | intros [?|(segs' & ? & He & _ & -> & _ & Hs)]; [done |]].
      rewrite Hps in He. apply (inj (base ++.)) in He. congruence. }
  rewrite Hv. split.
  - intros [[?|(segs & d & -> & -> & ?)]|(segs & d & ? & ?)];
      [by left | right; exists segs, d; by split; [left |] | right; exists segs, d; by split; [right |]].
  - intros [?|(segs & d & [He|Hin]%elem_of_cons & ?)]; [by left; left | | right; by exists segs, d].
    left. right. exists segs, d. by injection He as -> ->.
Qed.

Lemma file_below s segs d :
  store_ok s → fs_nodes s.2 !! (base_of s ++ segs) = Some (File d) →
  segs ≠ [] ∧ Forall good_seg segs ∧ length segs = 3.
Proof.
  intros Hs Hd. assert (segs ≠ []) as Hne.
  { intros ->. rewrite app_nil_r in Hd. destruct (ok_tree _ Hs _ _ Hd) as [Hb _].
    pose proof (ok_base _ Hs) as He. rewrite node_at_lookup in He by done. by rewrite (Hd : fs_nodes s.2 !! base_of s = _) in He. }
  split; [done | exact (ok_layers _ Hs _ _ Hne Hd)].
Qed.

Lemma live_files_spec s k d :
  store_ok s →
  live_files s !! k = Some d ↔
  ∃ segs, fs_nodes s.2 !! (base_of s ++ segs) = Some (File d) ∧ k = Rel segs ∧
          HasSuffix k ".tmp" = false.
Proof.
  intros Hs. unfold live_files. rewrite map_lookup_imap, bind_Some. split.
  - intros ([] & Hk & Hd). apply lookup_gset_to_gmap_Some in Hk as [Hk _].
    apply elem_of_list_to_set, visit_loop in Hk as [Hk|(segs & d' & Hin & -> & Ht & _)];
      [by apply not_elem_of_nil in Hk |].
    apply elem_of_map_to_list in Hin. destruct (file_below _ _ _ Hs Hin) as (H1 & H2 & _).
    rewrite split_slash_Rel in Hd by done. exists segs. split; [| done].
    by apply data_at_Some.
  - intros (segs & Hd & -> & Ht). destruct (file_below _ _ _ Hs Hd) as (H1 & H2 & _).
    exists (). split.
    + apply lookup_gset_to_gmap_Some. split; [| done]. apply elem_of_list_to_set, visit_loop. right.
      exists segs, d. split; [by apply elem_of_map_to_list |]. by rewrite HasPrefix_nil.
    + rewrite split_slash_Rel by done. by apply data_at_Some.
Qed.
End Live.

(** ** The operations *)

Section Operations.
Context `{MapOrder}.
Import os file_backend.
Implicit Types (n : nodes) (fs : Fs) (p q : path) (s : FileBackend * Fs) (key : string).

(** The segments of an accepted key. *)
Definition key_path (segs : list string) : Prop :=
  length segs = 3 ∧ Forall good_seg segs ∧ storage.Contains (Rel segs) ".." = false ∧
  HasSuffix (Rel segs) ".tmp" = false.

Lemma key_path_nonempty segs : key_path segs → segs ≠ [].
Proof. intros [Hl _]. by destruct segs. Qed.

Lemma file_key_path key : file_key key ↔ ∃ segs, key_path segs ∧ key = Rel segs.
Proof.
  split.
  - intros (segs & H1 & H2 & -> & H3 & H4). by exists segs.
  - intros (segs & (H1 & H2 & H3 & H4) & ->). by exists segs.
Qed.

Lemma Rel_nonempty segs : segs ≠ [] → Forall good_seg segs → Rel segs ≠ "".
Proof.
  intros Hne Hs He. pose proof (split_slash_Rel segs Hne Hs) as Hr. rewrite He in Hr. subst segs.
  by apply Forall_cons in Hs as [(Hx & _) _].
Qed.

Lemma Join_key s segs : key_path segs → Join (basePath s.1) (Rel segs) = base_of s ++ segs.
Proof.
  intros Hk. pose proof (key_path_nonempty _ Hk). destruct Hk as (_ & H1 & H2 & _).
  by rewrite Join_below, key_segs_Rel.
Qed.

Lemma checked_key {A} s segs (m : Os A) fs :
  store_ok s → key_path segs → checked s.1 (Rel segs) m fs = m fs.
Proof.
  intros Hs Hk. pose proof (key_path_nonempty _ Hk) as Hne. destruct Hk as (_ & H1 & H2 & _).
  unfold checked, check_key. rewrite bool_decide_false by (by apply Rel_nonempty). step.
  by rewrite H2, (ok_open _ Hs).
Qed.

(** Above an entry of the third level there are directories or nothing. *)
Lemma no_file_above s segs q d :
  store_ok s → length segs ≤ 3 → q `prefix_of` base_of s ++ segs → q ≠ base_of s ++ segs →
  node_at (fs_nodes s.2) q ≠ Some (File d).
Proof.
  intros Hs Hl Hq Hne Hn. destruct (prefix_app_cases _ _ _ Hq) as [Hb|(k & Hk & ->)].
  - pose proof (ok_base _ Hs) as Hbase.
    assert (node_at (fs_nodes s.2) q = Some Dir); [| congruence].
    destruct (decide (q = base_of s)) as [->|]; [done |].
    by eapply tree_prefix; [apply (ok_tree _ Hs) | ..].
  - apply prefix_app_inv in Hq. rewrite node_at_lookup in Hn by (by destruct (base_of s), k).
    destruct (ok_layers _ Hs _ _ Hk Hn) as [_ H3].
    apply Hne. f_equal. apply prefix_length_eq; [done | lia].
Qed.

Lemma resolve_key s segs :
  store_ok s → length segs ≤ 3 →
  resolve (fs_nodes s.2) [] (base_of s ++ segs) =
    match node_at (fs_nodes s.2) (base_of s ++ segs) with Some x => Ok x | None => Fail ENOENT end.
Proof.
  intros Hs Hl. rewrite (resolve_tree _ [] (base_of s ++ segs)); [done | apply (ok_tree _ Hs) |].
  intros q d Hq Hne. by apply (no_file_above _ segs).
Qed.

(** An accepted key names a file or nothing. *)
Lemma node_at_key s segs :
  store_ok s → key_path segs →
  node_at (fs_nodes s.2) (base_of s ++ segs)
    = File <$> data_at (fs_nodes s.2) (base_of s ++ segs).
Proof.
  intros Hs Hk. pose proof (key_path_nonempty _ Hk) as Hne.
  rewrite node_at_lookup by (by destruct (base_of s), segs). unfold data_at.
  destruct (_ !! _) as [[|d]|] eqn:Hn; [| done..].
  destruct (ok_layers _ Hs _ _ Hne Hn) as [_ Hl]. destruct Hk. lia.
Qed.

Lemma live_key s segs :
  store_ok s → key_path segs →
  live_files s !! Rel segs = data_at (fs_nodes s.2) (base_of s ++ segs).
Proof.
  intros Hs Hk. apply option_eq. intros d. rewrite live_files_spec, data_at_Some by done. split.
  - intros (segs' & Hd & He & _). destruct (file_below _ _ _ Hs Hd) as (H1 & H2 & _).
    apply Rel_inj in He as <-; [done | by apply key_path_nonempty | done | apply Hk | done].
  - intros Hd. exists segs. split_and!; [done | done | apply Hk].
Qed.

Lemma Get_files s segs :
  store_ok s → key_path segs →
  (Get (Rel segs) s.1 s.2).1 =
    match live_files s !! Rel segs with Some d => Ok d | None => Fail storage.ErrNotFound end.
Proof.
  intros Hs Hk. unfold Get. rewrite checked_key, Join_key by done.
  unfold os.ok_or, ReadFile. rewrite call_works by apply (ok_works _ Hs).
  rewrite resolve_key by (done || destruct Hk; lia).
  rewrite node_at_key, live_key by done. by destruct (data_at _ _).
Qed.

Lemma Exists_files s segs :
  store_ok s → key_path segs →
  (Exists_ (Rel segs) s.1 s.2).1 = Ok (bool_decide (is_Some (live_files s !! Rel segs))).
Proof.
  intros Hs Hk. unfold Exists_. rewrite checked_key, Join_key by done.
  unfold mbind, os_mbind, attempt, Stat. rewrite call_works by apply (ok_works _ Hs).
  rewrite resolve_key by (done || destruct Hk; lia).
  rewrite node_at_key, live_key by done. by destruct (data_at _ _).
Qed.

Lemma names_NoDup (base : path) prefix l :
  NoDup l.*1 →
  (∀ segs d, (base ++ segs, File d) ∈ l → segs ≠ [] ∧ Forall good_seg segs) →
  NoDup (names base prefix l).
Proof.
  unfold names. induction l as [|[p x] l IH] using rev_ind; intros Hnd Hg; [constructor |].
  rewrite foldl_app. cbn [foldl]. rewrite fmap_app in Hnd. apply NoDup_app in Hnd as (Hnd & Hx & _).
  assert (NoDup (foldl (visit base prefix) [] l)) as Hl.
  { apply IH; [done |]. intros segs d Hin. apply (Hg segs d), elem_of_app. by left. }
  unfold visit at 1. destruct x as [|d]; [done |]. case_bool_decide as Hp; [| done].
  destruct (HasSuffix _ _); [done |]. destruct (_ || _); [| done].
  apply NoDup_app. split; [done |]. split; [| apply NoDup_singleton].
  intros k Hk ->%list_elem_of_singleton.
  apply visit_loop in Hk as [Hk|(segs & d' & Hin & He & _)]; [by apply not_elem_of_nil in Hk |].
  assert (p = base ++ drop (length base) p) as Hps
    by (by rewrite <-(take_drop (length base) p), Hp at 1).
  destruct (Hg (drop (length base) p) d) as [H1 H2].
  { rewrite <-Hps. apply elem_of_app. right. by left. }
  destruct (Hg segs d') as [H3 H4]; [apply elem_of_app; by left |].
  apply Rel_inj in He; [| done..]. apply (Hx p); [| by left].
  apply list_elem_of_fmap. eexists. split; [| exact Hin]. cbn. by rewrite <-He.
Qed.

Lemma List_files s prefix :
  store_ok s →
  ∃ keys, (List_ prefix s.1 s.2).1 = Ok keys ∧ NoDup keys ∧
    ∀ k, k ∈ keys ↔ storage.HasPrefix k prefix = true ∧ is_Some (live_files s !! k).
Proof.
  intros Hs. set (l := range_entries 0 (fs_nodes s.2)).
  assert (∀ p x, (p, x) ∈ l ↔ fs_nodes s.2 !! p = Some x) as Hl by (intros; apply elem_of_range_entries).
  exists (names (base_of s) prefix l). split; [| split].
  - unfold List_. rewrite (ok_open _ Hs). unfold mbind, os_mbind, attempt, Walk.
    rewrite call_works by apply (ok_works _ Hs).
    pose proof (resolve_key s [] Hs ltac:(cbn; lia)) as Hr. rewrite app_nil_r in Hr.
    fold (base_of s). by rewrite Hr, (ok_base _ Hs).
  - apply names_NoDup; [apply range_entries_NoDup |]. intros segs d Hin. apply Hl in Hin.
    by destruct (file_below _ _ _ Hs Hin) as (? & ? & _).
  - intros k. unfold names. rewrite visit_loop. unfold is_Some. setoid_rewrite (live_files_spec _ _ _ Hs).
    setoid_rewrite Hl. split.
    + intros [Hk|(segs & d & Hd & -> & Ht & Hp)]; [by apply not_elem_of_nil in Hk |].
      split; [done |]. by exists d, segs.
    + intros [Hp (d & segs & Hd & -> & Ht)]. right. by exists segs, d.
Qed.

(** *** Put *)

Lemma third_level_no_dir s segs :
  store_ok s → length segs = 3 → node_at (fs_nodes s.2) (base_of s ++ segs) ≠ Some Dir.
Proof.
  intros Hs Hl Hn. assert (segs ≠ []) as Hne by (by destruct segs).
  rewrite node_at_lookup in Hn by (by destruct (base_of s), segs).
  destruct (ok_layers _ Hs _ _ Hne Hn) as [_ H3]. lia.
Qed.

Lemma prefix_of_Dir (p q : path) : p ≠ [] → q `prefix_of` Dir_ p → length q < length p.
Proof.
  intros Hp Hq%prefix_length. destruct (exists_last Hp) as (l & seg & ->).
  rewrite Dir_snoc in Hq. rewrite length_app. cbn. lia.
Qed.

(** The tree after data was put at a path. *)
Definition put_at (full : path) data n' n : Prop := ∀ q,
  node_at n' q =
    if decide (q = full) then Some (File data)
    else if decide (q = add_suffix full ".tmp") then None
    else if decide (q `prefix_of` Dir_ full) then Some Dir
    else node_at n q.

Lemma Put_works s segs data opts :
  store_ok s → key_path segs →
  ∃ fs', Put (Rel segs) data opts s.1 s.2 = (Ok (), fs') ∧ fs_fault fs' = fs_fault s.2 ∧
         tree (fs_nodes fs') ∧ put_at (base_of s ++ segs) data (fs_nodes fs') (fs_nodes s.2).
Proof.
  intros Hs Hk. pose proof (key_path_nonempty _ Hk) as Hne. destruct (Hk) as [Hl _].
  unfold Put. rewrite checked_key, Join_key by done.
  set (full := base_of s ++ segs). set (tmp := add_suffix full ".tmp"). fold (replace_file tmp full).
  assert (full ≠ []) as Hf0 by (unfold full; by destruct (base_of s), segs).
  assert (tmp ≠ []) as Ht0 by apply add_suffix_nonempty.
  assert (tmp ≠ full) as Htf by apply add_suffix_ne.
  assert (Dir_ tmp = Dir_ full) as Hdir.
  { unfold tmp, add_suffix. destruct (exists_last Hf0) as (l & seg & ->).
    by rewrite last_snoc, removelast_last, !Dir_snoc. }
  destruct (mkdir_loop_ok [] (Dir_ full) s.2) as (fs1 & H1 & Hw1 & Ht1 & Hm1);
    [apply (ok_works _ Hs) | apply (ok_tree _ Hs) | done | |].
  { intros q d Hq. pose proof (prefix_of_Dir _ _ Hf0 Hq) as Hlt.
    apply (no_file_above _ segs); [done | lia | etrans; [exact Hq | apply Dir_prefix] |].
    intros ->. fold full in Hlt. lia. }
  cbn [app] in Hm1.
  assert (node_at (fs_nodes fs1) (Dir_ full) = Some Dir) as Hd1 by (by rewrite Hm1, decide_True).
  assert (∀ q, length q = length full → node_at (fs_nodes fs1) q = node_at (fs_nodes s.2) q) as Hsame.
  { intros q Hq. rewrite Hm1, decide_False; [done |]. intros Hp%prefix_of_Dir; [lia | done]. }
  assert (length tmp = length full) as Hlen by (by apply add_suffix_length).
  destruct (WriteFile_works tmp data fs1) as (fs2 & H2 & Hw2 & Ht2 & Hm2);
    [by intros i; rewrite Hw1; apply (ok_works _ Hs) | done | done | by rewrite Hdir | |].
  { rewrite Hsame by done. unfold tmp, full. rewrite add_suffix_app by done.
    apply third_level_no_dir; [done |]. by rewrite add_suffix_length. }
  destruct (Rename_works tmp full data fs2) as (fs3 & H3 & Hw3 & Ht3 & Hm3);
    [by intros i; rewrite Hw2, Hw1; apply (ok_works _ Hs) | done | done | done | done
    | by rewrite Hm2, decide_True | | |].
  { rewrite Hm2, decide_False; [done |]. intros He. by apply (not_prefix_Dir full ".tmp"); [| rewrite He]. }
  { rewrite Hm2, decide_False, Hsame by done. by apply third_level_no_dir. }
  exists fs3. split; [| split; [congruence | split; [done |]]].
  - unfold mbind, os_mbind, os.ok_or, MkdirAll. rewrite H1. step. rewrite H2. step.
    unfold replace_file, mbind, os_mbind, attempt. by rewrite H3.
  - intros q. rewrite Hm3. fold tmp. destruct (decide (q = full)); [done |].
    destruct (decide (q = tmp)) as [|Hqt]; [done |]. by rewrite Hm2, decide_False, Hm1.
Qed.

Lemma put_at_ok s segs data fs' :
  store_ok s → key_path segs → fs_fault fs' = fs_fault s.2 → tree (fs_nodes fs') →
  put_at (base_of s ++ segs) data (fs_nodes fs') (fs_nodes s.2) → store_ok (s.1, fs').
Proof.
  intros Hs Hk Hw Ht Hp. pose proof (key_path_nonempty _ Hk) as Hne. destruct Hk as (Hl & Hg & _).
  assert (base_of s ++ segs ≠ []) as Hf0 by (by destruct (base_of s), segs).
  assert (Dir_ (base_of s ++ segs) = base_of s ++ removelast segs) as Hdir by (by apply removelast_app).
  split; cbn.
  - apply (ok_open _ Hs).
  - apply (ok_abs _ Hs).
  - intros i. rewrite Hw. apply (ok_works _ Hs).
  - exact Ht.
  - change (node_at (fs_nodes fs') (base_of s) = Some Dir). rewrite Hp.
    assert (∀ l, l ≠ [] → base_of s ≠ base_of s ++ l) as Hb.
    { intros l Hln He. apply (f_equal length) in He. rewrite length_app in He. destruct l; [done |].
      cbn in He. lia. }
    rewrite decide_False by (by apply Hb).
    rewrite decide_False by (rewrite add_suffix_app by done; apply Hb, add_suffix_nonempty).
    rewrite decide_True; [done |]. rewrite Hdir. by eexists.
  - intros k x Hk Hx. change (base_of (s.1, fs')) with (base_of s) in Hx.
    assert (node_at (fs_nodes fs') (base_of s ++ k) = Some x) as Hn
      by (rewrite node_at_lookup; [done | by destruct (base_of s), k]).
    rewrite Hp in Hn. destruct (decide _) as [He|_].
    { apply (inj (base_of s ++.)) in He as ->. by injection Hn as <-. }
    destruct (decide _); [done |]. destruct (decide _) as [Hq|_].
    + injection Hn as <-. rewrite Hdir in Hq. apply prefix_app_inv in Hq.
      assert (k `prefix_of` segs) as [k' ->] by (etrans; [exact Hq | apply Dir_prefix]).
      apply Forall_app in Hg as [Hg _]. split; [done |]. apply prefix_of_Dir in Hq; [lia | done].
    + rewrite node_at_lookup in Hn by (by destruct (base_of s), k). by apply (ok_layers _ Hs).
Qed.

Lemma append_assoc (a b c : string) : (a +:+ b) +:+ c = a +:+ (b +:+ c).
Proof.
  induction a as [|x a IH]; [done |].
  change ((String x a +:+ b) +:+ c) with (String x ((a +:+ b) +:+ c)). by rewrite IH.
Qed.

Lemma HasSuffix_append (a b : string) : HasSuffix (a +:+ b) b = true.
Proof.
  induction a as [|x a IH].
  - change ("" +:+ b) with b. destruct b; cbn; [done |]. by rewrite bool_decide_true.
  - change (String x a +:+ b) with (String x (a +:+ b)). cbn [HasSuffix]. rewrite IH. apply orb_true_r.
Qed.

Lemma Rel_suffix segs t : segs ≠ [] → HasSuffix (Rel (add_suffix segs t)) t = true.
Proof.
  intros Hne. destruct (exists_last Hne) as (l & x & ->). unfold add_suffix.
  rewrite last_snoc, removelast_last. destruct l as [|y l].
  - apply HasSuffix_append.
  - unfold Rel. cbn [app]. rewrite foldl_app. cbn [foldl]. rewrite <-!append_assoc.
    apply HasSuffix_append.
Qed.

Lemma Put_files s segs data opts :
  store_ok s → key_path segs →
  let '(r, fs') := Put (Rel segs) data opts s.1 s.2 in
  r = Ok () ∧ store_ok (s.1, fs') ∧ live_files (s.1, fs') = <[Rel segs := data]> (live_files s).
Proof.
  intros Hs Hk. destruct (Put_works s segs data opts Hs Hk) as (fs' & -> & Hw & Ht & Hp).
  pose proof (put_at_ok s segs data fs' Hs Hk Hw Ht Hp) as Hs'. split; [done |]. split; [done |].
  pose proof (key_path_nonempty _ Hk) as Hne. destruct (Hk) as (Hl & Hg & _ & Htmp).
  assert (base_of s ++ segs ≠ []) as Hf0 by (by destruct (base_of s), segs).
  assert (∀ k d, fs_nodes fs' !! (base_of s ++ k) = Some (File d) ↔
    (k = segs ∧ d = data) ∨
    (k ≠ segs ∧ k ≠ add_suffix segs ".tmp" ∧ fs_nodes s.2 !! (base_of s ++ k) = Some (File d))) as Hfiles.
  { intros k d. destruct (decide (base_of s ++ k = [])) as [He|Hk0].
    { destruct (base_of s), k; [| done..]. split.
      - intros Hx. by apply Ht in Hx as [].
      - intros [[<- _]|(_ & _ & Hx)]; [done |]. by apply (ok_tree _ Hs) in Hx as []. }
    rewrite <-!node_at_lookup by done. rewrite Hp, add_suffix_app by done.
    case_decide as Hn1.
    { apply (inj (base_of s ++.)) in Hn1 as ->. split; [intros [= <-]; by left |].
      by intros [[_ ->]|[? _]]. }
    assert (k ≠ segs) as Hks by (by intros ->).
    case_decide as Hn2.
    { apply (inj (base_of s ++.)) in Hn2 as ->. split; [done |]. by intros [[? _]|(_ & ? & _)]. }
    assert (k ≠ add_suffix segs ".tmp") by (by intros ->).
    case_decide as Hq.
    - split; [done |]. intros [[? _]|(_ & _ & Hx)]; [done |].
      rewrite node_at_lookup in Hx by done. destruct (file_below _ _ _ Hs Hx) as (_ & _ & H3).
      apply prefix_of_Dir in Hq; [| done]. rewrite !length_app in Hq. lia.
    - split; [by right | by intros [[? _]|(_ & _ & ?)]]. }
  apply map_eq. intros k. apply option_eq. intros d.
  rewrite live_files_spec, lookup_insert_Some, live_files_spec by done.
  change (base_of (s.1, fs')) with (base_of s). cbn [snd]. split.
  - intros (k' & [[-> ->]|(H1 & H2 & H3)]%Hfiles & -> & Ht'); [by left | right].
    destruct (file_below _ _ _ Hs H3) as (H4 & H5 & _). split; [| by exists k'].
    intros He. by apply Rel_inj in He.
  - intros [[<- <-]|(Hd & k' & H1 & -> & Ht')].
    + exists segs. split_and!; [apply Hfiles; by left | done | done].
    + exists k'. split_and!; [| done | done]. apply Hfiles. right. split_and!; [by intros -> | | done].
      intros ->. by rewrite Rel_suffix in Ht'.
Qed.

(** *** Delete *)

Lemma store_ok_sub s fs' :
  store_ok s → fs_fault fs' = fs_fault s.2 → tree (fs_nodes fs') →
  (∀ q x, fs_nodes fs' !! q = Some x → fs_nodes s.2 !! q = Some x) →
  node_at (fs_nodes fs') (base_of s) = Some Dir → store_ok (s.1, fs').
Proof.
  intros Hs Hw Ht Hsub Hb. split; cbn; [apply (ok_open _ Hs) | apply (ok_abs _ Hs) | | done | done |].
  - intros i. rewrite Hw. apply (ok_works _ Hs).
  - intros k x Hk Hx. by apply (ok_layers _ Hs), Hsub.
Qed.

(** Removing an entry below the base. *)
Lemma remove_ok s fs' q :
  store_ok s → fs_fault fs' = fs_fault s.2 → tree (fs_nodes fs') → below (base_of s) q →
  (∀ r, node_at (fs_nodes fs') r = if decide (r = q) then None else node_at (fs_nodes s.2) r) →
  store_ok (s.1, fs').
Proof.
  intros Hs Hw Ht (k & Hk & ->) Hn. apply store_ok_sub; [done.. | |].
  - intros r x Hr. destruct (Ht _ _ Hr) as [Hr0 _].
    rewrite <-node_at_lookup in Hr |- * by done. rewrite Hn in Hr. by destruct (decide _).
  - rewrite Hn, decide_False; [apply (ok_base _ Hs) |]. intros He.
    apply (f_equal length) in He. rewrite length_app in He. destruct k; [done |]. cbn in He. lia.
Qed.

Definition same_files n' n : Prop := ∀ q d, n' !! q = Some (File d) ↔ n !! q = Some (File d).

Lemma cleanEmptyDirs_works s rdir segs :
  store_ok s → length segs < 3 → reverse rdir `prefix_of` base_of s ++ segs →
  ∃ fs', cleanEmptyDirs (basePath s.1) rdir s.2 = (Ok (), fs') ∧ store_ok (s.1, fs') ∧
         same_files (fs_nodes fs') (fs_nodes s.2).
Proof.
  revert s. induction rdir as [|seg rdir IH]; intros s Hs Hl Hq; cbn [cleanEmptyDirs];
    (case_bool_decide as Hne; [by exists s.2; destruct s |]);
    (destruct (storage.HasPrefix (render _) _) eqn:Hp; cbn [negb]; [| by exists s.2; destruct s]);
    pose proof (clean_guard _ _ _ (ok_abs _ Hs) Hq Hne Hp) as Hb.
  { destruct Hb as (k & Hk & Hr). by destruct (Clean (basePath s.1)), k. }
  set (q := reverse (seg :: rdir)) in *. fold (base_of s) in Hb. destruct (Hb) as (k & Hk & Hqk).
  assert (length k < 3) as Hk3.
  { rewrite Hqk in Hq. apply prefix_app_inv, prefix_length in Hq. lia. }
  assert (q ≠ []) as Hq0 by (rewrite Hqk; by destruct (base_of s), k).
  unfold mbind, os_mbind, attempt.
  pose proof (resolve_key s k Hs ltac:(lia)) as Hres. rewrite <-Hqk in Hres.
  destruct (Remove q s.2) as [r fs1] eqn:Hrm.
  assert ((∃ e, r = Fail e ∧ fs1 = move (fs_nodes s.2) s.2) ∨
          (r = Ok () ∧ store_ok (s.1, fs1) ∧ same_files (fs_nodes fs1) (fs_nodes s.2)))
    as [(e & -> & ->)|(-> & Hs1 & Hf1)].
  { destruct (node_at (fs_nodes s.2) q) as [[|d]|] eqn:Hn.
    - destruct (has_children (fs_nodes s.2) q) eqn:Hc.
      + left. rewrite (Remove_full q s.2 (ok_works _ Hs) Hres Hc) in Hrm. simplify_eq. by eexists.
      + right. destruct (Remove_works q Dir s.2 (ok_works _ Hs) (ok_tree _ Hs) Hq0 Hn (λ _, Hc))
          as (fs2 & H1 & H2 & H3 & H4). rewrite Hrm in H1. simplify_eq. split; [done |].
        split; [by eapply remove_ok |]. intros p d. destruct (decide (p = [])) as [->|Hp0].
        { split; intros Hx; [by apply H3 in Hx as [] | by apply (ok_tree _ Hs) in Hx as []]. }
        rewrite <-!node_at_lookup by done. rewrite H4. destruct (decide _) as [->|]; [| done].
        by rewrite Hn.
    - exfalso. rewrite Hqk, node_at_lookup in Hn by (by destruct (base_of s), k).
      destruct (ok_layers _ Hs _ _ Hk Hn). lia.
    - left. rewrite (Remove_missing q s.2 (ok_works _ Hs) Hres) in Hrm. simplify_eq. by eexists. }
  - eexists. split; [done |]. split; [| done]. by apply store_ok_sub; destruct Hs.
  - destruct (IH (s.1, fs1) Hs1 Hl) as (fs2 & H1 & H2 & H3).
    + etrans; [| exact Hq]. unfold q. rewrite reverse_cons. by eexists.
    + exists fs2. split; [done |]. split; [done |]. intros p d. by rewrite (H3 p d).
Qed.

Lemma Delete_files s segs :
  store_ok s → key_path segs →
  let '(r, fs') := Delete (Rel segs) s.1 s.2 in
  store_ok (s.1, fs') ∧ live_files (s.1, fs') = delete (Rel segs) (live_files s) ∧
  r = (if bool_decide (is_Some (live_files s !! Rel segs)) then Ok () else Fail storage.ErrNotFound).
Proof.
  intros Hs Hk. pose proof (key_path_nonempty _ Hk) as Hne. destruct (Hk) as (Hl & Hg & _ & Htmp).
  set (full := base_of s ++ segs).
  assert (full ≠ []) as Hf0 by (unfold full; by destruct (base_of s), segs).
  pose proof (node_at_key s segs Hs Hk) as Hn. fold full in Hn.
  rewrite (live_key s segs Hs Hk). fold full.
  unfold Delete. rewrite checked_key, Join_key by done. fold full.
  unfold mbind, os_mbind, os.ok_or.
  destruct (data_at (fs_nodes s.2) full) as [d|] eqn:Hd; cbn in Hn.
  - destruct (Remove_works full _ s.2 (ok_works _ Hs) (ok_tree _ Hs) Hf0 Hn ltac:(done))
      as (fs1 & -> & Hw1 & Ht1 & Hn1). step.
    assert (below (base_of s) full) as Hbelow by by exists segs.
    pose proof (remove_ok s fs1 full Hs Hw1 Ht1 Hbelow Hn1) as Hs1.
    destruct (cleanEmptyDirs_works (s.1, fs1) (reverse (Dir_ full)) (removelast segs) Hs1)
      as (fs2 & Hcl & Hs2 & Hf2).
    { destruct (exists_last Hne) as (l & x & ->). rewrite removelast_last.
      rewrite length_app in Hl. cbn in Hl. lia. }
    { rewrite reverse_involutive. unfold full, Dir_. by rewrite removelast_app. }
    cbn [fst snd] in Hcl, Hs2, Hf2. rewrite Hcl. split; [done |]. split; [| by rewrite bool_decide_true].
    apply map_eq. intros k. apply option_eq. intros d'.
    rewrite lookup_delete_Some, !live_files_spec by done.
    change (base_of (s.1, fs2)) with (base_of s). cbn [snd].
    assert (∀ k', fs_nodes fs2 !! (base_of s ++ k') = Some (File d') ↔
                  k' ≠ segs ∧ fs_nodes s.2 !! (base_of s ++ k') = Some (File d')) as Hfiles.
    { intros k'. rewrite (Hf2 _ _). destruct (decide (base_of s ++ k' = [])) as [He|Hk0].
      { destruct (base_of s) eqn:Hb, k'; [| done..]. cbn in *. split.
        - intros Hx. by apply Ht1 in Hx as [].
        - intros [_ Hx]. by apply (ok_tree _ Hs) in Hx as []. }
      rewrite <-!node_at_lookup by done. rewrite Hn1. unfold full. case_decide as He.
      - apply (inj (base_of s ++.)) in He as ->. split; [done | by intros []].
      - split; [| by intros []]. intros Hx. split; [by intros -> | done]. }
    split.
    + intros (k' & [Hne' Hx]%Hfiles & -> & Ht'). split; [| by exists k'].
      destruct (file_below _ _ _ Hs Hx) as (H4 & H5 & _). intros He. by apply Rel_inj in He.
    + intros (Hne' & k' & Hx & -> & Ht'). exists k'. split_and!; [| done | done].
      apply Hfiles. split; [by intros -> | done].
  - rewrite Remove_missing; [step | apply (ok_works _ Hs) |].
    2:{ unfold full in *. rewrite resolve_key by (done || lia). by rewrite Hn. }
    split; [by destruct s as [f fs]; destruct Hs |]. split; [| done].
    rewrite delete_id; [by destruct s | by rewrite (live_key s segs Hs Hk)].
Qed.

(** A new backend on a base with nothing below it. *)
Lemma NewFileBackend_works basePath fs :
  storage.HasPrefix basePath "/" = true → works fs → tree (fs_nodes fs) →
  (∀ q d, q `prefix_of` Clean basePath → node_at (fs_nodes fs) q ≠ Some (File d)) →
  (∀ q, below (Clean basePath) q → fs_nodes fs !! q = None) →
  ∃ f fs', NewFileBackend basePath fs = (Ok f, fs') ∧ store_ok (f, fs') ∧ live_files (f, fs') = ∅.
Proof.
  intros Habs Hw Ht Hf Hb.
  destruct (mkdir_loop_ok [] (Clean basePath) fs Hw Ht eq_refl Hf) as (fs' & H1 & H2 & H3 & H4).
  set (f := {| basePath := basePath; closed := false |}).
  assert (∀ k, k ≠ [] → fs_nodes fs' !! (Clean basePath ++ k) = None) as Hnone.
  { intros k Hk. rewrite <-node_at_lookup by (by destruct (Clean basePath), k).
    rewrite (H4 _). cbn [app]. rewrite decide_False.
    - rewrite node_at_lookup by (by destruct (Clean basePath), k). apply Hb. by exists k.
    - intros Hq%prefix_length. rewrite length_app in Hq. destruct k; [done |]. cbn in Hq. lia. }
  assert (store_ok (f, fs')) as Hs.
  { split; cbn; [done | done | intros i; by rewrite H2 | done | |].
    - change (base_of (f, fs')) with (Clean basePath). rewrite (H4 _). by rewrite decide_True.
    - intros k x Hk Hx. pose proof (eq_trans (eq_sym Hx) (Hnone k Hk)). done. }
  exists f, fs'. split; [| split; [done |]].
  - unfold NewFileBackend. rewrite bool_decide_false by (by intros ->).
    unfold mbind, os_mbind, os.ok_or, MkdirAll. by rewrite H1.
  - apply map_eq. intros k. apply option_eq. intros d. rewrite live_files_spec by done.
    rewrite lookup_empty. split; [| done]. intros (segs & Hd & _).
    destruct (file_below _ _ _ Hs Hd) as (Hne & _). pose proof (eq_trans (eq_sym Hd) (Hnone segs Hne)). done.
Qed.

(** ** The contract *)

#[export] Program Instance file_laws : BackendLaws backend storage.ErrNotFound := {|
  b_accepts := file_key;
  b_open := store_ok;
  b_live := λ _, live_files;
|}.
Next Obligation. intros now k s Hs (segs & Hk & ->)%file_key_path. by apply Get_files. Qed.
Next Obligation. intros now k s Hs (segs & Hk & ->)%file_key_path. by apply Exists_files. Qed.
Next Obligation. intros now p s Hs. by apply List_files. Qed.
Next Obligation.
  intros now k d o s Hs (segs & Hk & ->)%file_key_path _. cbn.
  pose proof (Put_files s segs d o Hs Hk) as Hp.
  destruct (Put _ _ _ _ _) as [r fs']. by destruct Hp as (-> & ? & ?).
Qed.
Next Obligation.
  intros k s Hs (segs & Hk & ->)%file_key_path. cbn. pose proof (Delete_files s segs Hs Hk) as Hd.
  destruct (Delete _ _ _) as [r fs']. destruct Hd as (H1 & H2 & ->). split_and!; [done | done | |].
  - intros _ Hl. by rewrite bool_decide_true.
  - case_bool_decide; auto.
Qed.

(** C27: on a disk that works, under an absolute base directory whose tree is as
    the backend makes it, the file backend is a map from keys to data for every
    key of three plain segments: a put succeeds and inserts, a delete removes
    or answers [ErrNotFound], reads answer with what was put last, the listing
    is exact and without repetition and shows no temporary file, and the tree
    keeps its shape, whatever empty directories a delete has cleaned up. *)
Theorem file_store_is_a_map s key data opts :
  store_ok s → file_key key →
  (Get key s.1 s.2).1
    = match live_files s !! key with Some d => Ok d | None => Fail storage.ErrNotFound end ∧
  (Exists_ key s.1 s.2).1 = Ok (bool_decide (is_Some (live_files s !! key))) ∧
  (let '(r, fs') := Put key data opts s.1 s.2 in
   r = Ok () ∧ store_ok (s.1, fs') ∧ live_files (s.1, fs') = <[key := data]> (live_files s)) ∧
  (let '(r, fs') := Delete key s.1 s.2 in
   store_ok (s.1, fs') ∧ live_files (s.1, fs') = delete key (live_files s) ∧
   r = (if bool_decide (is_Some (live_files s !! key)) then Ok () else Fail storage.ErrNotFound)) ∧
  (∀ prefix, ∃ keys, (List_ prefix s.1 s.2).1 = Ok keys ∧ NoDup keys ∧
     ∀ k, k ∈ keys ↔ storage.HasPrefix k prefix = true ∧ is_Some (live_files s !! k)).
Proof.
  intros Hs (segs & Hk & ->)%file_key_path. split_and!.
  - by apply Get_files.
  - by apply Exists_files.
  - by apply Put_files.
  - by apply Delete_files.
  - intros prefix. by apply List_files.
Qed.
End Operations.
