(* ===== verification/SecurityErrors.v ===== *)
(** * Error sanitization: [pkg/frost/security/errors.go]

    The package's error values and the sanitizer that removes cryptographic
    material from messages before they leave the library.  Go's [regexp] package
    is a parameter: the theorems hold for every behaviour of the engine, so they
    rest on the structure of the code alone.  They say what a sanitized error
    still tells its reader: the scrubbed text and at most one of three security
    errors, never the wrapped protocol errors. *)

From stdpp Require Import pretty.
From S2P Require Export Errors.

Module security.

Definition ErrCommitmentReused : error :=
  OpaqueError "commitment reused - CRITICAL security violation".
Definition ErrInvalidSession : error := OpaqueError "invalid session ID".
Definition ErrSessionExpired : error := OpaqueError "session expired".
Definition ErrParticipantNotFound : error := OpaqueError "participant not found".
Definition ErrInvalidCommitmentData : error := OpaqueError "invalid commitment data".
Definition ErrMessageTooLarge : error := OpaqueError "message size exceeds maximum allowed".
Definition ErrMessageValidationFailed : error := OpaqueError "message validation failed".
Definition ErrAuthenticationFailed : error :=
  OpaqueError "participant authentication failed".
Definition ErrParticipantExcluded : error :=
  OpaqueError "participant is excluded due to misbehavior".

Definition redactedPlaceholder : string := "[REDACTED]".

Inductive ErrorSanitizationMode : Set :=
| ErrorSanitizationProduction
| ErrorSanitizationDevelopment
| ErrorSanitizationDisabled.

#[export] Instance ErrorSanitizationMode_eq_dec : EqDecision ErrorSanitizationMode.
Proof. solve_decision. Defined.

Record ErrorSanitizerConfig := {
  Mode : ErrorSanitizationMode;
  AllowParticipantID : bool;
  AllowSessionID : bool;
}.

Definition DefaultProductionErrorConfig : ErrorSanitizerConfig :=
  {| Mode := ErrorSanitizationProduction; AllowParticipantID := true; AllowSessionID := false |}.
Definition DefaultDevelopmentErrorConfig : ErrorSanitizerConfig :=
  {| Mode := ErrorSanitizationDevelopment; AllowParticipantID := true; AllowSessionID := true |}.

(** The functions of Go's [regexp] the sanitizer uses, with the pattern given as
    its source text. *)
Class Regexp : Type := {
  ReplaceAllString : string → string → string → string;
  ReplaceAllStringFunc : string → string → (string → string) → string;
  FindStringSubmatch : string → string → list string;
}.

(** The fields a sanitizer is constructed with. *)
Record ErrorSanitizer := {
  config : ErrorSanitizerConfig;
  hexPattern : string;
  base64Pattern : string;
  byteArrayPattern : string;
  scalarPattern : string;
  commitmentPattern : string;
  signaturePattern : string;
}.

Definition NewErrorSanitizer (config : ErrorSanitizerConfig) : ErrorSanitizer :=
  {| config := config;
     hexPattern := "0x[0-9a-fA-F]{8,}|[0-9a-fA-F]{16,}";
     base64Pattern := "[A-Za-z0-9+/]{16,}={0,2}";
     byteArrayPattern := "\[[0-9 ,]{16,}\]";
     scalarPattern := "(?i)(scalar|nonce|key|secret|share)[=:]\s*[^\s,)]+";
     commitmentPattern := "(?i)(commitment|hiding|binding)[=:]\s*[^\s,)]+";
     signaturePattern := "(?i)(signature|sig_share|z)[=:]\s*[^\s,)]+" |}.

(** [strings.TrimSpace] on ASCII text. *)
Definition is_space (c : Ascii.ascii) : bool :=
  let n := Ascii.nat_of_ascii c in ((9 <=? n) && (n <=? 13)) || (n =? 32).

Fixpoint trim_left (s : string) : string :=
  match s with
  | String c s' => if is_space c then trim_left s' else s
  | EmptyString => EmptyString
  end.
Definition TrimSpace (s : string) : string :=
  String.rev (trim_left (String.rev (trim_left s))).

Section Sanitizer.
Context `{Regexp}.

Definition sanitizeProduction (s : ErrorSanitizer) (msg : string) : string :=
  let msg := ReplaceAllString (hexPattern s) msg "[REDACTED]" in
  let msg := ReplaceAllString (base64Pattern s) msg "[REDACTED]" in
  let msg := ReplaceAllString (byteArrayPattern s) msg "[REDACTED]" in
  let msg := ReplaceAllString (scalarPattern s) msg "$1=[REDACTED]" in
  let msg := ReplaceAllString (commitmentPattern s) msg "$1=[REDACTED]" in
  let msg := ReplaceAllString (signaturePattern s) msg "$1=[REDACTED]" in
  let msg := if AllowSessionID (config s) then msg
             else ReplaceAllString "(?i)session[: ]+([a-z0-9-]+)" msg "session: [REDACTED]" in
  let msg := ReplaceAllString "(\[REDACTED\]\s*){2,}" msg "[REDACTED]" in
  TrimSpace msg.

(** The callbacks of [sanitizeDevelopment]. *)
Definition keep_field (pattern : string) (m : string) : string :=
  match FindStringSubmatch pattern m with
  | _ :: field :: _ => field +:+ "=[REDACTED]"
  | _ => redactedPlaceholder
  end.
Definition show_length (kind : string) (m : string) : string :=
  "[" +:+ kind +:+ ":" +:+ pretty (String.length m) +:+ "]".

Definition sanitizeDevelopment (s : ErrorSanitizer) (msg : string) : string :=
  let msg := ReplaceAllStringFunc (scalarPattern s) msg
               (keep_field "(?i)(scalar|nonce|key|secret|share)[=:]\s*") in
  let msg := ReplaceAllStringFunc (commitmentPattern s) msg
               (keep_field "(?i)(commitment|hiding|binding)[=:]\s*") in
  let msg := ReplaceAllStringFunc (signaturePattern s) msg
               (keep_field "(?i)(signature|sig_share|z)[=:]\s*") in
  let msg := ReplaceAllStringFunc (hexPattern s) msg (show_length "HEX") in
  let msg := ReplaceAllStringFunc (base64Pattern s) msg (show_length "B64") in
  let msg := ReplaceAllStringFunc (byteArrayPattern s) msg (show_length "BYTES") in
  TrimSpace msg.

(** [None] is the nil error. *)
Definition Sanitize (s : ErrorSanitizer) (err : option error) : option error :=
  match err with
  | None => None
  | Some e =>
      if bool_decide (Mode (config s) = ErrorSanitizationDisabled) then Some e
      else
        let msg := Error e in
        let msg := if bool_decide (Mode (config s) = ErrorSanitizationProduction)
                   then sanitizeProduction s msg else sanitizeDevelopment s msg in
        Some (if errors_Is_value e ErrCommitmentReused then Errorf msg ErrCommitmentReused
              else if errors_Is_value e ErrAuthenticationFailed
                   then Errorf msg ErrAuthenticationFailed
              else if errors_Is_value e ErrMessageValidationFailed
                   then Errorf msg ErrMessageValidationFailed
              else FreshError msg)
  end.

(** [fmt.Errorf("%s: %w", msg, err)]; on a nil error Go prints the verb's
    failure and wraps nothing. *)
Definition wrapf (msg : string) (err : option error) : error :=
  match err with
  | Some e => Errorf msg e
  | None => FreshError (msg +:+ ": %!w(<nil>)")
  end.

(** The participant is passed as an [interface{}] and printed with [%v];
    [participantID] is that text. *)
Definition SanitizeCommitmentError (s : ErrorSanitizer) (sessionID participantID : string)
    (baseErr : option error) : option error :=
  if bool_decide (Mode (config s) = ErrorSanitizationDisabled) then baseErr
  else
    let sanitizedBase := Sanitize s baseErr in
    let msg :=
      if AllowParticipantID (config s) && AllowSessionID (config s) then
        "commitment validation failed for participant " +:+ participantID
          +:+ " in session " +:+ sessionID
      else if AllowParticipantID (config s) then
        "commitment validation failed for participant " +:+ participantID
      else "commitment validation failed" in
    Some (wrapf msg sanitizedBase).

Definition SanitizeVerificationError (s : ErrorSanitizer) (operation : string)
    (baseErr : option error) : option error :=
  if bool_decide (Mode (config s) = ErrorSanitizationDisabled) then baseErr
  else
    let sanitizedBase := Sanitize s baseErr in
    let msg := "verification failed for " +:+ operation in
    Some (match sanitizedBase with Some e => Errorf msg e | None => FreshError msg end).

(** The package variable [globalSanitizer], its initial value and its setter; a
    nil sanitizer leaves it as it is. *)
Definition globalSanitizer : ErrorSanitizer := NewErrorSanitizer DefaultProductionErrorConfig.
Definition SetGlobalSanitizer (cur : ErrorSanitizer) (sanitizer : option ErrorSanitizer)
  : ErrorSanitizer := default cur sanitizer.
Definition SanitizeError (cur : ErrorSanitizer) (err : option error) : option error :=
  Sanitize cur err.
End Sanitizer.
End security.

(** ** Theorems *)

Section Facts.
Context `{security.Regexp}.
Import security.

(** The errors whose identity survives. *)
Definition preserved : list error :=
  [ErrCommitmentReused; ErrAuthenticationFailed; ErrMessageValidationFailed].

(** The one that is kept: the first of them in the chain's error. *)
Definition kept (e : error) : option error :=
  list_find (λ t, errors_Is_value e t = true) preserved ≫= λ p, Some p.2.

(** The text a sanitizer lets through. *)
Definition scrub (s : ErrorSanitizer) (msg : string) : string :=
  if bool_decide (Mode (config s) = ErrorSanitizationProduction)
  then sanitizeProduction s msg else sanitizeDevelopment s msg.

Lemma Sanitize_Some s e :
  Mode (config s) ≠ ErrorSanitizationDisabled →
  Sanitize s (Some e) = Some (match kept e with
                              | Some t => Errorf (scrub s (Error e)) t
                              | None => FreshError (scrub s (Error e))
                              end).
Proof.
  intros Hm. unfold Sanitize, kept, preserved, scrub. rewrite (bool_decide_eq_false_2 _ Hm).
  cbn [list_find]. destruct (errors_Is_value e ErrCommitmentReused); [done |].
  destruct (errors_Is_value e ErrAuthenticationFailed); [done |].
  by destruct (errors_Is_value e ErrMessageValidationFailed).
Qed.

Lemma kept_preserved e t : kept e = Some t → t ∈ preserved ∧ errors_Is_value e t = true.
Proof.
  unfold kept. destruct (list_find _ _) as [[i x]|] eqn:Hf; [| done]. intros [= <-].
  apply list_find_Some in Hf as (Hx & ? & _). split; [by eapply list_elem_of_lookup_2 | done].
Qed.

Lemma errors_Is_value_wrapped p x m :
  errors_Is_value (Errorf p (OpaqueError x)) (OpaqueError m) = true ↔ x = m.
Proof.
  unfold errors_Is_value. cbn [chain existsb].
  rewrite !orb_true_iff, !bool_decide_eq_true. naive_solver.
Qed.

(** Outside the disabled mode a sanitized error tells its reader the
    scrubbed text and at most one of the three preserved security errors: it is
    that error for [errors.Is] and no other package's error, in particular no
    FROST error, it carries no culprits, and it is the same for every error
    with the same text and the same preserved identity. *)
Theorem sanitize_discloses s e e' :
  Mode (config s) ≠ ErrorSanitizationDisabled → Sanitize s (Some e) = Some e' →
  (∀ m, errors_Is_value e' (OpaqueError m) = true ↔ kept e = Some (OpaqueError m)) ∧
  (∀ s', errors_Is e' s' = false) ∧ GetCulprits e' = [] ∧
  (∀ e2, Error e2 = Error e → kept e2 = kept e → Sanitize s (Some e2) = Some e').
Proof.
  intros Hm. rewrite Sanitize_Some by done. intros [= <-].
  split; [| split; [| split]].
  4: by intros e2 Ht Hk; rewrite Sanitize_Some, Ht, Hk.
  all: destruct (kept e) as [t|] eqn:Hk; try done.
  all: apply kept_preserved in Hk as [Hk _]; unfold preserved in Hk; rewrite !elem_of_cons, elem_of_nil in Hk;
    destruct Hk as [-> |[-> |[-> |[]]]]; try done.
  all: intros m; unfold ErrCommitmentReused, ErrAuthenticationFailed, ErrMessageValidationFailed;
    rewrite errors_Is_value_wrapped; naive_solver.
Qed.

(** What the trackers rely on: reuse stays recognizable in every mode. *)
Lemma SanitizeCommitmentError_reused s session pid :
  ∃ e, SanitizeCommitmentError s session pid (Some ErrCommitmentReused) = Some e ∧
       errors_Is_value e ErrCommitmentReused = true.
Proof.
  unfold SanitizeCommitmentError. case_bool_decide as Hm; [eauto |].
  rewrite Sanitize_Some by done. by eexists.
Qed.
End Facts.
