(* ===== verification/Group.v ===== *)
(** * Randomness, the prime-order group interface and the ciphersuite interface

    [Rand] is the state monad of code that reads [crypto/rand].  [Group] and
    [Ciphersuite] are the Go interfaces of [pkg/frost/group/interface.go] and
    [pkg/frost/ciphersuite/interface.go] as type classes of operations;
    [GroupLaws] is the contract the interface comments state, against which the
    protocol is proved. *)

From Stdlib Require Export Field.
From S2P Require Export Prelude.
From S2P Require Export Errors.

(** ** The system random source

    [rng_read k n] is what the [k]-th read of [n] bytes returns: the bytes, or
    [None] when [rand.Read] fails.  Reading advances the call counter. *)

Record Rng := { rng_read : nat → nat → option bytes; rng_calls : nat }.

Definition Rand (A : Type) : Type := Rng → Res A * Rng.

#[export] Instance rand_mret : MRet Rand := λ A a r, (Ok a, r).
#[export] Instance rand_mbind : MBind Rand := λ A B k m r,
  match m r with
  | (Ok a, r') => k a r'
  | (Fail e, r') => (Fail e, r')
  | (Panic, r') => (Panic, r')
  end.

(** A deterministic call inside randomised code. *)
Definition lift {A} (m : Res A) : Rand A := λ r, (m, r).

(** [rand.Read(buf)] with [len(buf) = n]; the error is the system's own. *)
Definition rand_Read (n : nat) : Rand bytes := λ r,
  let r' := {| rng_read := rng_read r; rng_calls := S (rng_calls r) |} in
  match rng_read r (rng_calls r) n with
  | Some bs => (Ok bs, r')
  | None => (Fail (OpaqueError "crypto/rand: read failed"), r')
  end.

(** [if err != nil { return f(err) }] after a randomised call. *)
Definition rand_wrap {A} (f : error → error) (m : Rand A) : Rand A := λ r,
  let '(o, r') := m r in (wrap f o, r').

(** [for i := range out { out[i] = draw() }] with early return. *)
Fixpoint rand_repeat {A} (n : nat) (m : Rand A) : Rand (list A) :=
  match n with
  | O => mret []
  | S n' => x ← m; xs ← rand_repeat n' m; mret (x :: xs)
  end.

Fixpoint rand_map {A B} (f : A → Rand B) (l : list A) : Rand (list B) :=
  match l with
  | [] => mret []
  | x :: l' => y ← f x; ys ← rand_map f l'; mret (y :: ys)
  end.

(** A loop over [l] with an accumulator and early return. *)
Fixpoint rand_loop {A B} (body : B → A → Rand B) (l : list A) (acc : B) : Rand B :=
  match l with
  | [] => mret acc
  | x :: l' => acc' ← body acc x; rand_loop body l' acc'
  end.

(** A source whose reads all succeed, and code that then succeeds too. *)
Definition rng_works (r : Rng) : Prop := ∀ k n, is_Some (rng_read r k n).
Definition samples {A} (m : Rand A) : Prop :=
  ∀ r, rng_works r → ∃ a r', m r = (Ok a, r') ∧ rng_works r'.

(** ** group/interface.go *)

Inductive ByteOrder_t : Set := LittleEndian | BigEndian.

#[export] Instance ByteOrder_eq_dec : EqDecision ByteOrder_t.
Proof. solve_decision. Defined.

Class Group : Type := {
  Element : Type;
  Scalar : Type;
  (* group.Element *)
  e_Add : Element → Element → Element;
  e_Negate : Element → Element;
  e_IsIdentity : Element → bool;
  e_Equal : Element → Element → bool;
  e_Bytes : Element → bytes;
  e_Copy : Element → Element;
  (* group.Scalar *)
  s_Add : Scalar → Scalar → Scalar;
  s_Sub : Scalar → Scalar → Scalar;
  s_Mul : Scalar → Scalar → Scalar;
  s_Inv : Scalar → Res Scalar;
  s_Negate : Scalar → Scalar;
  s_IsZero : Scalar → bool;
  s_Equal : Scalar → Scalar → bool;
  s_Bytes : Scalar → bytes;
  s_Copy : Scalar → Scalar;
  s_Compare : Scalar → Scalar → Z;
  (* group.Group *)
  Order : bytes;
  Cofactor : Scalar;
  Identity : Element;
  Generator : Element;
  NewScalar : Scalar;
  NewElement : Element;
  RandomScalar : Rand Scalar;
  ScalarMult : Element → Scalar → Element;
  ScalarBaseMult : Scalar → Element;
  SerializeElement : Element → Res bytes;
  DeserializeElement : bytes → Res Element;
  SerializeScalar : Scalar → bytes;
  DeserializeScalar : bytes → Res Scalar;
  ElementLength : nat;
  ScalarLength : nat;
  Name : string;
  ByteOrder : ByteOrder_t;
}.

(** ** ciphersuite/interface.go *)

Class Ciphersuite (G : Group) : Type := {
  ID : string;
  H1 : bytes → Scalar;
  H2 : bytes → Scalar;
  H3 : bytes → Scalar;
  H4 : bytes → bytes;
  H5 : bytes → bytes;
  HDKG : bytes → Scalar;
  HID : bytes → Scalar;
  HashToCurve : bytes → Res Element;
  Hash : bytes → bytes;
  VerifySignature : bytes → bytes → Element → Res unit;
  ContextString : string;
}.

(** ** The contract of the group interface *)

(** The integer a canonical scalar encoding denotes in a group's byte order. *)
Definition decode_int (o : ByteOrder_t) (bs : bytes) : Z :=
  match o with LittleEndian => le_combine bs | BigEndian => be_combine bs end.

Class GroupLaws (G : Group) : Type := {
  (** The order [p], the residue of an integer modulo [p], the inverse. *)
  order : Z;
  sc : Z → Scalar;
  sc_inverse : Scalar → Scalar;
  law_order : (2 ^ 32 < order)%Z;
  law_sc_eq a b : sc a = sc b ↔ (a mod order = b mod order)%Z;
  law_sc_add a b : sc (a + b)%Z = s_Add (sc a) (sc b);
  law_sc_mul a b : sc (a * b)%Z = s_Mul (sc a) (sc b);
  (** Scalars form the field GF(p). *)
  law_field : field_theory (sc 0) (sc 1) s_Add s_Mul s_Sub s_Negate
                (λ x y, s_Mul x (sc_inverse y)) sc_inverse eq;
  law_NewScalar : NewScalar = sc 0;
  law_s_IsZero x : s_IsZero x = true ↔ x = sc 0;
  law_s_Equal x y : s_Equal x y = true ↔ x = y;
  law_s_Copy x : s_Copy x = x;
  law_s_Inv x : x ≠ sc 0 → s_Inv x = Ok (sc_inverse x);
  law_s_Inv_zero : ∃ e, s_Inv (sc 0) = Fail e;
  (** Fixed-length canonical scalar encodings. *)
  law_ScalarLength : 4 ≤ ScalarLength;
  law_DeserializeScalar bs :
    length bs = ScalarLength → (decode_int ByteOrder bs < order)%Z →
    DeserializeScalar bs = Ok (sc (decode_int ByteOrder bs));
  law_SerializeScalar_length x : length (SerializeScalar x) = ScalarLength;
  law_SerializeScalar x : DeserializeScalar (SerializeScalar x) = Ok x;
  law_s_Bytes x : s_Bytes x = SerializeScalar x;
  (** Elements form an abelian group on which scalars act. *)
  law_e_assoc P Q R : e_Add P (e_Add Q R) = e_Add (e_Add P Q) R;
  law_e_comm P Q : e_Add P Q = e_Add Q P;
  law_e_id P : e_Add P Identity = P;
  law_e_neg P : e_Add P (e_Negate P) = Identity;
  law_NewElement : NewElement = Identity;
  law_e_IsIdentity P : e_IsIdentity P = true ↔ P = Identity;
  law_e_Equal P Q : e_Equal P Q = true ↔ P = Q;
  law_e_Copy P : e_Copy P = P;
  law_mult_one P : ScalarMult P (sc 1) = P;
  law_mult_add P x y : ScalarMult P (s_Add x y) = e_Add (ScalarMult P x) (ScalarMult P y);
  law_mult_mul P x y : ScalarMult P (s_Mul x y) = ScalarMult (ScalarMult P x) y;
  law_mult_e_add P Q x : ScalarMult (e_Add P Q) x = e_Add (ScalarMult P x) (ScalarMult Q x);
  law_base x : ScalarBaseMult x = ScalarMult Generator x;
  (** The generator has order exactly [p]. *)
  law_generator x : ScalarBaseMult x = Identity → x = sc 0;
  (** Fixed-length canonical element encodings; the identity has none. *)
  law_e_Bytes_length P : P ≠ Identity → length (e_Bytes P) = ElementLength;
  law_e_Bytes_inj P Q : e_Bytes P = e_Bytes Q → P = Q;
  law_SerializeElement P : P ≠ Identity → SerializeElement P = Ok (e_Bytes P);
  law_SerializeElement_id : ∃ e, SerializeElement Identity = Fail e;
  law_DeserializeElement P : P ≠ Identity → DeserializeElement (e_Bytes P) = Ok P;
}.

Declare Scope scalar_scope.
Delimit Scope scalar_scope with S.
Infix "+" := s_Add : scalar_scope.
Infix "-" := s_Sub : scalar_scope.
Infix "*" := s_Mul : scalar_scope.
Notation "- x" := (s_Negate x) : scalar_scope.
Notation "0" := (sc 0) : scalar_scope.
Notation "1" := (sc 1) : scalar_scope.

Declare Scope element_scope.
Delimit Scope element_scope with E.
Infix "⊞" := e_Add (at level 50, left associativity) : element_scope.
Notation "P ⊡ k" := (ScalarMult P k) (at level 40, left associativity) : element_scope.
Notation "'g^' k" := (ScalarBaseMult k) (at level 30, k at level 9) : element_scope.

Create HintDb frost.

(** ** Runs of randomised code *)

Section RandLemmas.
Context {A B : Type}.

Lemma rand_bind_Ok (m : Rand A) (k : A → Rand B) r b r' :
  (m ≫= k) r = (Ok b, r') ↔ ∃ a r1, m r = (Ok a, r1) ∧ k a r1 = (Ok b, r').
Proof.
  unfold mbind, rand_mbind. destruct (m r) as [[a|e|] r1].
  - split; [eauto | intros (?&?&[= -> ->]&?); done].
  - split; [done | by intros (?&?&[=]&?)].
  - split; [done | by intros (?&?&[=]&?)].
Qed.

Lemma lift_Ok (m : Res A) r a r' : lift m r = (Ok a, r') ↔ m = Ok a ∧ r' = r.
Proof. unfold lift. naive_solver. Qed.

Lemma rand_wrap_Ok (f : error → error) (m : Rand A) r a r' :
  rand_wrap f m r = (Ok a, r') ↔ m r = (Ok a, r').
Proof.
  unfold rand_wrap. destruct (m r) as [o r1]. destruct o; simpl; naive_solver.
Qed.

Lemma rand_ret_Ok (a b : A) r r' : (mret a : Rand A) r = (Ok b, r') ↔ a = b ∧ r' = r.
Proof. unfold mret, rand_mret. naive_solver. Qed.
End RandLemmas.

Section RandRepeatLemmas.
Context {A : Type}.

Lemma rand_repeat_length n (m : Rand A) r xs r' :
  rand_repeat n m r = (Ok xs, r') → length xs = n.
Proof.
  revert r xs r'. induction n as [|n IH]; intros r xs r' H.
  - by injection H as <- _.
  - cbn [rand_repeat] in H. apply rand_bind_Ok in H as (x & r1 & _ & H).
    apply rand_bind_Ok in H as (ys & r2 & Hys & H). injection H as <- _.
    simpl. f_equal. by eapply IH.
Qed.

Lemma rand_repeat_Forall (P : A → Prop) n (m : Rand A) r xs r' :
  (∀ r x r', m r = (Ok x, r') → P x) → rand_repeat n m r = (Ok xs, r') → Forall P xs.
Proof.
  intros Hm. revert r xs r'. induction n as [|n IH]; intros r xs r' H.
  - injection H as <- _. constructor.
  - cbn [rand_repeat] in H. apply rand_bind_Ok in H as (x & r1 & Hx & H).
    apply rand_bind_Ok in H as (ys & r2 & Hys & H). injection H as <- _.
    constructor; [by eapply Hm | by eapply IH].
Qed.

(** A draw that fails only with its source makes a sampling loop that does. *)
Lemma rand_repeat_total n (m : Rand A) : samples m → samples (rand_repeat n m).
Proof.
  intros Hm. induction n as [|n IH]; intros r Hr; [by exists [], r |].
  destruct (Hm r Hr) as (a & r1 & Ha & Hr1). destruct (IH r1 Hr1) as (xs & r2 & Hxs & Hr2).
  exists (a :: xs), r2. split; [| done]. cbn [rand_repeat]. apply rand_bind_Ok.
  exists a, r1. split; [done |]. apply rand_bind_Ok. by exists xs, r2.
Qed.
End RandRepeatLemmas.

Section RandMapLemmas.
Context {A B : Type}.

Lemma rand_map_Forall2 (P : A → B → Prop) (f : A → Rand B) l r ys r' :
  (∀ x r y r', x ∈ l → f x r = (Ok y, r') → P x y) →
  rand_map f l r = (Ok ys, r') → Forall2 P l ys.
Proof.
  revert r ys r'. induction l as [|x l IH]; intros r ys r' HP H.
  - injection H as <- _. constructor.
  - cbn [rand_map] in H. apply rand_bind_Ok in H as (y & r1 & Hy & H).
    apply rand_bind_Ok in H as (ys' & r2 & Hys & H). injection H as <- _.
    constructor; [eapply HP; [apply list_elem_of_here | done] |].
    eapply IH; [| done]. intros z ? ? ? Hz. apply HP. by apply list_elem_of_further.
Qed.
End RandMapLemmas.

(** [rand_inv] decomposes a hypothesis that a randomised call returned [Ok]. *)
Ltac rand_inv_step :=
  match goal with
  | H : (_ ≫= _) _ = (Ok _, _) |- _ =>
      let a := fresh "x" in let r := fresh "rng" in let H1 := fresh "Hx" in
      apply rand_bind_Ok in H as (a & r & H1 & H)
  | H : lift _ _ = (Ok _, _) |- _ =>
      let H1 := fresh "Hl" in apply lift_Ok in H as (H1 & ->)
  | H : rand_wrap _ _ _ = (Ok _, _) |- _ => apply rand_wrap_Ok in H
  | H : mret _ _ = (Ok _, _) |- _ =>
      let He := fresh "He" in apply rand_ret_Ok in H as (He & ->); simplify_eq
  | H : (Ok _, _) = (Ok _, _) |- _ => injection H as H
  end.

Ltac rand_inv := repeat (rand_inv_step || ok_inv_step).

(** ** Consequences of the laws *)

Section GroupFacts.
Context {G : Group} {L : GroupLaws G}.
Add Field scalar_field : law_field.

Implicit Types (x y : Scalar) (P Q : Element).
Local Open Scope scalar_scope.
Local Open Scope element_scope.

#[export] Instance scalar_eq_dec : EqDecision Scalar.
Proof.
  intros x y. destruct (s_Equal x y) eqn:E.
  - left. by apply law_s_Equal.
  - right. intros H. apply law_s_Equal in H. congruence.
Defined.

#[export] Instance element_eq_dec : EqDecision Element.
Proof.
  intros x y. destruct (e_Equal x y) eqn:E.
  - left. by apply law_e_Equal.
  - right. intros H. apply law_e_Equal in H. congruence.
Defined.

Lemma s_Equal_decide x y : s_Equal x y = bool_decide (x = y).
Proof.
  destruct (s_Equal x y) eqn:E; symmetry.
  - apply bool_decide_eq_true. by apply law_s_Equal.
  - apply bool_decide_eq_false. intros H. apply law_s_Equal in H. congruence.
Qed.

Lemma e_Equal_decide P Q : e_Equal P Q = bool_decide (P = Q).
Proof.
  destruct (e_Equal P Q) eqn:E; symmetry.
  - apply bool_decide_eq_true. by apply law_e_Equal.
  - apply bool_decide_eq_false. intros H. apply law_e_Equal in H. congruence.
Qed.

Lemma s_Equal_refl x : s_Equal x x = true.
Proof. by apply law_s_Equal. Qed.

Lemma e_Equal_refl P : e_Equal P P = true.
Proof. by apply law_e_Equal. Qed.

Lemma s_IsZero_decide x : s_IsZero x = bool_decide (x = 0).
Proof.
  destruct (s_IsZero x) eqn:E; symmetry.
  - apply bool_decide_eq_true. by apply law_s_IsZero.
  - apply bool_decide_eq_false. intros H. apply law_s_IsZero in H. congruence.
Qed.

Lemma e_IsIdentity_decide P : e_IsIdentity P = bool_decide (P = Identity).
Proof.
  destruct (e_IsIdentity P) eqn:E; symmetry.
  - apply bool_decide_eq_true. by apply law_e_IsIdentity.
  - apply bool_decide_eq_false. intros H. apply law_e_IsIdentity in H. congruence.
Qed.

Lemma one_neq_zero : (1 : Scalar) ≠ 0.
Proof. apply (F_1_neq_0 law_field). Qed.

Lemma inverse_l x : x ≠ 0 → sc_inverse x * x = 1.
Proof. apply (Finv_l law_field). Qed.

Lemma mul_zero_iff x y : x * y = 0 → x = 0 ∨ y = 0.
Proof.
  intros H. destruct (decide (x = 0)) as [|Hx]; [by left | right].
  replace y with (sc_inverse x * (x * y)); [rewrite H; ring |].
  replace (sc_inverse x * (x * y)) with ((sc_inverse x * x) * y) by ring.
  rewrite inverse_l by done. ring.
Qed.

Lemma mul_nonzero x y : x ≠ 0 → y ≠ 0 → x * y ≠ 0.
Proof. intros Hx Hy [|]%mul_zero_iff; done. Qed.

Lemma inverse_nonzero x : x ≠ 0 → sc_inverse x ≠ 0.
Proof.
  intros Hx H. apply one_neq_zero. rewrite <-(inverse_l x) by done.
  rewrite H. ring.
Qed.

Lemma sub_zero_iff x y : x - y = 0 ↔ x = y.
Proof.
  split; [intros H | intros ->; ring].
  replace x with ((x - y) + y) by ring. rewrite H. ring.
Qed.

Lemma sub_nonzero x y : x ≠ y → x - y ≠ 0.
Proof. by rewrite sub_zero_iff. Qed.

(** *** Elements *)

Lemma e_id_l P : Identity ⊞ P = P.
Proof. by rewrite law_e_comm, law_e_id. Qed.

Lemma e_add_cancel_l P Q R : P ⊞ Q = P ⊞ R → Q = R.
Proof.
  intros H. rewrite <-(e_id_l Q), <-(e_id_l R), <-(law_e_neg P), (law_e_comm P).
  by rewrite <-!law_e_assoc, H.
Qed.

Lemma e_add_swap P Q R S : (P ⊞ Q) ⊞ (R ⊞ S) = (P ⊞ R) ⊞ (Q ⊞ S).
Proof.
  rewrite <-!law_e_assoc. f_equal. rewrite !law_e_assoc. f_equal. apply law_e_comm.
Qed.

Lemma mult_zero P : P ⊡ 0 = Identity.
Proof.
  apply (e_add_cancel_l (P ⊡ 0)). rewrite <-law_mult_add, law_e_id.
  f_equal. ring.
Qed.

Lemma mult_identity x : Identity ⊡ x = Identity.
Proof.
  apply (e_add_cancel_l (Identity ⊡ x)). by rewrite <-law_mult_e_add, !law_e_id.
Qed.

Lemma mult_comm P x y : P ⊡ x ⊡ y = P ⊡ y ⊡ x.
Proof. rewrite <-!law_mult_mul. f_equal. ring. Qed.

Lemma base_add x y : g^(x + y) = g^x ⊞ g^y.
Proof. by rewrite !law_base, law_mult_add. Qed.

Lemma base_mul x y : g^x ⊡ y = g^(x * y).
Proof. by rewrite !law_base, law_mult_mul. Qed.

Lemma base_zero : g^0 = Identity.
Proof. by rewrite law_base, mult_zero. Qed.

Lemma base_inj x y : g^x = g^y → x = y.
Proof.
  intros H. apply sub_zero_iff, law_generator.
  apply (e_add_cancel_l (g^y)). rewrite law_e_id, <-base_add, <-H.
  f_equal. ring.
Qed.

Lemma base_identity_iff x : g^x = Identity ↔ x = 0.
Proof. split; [apply law_generator | intros ->; apply base_zero]. Qed.

Lemma mult_neg P x : P ⊡ (- x) = e_Negate (P ⊡ x).
Proof.
  apply (e_add_cancel_l (P ⊡ x)). rewrite law_e_neg, <-law_mult_add.
  replace (x + - x) with (0 : Scalar) by ring. apply mult_zero.
Qed.

(** Multiplication by a non-zero scalar is injective. *)
Lemma mult_cancel P Q x : x ≠ 0 → P ⊡ x = Q ⊡ x → P = Q.
Proof.
  intros Hx H. rewrite <-(law_mult_one P), <-(law_mult_one Q), <-(inverse_l x Hx).
  rewrite !law_mult_mul, !(mult_comm _ (sc_inverse x)). by rewrite H.
Qed.

(** *** Residues of identifiers *)

Lemma sc_inj_small a b : is_uint32 a → is_uint32 b → sc a = sc b → a = b.
Proof.
  unfold is_uint32, uint32_max. pose proof law_order. intros Ha Hb.
  rewrite law_sc_eq, !Z.mod_small by lia. done.
Qed.

Lemma sc_nonzero a : (0 < a ≤ uint32_max)%Z → sc a ≠ 0.
Proof.
  intros Ha H. apply sc_inj_small in H; unfold is_uint32, uint32_max in *; lia.
Qed.
End GroupFacts.

Create Rewrite HintDb laws.
#[export] Hint Rewrite @law_s_Copy @law_e_Copy @law_NewScalar @law_NewElement : laws.
#[export] Hint Resolve one_neq_zero mul_nonzero inverse_nonzero sub_nonzero : frost.
