(* ===== verification/Types.v ===== *)
(** * Core data types: [pkg/frost/types.go] and [pkg/frost/identifier.go]

    The structs are records; an interface value that the code tests against
    nil, or that arrives from another participant, is an [option].  Identifiers
    are integers that satisfy [is_uint32]. *)

From S2P Require Export Group.

(** ** Identifier *)

(** [Identifier.Serialize]: big-endian, [byte(id >> 24), ..., byte(id)]. *)
Definition Serialize (id : Z) : bytes :=
  [byte.of_Z (Z.shiftr id 24); byte.of_Z (Z.shiftr id 16);
   byte.of_Z (Z.shiftr id 8); byte.of_Z id].

Definition DeserializeIdentifier (data : bytes) : Res Z :=
  match data with
  | [b0; b1; b2; b3] =>
      let id := Z.lor (Z.lor (Z.lor (Z.shiftl (byte.unsigned b0) 24)
                                    (Z.shiftl (byte.unsigned b1) 16))
                             (Z.shiftl (byte.unsigned b2) 8))
                      (byte.unsigned b3) in
      _ ← fail_if (id =? 0)%Z
            (NewParameterError "identifier" "cannot be zero" (Sentinel ErrInvalidParticipant));
      Ok id
  | _ => Fail (NewParameterError "data" "must be exactly 4 bytes"
                 (Sentinel ErrDeserializationFailed))
  end.

Definition IsValid (id : Z) : bool := negb (id =? 0)%Z.

(** [binary.BigEndian.Uint32] and [binary.LittleEndian.Uint32] read the first
    four bytes and panic on a shorter slice. *)
Definition BigEndian_Uint32 (b : bytes) : Res Z :=
  match b with
  | b0 :: b1 :: b2 :: b3 :: _ => Ok (be_combine [b0; b1; b2; b3])
  | _ => Panic
  end.

Definition LittleEndian_Uint32 (b : bytes) : Res Z :=
  match b with
  | b0 :: b1 :: b2 :: b3 :: _ => Ok (le_combine [b0; b1; b2; b3])
  | _ => Panic
  end.

(** ** Records *)

Section Records.
Context {G : Group}.

Record SigningCommitments := {
  cm_Identifier : Z;
  HidingNonceCommitment : option Element;
  BindingNonceCommitment : option Element;
}.

Record SigningNonces := {
  HidingNonce : option Scalar;
  BindingNonce : option Scalar;
  Commitments : SigningCommitments;
}.

Record SignatureShare := {
  share_Identifier : Z;
  share_value : option Scalar;
}.

Record Signature := {
  sig_R : option Element;
  sig_Z : option Scalar;
}.

Record SecretKeyShare := {
  sks_Identifier : Z;
  sks_SecretShare : option Scalar;
}.

Record VerificationShare := {
  vs_Identifier : Z;
  VerificationKey : option Element;
}.

Record KeyPackage := {
  kp_Identifier : Z;
  SecretShare : option Scalar;
  GroupPublicKey : option Element;
  VerificationShares : list VerificationShare;
  MinSigners : Z;
  MaxSigners : Z;
}.

Record BindingFactor := {
  bf_Identifier : Z;
  bf_value : Scalar;
}.

(** Constant term first. *)
Record Polynomial := { Coefficients : list Scalar }.

Record Configuration := {
  cfg_MinSigners : Z;
  cfg_MaxSigners : Z;
  cfg_Group_set : bool;  (** [config.Group != nil] *)
}.

(** The zero value of [SigningNonces] that Go returns next to an error. *)
Definition zero_commitments : SigningCommitments :=
  {| cm_Identifier := 0; HidingNonceCommitment := None; BindingNonceCommitment := None |}.

(** *** Zeroize methods: a non-nil scalar becomes [x.Sub(x)]; the byte copy
    that is wiped in between is unreachable afterwards. *)

Definition zeroize_scalar (o : option Scalar) : option Scalar :=
  match o with Some x => Some (s_Sub x x) | None => None end.

Definition SigningNonces_Zeroize (n : SigningNonces) : SigningNonces :=
  {| HidingNonce := zeroize_scalar (HidingNonce n);
     BindingNonce := zeroize_scalar (BindingNonce n);
     Commitments := Commitments n |}.

Definition SecretKeyShare_Zeroize (s : SecretKeyShare) : SecretKeyShare :=
  {| sks_Identifier := sks_Identifier s;
     sks_SecretShare := zeroize_scalar (sks_SecretShare s) |}.

Definition KeyPackage_Zeroize (kp : KeyPackage) : KeyPackage :=
  {| kp_Identifier := kp_Identifier kp;
     SecretShare := zeroize_scalar (SecretShare kp);
     GroupPublicKey := GroupPublicKey kp;
     VerificationShares := VerificationShares kp;
     MinSigners := MinSigners kp;
     MaxSigners := MaxSigners kp |}.

Definition Polynomial_Zeroize (p : Polynomial) : Polynomial :=
  {| Coefficients := (λ c, s_Sub c c) <$> Coefficients p |}.

(** ** identifier.go *)

Context {CS : Ciphersuite G}.

Definition DeriveIdentifier (data : bytes) : Res Z :=
  _ ← fail_if (bool_decide (data = []))
        (NewParameterError "data" "cannot be empty" (Sentinel ErrInvalidParameters));
  let scalarBytes := s_Bytes (HID data) in
  id ← match ByteOrder with
       | BigEndian => BigEndian_Uint32 (drop (length scalarBytes - 4) scalarBytes)
       | LittleEndian => if length scalarBytes <? 4 then Panic
                         else LittleEndian_Uint32 (take 4 scalarBytes)
       end;
  Ok (if (id =? 0)%Z then 1%Z else id).

(** [[]byte(s)]: the bytes of the string. *)
Definition string_bytes (s : string) : bytes := String.list_byte_of_string s.

Definition DeriveIdentifierFromString (s : string) : Res Z :=
  DeriveIdentifier (string_bytes s).

(** [panic(err)] *)
Definition MustDeriveIdentifier (data : bytes) : Res Z :=
  match DeriveIdentifier data with Fail _ => Panic | o => o end.
End Records.

(** [type CommitmentList []SigningCommitments], [type BindingFactorList []BindingFactor]. *)
Abbreviation CommitmentList := (list SigningCommitments).
Abbreviation BindingFactorList := (list BindingFactor).

(** ** Theorems *)

Lemma be_combine_Serialize id : be_combine (Serialize id) = (id mod 2 ^ 32)%Z.
Proof.
  change (be_combine (Serialize id)) with
    (le_combine [byte.of_Z id; byte.of_Z (Z.shiftr id 8); byte.of_Z (Z.shiftr id 16);
                 byte.of_Z (Z.shiftr id 24)]).
  replace [byte.of_Z id; byte.of_Z (Z.shiftr id 8); byte.of_Z (Z.shiftr id 16);
           byte.of_Z (Z.shiftr id 24)] with (le_split 4 id).
  - by rewrite le_combine_split.
  - unfold le_split. by rewrite !Z.shiftr_shiftr by lia.
Qed.

(** The little-endian bytes of a 32-bit integer. *)
Lemma le_split_4 i :
  [byte.of_Z i; byte.of_Z (Z.shiftr i 8); byte.of_Z (Z.shiftr i 16);
   byte.of_Z (Z.shiftr i 24)] = le_split 4 i.
Proof. unfold le_split. by rewrite !Z.shiftr_shiftr by lia. Qed.

Lemma le_split_4_inj i j :
  is_uint32 i → is_uint32 j → le_split 4 i = le_split 4 j → i = j.
Proof.
  intros Hi Hj H. apply (f_equal le_combine) in H. rewrite !le_combine_split in H.
  unfold is_uint32, uint32_max in *. change (2 ^ (Z.of_nat 4 * 8))%Z with (2 ^ 32)%Z in H.
  by rewrite !Z.mod_small in H by lia.
Qed.

Lemma be_combine_4 b0 b1 b2 b3 :
  be_combine [b0; b1; b2; b3] =
  Z.lor (Z.lor (Z.lor (Z.shiftl (byte.unsigned b0) 24) (Z.shiftl (byte.unsigned b1) 16))
               (Z.shiftl (byte.unsigned b2) 8)) (byte.unsigned b3).
Proof.
  change (be_combine [b0; b1; b2; b3]) with (le_combine [b3; b2; b1; b0]).
  unfold le_combine. rewrite !Z.shiftl_lor, !Z.shiftl_shiftl, Z.shiftl_0_l, Z.lor_0_r by lia.
  rewrite (Z.lor_comm (byte.unsigned b3)). f_equal.
  rewrite (Z.lor_comm (Z.shiftl (byte.unsigned b2) 8)). f_equal.
  by rewrite Z.lor_comm.
Qed.

Lemma length_4_inv {A} (l : list A) :
  length l = 4 → ∃ a b c d, l = [a; b; c; d].
Proof. destruct l as [|a [|b [|c [|d [|]]]]]; try done. intros _. by exists a, b, c, d. Qed.

Lemma Serialize_be_combine b0 b1 b2 b3 :
  Serialize (be_combine [b0; b1; b2; b3]) = [b0; b1; b2; b3].
Proof.
  assert (Hlen : length (Serialize (be_combine [b0; b1; b2; b3])) = 4) by done.
  pose proof (be_combine_Serialize (be_combine [b0; b1; b2; b3])) as Hv.
  assert (0 ≤ be_combine [b0; b1; b2; b3] < 2 ^ 32)%Z
    by (apply (le_combine_bound [b3; b2; b1; b0])).
  rewrite Z.mod_small in Hv by done.
  unfold be_combine in Hv at 1. apply (inj reverse).
  apply LittleEndianList.le_combine_inj; [done |]. exact Hv.
Qed.

Lemma Uint32_range b0 b1 b2 b3 : is_uint32 (le_combine [b0; b1; b2; b3]).
Proof.
  pose proof (le_combine_bound [b0; b1; b2; b3]) as Hb.
  unfold is_uint32, uint32_max.
  change (2 ^ (8 * Z.of_nat (length [b0; b1; b2; b3])))%Z with (2 ^ 32)%Z in Hb. lia.
Qed.

(** Encoding an identifier and decoding it gives it back, and decoding
    accepts exactly the encodings of the non-zero 32-bit identifiers. *)
Theorem identifier_roundtrip data id :
  DeserializeIdentifier data = Ok id ↔ data = Serialize id ∧ is_uint32 id ∧ IsValid id = true.
Proof.
  split.
  - destruct data as [|b0 [|b1 [|b2 [|b3 [|]]]]]; try done. unfold DeserializeIdentifier.
    rewrite <-be_combine_4. intros H. ok_inv. subst id.
    unfold IsValid. rewrite Hr, Serialize_be_combine. split; [done |]. split; [| done].
    apply (Uint32_range b3 b2 b1 b0).
  - intros (-> & Hid & Hv). unfold DeserializeIdentifier, Serialize at 1.
    rewrite <-be_combine_4. fold (Serialize id). rewrite be_combine_Serialize.
    unfold is_uint32, uint32_max in Hid. rewrite Z.mod_small by lia.
    unfold IsValid in Hv. apply negb_true_iff in Hv. by rewrite Hv.
Qed.

(** Equality of the records is decidable because that of scalars and elements is. *)
Section RecordDecisions.
Context {G : Group} {L : GroupLaws G}.

#[export] Instance SigningCommitments_eq_dec : EqDecision SigningCommitments.
Proof. solve_decision. Defined.
#[export] Instance SigningNonces_eq_dec : EqDecision SigningNonces.
Proof. solve_decision. Defined.
#[export] Instance SignatureShare_eq_dec : EqDecision SignatureShare.
Proof. solve_decision. Defined.
#[export] Instance Signature_eq_dec : EqDecision Signature.
Proof. solve_decision. Defined.
#[export] Instance VerificationShare_eq_dec : EqDecision VerificationShare.
Proof. solve_decision. Defined.
#[export] Instance KeyPackage_eq_dec : EqDecision KeyPackage.
Proof. solve_decision. Defined.
End RecordDecisions.

Section TypesFacts.
Context {G : Group} {L : GroupLaws G} {CS : Ciphersuite G}.
Add Field scalar_field : law_field.

Lemma zeroize_scalar_zero o x : zeroize_scalar o = Some x → x = sc 0.
Proof. destruct o; simpl; [intros [= <-]; ring | done]. Qed.

(** Deriving an identifier from non-empty data always succeeds with a
    valid (non-zero) 32-bit identifier. *)
Theorem DeriveIdentifier_valid data :
  data ≠ [] →
  ∃ id, DeriveIdentifier data = Ok id ∧ is_uint32 id ∧ IsValid id = true.
Proof.
  intros Hd. unfold DeriveIdentifier. rewrite bool_decide_eq_false_2 by done. simpl.
  rewrite law_s_Bytes. pose proof (law_SerializeScalar_length (HID data)) as Hlen.
  pose proof law_ScalarLength as H4. set (bs := SerializeScalar (HID data)) in *.
  assert (∃ v, match ByteOrder with
               | LittleEndian => if length bs <? 4 then Panic
                                 else LittleEndian_Uint32 (take 4 bs)
               | BigEndian => BigEndian_Uint32 (drop (length bs - 4) bs)
               end = Ok v ∧ is_uint32 v) as (v & Hv & Hr).
  { destruct ByteOrder.
    - rewrite (proj2 (Nat.ltb_ge _ _)) by lia.
      destruct (length_4_inv (take 4 bs)) as (b0 & b1 & b2 & b3 & ->);
        [rewrite length_take; lia |].
      eexists. split; [done | apply Uint32_range].
    - destruct (length_4_inv (drop (length bs - 4) bs)) as (b0 & b1 & b2 & b3 & ->);
        [rewrite length_drop; lia |].
      eexists. split; [done |]. apply (Uint32_range b3 b2 b1 b0). }
  rewrite Hv. simpl. eexists. split; [done |].
  unfold IsValid. destruct (Z.eqb_spec v 0) as [->|Hne]; [done |].
  split; [done |]. by apply negb_true_iff, Z.eqb_neq.
Qed.
End TypesFacts.
