(* ===== verification/Hashing.v ===== *)
(** * The hash functions of the ciphersuites

    SHA-256, SHA-512 and SHAKE256 are parameters.  What the suites build from
    them is here: [expandMessageXMD], the same function in
    [ciphersuite/p256_sha256] and [ciphersuite/secp256k1_sha256], which is
    shown to be RFC 9380's [expand_message_xmd], and [domainSeparate], the same
    in all five suites, whose inputs are shown to be disjoint. *)

From S2P Require Export Types.

(** ** Hash functions *)

Class SHA256 : Type := { sha256 : bytes → bytes }.
Class SHA256Laws (S : SHA256) : Prop := { law_sha256_length b : length (sha256 b) = 32 }.

Class SHA512 : Type := { sha512 : bytes → bytes }.
Class SHA512Laws (S : SHA512) : Prop := { law_sha512_length b : length (sha512 b) = 64 }.

(** [shake256 k b]: the first [k] bytes of the output for [b]. *)
Class SHAKE256 : Type := { shake256 : nat → bytes → bytes }.
Class SHAKE256Laws (S : SHAKE256) : Prop := {
  law_shake256_length k b : length (shake256 k b) = k
}.

(** ** expand_message_xmd *)

Section Expand.
Context {S256 : SHA256}.

Definition bInBytes : nat := 32.
Definition sInBytes : nat := 64.

(** [for j := 0; j < bInBytes; j++ { xored[j] = b0[j] ^ bPrev[j] }] *)
Definition strxor (a b : bytes) : bytes :=
  zip_with (λ x y, byte.of_Z (Z.lxor (byte.unsigned x) (byte.unsigned y))) a b.

(** One round of the loop: append [b_i] and keep it. *)
Definition xmd_round (b0 dstPrime : bytes) (acc : bytes * bytes) (i : nat) : bytes * bytes :=
  let '(uniformBytes, bPrev) := acc in
  let xored := strxor b0 bPrev in
  let biInput := xored ++ [byte.of_Z (Z.of_nat i)] ++ dstPrime in
  let bi := sha256 biInput in
  (uniformBytes ++ bi, bi).

(** [for i := 2; i <= ell; i++] runs over [seq 2 (ell - 1)]. *)
Definition expandMessageXMD (msg dst : bytes) (lenInBytes : nat) : Res bytes :=
  let ell := (lenInBytes + bInBytes - 1) / bInBytes in
  if (255 <? ell) || (255 <? length dst) || (65535 <? Z.of_nat lenInBytes)%Z then Panic
  else
    let dstPrime := dst ++ [byte.of_Z (Z.of_nat (length dst))] in
    let zPad := zero_bytes sInBytes in
    let libStr := [byte.of_Z (Z.shiftr (Z.of_nat lenInBytes) 8); byte.of_Z (Z.of_nat lenInBytes)] in
    let msgPrime := zPad ++ msg ++ libStr ++ [byte.of_Z 0] ++ dstPrime in
    let b0 := sha256 msgPrime in
    let b1 := sha256 (b0 ++ [byte.of_Z 1] ++ dstPrime) in
    let '(uniformBytes, _) := foldl (xmd_round b0 dstPrime) (b1, b1) (seq 2 (ell - 1)) in
    Ok (take lenInBytes uniformBytes).

(** *** RFC 9380, section 5.3.1 *)

Definition I2OSP (v : Z) (n : nat) : bytes := reverse (le_split n v).

Section Rfc.
Context (msg DST : bytes) (len_in_bytes : nat).

Definition DST_prime : bytes := DST ++ I2OSP (Z.of_nat (length DST)) 1.
Definition msg_prime : bytes :=
  I2OSP 0 64 ++ msg ++ I2OSP (Z.of_nat len_in_bytes) 2 ++ I2OSP 0 1 ++ DST_prime.
Definition b_0 : bytes := sha256 msg_prime.

(** [b_(i+1)] *)
Fixpoint b_succ (i : nat) : bytes :=
  match i with
  | O => sha256 (b_0 ++ I2OSP 1 1 ++ DST_prime)
  | S i' => sha256 (strxor b_0 (b_succ i') ++ I2OSP (Z.of_nat i + 1) 1 ++ DST_prime)
  end.

Definition expand_message_xmd : option bytes :=
  let ell := (len_in_bytes + 31) / 32 in
  if (ell <=? 255) && (Z.of_nat len_in_bytes <=? 65535)%Z && (length DST <=? 255)
  then Some (take len_in_bytes (concat (b_succ <$> seq 0 ell))) else None.
End Rfc.

Section Correct.
Context (msg dst : bytes) (L : nat).

Local Abbreviation b0 := (b_0 msg dst L).
Local Abbreviation b := (b_succ msg dst L).

Lemma xmd_rounds k :
  foldl (xmd_round b0 (DST_prime dst)) (b 0, b 0) (seq 2 k) = (concat (b <$> seq 0 (S k)), b k).
Proof.
  induction k as [|k IH]; [cbn; by rewrite app_nil_r |].
  rewrite seq_S, foldl_app, IH. cbn [foldl xmd_round].
  assert (sha256 (strxor b0 (b k) ++ [byte.of_Z (Z.of_nat (2 + k))] ++ DST_prime dst) = b (S k))
    as ->.
  { cbn [b_succ]. do 3 f_equal. unfold I2OSP. cbn [le_split reverse rev_append].
    by replace (Z.of_nat (2 + k)) with (Z.of_nat (S k) + 1)%Z by lia. }
  f_equal. rewrite (seq_S (S k)), fmap_app, concat_app. cbn. by rewrite app_nil_r.
Qed.

Lemma msg_prime_eq :
  zero_bytes sInBytes ++ msg
    ++ [byte.of_Z (Z.shiftr (Z.of_nat L) 8); byte.of_Z (Z.of_nat L)] ++ [byte.of_Z 0]
    ++ DST_prime dst
  = msg_prime msg dst L.
Proof. done. Qed.

(** The code is the RFC's function; it panics exactly where the RFC aborts. *)
Lemma expandMessageXMD_rfc :
  expandMessageXMD msg dst L
  = match expand_message_xmd msg dst L with Some out => Ok out | None => Panic end.
Proof.
  unfold expandMessageXMD, expand_message_xmd, bInBytes.
  replace (L + 32 - 1) with (L + 31) by lia.
  change (dst ++ [byte.of_Z (Z.of_nat (length dst))]) with (DST_prime dst).
  rewrite msg_prime_eq. change (sha256 (msg_prime msg dst L)) with b0.
  change (sha256 (b0 ++ [byte.of_Z 1] ++ DST_prime dst)) with (b 0).
  rewrite xmd_rounds.
  rewrite !Nat.ltb_antisym, Z.ltb_antisym, <-!negb_andb.
  replace (((L + 31) / 32 <=? 255) && (length dst <=? 255) && (Z.of_nat L <=? 65535)%Z)
    with (((L + 31) / 32 <=? 255) && (Z.of_nat L <=? 65535)%Z && (length dst <=? 255))
    by (by rewrite <-!andb_assoc, (andb_comm (length dst <=? 255))).
  destruct (_ && _ && _); [cbn [negb] | done].
  destruct (decide (L = 0)) as [->|HL]; [by rewrite !take_0 |]. do 2 f_equal.
  pose proof (Nat.Div0.div_le_mono 32 (L + 31) 32) as Hd. rewrite Nat.div_same in Hd by lia.
  by replace (S ((L + 31) / 32 - 1)) with ((L + 31) / 32) by lia.
Qed.

Lemma b_succ_length `{!SHA256Laws S256} i : length (b i) = 32.
Proof. destruct i; apply law_sha256_length. Qed.

Lemma length_blocks `{!SHA256Laws S256} l : length (concat (b <$> l)) = 32 * length l.
Proof.
  induction l as [|i l IH]; [done |]. cbn [fmap list_fmap concat length].
  rewrite length_app, b_succ_length. etrans; [apply (f_equal (Nat.add 32) IH) | lia].
Qed.

Lemma length_expand `{!SHA256Laws S256} out :
  expand_message_xmd msg dst L = Some out → length out = L.
Proof.
  pose proof (Nat.div_mod_eq (L + 31) 32). pose proof (Nat.mod_upper_bound (L + 31) 32 ltac:(done)).
  unfold expand_message_xmd. set (d := (L + 31) / 32) in *. clearbody d.
  destruct (_ && _ && _); [| done]. intros [= <-].
  rewrite length_take, length_blocks, length_seq. lia.
Qed.
End Correct.

(** The first two inputs of the hash function in an expansion: those of [b_0]
    and of [b_1]. *)
Definition xmd_queries (msg dst : bytes) (L : nat) : list bytes :=
  [msg_prime msg dst L; b_0 msg dst L ++ I2OSP 1 1 ++ DST_prime dst].

(** Two computations collide when inputs at the same place of the two differ
    and have the same hash: a collision of SHA-256 that can be read off. *)
Definition collide (qs qs' : list bytes) : Prop :=
  ∃ x y, (x, y) ∈ zip qs qs' ∧ x ≠ y ∧ sha256 x = sha256 y.

Lemma expand_first_block `{!SHA256Laws S256} msg dst L out :
  32 ≤ L → expand_message_xmd msg dst L = Some out → take 32 out = b_succ msg dst L 0.
Proof.
  intros HL. pose proof (Nat.Div0.div_le_mono 32 (L + 31) 32) as Hd.
  rewrite Nat.div_same in Hd by lia.
  unfold expand_message_xmd. set (d := (L + 31) / 32) in *. clearbody d.
  destruct (_ && _ && _); [| done]. intros [= <-].
  destruct d as [|k]; [lia |]. cbn [seq fmap list_fmap concat].
  rewrite take_take, Nat.min_l by lia. apply take_app_length'. symmetry.
  by apply (b_succ_length _ _ _).
Qed.

(** Expansions to the same 32 or more bytes come from the same message and tag,
    or collide. *)
Lemma expand_collision_free `{!SHA256Laws S256} msg dst msg' dst' L out :
  32 ≤ L → expand_message_xmd msg dst L = Some out → expand_message_xmd msg' dst' L = Some out →
  msg = msg' ∧ dst = dst' ∨ collide (xmd_queries msg dst L) (xmd_queries msg' dst' L).
Proof.
  intros HL H H'. apply expand_first_block in H, H'; [| done..]. rewrite H in H'.
  cbn [b_succ] in H'.
  destruct (decide (b_0 msg dst L ++ I2OSP 1 1 ++ DST_prime dst
                    = b_0 msg' dst' L ++ I2OSP 1 1 ++ DST_prime dst')) as [Hi|Hi].
  2: { right. do 2 eexists. split; [apply list_elem_of_further, list_elem_of_here | done]. }
  apply app_inj_1 in Hi as [H0 Hd]; [| unfold b_0; by rewrite !law_sha256_length].
  apply app_inv_head in Hd.
  destruct (decide (msg_prime msg dst L = msg_prime msg' dst' L)) as [Hm|Hm];
    [| right; do 2 eexists; split; [apply list_elem_of_here | done]].
  unfold msg_prime in Hm. rewrite Hd in Hm.
  apply app_inv_head, app_inv_tail in Hm. apply app_inj_tail in Hd as [-> _]. by left.
Qed.
End Expand.

(** ** Domain separation *)

Definition domainSeparate (contextString domain : string) (data : bytes) : bytes :=
  string_bytes contextString ++ string_bytes domain ++ data.

Definition domainH1 : string := "rho".
Definition domainH2 : string := "chal".
Definition domainH3 : string := "nonce".
Definition domainH4 : string := "msg".
Definition domainH5 : string := "com".

Definition domains : list string :=
  [domainH1; domainH2; domainH3; domainH4; domainH5; "dkg"; "id"; "h2c"].

Definition contexts : list string :=
  ["FROST-P256-SHA256-v1"; "FROST-secp256k1-SHA256-v1"; "FROST-RISTRETTO255-SHA512-v1";
   "FROST-ED25519-SHA512-v1"; "FROST-ED448-SHAKE256-v1"].

(** The strings in front of the data: a context and a domain, and Ed448's
    prefix of challenges. *)
Definition headers : list bytes :=
  (string_bytes "SigEd448" ++ [byte.of_Z 0; byte.of_Z 0])
  :: (c ← contexts; (λ d, string_bytes c ++ string_bytes d) <$> domains).

(** No string of a list is a prefix of another one. *)
Fixpoint prefix_free (l : list bytes) : bool :=
  match l with
  | [] => true
  | a :: l' =>
      forallb (λ b, negb (bool_decide (a `prefix_of` b)) && negb (bool_decide (b `prefix_of` a))) l'
      && prefix_free l'
  end.

Lemma prefix_free_eq l a b :
  prefix_free l = true → a ∈ l → b ∈ l → a `prefix_of` b → a = b.
Proof.
  induction l as [|c l IH]; [intros _ []%not_elem_of_nil |]. cbn [prefix_free].
  intros [Hc Hl]%andb_true_iff Ha Hb Hp. rewrite forallb_forall in Hc.
  assert (∀ d, d ∈ l → ¬ c `prefix_of` d ∧ ¬ d `prefix_of` c) as Hd.
  { intros d Hd%list_elem_of_In. specialize (Hc d Hd). apply andb_true_iff in Hc as [H1 H2].
    by rewrite !negb_true_iff, !bool_decide_eq_false in H1, H2. }
  apply elem_of_cons in Ha as [->|Ha], Hb as [->|Hb]; [done | | | by apply IH].
  - by destruct (Hd b Hb).
  - by destruct (Hd a Ha).
Qed.

Lemma prefix_free_app l a b x y :
  prefix_free l = true → a ∈ l → b ∈ l → a ++ x = b ++ y → a = b ∧ x = y.
Proof.
  intros Hl Ha Hb H.
  assert (a = b) as ->.
  { destruct (prefix_weak_total a b (b ++ y)) as [Hp|Hp].
    - exists x. done.
    - by exists y.
    - by apply (prefix_free_eq l).
    - symmetry. by apply (prefix_free_eq l). }
  split; [done | by apply app_inv_head in H].
Qed.

Lemma headers_prefix_free : prefix_free headers = true.
Proof. vm_compute. done. Qed.

Lemma header_domain c d : c ∈ contexts → d ∈ domains → string_bytes c ++ string_bytes d ∈ headers.
Proof.
  intros Hc Hd. apply elem_of_cons. right. apply list_elem_of_bind. exists c. split; [| done].
  apply list_elem_of_fmap. by exists d.
Qed.

(** The concatenation of a context and a domain determines both. *)
Definition labels : list (string * string) := c ← contexts; (λ d, (c, d)) <$> domains.

Lemma label_inj c d c' d' :
  c ∈ contexts → d ∈ domains → c' ∈ contexts → d' ∈ domains →
  string_bytes c ++ string_bytes d = string_bytes c' ++ string_bytes d' → c = c' ∧ d = d'.
Proof.
  assert (Forall (λ p : string * string, Forall (λ q : string * string,
    string_bytes p.1 ++ string_bytes p.2 = string_bytes q.1 ++ string_bytes q.2 → p = q) labels)
    labels) as H by (apply (bool_decide_unpack _); by vm_compute).
  intros Hc Hd Hc' Hd' He.
  assert (∀ c d, c ∈ contexts → d ∈ domains → (c, d) ∈ labels) as Hin.
  { intros x y Hx Hy. apply list_elem_of_bind. exists x. split; [| done].
    apply list_elem_of_fmap. by exists y. }
  rewrite Forall_forall in H. specialize (H (c, d) (Hin _ _ Hc Hd)).
  rewrite Forall_forall in H. specialize (H (c', d') (Hin _ _ Hc' Hd') He). by injection H.
Qed.

(** The inputs made under different contexts or domains never coincide, and
    under the same ones only for the same data; none of them has Ed448's prefix
    of challenges. *)
Lemma domainSeparate_inj c d x c' d' x' :
  c ∈ contexts → d ∈ domains → c' ∈ contexts → d' ∈ domains →
  (domainSeparate c d x = domainSeparate c' d' x' → c = c' ∧ d = d' ∧ x = x') ∧
  domainSeparate c d x ≠ string_bytes "SigEd448" ++ [byte.of_Z 0; byte.of_Z 0] ++ x'.
Proof.
  intros Hc Hd Hc' Hd'. unfold domainSeparate. rewrite !app_assoc. split.
  - intros H. eapply prefix_free_app in H as [Hl ->]; [| apply headers_prefix_free | | ];
      [| by apply header_domain..].
    by apply label_inj in Hl as [-> ->].
  - intros H.
    eapply prefix_free_app in H as [Hl _]; [| apply headers_prefix_free | by apply header_domain |
      apply list_elem_of_here].
    assert (Forall (λ p : string * string, string_bytes p.1 ++ string_bytes p.2
      ≠ string_bytes "SigEd448" ++ [byte.of_Z 0; byte.of_Z 0]) labels) as Hn
      by (apply (bool_decide_unpack _); by vm_compute).
    rewrite Forall_forall in Hn. apply (Hn (c, d)); [| done].
    apply list_elem_of_bind. exists c. split; [| done]. apply list_elem_of_fmap. by exists d.
Qed.
