(* ===== verification/CurveLib.v ===== *)
(** * From a curve library to the group contract

    Each package of [pkg/frost/group/] wraps the scalars and points of a curve
    library behind the [Group] interface.  [AdapterLaws] says in terms of
    integers and of repeated addition what such an adapter has to get right on
    its valid values, and [adapter_closed] that its own operations lead from
    valid values to valid values.  [restrict] is the adapter with its types cut
    down to those values, and [restrict_laws] derives the contract [GroupLaws]
    that the protocol is proved against.  Decoding a point is the one operation
    that may leave the valid values, so there [restrict] differs from the code:
    it refuses the points that are not valid. *)

From coqutil Require Import Z.PushPullMod.
From S2P Require Export Group.

(** ** Integers as byte strings of a fixed length *)

Definition encode_int (o : ByteOrder_t) (len : nat) (z : Z) : bytes :=
  match o with LittleEndian => le_split len z | BigEndian => reverse (le_split len z) end.

Lemma length_encode_int o len z : length (encode_int o len z) = len.
Proof. destruct o; cbn [encode_int]; rewrite ?length_reverse; apply length_le_split. Qed.

Lemma decode_encode_int o len z :
  (0 ≤ z < 2 ^ (8 * Z.of_nat len))%Z → decode_int o (encode_int o len z) = z.
Proof.
  intros Hz. destruct o; cbn [encode_int decode_int]; unfold be_combine;
    rewrite ?reverse_involutive, le_combine_split, (Z.mul_comm (Z.of_nat len) 8);
    by apply Z.mod_small.
Qed.

Lemma encode_decode_int o bs : encode_int o (length bs) (decode_int o bs) = bs.
Proof.
  destruct o; cbn [encode_int decode_int]; unfold be_combine.
  - apply split_le_combine.
  - rewrite <-(length_reverse bs), split_le_combine. apply reverse_involutive.
Qed.

Lemma decode_int_bound o bs : (0 ≤ decode_int o bs < 2 ^ (8 * Z.of_nat (length bs)))%Z.
Proof.
  destruct o; cbn [decode_int]; unfold be_combine; [apply le_combine_bound |].
  rewrite <-(length_reverse bs). apply le_combine_bound.
Qed.

Lemma decode_int_inj o bs bs' :
  length bs = length bs' → decode_int o bs = decode_int o bs' → bs = bs'.
Proof. intros Hl H. by rewrite <-(encode_decode_int o bs), Hl, H, encode_decode_int. Qed.

(** ** Repeated addition in an abelian group *)

Class AbelianOn {A : Type} (ok : A → Prop) (add : A → A → A) (zero : A) (neg : A → A) : Prop := {
  ab_add_ok x y : ok x → ok y → ok (add x y);
  ab_zero_ok : ok zero;
  ab_neg_ok x : ok x → ok (neg x);
  ab_assoc x y z : ok x → ok y → ok z → add x (add y z) = add (add x y) z;
  ab_comm x y : ok x → ok y → add x y = add y x;
  ab_id x : ok x → add x zero = x;
  ab_neg x : ok x → add x (neg x) = zero;
}.

(** [k] times [x]. *)
Definition nmul {A} (add : A → A → A) (zero : A) (k : Z) (x : A) : A :=
  Nat.iter (Z.to_nat k) (add x) zero.

Section Multiples.
Context {A : Type} {ok : A → Prop} {add : A → A → A} {zero : A} {neg : A → A}
  `{HA : !AbelianOn ok add zero neg}.
Implicit Types (x y : A) (k : Z) (n : nat).

Local Abbreviation iter n x := (Nat.iter n (add x) zero).

Lemma iter_ok n x : ok x → ok (iter n x).
Proof. intros Hx. induction n; simpl; [apply ab_zero_ok | by apply ab_add_ok]. Qed.

Lemma ab_id_l x : ok x → add zero x = x.
Proof. intros Hx. rewrite ab_comm; [by apply ab_id | apply ab_zero_ok | done]. Qed.

Lemma iter_add n m x : ok x → iter (n + m) x = add (iter n x) (iter m x).
Proof.
  intros Hx. induction n as [|n IH]; simpl.
  - symmetry. by apply ab_id_l, iter_ok.
  - rewrite IH. apply ab_assoc; [done | by apply iter_ok..].
Qed.

Lemma iter_zero n : iter n zero = zero.
Proof. induction n as [|n IH]; simpl; [done |]. rewrite IH. apply ab_id, ab_zero_ok. Qed.

Lemma iter_mul n m x : ok x → iter (n * m) x = iter n (iter m x).
Proof.
  intros Hx. induction n as [|n IH]; simpl; [done |]. by rewrite iter_add, IH.
Qed.

(** Validity of sums, opposites and multiples. *)
Ltac ab_ok :=
  repeat first [done | apply ab_add_ok | apply ab_neg_ok | apply ab_zero_ok | apply iter_ok].

Lemma iter_distr n x y : ok x → ok y → iter n (add x y) = add (iter n x) (iter n y).
Proof.
  intros Hx Hy. induction n as [|n IH]; simpl; [symmetry; apply ab_id, ab_zero_ok |].
  rewrite IH. pose proof (iter_ok n x Hx). pose proof (iter_ok n y Hy).
  rewrite <-!ab_assoc by ab_ok. f_equal.
  rewrite !ab_assoc by ab_ok. f_equal. by apply ab_comm.
Qed.

Lemma nmul_ok k x : ok x → ok (nmul add zero k x).
Proof. apply iter_ok. Qed.

Lemma nmul_one x : ok x → nmul add zero 1 x = x.
Proof. exact (ab_id x). Qed.

Lemma nmul_zero k : nmul add zero k zero = zero.
Proof. apply iter_zero. Qed.

Lemma nmul_add k l x : (0 ≤ k)%Z → (0 ≤ l)%Z → ok x →
  nmul add zero (k + l) x = add (nmul add zero k x) (nmul add zero l x).
Proof. intros Hk Hl Hx. unfold nmul. rewrite Z2Nat.inj_add by done. by apply iter_add. Qed.

Lemma nmul_mul k l x : (0 ≤ k)%Z → (0 ≤ l)%Z → ok x →
  nmul add zero (k * l) x = nmul add zero k (nmul add zero l x).
Proof. intros Hk Hl Hx. unfold nmul. rewrite Z2Nat.inj_mul by done. by apply iter_mul. Qed.

Lemma nmul_distr k x y : ok x → ok y →
  nmul add zero k (add x y) = add (nmul add zero k x) (nmul add zero k y).
Proof. apply iter_distr. Qed.

(** On an element that [p] kills, multiples depend on [k] modulo [p] only. *)
Lemma nmul_mod (p k : Z) x : (0 < p)%Z → (0 ≤ k)%Z → ok x → nmul add zero p x = zero →
  nmul add zero (k mod p) x = nmul add zero k x.
Proof.
  intros Hn Hk Hx Ht. pose proof (Z.mod_pos_bound k p Hn).
  assert (0 ≤ k / p)%Z by (by apply Z.div_pos).
  rewrite (Z.div_mod k p) at 2 by lia.
  rewrite nmul_add, (Z.mul_comm p), nmul_mul, Ht, nmul_zero by (nia || done).
  symmetry. by apply ab_id_l, nmul_ok.
Qed.

Lemma nmul_neg k x : ok x → add (nmul add zero k x) (nmul add zero k (neg x)) = zero.
Proof.
  intros Hx. pose proof (ab_neg_ok x Hx).
  rewrite <-nmul_distr, ab_neg by done. apply nmul_zero.
Qed.

Lemma ab_neg_cancel x y : ok x → ok y → add (neg x) (add x y) = y.
Proof.
  intros Hx Hy. pose proof (ab_neg_ok x Hx) as Hn.
  rewrite ab_assoc, (ab_comm (neg x) x), ab_neg by done. by apply ab_id_l.
Qed.

Lemma ab_cancel x y z : ok x → ok y → ok z → add x y = add x z → y = z.
Proof.
  intros Hx Hy Hz H. by rewrite <-(ab_neg_cancel x y), H, ab_neg_cancel by done.
Qed.
End Multiples.

(** ** What an adapter has to get right *)

Local Open Scope Z_scope.

(** [valid_scalar] and [valid_element] decide the values that the package's
    operations hand out: reduced scalars, points of the prime-order subgroup.
    [adapter_order] is the order and [sval] the integer a scalar stands for. *)
Class AdapterLaws (G : Group) : Type := {
  adapter_order : Z;
  valid_scalar : Scalar → bool;
  valid_element : Element → bool;
  sval : Scalar → Z;
  al_order : 2 ^ 32 < adapter_order;
  (** Scalars. *)
  al_range x : valid_scalar x = true → 0 ≤ sval x < adapter_order;
  al_inj x y : valid_scalar x = true → valid_scalar y = true → sval x = sval y → x = y;
  al_New : valid_scalar NewScalar = true ∧ sval NewScalar = 0;
  al_Add x y : valid_scalar x = true → valid_scalar y = true →
    valid_scalar (s_Add x y) = true ∧ sval (s_Add x y) = (sval x + sval y) mod adapter_order;
  al_Sub x y : valid_scalar x = true → valid_scalar y = true →
    valid_scalar (s_Sub x y) = true ∧ sval (s_Sub x y) = (sval x - sval y) mod adapter_order;
  al_Mul x y : valid_scalar x = true → valid_scalar y = true →
    valid_scalar (s_Mul x y) = true ∧ sval (s_Mul x y) = (sval x * sval y) mod adapter_order;
  al_Negate x : valid_scalar x = true →
    valid_scalar (s_Negate x) = true ∧ sval (s_Negate x) = (- sval x) mod adapter_order;
  al_Inv x : valid_scalar x = true → sval x ≠ 0 →
    ∃ y, s_Inv x = Ok y ∧ valid_scalar y = true ∧ (sval y * sval x) mod adapter_order = 1;
  al_Inv_zero x : valid_scalar x = true → sval x = 0 → ∃ e, s_Inv x = Fail e;
  al_IsZero x : valid_scalar x = true → s_IsZero x = (sval x =? 0);
  al_Equal x y : valid_scalar x = true → valid_scalar y = true →
    s_Equal x y = (sval x =? sval y);
  al_Compare x y : valid_scalar x = true → valid_scalar y = true →
    s_Compare x y = match sval x ?= sval y with Lt => -1 | Eq => 0 | Gt => 1 end;
  al_Copy x : valid_scalar x = true → s_Copy x = x;
  al_Cofactor : valid_scalar Cofactor = true;
  al_RandomScalar r x r' : RandomScalar r = (Ok x, r') → valid_scalar x = true;
  (** Scalar encodings. *)
  al_ScalarLength : (4 ≤ ScalarLength)%nat ∧ adapter_order ≤ 2 ^ (8 * Z.of_nat ScalarLength);
  al_Bytes x : valid_scalar x = true → s_Bytes x = encode_int ByteOrder ScalarLength (sval x);
  al_SerializeScalar x : SerializeScalar x = s_Bytes x;
  al_DeserializeScalar bs : length bs = ScalarLength → decode_int ByteOrder bs < adapter_order →
    ∃ x, DeserializeScalar bs = Ok x ∧ valid_scalar x = true ∧ sval x = decode_int ByteOrder bs;
  al_DeserializeScalar_valid bs x : DeserializeScalar bs = Ok x → valid_scalar x = true;
  (** Points. *)
  al_abelian :: AbelianOn (λ P, valid_element P = true) e_Add Identity e_Negate;
  al_Generator : valid_element Generator = true;
  al_NewElement : NewElement = Identity;
  al_IsIdentity P : valid_element P = true → e_IsIdentity P = true ↔ P = Identity;
  al_e_Equal P Q : valid_element P = true → valid_element Q = true →
    e_Equal P Q = true ↔ P = Q;
  al_e_Copy P : valid_element P = true → e_Copy P = P;
  al_ScalarMult P x : valid_element P = true → valid_scalar x = true →
    ScalarMult P x = nmul e_Add Identity (sval x) P;
  al_ScalarBaseMult x : valid_scalar x = true → ScalarBaseMult x = ScalarMult Generator x;
  al_torsion P : valid_element P = true → nmul e_Add Identity adapter_order P = Identity;
  al_generator k : 0 < k < adapter_order → nmul e_Add Identity k Generator ≠ Identity;
  (** Point encodings. *)
  al_e_Bytes_length P : valid_element P = true → P ≠ Identity → length (e_Bytes P) = ElementLength;
  al_e_Bytes_inj P Q : valid_element P = true → valid_element Q = true →
    e_Bytes P = e_Bytes Q → P = Q;
  al_SerializeElement P : valid_element P = true → P ≠ Identity →
    SerializeElement P = Ok (e_Bytes P);
  al_SerializeElement_id : ∃ e, SerializeElement Identity = Fail e;
  al_DeserializeElement P : valid_element P = true → P ≠ Identity →
    DeserializeElement (e_Bytes P) = Ok P;
}.

(** ** The adapter on its valid values *)

Section Restrict.
Context (G : Group) {L : AdapterLaws G}.

Definition VScalar : Type := { x : @Scalar G | valid_scalar x = true }.
Definition VElement : Type := { P : @Element G | valid_element P = true }.

(** Keep a call's value when it is valid.  Of the four calls that [restrict]
    passes through [keep], those that give scalars only give valid ones
    ([adapter_closed]); the test acts on decoded points alone. *)
Definition keep {A} (ok : A → bool) (m : Res A) : Res { a : A | ok a = true } :=
  match m with
  | Ok a => match bool_dec (ok a) true with
            | left H => Ok (exist _ a H)
            | right _ => Fail (Sentinel ErrInvalidParameters)
            end
  | Fail e => Fail e
  | Panic => Panic
  end.

Definition v_op2 (f : Scalar → Scalar → Scalar)
    (Hf : ∀ x y, valid_scalar x = true → valid_scalar y = true → valid_scalar (f x y) = true)
    (x y : VScalar) : VScalar :=
  exist _ (f (proj1_sig x) (proj1_sig y)) (Hf _ _ (proj2_sig x) (proj2_sig y)).

Lemma add_valid P Q :
  valid_element P = true → valid_element Q = true → valid_element (e_Add P Q) = true.
Proof. apply (@ab_add_ok _ _ _ _ _ al_abelian). Qed.

Lemma neg_valid P : valid_element P = true → valid_element (e_Negate P) = true.
Proof. apply (@ab_neg_ok _ _ _ _ _ al_abelian). Qed.

Lemma identity_valid : valid_element Identity = true.
Proof. apply (@ab_zero_ok _ _ _ _ _ al_abelian). Qed.

Lemma mult_valid P x :
  valid_element P = true → valid_scalar x = true → valid_element (ScalarMult P x) = true.
Proof.
  intros HP Hx. rewrite al_ScalarMult by done.
  exact (nmul_ok (ok := λ P, valid_element P = true) _ P HP).
Qed.

Lemma base_valid x : valid_scalar x = true → valid_element (ScalarBaseMult x) = true.
Proof.
  intros Hx. rewrite al_ScalarBaseMult by done. apply mult_valid; [apply al_Generator | done].
Qed.

Lemma copy_valid x : valid_scalar x = true → valid_scalar (s_Copy x) = true.
Proof. intros Hx. by rewrite al_Copy. Qed.

Lemma e_copy_valid P : valid_element P = true → valid_element (e_Copy P) = true.
Proof. intros HP. by rewrite al_e_Copy. Qed.

Lemma new_element_valid : valid_element NewElement = true.
Proof. rewrite al_NewElement. apply identity_valid. Qed.

(** The adapter's own operations on valid values give valid values. *)
Record closed_operations : Prop := {
  closed_scalars x y : valid_scalar x = true → valid_scalar y = true →
    Forall (λ z, valid_scalar z = true) [s_Add x y; s_Sub x y; s_Mul x y; s_Negate x; s_Copy x];
  closed_Inv x y : valid_scalar x = true → s_Inv x = Ok y → valid_scalar y = true;
  closed_RandomScalar r x r' : RandomScalar r = (Ok x, r') → valid_scalar x = true;
  closed_DeserializeScalar bs x : DeserializeScalar bs = Ok x → valid_scalar x = true;
  closed_elements P Q : valid_element P = true → valid_element Q = true →
    Forall (λ R, valid_element R = true) [e_Add P Q; e_Negate P; e_Copy P];
  closed_ScalarMult P x : valid_element P = true → valid_scalar x = true →
    valid_element (ScalarMult P x) = true;
  closed_ScalarBaseMult x : valid_scalar x = true → valid_element (ScalarBaseMult x) = true;
  closed_constants :
    valid_scalar NewScalar = true ∧ valid_scalar Cofactor = true ∧
    Forall (λ R, valid_element R = true) [Identity; Generator; NewElement];
}.

Lemma adapter_closed : closed_operations.
Proof.
  split.
  - intros x y Hx Hy.
    repeat apply Forall_cons_2; [apply al_Add | apply al_Sub | apply al_Mul | apply al_Negate
                                | apply copy_valid | apply Forall_nil_2]; done.
  - intros x y Hx Hy. destruct (Z.eq_dec (sval x) 0) as [H0|H0].
    + destruct (al_Inv_zero x Hx H0) as [e He]. congruence.
    + destruct (al_Inv x Hx H0) as (y' & Hy' & Hv & _). congruence.
  - apply al_RandomScalar.
  - apply al_DeserializeScalar_valid.
  - intros P Q HP HQ. repeat apply Forall_cons_2;
      [by apply add_valid | by apply neg_valid | by apply e_copy_valid | apply Forall_nil_2].
  - apply mult_valid.
  - apply base_valid.
  - split; [apply al_New |]. split; [apply al_Cofactor |]. repeat apply Forall_cons_2;
      [apply identity_valid | apply al_Generator | apply new_element_valid | apply Forall_nil_2].
Qed.

Definition restrict : Group := {|
  Element := VElement;
  Scalar := VScalar;
  e_Add P Q := exist _ (e_Add (proj1_sig P) (proj1_sig Q))
                 (add_valid _ _ (proj2_sig P) (proj2_sig Q));
  e_Negate P := exist _ (e_Negate (proj1_sig P)) (neg_valid _ (proj2_sig P));
  e_IsIdentity P := e_IsIdentity (proj1_sig P);
  e_Equal P Q := e_Equal (proj1_sig P) (proj1_sig Q);
  e_Bytes P := e_Bytes (proj1_sig P);
  e_Copy P := exist _ (e_Copy (proj1_sig P)) (e_copy_valid _ (proj2_sig P));
  s_Add := v_op2 s_Add (λ x y Hx Hy, proj1 (al_Add x y Hx Hy));
  s_Sub := v_op2 s_Sub (λ x y Hx Hy, proj1 (al_Sub x y Hx Hy));
  s_Mul := v_op2 s_Mul (λ x y Hx Hy, proj1 (al_Mul x y Hx Hy));
  s_Inv x := keep valid_scalar (s_Inv (proj1_sig x));
  s_Negate x := exist _ (s_Negate (proj1_sig x)) (proj1 (al_Negate _ (proj2_sig x)));
  s_IsZero x := s_IsZero (proj1_sig x);
  s_Equal x y := s_Equal (proj1_sig x) (proj1_sig y);
  s_Bytes x := s_Bytes (proj1_sig x);
  s_Copy x := exist _ (s_Copy (proj1_sig x)) (copy_valid _ (proj2_sig x));
  s_Compare x y := s_Compare (proj1_sig x) (proj1_sig y);
  Order := Order;
  Cofactor := exist _ Cofactor al_Cofactor;
  Identity := exist _ Identity identity_valid;
  Generator := exist _ Generator al_Generator;
  NewScalar := exist _ NewScalar (proj1 al_New);
  NewElement := exist _ NewElement new_element_valid;
  RandomScalar := λ r, let '(m, r') := RandomScalar r in (keep valid_scalar m, r');
  ScalarMult P x := exist _ (ScalarMult (proj1_sig P) (proj1_sig x))
                      (mult_valid _ _ (proj2_sig P) (proj2_sig x));
  ScalarBaseMult x := exist _ (ScalarBaseMult (proj1_sig x)) (base_valid _ (proj2_sig x));
  SerializeElement P := SerializeElement (proj1_sig P);
  DeserializeElement bs := keep valid_element (DeserializeElement bs);
  SerializeScalar x := SerializeScalar (proj1_sig x);
  DeserializeScalar bs := keep valid_scalar (DeserializeScalar bs);
  ElementLength := ElementLength;
  ScalarLength := ScalarLength;
  Name := Name;
  ByteOrder := ByteOrder;
|}.

(** ** The contract *)

Local Abbreviation n := (adapter_order (G := G)).

Definition v_val (x : VScalar) : Z := sval (proj1_sig x).

Lemma v_valid (x : VScalar) : valid_scalar (proj1_sig x) = true.
Proof. exact (proj2_sig x). Qed.

Lemma p_valid (P : VElement) : valid_element (proj1_sig P) = true.
Proof. exact (proj2_sig P). Qed.

Definition v_sc (a : Z) : VScalar :=
  match keep valid_scalar (DeserializeScalar (encode_int ByteOrder ScalarLength (a mod n))) with
  | Ok x => x
  | _ => @NewScalar restrict
  end.

Definition v_inverse (x : VScalar) : VScalar :=
  match @s_Inv restrict x with Ok y => y | _ => @NewScalar restrict end.

Lemma keep_Ok {A} (ok : A → bool) m a (H : ok a = true) :
  m = Ok a → keep ok m = Ok (exist _ a H).
Proof.
  intros ->. simpl. destruct (bool_dec (ok a) true) as [H'|]; [| done].
  do 2 f_equal. apply eq_pi. apply _.
Qed.

Lemma keep_Ok_iff {A} (ok : A → bool) m (a : { a : A | ok a = true }) :
  keep ok m = Ok a ↔ m = Ok (proj1_sig a).
Proof.
  split; [| intros H; rewrite (keep_Ok ok m _ (proj2_sig a) H); by destruct a].
  destruct m as [x|e|]; cbn; [| done..]. destruct (bool_dec (ok x) true); [| done].
  by intros [= <-].
Qed.

Lemma v_range x : 0 ≤ v_val x < n.
Proof. apply al_range, (proj2_sig x). Qed.

Lemma v_val_inj x y : v_val x = v_val y → x = y.
Proof.
  intros H. apply sig_eq_pi; [intros ?; apply eq_pi; apply _ |].
  apply al_inj; [apply (proj2_sig x) | apply (proj2_sig y) | done].
Qed.

Lemma v_point_inj (P Q : VElement) : proj1_sig P = proj1_sig Q → P = Q.
Proof. apply sig_eq_pi. intros ?. apply eq_pi. apply _. Qed.

Lemma n_pos : 0 < n.
Proof. pose proof (al_order (G := G)). lia. Qed.

Lemma n_bound : n ≤ 2 ^ (8 * Z.of_nat (@ScalarLength G)).
Proof. apply al_ScalarLength. Qed.

Lemma v_Deserialize bs :
  length bs = @ScalarLength G → decode_int (@ByteOrder G) bs < n →
  ∃ x, @DeserializeScalar restrict bs = Ok x ∧ v_val x = decode_int (@ByteOrder G) bs.
Proof.
  intros Hl Hb. destruct (al_DeserializeScalar bs Hl Hb) as (x & Hx & Hv & Hs).
  exists (exist _ x Hv). split; [by apply keep_Ok | done].
Qed.

Lemma v_sc_val a : v_val (v_sc a) = a mod n.
Proof.
  pose proof (Z.mod_pos_bound a n n_pos) as Ha. pose proof n_bound.
  destruct (v_Deserialize (encode_int ByteOrder ScalarLength (a mod n))) as (x & Hx & Hv).
  - apply length_encode_int.
  - rewrite decode_encode_int; lia.
  - rewrite decode_encode_int in Hv by lia. unfold v_sc. cbn in Hx. by rewrite Hx.
Qed.

Lemma v_add x y : v_val (@s_Add restrict x y) = (v_val x + v_val y) mod n.
Proof. exact (proj2 (al_Add _ _ (proj2_sig x) (proj2_sig y))). Qed.

Lemma v_sub x y : v_val (@s_Sub restrict x y) = (v_val x - v_val y) mod n.
Proof. exact (proj2 (al_Sub _ _ (proj2_sig x) (proj2_sig y))). Qed.

Lemma v_mul x y : v_val (@s_Mul restrict x y) = (v_val x * v_val y) mod n.
Proof. exact (proj2 (al_Mul _ _ (proj2_sig x) (proj2_sig y))). Qed.

Lemma v_opp x : v_val (@s_Negate restrict x) = (- v_val x) mod n.
Proof. exact (proj2 (al_Negate _ (proj2_sig x))). Qed.

Lemma v_small x : v_val x mod n = v_val x.
Proof. apply Z.mod_small, v_range. Qed.

Lemma v_zero_iff x : x = v_sc 0 ↔ v_val x = 0.
Proof.
  split; [intros ->; rewrite v_sc_val; apply Z.mod_0_l; pose proof n_pos; lia |].
  intros H. apply v_val_inj. rewrite H, v_sc_val. symmetry. apply Z.mod_0_l.
  pose proof n_pos. lia.
Qed.

Lemma v_Inv x : x ≠ v_sc 0 →
  @s_Inv restrict x = Ok (v_inverse x) ∧ (v_val (v_inverse x) * v_val x) mod n = 1.
Proof.
  intros Hx. rewrite v_zero_iff in Hx.
  destruct (al_Inv (proj1_sig x) (proj2_sig x) Hx) as (y & Hy & Hv & Hm).
  unfold v_inverse. cbn. rewrite (keep_Ok _ _ y Hv Hy). done.
Qed.

(** An equation of scalars is one of residues. *)
Local Ltac residues :=
  intros; apply v_val_inj;
  rewrite ?v_sc_val, ?v_add, ?v_sub, ?v_mul, ?v_opp, ?v_sc_val, ?v_add, ?v_mul, ?v_opp;
  Z.push_pull_mod; try (f_equal; ring).

Lemma v_field : field_theory (v_sc 0) (v_sc 1) (@s_Add restrict) (@s_Mul restrict)
  (@s_Sub restrict) (@s_Negate restrict) (λ x y, @s_Mul restrict x (v_inverse y)) v_inverse eq.
Proof.
  pose proof n_pos. pose proof (al_order (G := G)).
  constructor; [constructor | ..].
  - intros x. residues. apply v_small.
  - residues.
  - residues.
  - intros x. residues. rewrite Z.mul_1_l. apply v_small.
  - residues.
  - residues.
  - residues.
  - residues.
  - residues.
  - intros Hx%(f_equal v_val). rewrite !v_sc_val, !Z.mod_small in Hx; lia.
  - done.
  - intros x Hx. apply v_val_inj. rewrite v_mul, v_sc_val, (Z.mod_small 1) by lia.
    by apply v_Inv.
Qed.

Lemma v_torsion k (P : VElement) :
  0 ≤ k → nmul e_Add Identity (k mod n) (proj1_sig P) = nmul e_Add Identity k (proj1_sig P).
Proof.
  intros Hk. apply (nmul_mod (ok := λ P, valid_element P = true)).
  - apply n_pos.
  - done.
  - apply (proj2_sig P).
  - apply al_torsion, (proj2_sig P).
Qed.

Lemma v_mult P x :
  proj1_sig (@ScalarMult restrict P x) = nmul e_Add Identity (v_val x) (proj1_sig P).
Proof. apply (al_ScalarMult _ _ (proj2_sig P) (proj2_sig x)). Qed.

Lemma v_e_add P Q :
  proj1_sig (@e_Add restrict P Q) = e_Add (proj1_sig P) (proj1_sig Q).
Proof. done. Qed.

(** The group laws are those of the valid points. *)
Local Ltac points lemma :=
  intros; apply v_point_inj; cbn;
  apply (@lemma _ _ _ _ _ al_abelian); apply p_valid.

Lemma v_not_identity (P : VElement) : P ≠ @Identity restrict → proj1_sig P ≠ Identity.
Proof. intros HP H. by apply HP, v_point_inj. Qed.

(** An adapter that satisfies [AdapterLaws] fulfils the group contract on its
    valid values. *)
#[export] Instance restrict_laws : GroupLaws restrict.
Proof.
  pose proof n_pos as Hn. pose proof (al_order (G := G)) as Ho.
  refine {| order := n; sc := v_sc : Z → @Scalar restrict;
            sc_inverse := v_inverse : @Scalar restrict → @Scalar restrict |}.
  - exact Ho.
  - intros a b. rewrite <-!v_sc_val. split; [by intros -> | apply v_val_inj].
  - residues.
  - residues.
  - apply v_field.
  - apply v_zero_iff. apply (al_New (G := G)).
  - intros x. rewrite v_zero_iff. cbn. rewrite al_IsZero by apply v_valid. apply Z.eqb_eq.
  - intros x y. cbn. rewrite al_Equal by apply v_valid. rewrite Z.eqb_eq.
    split; [apply v_val_inj | by intros ->].
  - intros x. apply v_val_inj. unfold v_val. cbn. by rewrite al_Copy by apply v_valid.
  - apply v_Inv.
  - destruct (al_Inv_zero (proj1_sig (v_sc 0)) (v_valid _)) as [e He];
      [by apply (v_zero_iff (v_sc 0)) |]. exists e. cbn. by rewrite He.
  - exact (proj1 (al_ScalarLength (G := G))).
  - intros bs Hl Hb. destruct (v_Deserialize bs Hl Hb) as (x & -> & Hv). f_equal.
    apply v_val_inj. rewrite v_sc_val, Hv. symmetry. apply Z.mod_small.
    split; [apply decode_int_bound | exact Hb].
  - intros x. cbn. rewrite al_SerializeScalar, al_Bytes by apply v_valid.
    apply length_encode_int.
  - intros x. pose proof (v_range x). pose proof n_bound.
    cbn. rewrite al_SerializeScalar, al_Bytes by apply v_valid. fold (v_val x).
    destruct (v_Deserialize (encode_int ByteOrder ScalarLength (v_val x))) as (y & Hy & Hv).
    + apply length_encode_int.
    + rewrite decode_encode_int; lia.
    + rewrite decode_encode_int in Hv by lia. etrans; [exact Hy |].
      f_equal. by apply v_val_inj.
  - intros x. cbn. symmetry. apply al_SerializeScalar.
  - points @ab_assoc.
  - points @ab_comm.
  - points @ab_id.
  - points @ab_neg.
  - apply v_point_inj, al_NewElement.
  - intros P. cbn. rewrite al_IsIdentity by apply p_valid.
    split; [apply (v_point_inj P (@Identity restrict)) | by intros ->].
  - intros P Q. cbn. rewrite al_e_Equal by apply p_valid.
    split; [apply v_point_inj | by intros ->].
  - intros P. apply v_point_inj, al_e_Copy, p_valid.
  - intros P. apply v_point_inj. rewrite v_mult, v_sc_val, v_torsion by lia.
    apply (nmul_one (ok := λ P, valid_element P = true)), p_valid.
  - intros P x y. pose proof (v_range x). pose proof (v_range y). apply v_point_inj.
    rewrite v_e_add, !v_mult, v_add, v_torsion by lia.
    apply (nmul_add (ok := λ P, valid_element P = true)); [lia | lia | apply p_valid].
  - intros P x y. pose proof (v_range x). pose proof (v_range y). apply v_point_inj.
    rewrite !v_mult, v_mul, v_torsion, Z.mul_comm by lia.
    apply (nmul_mul (ok := λ P, valid_element P = true)); [lia | lia | apply p_valid].
  - intros P Q x. apply v_point_inj. rewrite v_e_add, !v_mult, v_e_add.
    apply (nmul_distr (ok := λ P, valid_element P = true)); apply p_valid.
  - intros x. apply v_point_inj, al_ScalarBaseMult, v_valid.
  - intros x Hx%(f_equal (@proj1_sig _ _)). cbn in Hx.
    rewrite al_ScalarBaseMult, al_ScalarMult in Hx by (apply v_valid || apply al_Generator).
    destruct (decide (v_val x = 0)) as [H0|H0]; [by apply v_zero_iff |].
    pose proof (v_range x). exfalso. apply (al_generator (v_val x)); [lia | exact Hx].
  - intros P HP. exact (al_e_Bytes_length _ (p_valid P) (v_not_identity P HP)).
  - intros P Q H. exact (v_point_inj _ _ (al_e_Bytes_inj _ _ (p_valid P) (p_valid Q) H)).
  - intros P HP. exact (al_SerializeElement _ (p_valid P) (v_not_identity P HP)).
  - exact (al_SerializeElement_id (G := G)).
  - intros P HP. destruct P as [P Hv].
    exact (keep_Ok _ _ _ Hv (al_DeserializeElement _ Hv (v_not_identity (exist _ P Hv) HP))).
Defined.
End Restrict.
