(* ===== verification/Digests.v ===== *)
(** * SHA-256, SHA-512 and SHAKE256

    The hash functions of the ciphersuites as executable functions, after FIPS
    180-4 and FIPS 202, on the machine integers of the kernel: instances of the
    classes of [Hashing.v], on which the definitions can be run.  A 64-bit word
    is a pair of halves. *)

From Stdlib Require Import Uint63.
From S2P Require Export Hashing.
From S2P Require Export CurveLib.

Module digests.

Local Open Scope Z_scope.

Local Infix "⊕" := PrimInt63.lxor (at level 50, left associativity).
Local Infix "&&&" := PrimInt63.land (at level 40, left associativity).

Definition mask32 : int := Eval vm_compute in Uint63.of_Z 0xffffffff.
Definition low32 (x : int) : int := x &&& mask32.
Definition shl (n x : int) : int := PrimInt63.lsl x n.
Definition shr (n x : int) : int := PrimInt63.lsr x n.

Definition byte_of_int (x : int) : byte := byte.of_Z (Uint63.to_Z x).
Definition int_of_byte (b : byte) : int := Uint63.of_Z (byte.unsigned b).

(** ** Words *)

Class Words : Type := {
  word : Type;
  word_bytes : nat;
  w_Z : Z → word;
  w_xor : word → word → word;
  w_and : word → word → word;
  w_not : word → word;
  w_add : word → word → word;
  w_rotr : int → word → word;
  w_shr : int → word → word;
  w_of_bytes : bytes → word;   (* big-endian *)
  w_to_bytes : word → bytes;
}.

Definition be32 (l : bytes) : int := foldl (λ x b, PrimInt63.add (shl 8%uint63 x) (int_of_byte b)) 0%uint63 l.
Definition be32_bytes (x : int) : bytes :=
  (λ n, byte_of_int (shr n x &&& 255%uint63)) <$> [24; 16; 8; 0]%uint63.

#[export] Instance words32 : Words := {|
  word := int;
  word_bytes := 4;
  w_Z z := Uint63.of_Z z;
  w_xor x y := x ⊕ y;
  w_and x y := x &&& y;
  w_not x := x ⊕ mask32;
  w_add x y := low32 (PrimInt63.add x y);
  w_rotr n x := PrimInt63.lor (shr n x) (low32 (shl (PrimInt63.sub 32%uint63 n) x));
  w_shr n x := shr n x;
  w_of_bytes := be32;
  w_to_bytes := be32_bytes;
|}.

(** The high and the low half. *)
Definition word64 : Type := int * int.

Definition w64_add (x y : word64) : word64 :=
  let lo := PrimInt63.add x.2 y.2 in
  (low32 (PrimInt63.add (PrimInt63.add x.1 y.1) (shr 32%uint63 lo)), low32 lo).

(** Shifts by less than 32, with the bits that enter from the left. *)
Definition w64_shift (n : int) (x : word64) (carry : int) : word64 :=
  (PrimInt63.lor (shr n x.1) (low32 (shl (PrimInt63.sub 32%uint63 n) carry)),
   PrimInt63.lor (shr n x.2) (low32 (shl (PrimInt63.sub 32%uint63 n) x.1))).

#[export] Instance words64 : Words := {|
  word := word64;
  word_bytes := 8;
  w_Z z := (Uint63.of_Z (Z.shiftr z 32), Uint63.of_Z (z mod 2 ^ 32));
  w_xor x y := (x.1 ⊕ y.1, x.2 ⊕ y.2);
  w_and x y := (x.1 &&& y.1, x.2 &&& y.2);
  w_not x := (x.1 ⊕ mask32, x.2 ⊕ mask32);
  w_add := w64_add;
  w_rotr n x :=
    if PrimInt63.ltb n 32%uint63 then w64_shift n x x.2
    else w64_shift (PrimInt63.sub n 32%uint63) (x.2, x.1) x.1;
  w_shr n x := w64_shift n x 0%uint63;
  w_of_bytes l := (be32 (take 4 l), be32 (drop 4 l));
  w_to_bytes x := be32_bytes x.1 ++ be32_bytes x.2;
|}.

(** ** SHA-2 *)

(** The amounts of the rotations and of the shift in the four functions, the
    round constants and the initial state. *)
Record SHA2 {W : Words} := {
  big0 : int * int * int;
  big1 : int * int * int;
  small0 : int * int * int;
  small1 : int * int * int;
  round_constants : list word;
  initial_hash : list word;
}.
Arguments SHA2 : clear implicits.

Section SHA2.
Context {W : Words} (H : SHA2 W).

Definition big_sigma (r : int * int * int) (x : word) : word :=
  w_xor (w_xor (w_rotr r.1.1 x) (w_rotr r.1.2 x)) (w_rotr r.2 x).
Definition small_sigma (r : int * int * int) (x : word) : word :=
  w_xor (w_xor (w_rotr r.1.1 x) (w_rotr r.1.2 x)) (w_shr r.2 x).

Definition Ch (x y z : word) : word := w_xor (w_and x y) (w_and (w_not x) z).
Definition Maj (x y z : word) : word := w_xor (w_xor (w_and x y) (w_and x z)) (w_and y z).

(** The block's words are a queue of sixteen, from which each round takes the
    first and to which it adds the sixteenth next. *)
Definition schedule (w : list word) : list word :=
  match w with
  | w0 :: w1 :: _ =>
      let nth i := nth i w w0 in
      tail w ++ [w_add (w_add (small_sigma (small1 H) (nth 14%nat)) (nth 9%nat))
                       (w_add (small_sigma (small0 H) w1) w0)]
  | _ => w
  end.

Definition round (s : list word * list word) (k : word) : list word * list word :=
  match s with
  | ([a; b; c; d; e; f; g; h], w) =>
      let t1 := w_add (w_add (w_add h (big_sigma (big1 H) e)) (w_add (Ch e f g) k))
                      (default a (head w)) in
      let t2 := w_add (big_sigma (big0 H) a) (Maj a b c) in
      ([w_add t1 t2; a; b; c; w_add d t1; e; f; g], schedule w)
  | s => s
  end.

Fixpoint chunks {A} (n fuel : nat) (l : list A) : list (list A) :=
  match fuel, l with
  | S fuel, _ :: _ => take n l :: chunks n fuel (drop n l)
  | _, _ => []
  end.

Definition block_bytes : nat := 16 * word_bytes.

Definition compress (state : list word) (block : bytes) : list word :=
  let w := w_of_bytes <$> chunks word_bytes 16 block in
  zip_with w_add state (foldl round (state, w) (round_constants H)).1.

(** The message, a bit, zeros, and the length in bits. *)
Definition pad (msg : bytes) : bytes :=
  let used := (length msg + 1 + 2 * word_bytes)%nat in
  msg ++ [byte.of_Z 128] ++ zero_bytes ((block_bytes - used mod block_bytes) mod block_bytes)
    ++ encode_int BigEndian (2 * word_bytes) (8 * Z.of_nat (length msg)).

Definition sha2 (msg : bytes) : bytes :=
  concat (w_to_bytes <$> foldl compress (initial_hash H)
            (chunks block_bytes (length msg + 2 * block_bytes) (pad msg))).
End SHA2.

(** The constants are the first bits of the fractional parts of roots of primes. *)
Definition primes_below (n : nat) : list Z :=
  filter (λ p, forallb (λ d, negb (p mod d =? 0)) (seqZ 2 (p - 2)) = true) (seqZ 2 (Z.of_nat n - 2)).
Definition floor_root (k n : Z) : Z :=
  foldr (λ i r, if (r + 2 ^ i) ^ k <=? n then r + 2 ^ i else r) 0 (seqZ 0 (Z.log2 n / k + 1)).
Definition root_fraction (k w p : Z) : Z := floor_root k (p * 2 ^ (k * w)) mod 2 ^ w.

Definition sha256_constants : list (@word words32) := Eval vm_compute in
  (λ p, w_Z (Words := words32) (root_fraction 3 32 p)) <$> take 64 (primes_below 312).
Definition sha256_initial : list (@word words32) := Eval vm_compute in
  (λ p, w_Z (Words := words32) (root_fraction 2 32 p)) <$> take 8 (primes_below 312).
Definition sha512_constants : list (@word words64) := Eval vm_compute in
  (λ p, w_Z (Words := words64) (root_fraction 3 64 p)) <$> take 80 (primes_below 410).
Definition sha512_initial : list (@word words64) := Eval vm_compute in
  (λ p, w_Z (Words := words64) (root_fraction 2 64 p)) <$> take 8 (primes_below 410).

Definition sha256_params : SHA2 words32 := {|
  big0 := (2, 13, 22)%uint63; big1 := (6, 11, 25)%uint63;
  small0 := (7, 18, 3)%uint63; small1 := (17, 19, 10)%uint63;
  round_constants := sha256_constants;
  initial_hash := sha256_initial;
|}.

Definition sha512_params : SHA2 words64 := {|
  big0 := (28, 34, 39)%uint63; big1 := (14, 18, 41)%uint63;
  small0 := (1, 8, 7)%uint63; small1 := (19, 61, 6)%uint63;
  round_constants := sha512_constants;
  initial_hash := sha512_initial;
|}.

#[export] Instance fips_sha256 : SHA256 := {| sha256 := sha2 sha256_params |}.
#[export] Instance fips_sha512 : SHA512 := {| sha512 := sha2 sha512_params |}.

(** ** SHAKE256 *)

(** The lane at column [x] and row [y] has the number [x + 5 y].  The amounts of
    the rotations to the right, and the number from which each lane is taken. *)
Definition rho_offsets : list int := Eval vm_compute in
  (λ n : nat, Uint63.of_Z (Z.of_nat ((64 - n) mod 64)%nat)) <$>
  [0; 1; 62; 28; 27; 36; 44; 6; 55; 20; 3; 10; 43; 25; 39; 41; 45; 15; 21; 8; 18; 2; 61; 56; 14]%nat.
Definition pi_sources : list nat := Eval vm_compute in
  (λ i : nat, ((i mod 5 + 3 * (i / 5)) mod 5 + 5 * (i mod 5))%nat) <$> seq 0 25.
Definition iota_constants : list word64 := Eval vm_compute in
  w_Z (Words := words64) <$>
  [0x0000000000000001; 0x0000000000008082; 0x800000000000808a; 0x8000000080008000;
   0x000000000000808b; 0x0000000080000001; 0x8000000080008081; 0x8000000000008009;
   0x000000000000008a; 0x0000000000000088; 0x0000000080008009; 0x000000008000000a;
   0x000000008000808b; 0x800000000000008b; 0x8000000000008089; 0x8000000000008003;
   0x8000000000008002; 0x8000000000000080; 0x000000000000800a; 0x800000008000000a;
   0x8000000080008081; 0x8000000000008080; 0x0000000080000001; 0x8000000080008008].

Local Abbreviation xor64 := (w_xor (Words := words64)).
Local Abbreviation rotr64 := (w_rotr (Words := words64)).

Definition zero64 : word64 := (0, 0)%uint63.

(** [n] lanes further in a row. *)
Definition turn (n : nat) (row : list word64) : list word64 := drop n row ++ take n row.

Definition chi (row : list word64) : list word64 :=
  zip_with xor64 row
    (zip_with (λ b c, w_and (Words := words64) (w_not (Words := words64) b) c)
       (turn 1 row) (turn 2 row)).

Definition keccak_round (s : list word64) (rc : word64) : list word64 :=
  let c := foldl (zip_with xor64) (replicate 5 zero64) (chunks 5 5 s) in
  let d := zip_with xor64 (turn 4 c) (rotr64 63%uint63 <$> turn 1 c) in
  let theta := zip_with xor64 s (d ++ d ++ d ++ d ++ d) in
  let rho := zip_with rotr64 rho_offsets theta in
  let pi := (λ i, nth i rho zero64) <$> pi_sources in
  match concat (chi <$> chunks 5 5 pi) with
  | l :: rest => xor64 l rc :: rest
  | [] => []
  end.

Definition keccak_f (s : list word64) : list word64 := foldl keccak_round s iota_constants.

Definition shake_rate : nat := 136.

(** Lanes are little-endian. *)
Definition lanes (block : bytes) : list word64 :=
  (λ l, w_of_bytes (Words := words64) (reverse l)) <$> chunks 8 17 block.
Definition lane_bytes (s : list word64) : bytes :=
  concat ((λ l, reverse (w_to_bytes (Words := words64) l)) <$> take 17 s).

Definition absorb (s : list word64) (block : bytes) : list word64 :=
  keccak_f (zip_with xor64 s (lanes block ++ replicate 8 zero64)).

(** The suffix 1111 of SHAKE and the padding 10*1, from the lowest bit on. *)
Definition shake_pad (msg : bytes) : bytes :=
  let gap := (shake_rate - length msg mod shake_rate)%nat in
  msg ++ (if (gap =? 1)%nat then [byte.of_Z 0x9f]
          else [byte.of_Z 0x1f] ++ zero_bytes (gap - 2) ++ [byte.of_Z 0x80]).

(** The output, a block at a time. *)
Fixpoint squeeze (fuel : nat) (s : list word64) : bytes :=
  match fuel with
  | O => []
  | S fuel => lane_bytes s ++ (if (fuel =? 0)%nat then [] else squeeze fuel (keccak_f s))
  end.

Definition shake256_digest (k : nat) (msg : bytes) : bytes :=
  let blocks := chunks shake_rate (length msg + 2) (shake_pad msg) in
  let s := foldl absorb (replicate 25 zero64) blocks in
  take k (squeeze (S (k / shake_rate)) s).

#[export] Instance fips_shake256 : SHAKE256 := {| shake256 := shake256_digest |}.
End digests.

(** ** The lengths of the digests *)

Section Lengths.
Import digests.

Lemma concat_lengths {A B} (f : A → list B) n l :
  (∀ x, length (f x) = n) → length (concat (f <$> l)) = (n * length l)%nat.
Proof.
  intros Hf. induction l as [|x l IH]; [cbn; lia |]. cbn. rewrite length_app, IH, Hf. lia.
Qed.

Lemma length_round {W : Words} (H : SHA2 W) s k : length s.1 = 8%nat → length (round H s k).1 = 8%nat.
Proof. destruct s as [[|? [|? [|? [|? [|? [|? [|? [|? [|]]]]]]]]] w]; done. Qed.

Lemma length_rounds {W : Words} (H : SHA2 W) ks s :
  length s.1 = 8%nat → length (foldl (round H) s ks).1 = 8%nat.
Proof. revert s. induction ks as [|k ks IH]; intros s Hs; [done |]. by apply IH, length_round. Qed.

Lemma length_sha2 {W : Words} (H : SHA2 W) msg :
  (∀ x, length (w_to_bytes x) = word_bytes) → length (initial_hash H) = 8%nat →
  length (sha2 H msg) = (word_bytes * 8)%nat.
Proof.
  intros Hw Hi. unfold sha2. rewrite (concat_lengths _ word_bytes) by done. f_equal.
  generalize (chunks block_bytes (length msg + 2 * block_bytes) (pad msg)) as bs. revert Hi.
  generalize (initial_hash H) as s. intros s Hs bs. revert s Hs.
  induction bs as [|b bs IH]; intros s Hs; [done |]. apply IH. unfold compress.
  rewrite length_zip_with, length_rounds by done. lia.
Qed.

#[export] Instance fips_sha256_laws : SHA256Laws fips_sha256.
Proof. split. intros b. by apply (length_sha2 sha256_params). Qed.

#[export] Instance fips_sha512_laws : SHA512Laws fips_sha512.
Proof. split. intros b. by apply (length_sha2 sha512_params). Qed.

Lemma length_chi row : length row = 5%nat → length (chi row) = 5%nat.
Proof. by destruct row as [|? [|? [|? [|? [|? [|]]]]]]. Qed.

Lemma length_keccak_round s rc : length (keccak_round s rc) = 25%nat.
Proof.
  unfold keccak_round. cbv zeta.
  match goal with |- context [λ i, nth i ?r zero64] => generalize r as rho end. intros rho.
  assert (length (concat (chi <$> chunks 5 5 ((λ i, nth i rho zero64) <$> pi_sources))) = 25%nat) as Hl.
  { cbn -[chi nth]. by rewrite !length_app, !length_chi. }
  by destruct (concat _).
Qed.

Lemma length_keccak_f s : length (keccak_f s) = 25%nat.
Proof.
  unfold keccak_f. assert (∃ l x, iota_constants = l ++ [x]) as (l & x & ->).
  { eexists (take 23 iota_constants), _. reflexivity. }
  rewrite foldl_snoc. apply length_keccak_round.
Qed.

Lemma length_lane_bytes s : length s = 25%nat → length (lane_bytes s) = shake_rate.
Proof.
  intros Hs. unfold lane_bytes. rewrite (concat_lengths _ 8).
  - transitivity (8 * Nat.min 17 (length s))%nat; [by rewrite <-length_take | by rewrite Hs].
  - intros x. rewrite length_reverse. done.
Qed.

Lemma length_squeeze fuel s : length s = 25%nat → length (squeeze fuel s) = (fuel * shake_rate)%nat.
Proof.
  revert s. induction fuel as [|fuel IH]; intros s Hs; [done |]. cbn [squeeze].
  rewrite length_app, length_lane_bytes by done. destruct fuel as [|fuel]; [done |].
  cbn [Nat.eqb]. rewrite IH by apply length_keccak_f. lia.
Qed.

Lemma absorbed_25 bs s : length s = 25%nat → length (foldl absorb s bs) = 25%nat.
Proof.
  revert s. induction bs as [|b bs IH]; intros s Hs; [done |]. apply IH, length_keccak_f.
Qed.

#[export] Instance fips_shake256_laws : SHAKE256Laws fips_shake256.
Proof.
  split. intros k b. cbn. unfold shake256_digest.
  rewrite length_take, length_squeeze by apply absorbed_25, length_replicate.
  pose proof (Nat.mul_succ_div_gt k shake_rate). unfold shake_rate in *. lia.
Qed.
End Lengths.

(** ** Known digests *)

Section Known.
Import digests.
Local Open Scope Z_scope.

Lemma sha256_abc : be_combine (sha256 (string_bytes "abc"))
  = 0xba7816bf8f01cfea414140de5dae2223b00361a396177a9cb410ff61f20015ad.
Proof. vm_compute. reflexivity. Qed.

Lemma sha512_abc : be_combine (sha512 (string_bytes "abc"))
  = 0xddaf35a193617abacc417349ae20413112e6fa4e89a97ea20a9eeee64b55d39a2192992a274fc1a836ba3c23a3feebbd454d4423643ce80e2a9ac94fa54ca49f.
Proof. vm_compute. reflexivity. Qed.

Lemma shake256_empty : be_combine (shake256 32 [])
  = 0x46b9dd2b0ba88d13233b3feb743eeb243fcd52ea62b81b82b50c27646ed5762f.
Proof. vm_compute. reflexivity. Qed.
End Known.
