(* ===== verification/Libraries.v ===== *)
(** * The curve libraries

    The scalar fields and curves that [pkg/frost/group/secp256k1],
    [ristretto255] and [ed25519] wrap (secp256k1-voi, gtank/ristretto255,
    filippo.io/edwards25519) are not part of the repository.  [ScalarLib] and
    [PointLib] are the calls the adapters make, [ScalarLaws] and [PointLaws]
    what the libraries document: arithmetic modulo the order, fixed-length
    canonical encodings, a group of order [h * n] with a generator of order
    [n].  The file ends with the comparison and sampling loops the adapters
    share. *)

From Stdlib Require Import Zcong.
From coqutil Require Import Z.BitOps.
From S2P Require Export CurveLib.

Local Open Scope Z_scope.

(** ** Scalars *)

(** A method with receiver and results is a function of its operands; a
    decoder that returns an error is [None].  [l_New] is [NewScalar()]. *)
Class ScalarLib : Type := {
  LScalar : Type;
  l_New : LScalar;
  l_Add : LScalar → LScalar → LScalar;
  l_Subtract : LScalar → LScalar → LScalar;
  l_Multiply : LScalar → LScalar → LScalar;
  l_Negate : LScalar → LScalar;
  l_Invert : LScalar → LScalar;
  l_Equal : LScalar → LScalar → bool;
  l_Bytes : LScalar → bytes;
  l_SetCanonicalBytes : bytes → option LScalar;
}.

Class ScalarLaws (S : ScalarLib) (o : ByteOrder_t) (len : nat) (n : Z) : Type := {
  lval : LScalar → Z;
  ll_order : 2 ^ 32 < n;
  ll_length : n ≤ 2 ^ (8 * Z.of_nat len) ∧ (4 ≤ len)%nat;
  ll_range x : 0 ≤ lval x < n;
  ll_inj x y : lval x = lval y → x = y;
  ll_New : lval l_New = 0;
  ll_Add x y : lval (l_Add x y) = (lval x + lval y) mod n;
  ll_Subtract x y : lval (l_Subtract x y) = (lval x - lval y) mod n;
  ll_Multiply x y : lval (l_Multiply x y) = (lval x * lval y) mod n;
  ll_Negate x : lval (l_Negate x) = (- lval x) mod n;
  ll_Invert x : lval x ≠ 0 → (lval (l_Invert x) * lval x) mod n = 1;
  ll_Equal x y : l_Equal x y = (lval x =? lval y);
  ll_Bytes x : l_Bytes x = encode_int o len (lval x);
  ll_SetCanonicalBytes bs :
    lval <$> l_SetCanonicalBytes bs
    = if (length bs =? len)%nat && (decode_int o bs <? n) then Some (decode_int o bs) else None;
}.

Section ScalarFacts.
Context {S : ScalarLib} {o : ByteOrder_t} {len : nat} {n : Z} {L : ScalarLaws S o len n}.

Lemma canonical_Some bs x :
  l_SetCanonicalBytes bs = Some x →
  length bs = len ∧ decode_int o bs < n ∧ lval x = decode_int o bs.
Proof.
  intros H. pose proof (ll_SetCanonicalBytes bs) as Hs. rewrite H in Hs. cbn in Hs.
  destruct (length bs =? len)%nat eqn:Hl; [| done].
  destruct (decode_int o bs <? n) eqn:Hb; [| done].
  apply Nat.eqb_eq in Hl. apply Z.ltb_lt in Hb. by injection Hs.
Qed.

Lemma canonical_in_range bs :
  length bs = len → decode_int o bs < n →
  ∃ x, l_SetCanonicalBytes bs = Some x ∧ lval x = decode_int o bs.
Proof.
  intros Hl Hb. pose proof (ll_SetCanonicalBytes bs) as Hs.
  rewrite Hl, Nat.eqb_refl, (proj2 (Z.ltb_lt _ _) Hb) in Hs.
  destruct (l_SetCanonicalBytes bs) as [x|]; [| done]. exists x. by injection Hs.
Qed.

Lemma canonical_None bs :
  l_SetCanonicalBytes bs = None ↔ length bs ≠ len ∨ n ≤ decode_int o bs.
Proof.
  split.
  - intros H. pose proof (ll_SetCanonicalBytes bs) as Hs. rewrite H in Hs. cbn in Hs.
    destruct (Nat.eqb_spec (length bs) len); [| by left].
    destruct (Z.ltb_spec (decode_int o bs) n); [done | by right].
  - intros H. destruct (l_SetCanonicalBytes bs) as [x|] eqn:E; [| done].
    apply canonical_Some in E as (Hl & Hb & _). destruct H; [done | lia].
Qed.

Lemma l_Equal_true x y : l_Equal x y = true ↔ x = y.
Proof. rewrite ll_Equal, Z.eqb_eq. split; [apply ll_inj | by intros ->]. Qed.

Lemma length_l_Bytes x : length (l_Bytes x) = len.
Proof. rewrite ll_Bytes. apply length_encode_int. Qed.

Lemma decode_l_Bytes x : decode_int o (l_Bytes x) = lval x.
Proof.
  rewrite ll_Bytes. apply decode_encode_int. pose proof (ll_range x). pose proof ll_length. lia.
Qed.

(** The scalar of a residue. *)
Lemma canonical_value a : 0 ≤ a < n →
  ∃ x, l_SetCanonicalBytes (encode_int o len a) = Some x ∧ lval x = a.
Proof.
  intros Ha. pose proof ll_length.
  destruct (canonical_in_range (encode_int o len a)) as (x & Hx & Hv).
  - apply length_encode_int.
  - rewrite decode_encode_int; lia.
  - rewrite decode_encode_int in Hv by lia. by exists x.
Qed.
End ScalarFacts.

(** Wide reduction: [SetUniformBytes] of exactly 64 bytes. *)
Class UniformLib (S : ScalarLib) : Type := {
  l_SetUniformBytes : bytes → option LScalar;
}.

Class UniformLaws {S : ScalarLib} (U : UniformLib S) {n : Z} (L : ScalarLaws S LittleEndian 32 n)
  : Prop := {
  ul_SetUniformBytes bs :
    lval <$> l_SetUniformBytes bs
    = if (length bs =? 64)%nat then Some (le_combine bs mod n) else None;
}.

Lemma uniform_64 {S : ScalarLib} {U : UniformLib S} {n} {L : ScalarLaws S LittleEndian 32 n}
    {LU : UniformLaws U L} bs :
  length bs = 64%nat → ∃ x, l_SetUniformBytes bs = Some x ∧ lval x = le_combine bs mod n.
Proof.
  intros Hl. pose proof (ul_SetUniformBytes bs) as H. rewrite Hl in H. cbn in H.
  destruct (l_SetUniformBytes bs) as [x|]; [| done]. exists x. by injection H.
Qed.

(** ** Points *)

(** [p_SetBytes] decodes a point; [p_ScalarMult s P] is the library's
    [ScalarMult]. *)
Class PointLib (S : ScalarLib) : Type := {
  LPoint : Type;
  p_Identity : LPoint;
  p_Generator : LPoint;
  p_Add : LPoint → LPoint → LPoint;
  p_Negate : LPoint → LPoint;
  p_Equal : LPoint → LPoint → bool;
  p_Bytes : LPoint → bytes;
  p_SetBytes : bytes → option LPoint;
  p_ScalarMult : LScalar → LPoint → LPoint;
  p_ScalarBaseMult : LScalar → LPoint;
}.

(** A curve of [h * n] points with encodings of [plen] bytes; the encoding of
    the identity, which some libraries make shorter, is not constrained. *)
Class PointLaws {S : ScalarLib} (P : PointLib S) {o : ByteOrder_t} {len : nat} {n : Z}
    (L : ScalarLaws S o len n) (plen : nat) (h : Z) : Prop := {
  pl_cofactor : 0 < h;
  pl_abelian :: AbelianOn (λ _, True) p_Add p_Identity p_Negate;
  pl_Equal (X Y : LPoint) : p_Equal X Y = true ↔ X = Y;
  pl_ScalarMult s X : p_ScalarMult s X = nmul p_Add p_Identity (lval s) X;
  pl_ScalarBaseMult s : p_ScalarBaseMult s = p_ScalarMult s p_Generator;
  pl_order X : nmul p_Add p_Identity (h * n) X = p_Identity;
  pl_Generator : nmul p_Add p_Identity n p_Generator = p_Identity;
  pl_Generator_order k : 0 < k < n → nmul p_Add p_Identity k p_Generator ≠ p_Identity;
  pl_Bytes_length X : X ≠ p_Identity → length (p_Bytes X) = plen;
  pl_SetBytes X : X ≠ p_Identity → p_SetBytes (p_Bytes X) = Some X;
}.

Section PointFacts.
Context {S : ScalarLib} {P : PointLib S} {o : ByteOrder_t} {len : nat} {n : Z}
  {L : ScalarLaws S o len n} {plen : nat} {h : Z} {LP : PointLaws P L plen h}.

(** A set of points closed under the operations is a subgroup. *)
Lemma subgroup (ok : LPoint → bool) :
  (∀ X Y, ok X = true → ok Y = true → ok (p_Add X Y) = true) →
  ok p_Identity = true → (∀ X, ok X = true → ok (p_Negate X) = true) →
  AbelianOn (λ X, ok X = true) p_Add p_Identity p_Negate.
Proof.
  intros Ha Hz Hn. destruct pl_abelian as [_ _ _ Hass Hcomm Hid Hneg].
  split; auto.
Qed.

Lemma whole_group : AbelianOn (λ _ : LPoint, true = true) p_Add p_Identity p_Negate.
Proof. by apply (subgroup (λ _, true)). Qed.

Lemma p_Equal_refl X : p_Equal X X = true.
Proof. by apply pl_Equal. Qed.

Lemma p_Equal_false X Y : p_Equal X Y = false ↔ X ≠ Y.
Proof. rewrite <-not_true_iff_false. by rewrite pl_Equal. Qed.

Lemma base_mult s : p_ScalarBaseMult s = nmul p_Add p_Identity (lval s) p_Generator.
Proof. by rewrite pl_ScalarBaseMult, pl_ScalarMult. Qed.

Lemma p_Bytes_inj X Y :
  X ≠ p_Identity → Y ≠ p_Identity → p_Bytes X = p_Bytes Y → X = Y.
Proof.
  intros HX HY H. apply (f_equal p_SetBytes) in H. rewrite !pl_SetBytes in H by done. congruence.
Qed.
End PointFacts.

(** The fields of [AdapterLaws] that are laws of the wrapped library. *)
Ltac library_laws :=
  try done;
  try solve
    [ intros; apply ll_range
    | intros x y _ _; apply ll_inj
    | split; [done | apply ll_New]
    | intros; split; [done | first [apply ll_Add | apply ll_Subtract | apply ll_Multiply
                                   | apply ll_Negate]]
    | intros; apply ll_Equal
    | intros; apply ll_Bytes
    | intros; apply pl_Equal
    | intros; apply pl_ScalarMult
    | intros; apply pl_ScalarBaseMult
    | apply pl_Generator_order
    | intros; by apply pl_Bytes_length ].

(** ** Usable random integers *)

Section Nonzero.
Context {S : ScalarLib} {o : ByteOrder_t} {len : nat} {n : Z} {L : ScalarLaws S o len n}.
Context (isZero : LScalar → bool) (HZ : ∀ x, isZero x = (lval x =? 0)).

(** Decode, and refuse zero. *)
Definition nonzero_scalar (buf : bytes) : option LScalar :=
  scalar ← l_SetCanonicalBytes buf;
  if isZero scalar then None else Some scalar.

Lemma nonzero_Some buf x :
  nonzero_scalar buf = Some x ↔
  length buf = len ∧ 0 < decode_int o buf < n ∧ lval x = decode_int o buf.
Proof.
  unfold nonzero_scalar. split.
  - intros H. apply bind_Some in H as (y & Hy & H). apply canonical_Some in Hy as (Hl & Hb & Hv).
    rewrite HZ in H. destruct (Z.eqb_spec (lval y) 0); [done |]. injection H as ->.
    pose proof (ll_range x). split_and!; [done | lia | lia | done].
  - intros (Hl & Hb & Hv). destruct (canonical_in_range buf Hl (proj2 Hb)) as (y & -> & Hy).
    cbn. rewrite HZ, (proj2 (Z.eqb_neq (lval y) 0)) by lia. f_equal. apply ll_inj. lia.
Qed.

Lemma nonzero_usable buf :
  length buf = len → 0 < decode_int o buf < n →
  ∃ x, nonzero_scalar buf = Some x ∧ lval x = decode_int o buf.
Proof.
  intros Hl Hb. destruct (canonical_in_range buf Hl (proj2 Hb)) as (x & _ & Hx).
  exists x. split; [by apply nonzero_Some | done].
Qed.

Lemma nonzero_None buf :
  nonzero_scalar buf = None ↔ ¬ (length buf = len ∧ 0 < decode_int o buf < n).
Proof.
  split.
  - intros H (Hl & Hb). destruct (nonzero_usable buf Hl Hb) as (x & Hx & _). congruence.
  - intros H. destruct (nonzero_scalar buf) as [x|] eqn:E; [| done].
    apply nonzero_Some in E. tauto.
Qed.
End Nonzero.

(** ** The prime-order subgroup *)

Section Subgroup.
Context {S : ScalarLib} {P : PointLib S} (o : ByteOrder_t) (len : nat).

(** [-1] as a scalar, and the test [P + (-1)P = O], which says that the order
    kills [P]. *)
Definition minus_one : LScalar :=
  l_Negate (default l_New (l_SetCanonicalBytes (encode_int o len 1))).

Definition in_subgroup (X : LPoint) : bool :=
  p_Equal (p_Add X (p_ScalarMult minus_one X)) p_Identity.

Context {n : Z} {L : ScalarLaws S o len n} {plen : nat} {h : Z} {LP : PointLaws P L plen h}.

Local Abbreviation times k X := (nmul p_Add p_Identity k X).

Lemma lval_minus_one : lval minus_one = n - 1.
Proof.
  pose proof ll_order. destruct (canonical_value (n := n) 1) as (x & Hx & Hv); [lia |].
  unfold minus_one. rewrite Hx. cbn. rewrite ll_Negate, Hv.
  rewrite (Z_mod_nz_opp_full 1) by (rewrite Z.mod_small by lia; lia).
  rewrite Z.mod_small by lia. done.
Qed.

Lemma in_subgroup_true X : in_subgroup X = true ↔ times n X = p_Identity.
Proof.
  pose proof ll_order. unfold in_subgroup.
  rewrite pl_Equal, pl_ScalarMult, lval_minus_one.
  rewrite <-(nmul_one (ok := λ _, True) X) at 1 by done.
  rewrite <-(nmul_add (ok := λ _, True)) by (lia || done).
  by replace (1 + (n - 1)) with n by lia.
Qed.

Lemma subgroup_laws : AbelianOn (λ X, in_subgroup X = true) p_Add p_Identity p_Negate.
Proof.
  apply subgroup.
  - intros X Y. rewrite !in_subgroup_true, (nmul_distr (ok := λ _, True)) by done.
    intros -> ->. by apply (ab_id (ok := λ _, True)).
  - rewrite in_subgroup_true. apply (nmul_zero (ok := λ _, True)).
  - intros X. rewrite !in_subgroup_true. intros HX.
    pose proof (nmul_neg (ok := λ _, True) n X I) as Hn. rewrite HX in Hn.
    by rewrite (ab_id_l (ok := λ _, True)) in Hn.
Qed.

Lemma Generator_in_subgroup : in_subgroup p_Generator = true.
Proof. rewrite in_subgroup_true. apply pl_Generator. Qed.

(** The subgroup has no point but the identity that [k] kills: cofactored
    equations hold there exactly when the plain ones do. *)
Lemma subgroup_no_torsion k X :
  0 < k < n → in_subgroup X = true → times k X = p_Identity → X = p_Identity.
Proof.
  intros Hk HX Hz. apply in_subgroup_true in HX.
  destruct (canonical_value (n := n) k) as (x & _ & Hx); [lia |].
  pose proof (ll_Invert x) as Hi. rewrite Hx in Hi. specialize (Hi ltac:(lia)).
  pose proof (ll_range (l_Invert x)).
  rewrite <-(nmul_one (ok := λ _, True) X), <-Hi by done.
  rewrite (nmul_mod (ok := λ _, True)) by (lia || nia || done).
  rewrite (nmul_mul (ok := λ _, True)), Hz by (lia || done).
  apply (nmul_zero (ok := λ _, True)).
Qed.
End Subgroup.

(** ** Ordering of scalars *)

(** [big.Int.Cmp]. *)
Definition big_Cmp (x y : Z) : Z :=
  match x ?= y with Lt => -1 | Eq => 0 | Gt => 1 end.

(** [for i := 0; i < k; i++ { if a[i] < b[i] { return -1 }; ... }; return 0] *)
Fixpoint compare_bytes (k : nat) (a b : bytes) : Z :=
  match k, a, b with
  | S k', x :: a', y :: b' =>
      if byte.unsigned x <? byte.unsigned y then -1
      else if byte.unsigned y <? byte.unsigned x then 1
      else compare_bytes k' a' b'
  | _, _, _ => 0
  end.

Lemma le_combine_app_add a b :
  le_combine (a ++ b) = le_combine a + 2 ^ (8 * Z.of_nat (length a)) * le_combine b.
Proof.
  rewrite le_combine_app, (Z.mul_comm (Z.of_nat (length a)) 8), or_to_plus.
  - rewrite Z.shiftl_mul_pow2 by lia. lia.
  - apply Z.bits_inj'. intros i Hi. rewrite Z.land_spec, Z.bits_0.
    destruct (Z.ltb_spec i (8 * Z.of_nat (length a))).
    + rewrite (Z.shiftl_spec_low (le_combine b)) by lia. apply andb_false_r.
    + rewrite <-(Z.mod_small (le_combine a) (2 ^ (8 * Z.of_nat (length a))))
        by apply le_combine_bound.
      by rewrite Z.mod_pow2_bits_high by lia.
Qed.

Lemma be_combine_cons x bs :
  be_combine (x :: bs) = byte.unsigned x * 2 ^ (8 * Z.of_nat (length bs)) + be_combine bs.
Proof.
  unfold be_combine. rewrite reverse_cons, le_combine_app_add, length_reverse, le_combine_1. lia.
Qed.

Lemma be_combine_zeros k bs : be_combine (zero_bytes k ++ bs) = be_combine bs.
Proof.
  unfold be_combine. rewrite reverse_app, reverse_zero_bytes. apply le_combine_zeros.
Qed.

(** [big.Int.Bytes] of a non-negative integer: the shortest big-endian encoding. *)
Definition big_Bytes (z : Z) : bytes :=
  if z =? 0 then [] else encode_int BigEndian (Z.to_nat (Z.log2 z / 8 + 1)) z.

Lemma decode_big_Bytes z : 0 ≤ z → be_combine (big_Bytes z) = z.
Proof.
  intros Hz. unfold big_Bytes. destruct (Z.eqb_spec z 0) as [->|Hz0]; [done |].
  apply (decode_encode_int BigEndian). split; [done |].
  pose proof (Z.log2_nonneg z). pose proof (Z.div_mod (Z.log2 z) 8).
  pose proof (Z.mod_pos_bound (Z.log2 z) 8). apply Z.log2_lt_pow2; lia.
Qed.

Lemma length_big_Bytes z k : 0 ≤ z < 2 ^ (8 * Z.of_nat k) → (length (big_Bytes z) ≤ k)%nat.
Proof.
  intros [Hz Hk]. unfold big_Bytes. destruct (Z.eqb_spec z 0) as [->|Hz0]; [cbn; lia |].
  rewrite length_encode_int. apply Z.log2_lt_pow2 in Hk; [| lia].
  pose proof (Z.log2_nonneg z). pose proof (Z.div_mod (Z.log2 z) 8).
  pose proof (Z.mod_pos_bound (Z.log2 z) 8). lia.
Qed.

(** Left-padding the shortest encoding gives the fixed-length one. *)
Lemma pad_big_Bytes z k : 0 ≤ z < 2 ^ (8 * Z.of_nat k) →
  zero_bytes (k - length (big_Bytes z)) ++ big_Bytes z = encode_int BigEndian k z.
Proof.
  intros Hz. pose proof (length_big_Bytes z k Hz).
  apply (decode_int_inj BigEndian).
  - rewrite length_encode_int, length_app. unfold zero_bytes. rewrite length_replicate. lia.
  - rewrite decode_encode_int by done. cbn. rewrite be_combine_zeros.
    apply decode_big_Bytes. lia.
Qed.

(** Comparing big-endian encodings byte by byte compares the integers. *)
Lemma compare_bytes_spec a b :
  length a = length b → compare_bytes (length a) a b = big_Cmp (be_combine a) (be_combine b).
Proof.
  revert b. induction a as [|x a IH]; intros [|y b] Hl; try done. injection Hl as Hl.
  cbn [compare_bytes length]. rewrite !be_combine_cons, <-Hl.
  pose proof (decode_int_bound BigEndian a) as Ha. pose proof (decode_int_bound BigEndian b) as Hb.
  cbn [decode_int] in Ha, Hb. rewrite <-Hl in Hb.
  rewrite (IH b Hl). unfold big_Cmp.
  set (M := 2 ^ (8 * Z.of_nat (length a))) in *.
  destruct (Z.ltb_spec (byte.unsigned x) (byte.unsigned y)).
  { by rewrite (proj2 (Z.compare_lt_iff _ _)) by nia. }
  destruct (Z.ltb_spec (byte.unsigned y) (byte.unsigned x)).
  { by rewrite (proj2 (Z.compare_gt_iff _ _)) by nia. }
  replace (byte.unsigned x) with (byte.unsigned y) by lia.
  by rewrite Zcompare_plus_compat.
Qed.

Lemma big_Cmp_refl a : big_Cmp a a = 0.
Proof. unfold big_Cmp. by rewrite Z.compare_refl. Qed.

(** The ordering of the big-endian groups is that of the integers. *)
Lemma compare_encodings {S : ScalarLib} {len n} {L : ScalarLaws S BigEndian len n} (x y : LScalar) :
  (if l_Equal x y then 0 else compare_bytes len (l_Bytes x) (l_Bytes y))
  = big_Cmp (lval x) (lval y).
Proof.
  rewrite <-(decode_l_Bytes x), <-(decode_l_Bytes y). cbn [decode_int].
  destruct (l_Equal x y) eqn:E.
  - apply l_Equal_true in E as ->. by rewrite big_Cmp_refl.
  - rewrite <-compare_bytes_spec by (by rewrite !length_l_Bytes).
    by rewrite length_l_Bytes.
Qed.

(** [for i := range b { result[i] = b[len(b)-1-i] }], the same in the packages
    of the three little-endian groups. *)
Definition reverseBytes (b : bytes) : bytes :=
  (λ i, nth (length b - 1 - i) b (byte.of_Z 0)) <$> seq 0 (length b).

Lemma reverseBytes_reverse b : reverseBytes b = reverse b.
Proof.
  unfold reverseBytes. apply list_eq. intros i. rewrite list_lookup_fmap.
  destruct (Nat.lt_ge_cases i (length b)) as [Hi|Hi].
  - rewrite lookup_seq_lt, reverse_lookup by done. cbn.
    replace (length b - 1 - i)%nat with (length b - S i)%nat by lia.
    destruct (nth_lookup_or_length b (length b - S i) (byte.of_Z 0)); [done | lia].
  - rewrite lookup_seq_ge, (lookup_ge_None_2 (reverse b)) by (rewrite ?length_reverse; done). done.
Qed.

Lemma be_combine_reverseBytes b : be_combine (reverseBytes b) = le_combine b.
Proof. unfold be_combine. by rewrite reverseBytes_reverse, reverse_involutive. Qed.

(** The ordering of the little-endian groups. *)
Lemma compare_reversed {S : ScalarLib} {len n} {L : ScalarLaws S LittleEndian len n}
    (x y : LScalar) :
  big_Cmp (be_combine (reverseBytes (l_Bytes x))) (be_combine (reverseBytes (l_Bytes y)))
  = big_Cmp (lval x) (lval y).
Proof. rewrite !be_combine_reverseBytes. by rewrite <-(decode_l_Bytes x), <-(decode_l_Bytes y). Qed.

(** [big.Int.ModInverse]: nil when the two are not relatively prime. *)
Definition big_ModInverse (g m : Z) : option Z :=
  if Z.gcd g m =? 1 then Some (Z.invmod g m) else None.

Lemma ModInverse_prime g m :
  Z.prime m → 0 < g < m → ∃ y, big_ModInverse g m = Some y ∧ 0 ≤ y < m ∧ (y * g) mod m = 1.
Proof.
  intros Hm Hg. exists (Z.invmod g m). split_and!.
  - unfold big_ModInverse. rewrite (proj2 (Z.eqb_eq _ _)); [done |].
    rewrite Z.gcd_comm. by apply Z.coprime_prime_small; [| lia].
  - rewrite <-Z.mod_invmod. apply Z.mod_pos_bound. lia.
  - rewrite <-Z.mod_invmod. apply Z.mod_pos_bound. lia.
  - apply Z.invmod_prime; [done |]. rewrite Z.mod_small; lia.
Qed.

(** ** Rejection sampling

    [for { _, err := io.ReadFull(random, buf); if err != nil { return err };
    ...; if out of range { continue }; return scalar }]: the loop has no
    bound, so a run is given [fuel] reads; [None] is a run that has not
    returned after them. *)

Section Reject.
Context {A : Type} (size : nat) (accept : bytes → option A) (failed : error → error).

Fixpoint reject_loop (fuel : nat) (r : Rng) : option (Res A * Rng) :=
  match fuel with
  | O => None
  | S fuel' =>
      let '(m, r') := rand_Read size r in
      match m with
      | Ok buf => match accept buf with
                  | Some a => Some (Ok a, r')
                  | None => reject_loop fuel' r'
                  end
      | Fail e => Some (Fail (failed e), r')
      | Panic => Some (Panic, r')
      end
  end.

Definition advance (k : nat) (r : Rng) : Rng :=
  {| rng_read := rng_read r; rng_calls := rng_calls r + k |}.

(** Reads [j < k] are rejected. *)
Definition rejected (r : Rng) (k : nat) : Prop :=
  ∀ j, (j < k)%nat → ∃ buf, rng_read r (rng_calls r + j) size = Some buf ∧ accept buf = None.

Lemma reject_loop_step fuel r k :
  rejected r k → (k ≤ fuel)%nat → reject_loop fuel r = reject_loop (fuel - k) (advance k r).
Proof.
  revert fuel r. induction k as [|k IH]; intros fuel r Hr Hf.
  - rewrite Nat.sub_0_r. unfold advance. rewrite Nat.add_0_r. by destruct r.
  - destruct fuel as [|fuel]; [lia |]. cbn [reject_loop].
    destruct (Hr 0%nat) as (buf & Hb & Ha); [lia |]. rewrite Nat.add_0_r in Hb.
    unfold rand_Read. rewrite Hb, Ha. cbn [Nat.sub].
    rewrite IH; [| | lia].
    + f_equal. unfold advance. cbn. f_equal. lia.
    + intros j Hj. destruct (Hr (S j)) as (b & Hb' & Ha'); [lia |]. exists b. cbn.
      by rewrite Nat.add_succ_r in Hb'.
Qed.

(** The loop returns at the first read that fails or is accepted, and is never
    stopped by a larger bound. *)
Lemma reject_loop_accepts fuel r k buf a :
  rejected r k → rng_read r (rng_calls r + k) size = Some buf → accept buf = Some a →
  (k < fuel)%nat → reject_loop fuel r = Some (Ok a, advance (S k) r).
Proof.
  intros Hr Hb Ha Hf. rewrite (reject_loop_step fuel r k Hr) by lia.
  destruct (fuel - k)%nat eqn:E; [lia |]. cbn [reject_loop]. unfold rand_Read, advance at 1.
  cbn. rewrite Hb, Ha. do 2 f_equal. unfold advance. cbn. f_equal. lia.
Qed.

Lemma reject_loop_fails fuel r k :
  rejected r k → rng_read r (rng_calls r + k) size = None → (k < fuel)%nat →
  ∃ e, reject_loop fuel r = Some (Fail e, advance (S k) r).
Proof.
  intros Hr Hb Hf. rewrite (reject_loop_step fuel r k Hr) by lia.
  destruct (fuel - k)%nat eqn:E; [lia |]. cbn [reject_loop]. unfold rand_Read, advance at 1.
  cbn. rewrite Hb. eexists. do 2 f_equal. unfold advance. cbn. f_equal. lia.
Qed.

Lemma reject_loop_Ok fuel r a r' :
  reject_loop fuel r = Some (Ok a, r') → ∃ buf, accept buf = Some a.
Proof.
  revert r. induction fuel as [|fuel IH]; intros r H; [done |]. cbn [reject_loop] in H.
  unfold rand_Read in H. destruct (rng_read r (rng_calls r) size) as [buf|]; [| done].
  destruct (accept buf) eqn:Ha; [| by eapply IH]. exists buf. congruence.
Qed.
End Reject.
