(* ===== verification/Secp256k1.v ===== *)
(** * pkg/frost/group/secp256k1/secp256k1.go

    The adapter of secp256k1-voi to the group interface: the methods of
    [Element], [Scalar] and [Group] as definitions, the [Group] instance they
    make up, and its [AdapterLaws], from which [restrict_laws] gives the group
    contract.  [RandomScalar] samples by rejection without a bound on the
    number of reads. *)

From S2P Require Export Libraries.

Local Open Scope Z_scope.

(** What secp256k1-voi offers beside the shared calls: [Scalar.IsZero], the
    reducing [NewScalarFromBytes] (its flag is not used) of 32 bytes, and
    compressed encodings that start with 0x02 or 0x03 unless the point is the
    identity. *)
Class SecpLib : Type := {
  secp_Scalar :: ScalarLib;
  secp_Point :: PointLib secp_Scalar;
  secp_IsZero : LScalar → bool;
  secp_NewScalarFromBytes : bytes → LScalar;
}.

Class SecpLaws (V : SecpLib) (n : Z) : Type := {
  secp_ScalarLaws :: ScalarLaws secp_Scalar BigEndian 32 n;
  secp_PointLaws :: PointLaws secp_Point secp_ScalarLaws 33 1;
  secp_law_IsZero x : secp_IsZero x = (lval x =? 0);
  secp_law_NewScalarFromBytes bs : length bs = 32%nat →
    lval (secp_NewScalarFromBytes bs) = be_combine bs mod n;
  secp_CompressedBytes X : X ≠ p_Identity →
    ∃ b rest, p_Bytes X = b :: rest ∧ (byte.unsigned b = 2 ∨ byte.unsigned b = 3);
}.

Module secp256k1.
Section Adapter.
Context {V : SecpLib}.

Definition ElementSize : nat := 33.
Definition ScalarSize : nat := 32.

(** [type Element struct { point *secp.Point }] and
    [type Scalar struct { value *secp.Scalar }]: values of the library. *)
Definition Element : Type := LPoint.
Definition Scalar : Type := LScalar.

(** ** Elements *)

Definition Element_Add (e other : Element) : Element := p_Add e other.

Definition Element_Negate (e : Element) : Element := p_Negate e.

Definition Element_IsIdentity (e : Element) : bool := p_Equal e p_Identity.

Definition Element_Equal (e other : Element) : bool := p_Equal e other.

Definition Element_Bytes (e : Element) : bytes :=
  if Element_IsIdentity e then zero_bytes ElementSize else p_Bytes e.

Definition Element_Copy (e : Element) : Element := e.

(** ** Scalars *)

Definition Scalar_Add (s other : Scalar) : Scalar := l_Add s other.

Definition Scalar_Sub (s other : Scalar) : Scalar := l_Subtract s other.

Definition Scalar_Mul (s other : Scalar) : Scalar := l_Multiply s other.

Definition Scalar_IsZero (s : Scalar) : bool := secp_IsZero s.

Definition Scalar_Inv (s : Scalar) : Res Scalar :=
  if Scalar_IsZero s then Fail (Sentinel ErrZeroScalar) else Ok (l_Invert s).

Definition Scalar_Negate (s : Scalar) : Scalar := l_Negate s.

Definition Scalar_Equal (s other : Scalar) : bool := l_Equal s other.

Definition Scalar_Bytes (s : Scalar) : bytes := l_Bytes s.

Definition Scalar_Copy (s : Scalar) : Scalar := s.

Definition Scalar_Compare (s other : Scalar) : Z :=
  if l_Equal s other then 0
  else compare_bytes ScalarSize (Scalar_Bytes s) (Scalar_Bytes other).

(** [s.value.Zero()] *)
Definition Scalar_Zeroize (s : Scalar) : Scalar := l_New.

(** ** The group *)

Definition groupOrder : bytes :=
  byte.of_Z <$> [255; 255; 255; 255; 255; 255; 255; 255; 255; 255; 255; 255; 255; 255; 255; 254;
                 186; 174; 220; 230; 175; 72; 160; 59; 191; 210; 94; 140; 208; 54; 65; 65].

(** The error of decoding the constant 1 is dropped; the scalar is then nil,
    which no scalar of the model is. *)
Definition Group_Cofactor : Scalar :=
  default l_New (l_SetCanonicalBytes (zero_bytes 31 ++ [byte.of_Z 1])).

Definition accept (buf : bytes) : option Scalar :=
  scalar ← l_SetCanonicalBytes buf;
  if secp_IsZero scalar then None else Some scalar.

Definition randomScalar (fuel : nat) (r : Rng) : option (Res Scalar * Rng) :=
  reject_loop 32 accept
    (λ err, NewParameterError "random" "failed to generate random bytes" err) fuel r.

Definition Group_ScalarMult (element : Element) (scalar : Scalar) : Element :=
  p_ScalarMult scalar element.

Definition Group_ScalarBaseMult (scalar : Scalar) : Element := p_ScalarBaseMult scalar.

Definition Group_SerializeElement (element : Element) : Res bytes :=
  if Element_IsIdentity element then Fail (Sentinel ErrIdentityElement)
  else Ok (Element_Bytes element).

Definition Group_DeserializeElement (data : bytes) : Res Element :=
  _ ← fail_if (negb (length data =? ElementSize)%nat)
        (NewParameterError "data" "invalid element encoding length"
           (Sentinel ErrDeserializationFailed));
  match p_SetBytes data with
  | None => Fail (NewParameterError "data" "invalid compressed point encoding"
                    (Sentinel ErrDeserializationFailed))
  | Some result =>
      _ ← fail_if (Element_IsIdentity result) (Sentinel ErrIdentityElement);
      Ok result
  end.

Definition Group_DeserializeScalar (data : bytes) : Res Scalar :=
  _ ← fail_if (negb (length data =? ScalarSize)%nat)
        (NewParameterError "data" "invalid scalar encoding length"
           (Sentinel ErrDeserializationFailed));
  match l_SetCanonicalBytes data with
  | None => Fail (NewParameterError "data" "scalar value exceeds group order"
                    (Sentinel ErrDeserializationFailed))
  | Some scalar => Ok scalar
  end.

(** [fuel] bounds the reads of one [RandomScalar] call; a call that would need
    more has no outcome in Go and is [Panic] here ([secp_randomScalar_returns]
    shows how many are needed). *)
Definition NewGroup (fuel : nat) : Group := {|
  Group.Element := Element;
  Group.Scalar := Scalar;
  e_Add := Element_Add;
  e_Negate := Element_Negate;
  e_IsIdentity := Element_IsIdentity;
  e_Equal := Element_Equal;
  e_Bytes := Element_Bytes;
  e_Copy := Element_Copy;
  s_Add := Scalar_Add;
  s_Sub := Scalar_Sub;
  s_Mul := Scalar_Mul;
  s_Inv := Scalar_Inv;
  s_Negate := Scalar_Negate;
  s_IsZero := Scalar_IsZero;
  s_Equal := Scalar_Equal;
  s_Bytes := Scalar_Bytes;
  s_Copy := Scalar_Copy;
  s_Compare := Scalar_Compare;
  Order := groupOrder;
  Cofactor := Group_Cofactor;
  Identity := p_Identity;
  Generator := p_Generator;
  NewScalar := l_New;
  NewElement := p_Identity;
  RandomScalar := λ r, default (Panic, r) (randomScalar fuel r);
  ScalarMult := Group_ScalarMult;
  ScalarBaseMult := Group_ScalarBaseMult;
  SerializeElement := Group_SerializeElement;
  DeserializeElement := Group_DeserializeElement;
  SerializeScalar := Scalar_Bytes;
  DeserializeScalar := Group_DeserializeScalar;
  ElementLength := ElementSize;
  ScalarLength := ScalarSize;
  Name := "secp256k1";
  ByteOrder := BigEndian;
|}.

(** ** The contract *)

Section Laws.
Context {n : Z} {L : SecpLaws V n} (fuel : nat).

Lemma secp_IsIdentity_true X : Element_IsIdentity X = true ↔ X = p_Identity.
Proof. apply pl_Equal. Qed.

Lemma secp_IsIdentity_false X : X ≠ p_Identity → Element_IsIdentity X = false.
Proof. apply p_Equal_false. Qed.

Lemma Bytes_point X : X ≠ p_Identity → Element_Bytes X = p_Bytes X.
Proof. intros HX. unfold Element_Bytes. by rewrite secp_IsIdentity_false. Qed.

Lemma Bytes_identity : Element_Bytes p_Identity = zero_bytes ElementSize.
Proof. unfold Element_Bytes. by rewrite (proj2 (secp_IsIdentity_true _)). Qed.

Lemma point_not_zeros X : X ≠ p_Identity → p_Bytes X ≠ zero_bytes ElementSize.
Proof. intros HX. by destruct (secp_CompressedBytes X HX) as (b & rest & -> & [H|H]); intros [= ->]. Qed.

Lemma secp_Bytes_inj X Y : Element_Bytes X = Element_Bytes Y → X = Y.
Proof.
  destruct (decide (Element_IsIdentity X = true)) as [->%secp_IsIdentity_true|HX];
    destruct (decide (Element_IsIdentity Y = true)) as [->%secp_IsIdentity_true|HY];
    rewrite ?secp_IsIdentity_true in *; rewrite ?Bytes_identity, ?Bytes_point by done.
  - done.
  - intros H. symmetry in H. by apply point_not_zeros in H.
  - intros H. by apply point_not_zeros in H.
  - by apply p_Bytes_inj.
Qed.

#[export] Instance laws : AdapterLaws (NewGroup fuel).
Proof.
  pose proof (ll_order (S := secp_Scalar)) as Ho.
  refine {| adapter_order := n; valid_scalar _ := true; valid_element _ := true;
            sval := (lval : @Group.Scalar (NewGroup fuel) → Z) |}; library_laws.
  - intros x _ Hx. exists (l_Invert x). cbn. unfold Scalar_Inv, Scalar_IsZero.
    rewrite secp_law_IsZero, (proj2 (Z.eqb_neq _ _) Hx). split_and!; [done.. | by apply ll_Invert].
  - intros x _ Hx. eexists. cbn. unfold Scalar_Inv, Scalar_IsZero.
    by rewrite secp_law_IsZero, (proj2 (Z.eqb_eq _ _) Hx).
  - intros x _. apply secp_law_IsZero.
  - intros x y _ _. apply compare_encodings.
  - split; [cbn; unfold ScalarSize; lia | exact (proj1 (ll_length (S := secp_Scalar)))].
  - intros bs Hl Hb. destruct (canonical_in_range bs Hl Hb) as (x & Hx & Hv). exists x.
    cbn. unfold Group_DeserializeScalar. cbn in Hl. by rewrite Hl, Hx.
  - apply whole_group.
  - intros X _. rewrite <-(Z.mul_1_l n). apply pl_order.
  - intros X _ HX. cbn. rewrite Bytes_point by done. by apply pl_Bytes_length.
  - intros X Y _ _. apply secp_Bytes_inj.
  - intros X _ HX. cbn. unfold Group_SerializeElement. by rewrite secp_IsIdentity_false.
  - eexists. cbn. unfold Group_SerializeElement. by rewrite (proj2 (secp_IsIdentity_true _)).
  - intros X _ HX. cbn. unfold Group_DeserializeElement. rewrite Bytes_point by done.
    rewrite pl_Bytes_length, pl_SetBytes by done. cbn. by rewrite secp_IsIdentity_false.
Defined.

Lemma accept_nonzero : accept = nonzero_scalar secp_IsZero.
Proof. done. Qed.

(** [RandomScalar] returns, with the first usable integer of the source, as
    soon as a read brings one: any allowance above the number of reads that it
    takes gives the same result. *)
Lemma secp_randomScalar_returns r k buf :
  (∀ j, (j < k)%nat → ∃ b, rng_read r (rng_calls r + j) 32 = Some b ∧ ¬ 0 < be_combine b < n) →
  rng_read r (rng_calls r + k) 32 = Some buf → length buf = 32%nat → 0 < be_combine buf < n →
  ∃ x, lval x = be_combine buf
       ∧ ∀ fuel', (k < fuel')%nat → randomScalar fuel' r = Some (Ok x, advance (S k) r).
Proof.
  intros Hr Hb Hl Hv.
  destruct (nonzero_usable (o := BigEndian) secp_IsZero secp_law_IsZero buf Hl Hv) as (x & Hx & Hxv).
  exists x. split; [done |]. intros fuel' Hf. eapply reject_loop_accepts; [| done..].
  intros j Hj. destruct (Hr j Hj) as (b & Hb' & Hn). exists b. split; [done |].
  apply (nonzero_None (o := BigEndian) secp_IsZero secp_law_IsZero). tauto.
Qed.
End Laws.
End Adapter.
End secp256k1.
