(* ===== verification/Ristretto255.v ===== *)
(** * pkg/frost/group/ristretto255/ristretto255.go

    The adapter of gtank/ristretto255 to the group interface. *)

From S2P Require Export Libraries.

Local Open Scope Z_scope.

(** The ristretto255 library; [ristretto_map] is its [Element.SetUniformBytes]. *)
Class RistrettoLib : Type := {
  ristretto_Scalar :: ScalarLib;
  ristretto_Uniform :: UniformLib ristretto_Scalar;
  ristretto_Point :: PointLib ristretto_Scalar;
  ristretto_map : bytes → option LPoint;
}.

Class RistrettoLaws (V : RistrettoLib) (n : Z) : Type := {
  ristretto_ScalarLaws :: ScalarLaws ristretto_Scalar LittleEndian 32 n;
  ristretto_UniformLaws :: UniformLaws ristretto_Uniform ristretto_ScalarLaws;
  ristretto_PointLaws :: PointLaws ristretto_Point ristretto_ScalarLaws 32 1;
  ristretto_Identity_Bytes : p_SetBytes (p_Bytes p_Identity) = Some p_Identity;
  ristretto_map_64 bs : is_Some (ristretto_map bs) ↔ length bs = 64%nat;
}.

Module ristretto255.
Section Adapter.
Context {V : RistrettoLib}.

Definition ElementSize : nat := 32.
Definition ScalarSize : nat := 32.

Definition groupOrderBytes : bytes :=
  byte.of_Z <$> [237; 211; 245; 92; 26; 99; 18; 88; 214; 156; 247; 162; 222; 249; 222; 20;
                 0; 0; 0; 0; 0; 0; 0; 0; 0; 0; 0; 0; 0; 0; 0; 16].

(** [type Element struct { elem *ristretto255.Element }] and
    [type Scalar struct { scalar *ristretto255.Scalar }]. *)
Definition Element : Type := LPoint.
Definition Scalar : Type := LScalar.

(** ** Elements *)

Definition Element_Add (e other : Element) : Element := p_Add e other.

Definition Element_Negate (e : Element) : Element := p_Negate e.

Definition Element_IsIdentity (e : Element) : bool := p_Equal e p_Identity.

Definition Element_Equal (e other : Element) : bool := p_Equal e other.

Definition Element_Bytes (e : Element) : bytes := p_Bytes e.

Definition Element_Copy (e : Element) : Element := e.

(** ** Scalars *)

Definition Scalar_Add (s other : Scalar) : Scalar := l_Add s other.

Definition Scalar_Sub (s other : Scalar) : Scalar := l_Subtract s other.

Definition Scalar_Mul (s other : Scalar) : Scalar := l_Multiply s other.

Definition Scalar_IsZero (s : Scalar) : bool := l_Equal s l_New.

Definition Scalar_Inv (s : Scalar) : Res Scalar :=
  if Scalar_IsZero s then Fail (Sentinel ErrZeroScalar) else Ok (l_Invert s).

Definition Scalar_Negate (s : Scalar) : Scalar := l_Negate s.

Definition Scalar_Equal (s other : Scalar) : bool := l_Equal s other.

Definition Scalar_Bytes (s : Scalar) : bytes := l_Bytes s.

Definition Scalar_Copy (s : Scalar) : Scalar := s.

Definition Scalar_Compare (s other : Scalar) : Z :=
  big_Cmp (be_combine (reverseBytes (Scalar_Bytes s)))
          (be_combine (reverseBytes (Scalar_Bytes other))).

(** [s.scalar.Zero()] *)
Definition Scalar_Zeroize (s : Scalar) : Scalar := l_New.

(** ** The group *)

(** The library refuses no canonical constant; if it did, the process would
    panic with the message of the code, which no scalar stands for. *)
Definition Group_Cofactor : Scalar :=
  default l_New (l_SetCanonicalBytes (byte.of_Z 1 :: zero_bytes 31)).

Definition Group_RandomScalar : Rand Scalar :=
  randomBytes ← rand_wrap
    (λ err, NewParameterError "random" "failed to generate random bytes" err) (rand_Read 64);
  lift (match l_SetUniformBytes randomBytes with
        | Some scalar => Ok scalar
        | None => Fail (NewParameterError "random" "failed to create scalar from uniform bytes"
                          (OpaqueError "ristretto255: SetUniformBytes"))
        end).

Definition Group_ScalarMult (element : Element) (scalar : Scalar) : Element :=
  p_ScalarMult scalar element.

Definition Group_ScalarBaseMult (scalar : Scalar) : Element := p_ScalarBaseMult scalar.

Definition Group_SerializeElement (element : Element) : Res bytes :=
  if Element_IsIdentity element then Fail (Sentinel ErrIdentityElement)
  else Ok (Element_Bytes element).

Definition Group_DeserializeElement (data : bytes) : Res Element :=
  _ ← fail_if (negb (length data =? ElementSize)%nat)
        (NewParameterError "data" "invalid element encoding length"
           (Sentinel ErrDeserializationFailed));
  match p_SetBytes data with
  | None => Fail (NewParameterError "data" "invalid element encoding"
                    (Sentinel ErrDeserializationFailed))
  | Some result =>
      _ ← fail_if (Element_IsIdentity result) (Sentinel ErrIdentityElement);
      Ok result
  end.

Definition Group_DeserializeScalar (data : bytes) : Res Scalar :=
  _ ← fail_if (negb (length data =? ScalarSize)%nat)
        (NewParameterError "data" "invalid scalar encoding length"
           (Sentinel ErrDeserializationFailed));
  match l_SetCanonicalBytes data with
  | None => Fail (NewParameterError "data" "invalid scalar encoding"
                    (Sentinel ErrDeserializationFailed))
  | Some scalar => Ok scalar
  end.

Definition NewGroup : Group := {|
  Group.Element := Element;
  Group.Scalar := Scalar;
  e_Add := Element_Add;
  e_Negate := Element_Negate;
  e_IsIdentity := Element_IsIdentity;
  e_Equal := Element_Equal;
  e_Bytes := Element_Bytes;
  e_Copy := Element_Copy;
  s_Add := Scalar_Add;
  s_Sub := Scalar_Sub;
  s_Mul := Scalar_Mul;
  s_Inv := Scalar_Inv;
  s_Negate := Scalar_Negate;
  s_IsZero := Scalar_IsZero;
  s_Equal := Scalar_Equal;
  s_Bytes := Scalar_Bytes;
  s_Copy := Scalar_Copy;
  s_Compare := Scalar_Compare;
  Order := groupOrderBytes;
  Cofactor := Group_Cofactor;
  Identity := p_Identity;
  Generator := p_Generator;
  NewScalar := l_New;
  NewElement := p_Identity;
  RandomScalar := Group_RandomScalar;
  ScalarMult := Group_ScalarMult;
  ScalarBaseMult := Group_ScalarBaseMult;
  SerializeElement := Group_SerializeElement;
  DeserializeElement := Group_DeserializeElement;
  SerializeScalar := Scalar_Bytes;
  DeserializeScalar := Group_DeserializeScalar;
  ElementLength := ElementSize;
  ScalarLength := ScalarSize;
  Name := "ristretto255";
  ByteOrder := LittleEndian;
|}.

(** ** The contract *)

Section Laws.
Context {n : Z} {L : RistrettoLaws V n}.

Lemma ristretto_IsIdentity_true X : Element_IsIdentity X = true ↔ X = p_Identity.
Proof. apply pl_Equal. Qed.

Lemma ristretto_IsIdentity_false X : X ≠ p_Identity → Element_IsIdentity X = false.
Proof. apply p_Equal_false. Qed.

Lemma ristretto_SetBytes_Bytes X : p_SetBytes (p_Bytes X) = Some X.
Proof.
  destruct (p_Equal X p_Identity) eqn:E.
  - apply pl_Equal in E as ->. apply ristretto_Identity_Bytes.
  - apply pl_SetBytes. by apply p_Equal_false.
Qed.

Lemma ristretto_IsZero_val s : Scalar_IsZero s = (lval s =? 0).
Proof. unfold Scalar_IsZero. by rewrite ll_Equal, ll_New. Qed.

#[export] Instance laws : AdapterLaws NewGroup.
Proof.
  pose proof (ll_order (S := ristretto_Scalar)) as Ho.
  refine {| adapter_order := n; valid_scalar _ := true; valid_element _ := true;
            sval := (lval : @Group.Scalar NewGroup → Z) |}; library_laws.
  - intros x _ Hx. exists (l_Invert x). cbn. unfold Scalar_Inv.
    rewrite ristretto_IsZero_val, (proj2 (Z.eqb_neq _ _) Hx). split_and!; [done.. | by apply ll_Invert].
  - intros x _ Hx. eexists. cbn. unfold Scalar_Inv.
    by rewrite ristretto_IsZero_val, (proj2 (Z.eqb_eq _ _) Hx).
  - intros x _. apply ristretto_IsZero_val.
  - intros x y _ _. apply compare_reversed.
  - split; [cbn; unfold ScalarSize; lia | exact (proj1 (ll_length (S := ristretto_Scalar)))].
  - intros bs Hl Hb. destruct (canonical_in_range bs Hl Hb) as (x & Hx & Hv). exists x.
    cbn. unfold Group_DeserializeScalar. cbn in Hl. by rewrite Hl, Hx.
  - apply whole_group.
  - intros X _. rewrite <-(Z.mul_1_l n). apply pl_order.
  - intros X Y _ _ H%(f_equal p_SetBytes). cbn in H. unfold Element_Bytes in H.
    rewrite !ristretto_SetBytes_Bytes in H. congruence.
  - intros X _ HX. cbn. unfold Group_SerializeElement. by rewrite ristretto_IsIdentity_false.
  - eexists. cbn. unfold Group_SerializeElement. by rewrite (proj2 (ristretto_IsIdentity_true _)).
  - intros X _ HX. cbn. unfold Group_DeserializeElement, Element_Bytes.
    rewrite pl_Bytes_length, ristretto_SetBytes_Bytes by done. cbn. by rewrite ristretto_IsIdentity_false.
Defined.

(** [RandomScalar] fails only when its source does. *)
Lemma ristretto_RandomScalar_reads r :
  Group_RandomScalar r
  = match rng_read r (rng_calls r) 64 with
    | Some bs => (match l_SetUniformBytes bs with
                  | Some s => Ok s
                  | None => Fail (NewParameterError "random"
                                    "failed to create scalar from uniform bytes"
                                    (OpaqueError "ristretto255: SetUniformBytes"))
                  end, advance 1 r)
    | None => (Fail (NewParameterError "random" "failed to generate random bytes"
                       (OpaqueError "crypto/rand: read failed")), advance 1 r)
    end.
Proof.
  unfold Group_RandomScalar, mbind, rand_mbind, rand_wrap, rand_Read, lift, advance.
  rewrite Nat.add_1_r. by destruct (rng_read r (rng_calls r) 64).
Qed.
End Laws.
End Adapter.
End ristretto255.
