(* ===== verification/P256.v ===== *)
(** * pkg/frost/group/p256/p256.go and scalar_ct.go

    P-256 on top of crypto/elliptic, whose points are pairs of coordinates and
    whose identity is written (nil, nil) or (0, 0), and of filippo.io/bigmod
    for the scalars.  Both libraries are parameters; the adapter's own work is
    to keep one representation of the identity and to pad encodings. *)

From S2P Require Export Libraries.

Local Open Scope Z_scope.

(** ** filippo.io/bigmod, for the modulus [p256Modulus] *)

(** [nat_Zero] is [NewNat().ExpandFor(m)]; a setter that returns an error and
    an inversion whose flag is false are [None]. *)
Class BigmodLib : Type := {
  BNat : Type;
  nat_Zero : BNat;
  nat_Add : BNat → BNat → BNat;
  nat_Sub : BNat → BNat → BNat;
  nat_Mul : BNat → BNat → BNat;
  nat_InverseVarTime : BNat → option BNat;
  nat_IsZero : BNat → bool;
  nat_Equal : BNat → BNat → bool;
  nat_Bytes : BNat → bytes;
  nat_SetBytes : bytes → option BNat;
  nat_SetOverflowingBytes : bytes → option BNat;
}.

Class BigmodLaws (B : BigmodLib) (n : Z) : Type := {
  nval : BNat → Z;
  bl_order : 2 ^ 32 < n ≤ 2 ^ 256;
  bl_range x : 0 ≤ nval x < n;
  bl_inj x y : nval x = nval y → x = y;
  bl_Zero : nval nat_Zero = 0;
  bl_Add x y : nval (nat_Add x y) = (nval x + nval y) mod n;
  bl_Sub x y : nval (nat_Sub x y) = (nval x - nval y) mod n;
  bl_Mul x y : nval (nat_Mul x y) = (nval x * nval y) mod n;
  bl_InverseVarTime x : nval x ≠ 0 →
    ∃ y, nat_InverseVarTime x = Some y ∧ (nval y * nval x) mod n = 1;
  bl_IsZero x : nat_IsZero x = (nval x =? 0);
  bl_Equal x y : nat_Equal x y = (nval x =? nval y);
  bl_Bytes x : nat_Bytes x = encode_int BigEndian 32 (nval x);
  bl_SetBytes bs : (length bs ≤ 32)%nat → be_combine bs < n → is_Some (nat_SetBytes bs);
  bl_SetBytes_value bs x : nat_SetBytes bs = Some x → nval x = be_combine bs;
  bl_SetOverflowingBytes bs : length bs = 32%nat → be_combine bs < n →
    nat_SetOverflowingBytes bs = nat_SetBytes bs;
}.

(** ** crypto/elliptic *)

(** A pair of results that are both nil is [None]. *)
Class EllipticLib : Type := {
  c_Add : Z → Z → Z → Z → option (Z * Z);
  c_ScalarMult : Z → Z → bytes → option (Z * Z);
  c_ScalarBaseMult : bytes → option (Z * Z);
  c_MarshalCompressed : Z → Z → bytes;
  c_UnmarshalCompressed : bytes → option (Z * Z);
  c_IsOnCurve : Z → Z → bool;
  c_P : Z;
  c_N : Z;
  c_Gx : Z;
  c_Gy : Z;
}.

(** What crypto/elliptic documents: the affine coordinates of the points of a
    group of order [n], the sum and the multiples of points given by
    coordinates, where the point at infinity comes back as nil or as (0, 0),
    and compressed encodings of 33 bytes that start with 0x02 or 0x03. *)
Class EllipticLaws (C : EllipticLib) (n : Z) : Type := {
  Pt : Type;
  pt_add : Pt → Pt → Pt;
  pt_zero : Pt;
  pt_neg : Pt → Pt;
  coords : Pt → option (Z * Z);
  pt_gen : Pt;
  el_abelian :: AbelianOn (λ _, True) pt_add pt_zero pt_neg;
  el_N : c_N = n;
  el_coords_zero X : coords X = None ↔ X = pt_zero;
  el_coords_inj X Y : coords X = coords Y → X = Y;
  el_coords_neg X x y : coords X = Some (x, y) → coords (pt_neg X) = Some (x, (c_P - y) mod c_P);
  el_coords_gen : coords pt_gen = Some (c_Gx, c_Gy);
  el_coords_origin X : coords X ≠ Some (0, 0);
  el_IsOnCurve x y : c_IsOnCurve x y = true ↔ ∃ X, coords X = Some (x, y);
  el_Add X Y x1 y1 x2 y2 : coords X = Some (x1, y1) → coords Y = Some (x2, y2) →
    c_Add x1 y1 x2 y2 = coords (pt_add X Y)
    ∨ pt_add X Y = pt_zero ∧ c_Add x1 y1 x2 y2 = Some (0, 0);
  el_ScalarMult X x y k : coords X = Some (x, y) →
    c_ScalarMult x y k = coords (nmul pt_add pt_zero (be_combine k) X)
    ∨ nmul pt_add pt_zero (be_combine k) X = pt_zero ∧ c_ScalarMult x y k = Some (0, 0);
  el_ScalarBaseMult k : c_ScalarBaseMult k = c_ScalarMult c_Gx c_Gy k;
  el_order X : nmul pt_add pt_zero n X = pt_zero;
  el_gen_order k : 0 < k < n → nmul pt_add pt_zero k pt_gen ≠ pt_zero;
  el_Marshal_length X x y : coords X = Some (x, y) → length (c_MarshalCompressed x y) = 33%nat;
  el_Marshal_tag X x y : coords X = Some (x, y) →
    ∃ b rest, c_MarshalCompressed x y = b :: rest ∧ (byte.unsigned b = 2 ∨ byte.unsigned b = 3);
  el_Unmarshal X x y : coords X = Some (x, y) →
    c_UnmarshalCompressed (c_MarshalCompressed x y) = Some (x, y);
}.

Module p256.
Section Adapter.
Context {B : BigmodLib} {C : EllipticLib}.

Definition ElementSize : nat := 33.
Definition ScalarSize : nat := 32.

Definition p256OrderBytes : bytes :=
  byte.of_Z <$> [255; 255; 255; 255; 0; 0; 0; 0; 255; 255; 255; 255; 255; 255; 255; 255;
                 188; 230; 250; 173; 167; 23; 158; 132; 243; 185; 202; 194; 252; 99; 37; 81].

(** [type Element struct { x *big.Int; y *big.Int }]: [None] when both are nil.
    The package never sets one of the two. *)
Definition Element : Type := option (Z * Z).

(** [type Scalar struct { nat *bigmod.Nat }] *)
Definition Scalar : Type := BNat.

(** The results of a curve operation: (nil, nil) and (0, 0) are the identity. *)
Definition affine (r : option (Z * Z)) : Element :=
  match r with
  | None => None
  | Some (x, y) => if (Z.sgn x =? 0) && (Z.sgn y =? 0) then None else Some (x, y)
  end.

(** ** Elements *)

Definition Element_IsIdentity (e : Element) : bool :=
  match e with None => true | Some _ => false end.

Definition Element_Copy (e : Element) : Element := e.

Definition Element_Add (e other : Element) : Element :=
  match e, other with
  | None, _ => Element_Copy other
  | _, None => Element_Copy e
  | Some (x1, y1), Some (x2, y2) => affine (c_Add x1 y1 x2 y2)
  end.

Definition Element_Negate (e : Element) : Element :=
  match e with
  | None => None
  | Some (x, y) => Some (x, (c_P - y) mod c_P)
  end.

Definition Element_Equal (e other : Element) : bool :=
  if Element_IsIdentity e && Element_IsIdentity other then true
  else match e, other with
       | Some (x1, y1), Some (x2, y2) => (big_Cmp x1 x2 =? 0) && (big_Cmp y1 y2 =? 0)
       | _, _ => false
       end.

Definition Element_Bytes (e : Element) : bytes :=
  match e with
  | None => zero_bytes ElementSize
  | Some (x, y) => c_MarshalCompressed x y
  end.

(** ** Scalars *)

(** [dst, _ := bigmod.NewNat().SetBytes(src.Bytes(p256Modulus), p256Modulus)] *)
Definition copyNat (src : BNat) : BNat := default nat_Zero (nat_SetBytes (nat_Bytes src)).

Definition Scalar_Add (s other : Scalar) : Scalar := nat_Add (copyNat s) other.

Definition Scalar_Sub (s other : Scalar) : Scalar := nat_Sub (copyNat s) other.

Definition Scalar_Mul (s other : Scalar) : Scalar := nat_Mul (copyNat s) other.

Definition Scalar_IsZero (s : Scalar) : bool := nat_IsZero s.

Definition Scalar_Inv (s : Scalar) : Res Scalar :=
  if Scalar_IsZero s then Fail (Sentinel ErrZeroScalar)
  else match nat_InverseVarTime s with
       | None => Fail (NewParameterError "scalar" "inverse does not exist"
                         (Sentinel ErrInvalidParameters))
       | Some result => Ok result
       end.

Definition Scalar_Negate (s : Scalar) : Scalar := nat_Sub nat_Zero s.

Definition Scalar_Equal (s other : Scalar) : bool := nat_Equal s other.

Definition Scalar_Bytes (s : Scalar) : bytes := nat_Bytes s.

Definition Scalar_Copy (s : Scalar) : Scalar := copyNat s.

Definition Scalar_Compare (s other : Scalar) : Z :=
  if nat_Equal s other then 0
  else compare_bytes ScalarSize (Scalar_Bytes s) (Scalar_Bytes other).

(** [_, _ = s.nat.SetBytes(zero[:], p256Modulus)] *)
Definition Scalar_Zeroize (s : Scalar) : Scalar := default s (nat_SetBytes (zero_bytes 32)).

(** ** The group *)

Definition Group_Order : bytes :=
  let orderBytes := big_Bytes c_N in
  if (length orderBytes <? ScalarSize)%nat
  then zero_bytes (ScalarSize - length orderBytes) ++ orderBytes
  else orderBytes.

Definition Group_Cofactor : Scalar :=
  default nat_Zero (nat_SetBytes (zero_bytes 31 ++ [byte.of_Z 1])).

Definition accept (buf : bytes) : option Scalar :=
  nat ← nat_SetBytes buf;
  if nat_IsZero nat then None else Some nat.

Definition randomScalar (fuel : nat) (r : Rng) : option (Res Scalar * Rng) :=
  reject_loop 32 accept
    (λ err, NewParameterError "random" "failed to generate random bytes" err) fuel r.

Definition Group_ScalarMult (element : Element) (scalar : Scalar) : Element :=
  if Scalar_IsZero scalar then None
  else match element with
       | None => None
       | Some (x, y) => affine (c_ScalarMult x y (Scalar_Bytes scalar))
       end.

Definition Group_ScalarBaseMult (scalar : Scalar) : Element :=
  if Scalar_IsZero scalar then None else affine (c_ScalarBaseMult (Scalar_Bytes scalar)).

Definition Group_SerializeElement (element : Element) : Res bytes :=
  if Element_IsIdentity element then Fail (Sentinel ErrIdentityElement)
  else Ok (Element_Bytes element).

(** The test for the identity follows the test of the decoder's [x] for nil
    and cannot succeed. *)
Definition Group_DeserializeElement (data : bytes) : Res Element :=
  _ ← fail_if (negb (length data =? ElementSize)%nat)
        (NewParameterError "data" "invalid element encoding length"
           (Sentinel ErrDeserializationFailed));
  match c_UnmarshalCompressed data with
  | None => Fail (NewParameterError "data" "invalid compressed point encoding"
                    (Sentinel ErrDeserializationFailed))
  | Some (x, y) =>
      let result := Some (x, y) in
      _ ← fail_if (Element_IsIdentity result) (Sentinel ErrIdentityElement);
      _ ← fail_if (negb (c_IsOnCurve x y))
            (NewParameterError "data" "point is not on curve"
               (Sentinel ErrDeserializationFailed));
      Ok result
  end.

Definition Group_DeserializeScalar (data : bytes) : Res Scalar :=
  _ ← fail_if (negb (length data =? ScalarSize)%nat)
        (NewParameterError "data" "invalid scalar encoding length"
           (Sentinel ErrDeserializationFailed));
  match nat_SetBytes data with
  | None => Fail (NewParameterError "data" "scalar value exceeds group order"
                    (Sentinel ErrDeserializationFailed))
  | Some nat => Ok nat
  end.

(** [copy(b[32-len(valueBytes):], valueBytes)] has a negative offset, and
    panics, when the value does not fit. *)
Definition NewScalarFromBigInt (value : Z) : Res Scalar :=
  let valueBytes := big_Bytes value in
  if (32 <? length valueBytes)%nat then Panic
  else Ok (default nat_Zero
             (nat_SetOverflowingBytes (zero_bytes (32 - length valueBytes) ++ valueBytes))).

Definition NewGroup (fuel : nat) : Group := {|
  Group.Element := Element;
  Group.Scalar := Scalar;
  e_Add := Element_Add;
  e_Negate := Element_Negate;
  e_IsIdentity := Element_IsIdentity;
  e_Equal := Element_Equal;
  e_Bytes := Element_Bytes;
  e_Copy := Element_Copy;
  s_Add := Scalar_Add;
  s_Sub := Scalar_Sub;
  s_Mul := Scalar_Mul;
  s_Inv := Scalar_Inv;
  s_Negate := Scalar_Negate;
  s_IsZero := Scalar_IsZero;
  s_Equal := Scalar_Equal;
  s_Bytes := Scalar_Bytes;
  s_Copy := Scalar_Copy;
  s_Compare := Scalar_Compare;
  Order := Group_Order;
  Cofactor := Group_Cofactor;
  Identity := None : Element;
  Generator := Some (c_Gx, c_Gy) : Element;
  NewScalar := nat_Zero;
  NewElement := None : Element;
  RandomScalar := λ r, default (Panic, r) (randomScalar fuel r);
  ScalarMult := Group_ScalarMult;
  ScalarBaseMult := Group_ScalarBaseMult;
  SerializeElement := Group_SerializeElement;
  DeserializeElement := Group_DeserializeElement;
  SerializeScalar := Scalar_Bytes;
  DeserializeScalar := Group_DeserializeScalar;
  ElementLength := ElementSize;
  ScalarLength := ScalarSize;
  Name := "p256";
  ByteOrder := BigEndian;
|}.

(** ** The contract *)

Section Laws.
Context {n : Z} {LB : BigmodLaws B n} {LC : EllipticLaws C n} (fuel : nat).

(** [bigmod] has the shape of the other scalar libraries on inputs of 32 bytes,
    the only ones it gets. *)
Definition bigmod_scalars : ScalarLib := {|
  LScalar := BNat; l_New := nat_Zero; l_Add := nat_Add; l_Subtract := nat_Sub;
  l_Multiply := nat_Mul; l_Negate := nat_Sub nat_Zero;
  l_Invert x := default nat_Zero (nat_InverseVarTime x); l_Equal := nat_Equal;
  l_Bytes := nat_Bytes;
  l_SetCanonicalBytes bs := if (length bs =? 32)%nat then nat_SetBytes bs else None |}.

Lemma canonical_SetBytes bs x :
  l_SetCanonicalBytes (ScalarLib := bigmod_scalars) bs = Some x → nat_SetBytes bs = Some x.
Proof. cbn. by destruct (length bs =? 32)%nat. Qed.

Definition bigmod_laws : ScalarLaws bigmod_scalars BigEndian 32 n.
Proof.
  refine {| lval := (nval : @LScalar bigmod_scalars → Z) |}.
  - apply bl_order.
  - split; [apply bl_order | lia].
  - apply bl_range.
  - apply bl_inj.
  - apply bl_Zero.
  - apply bl_Add.
  - apply bl_Sub.
  - apply bl_Mul.
  - intros x. cbn. by rewrite bl_Sub, bl_Zero.
  - intros x Hx. cbn. by destruct (bl_InverseVarTime x Hx) as (y & -> & Hy).
  - apply bl_Equal.
  - apply bl_Bytes.
  - intros bs. cbn. destruct (Nat.eqb_spec (length bs) 32) as [Hl|]; [| done]. cbn.
    destruct (Z.ltb_spec (be_combine bs) n) as [Hb|Hb].
    + destruct (bl_SetBytes bs) as [x Hx]; [lia | done |].
      rewrite Hx. cbn. f_equal. by apply bl_SetBytes_value.
    + destruct (nat_SetBytes bs) as [x|] eqn:E; [| done].
      apply bl_SetBytes_value in E. pose proof (bl_range x). lia.
Defined.

Local Existing Instance bigmod_laws.

Lemma copyNat_id s : copyNat s = s.
Proof.
  unfold copyNat. pose proof (bl_range s).
  destruct (canonical_value (L := bigmod_laws) (nval s)) as (x & Hx & Hv); [done |].
  rewrite bl_Bytes, (canonical_SetBytes _ _ Hx). by apply bl_inj.
Qed.

(** *** Points *)

Definition on_curve (e : Element) : bool :=
  match e with None => true | Some (x, y) => c_IsOnCurve x y end.

Lemma on_curve_coords e : on_curve e = true ↔ ∃ X, e = coords X.
Proof.
  destruct e as [[x y]|]; cbn.
  - rewrite el_IsOnCurve. split; intros [X HX]; by exists X.
  - split; [| done]. intros _. exists pt_zero. symmetry. by apply el_coords_zero.
Qed.

Lemma coords_zero : coords pt_zero = None.
Proof. by apply el_coords_zero. Qed.

(** The normalisation turns a library result into the coordinates. *)
Lemma affine_coords r X :
  r = coords X ∨ X = pt_zero ∧ r = Some (0, 0) → affine r = coords X.
Proof.
  intros [->|[-> ->]]; [| by rewrite coords_zero].
  destruct (coords X) as [[x y]|] eqn:HX; [| done]. cbn.
  destruct (Z.eqb_spec (Z.sgn x) 0) as [Hx|]; [| done].
  destruct (Z.eqb_spec (Z.sgn y) 0) as [Hy|]; [| done].
  apply (proj1 (Z.sgn_null_iff _)) in Hx as ->. apply (proj1 (Z.sgn_null_iff _)) in Hy as ->.
  by apply el_coords_origin in HX.
Qed.

Lemma Add_coords X Y : Element_Add (coords X) (coords Y) = coords (pt_add X Y).
Proof.
  destruct (coords X) as [[x1 y1]|] eqn:HX; [destruct (coords Y) as [[x2 y2]|] eqn:HY |]; cbn.
  - by apply affine_coords, el_Add.
  - apply el_coords_zero in HY as ->. by rewrite (ab_id (ok := λ _, True)).
  - apply el_coords_zero in HX as ->. by rewrite (ab_id_l (ok := λ _, True)).
Qed.

Lemma Negate_coords X : Element_Negate (coords X) = coords (pt_neg X).
Proof.
  destruct (coords X) as [[x y]|] eqn:HX; cbn; symmetry.
  - by apply el_coords_neg.
  - apply el_coords_zero in HX as ->. apply el_coords_zero.
    rewrite <-(ab_id_l (ok := λ _, True) (pt_neg _)) by done. by apply (ab_neg (ok := λ _, True)).
Qed.

Lemma nmul_coords k X : nmul Element_Add None k (coords X) = coords (nmul pt_add pt_zero k X).
Proof.
  unfold nmul. induction (Z.to_nat k) as [|m IH]; [symmetry; apply coords_zero |].
  by rewrite !Nat.iter_succ, IH, Add_coords.
Qed.

Lemma on_curve_laws : AbelianOn (λ e, on_curve e = true) Element_Add None Element_Negate.
Proof.
  destruct el_abelian as [_ _ _ Hass Hcomm Hid Hneg].
  split; repeat (intros ? || setoid_rewrite on_curve_coords); destruct_and?;
    repeat match goal with H : on_curve _ = true |- _ =>
             apply on_curve_coords in H as [? ->] end;
    rewrite <-?coords_zero; rewrite ?Add_coords, ?Negate_coords, ?Add_coords; eauto;
    f_equal; auto.
Qed.

Lemma Equal_true (e e' : Element) : Element_Equal e e' = true ↔ e = e'.
Proof.
  destruct e as [[x y]|], e' as [[x' y']|]; cbn; try done. unfold big_Cmp.
  rewrite andb_true_iff.
  split; [| intros [= -> ->]; by rewrite !Z.compare_refl].
  destruct (Z.compare_spec x x'), (Z.compare_spec y y'); cbn; intros [??]; congruence.
Qed.

Lemma Mult_nmul e s : on_curve e = true →
  Group_ScalarMult e s = nmul Element_Add None (nval s) e.
Proof.
  intros [X ->]%on_curve_coords. rewrite nmul_coords. unfold Group_ScalarMult, Scalar_IsZero.
  rewrite bl_IsZero. destruct (Z.eqb_spec (nval s) 0) as [->|Hs]; [symmetry; apply coords_zero |].
  destruct (coords X) as [[x y]|] eqn:HX.
  - pose proof (decode_l_Bytes (L := bigmod_laws) s) as Hd. cbn in Hd.
    rewrite <-Hd. by apply affine_coords, el_ScalarMult.
  - apply el_coords_zero in HX as ->. symmetry. apply el_coords_zero.
    apply (nmul_zero (ok := λ _, True)).
Qed.

Lemma Base_nmul s : Group_ScalarBaseMult s = nmul Element_Add None (nval s) (Some (c_Gx, c_Gy)).
Proof.
  rewrite <-Mult_nmul by (apply on_curve_coords; exists pt_gen; symmetry; apply el_coords_gen).
  unfold Group_ScalarBaseMult. by rewrite el_ScalarBaseMult.
Qed.

(** *** Encodings *)

Lemma Bytes_length X : X ≠ pt_zero → length (Element_Bytes (coords X)) = ElementSize.
Proof.
  rewrite <-el_coords_zero. destruct (coords X) as [[x y]|] eqn:HX; [| done].
  intros _. by eapply el_Marshal_length.
Qed.

Lemma p256_Bytes_inj X Y : Element_Bytes (coords X) = Element_Bytes (coords Y) → coords X = coords Y.
Proof.
  destruct (coords X) as [[x y]|] eqn:HX, (coords Y) as [[x' y']|] eqn:HY; cbn.
  - intros H%(f_equal c_UnmarshalCompressed). by erewrite !el_Unmarshal in H.
  - destruct (el_Marshal_tag X x y HX) as (b & rest & -> & [H|H]); intros [= ->]; done.
  - destruct (el_Marshal_tag Y x' y' HY) as (b & rest & -> & [H|H]); intros [= <-]; done.
  - done.
Qed.

Lemma DeserializeElement_Bytes X :
  X ≠ pt_zero → Group_DeserializeElement (Element_Bytes (coords X)) = Ok (coords X).
Proof.
  intros HX. unfold Group_DeserializeElement. rewrite Bytes_length, Nat.eqb_refl by done. cbn.
  rewrite <-el_coords_zero in HX. destruct (coords X) as [[x y]|] eqn:E; [| done]. cbn.
  rewrite (el_Unmarshal X x y E). cbn.
  by rewrite (proj2 (el_IsOnCurve x y)) by (by exists X).
Qed.

Lemma coords_ne X : coords X ≠ None ↔ X ≠ pt_zero.
Proof. by rewrite el_coords_zero. Qed.

#[export] Instance laws : AdapterLaws (NewGroup fuel).
Proof.
  pose proof (proj1 bl_order) as Ho. pose proof (proj2 bl_order) as Ho'.
  refine {| adapter_order := n; valid_scalar _ := true;
            valid_element := (on_curve : @Group.Element (NewGroup fuel) → bool);
            sval := (nval : @Group.Scalar (NewGroup fuel) → Z) |}; try done.
  - intros x _. apply bl_range.
  - intros x y _ _. apply bl_inj.
  - split; [done | apply bl_Zero].
  - intros x y _ _. cbn. unfold Scalar_Add. rewrite copyNat_id. split; [done | apply bl_Add].
  - intros x y _ _. cbn. unfold Scalar_Sub. rewrite copyNat_id. split; [done | apply bl_Sub].
  - intros x y _ _. cbn. unfold Scalar_Mul. rewrite copyNat_id. split; [done | apply bl_Mul].
  - intros x _. split; [done |]. cbn. unfold Scalar_Negate. by rewrite bl_Sub, bl_Zero.
  - intros x _ Hx. destruct (bl_InverseVarTime x Hx) as (y & Hy & Hm). exists y. cbn.
    unfold Scalar_Inv, Scalar_IsZero. by rewrite bl_IsZero, (proj2 (Z.eqb_neq _ _) Hx), Hy.
  - intros x _ Hx. eexists. cbn. unfold Scalar_Inv, Scalar_IsZero.
    by rewrite bl_IsZero, (proj2 (Z.eqb_eq _ _) Hx).
  - intros x _. apply bl_IsZero.
  - intros x y _ _. apply bl_Equal.
  - intros x y _ _. apply (compare_encodings (L := bigmod_laws)).
  - intros x _. apply copyNat_id.
  - split; [cbn; unfold ScalarSize; lia | exact Ho'].
  - intros x _. apply bl_Bytes.
  - intros bs Hl Hb. destruct (canonical_in_range (L := bigmod_laws) bs Hl Hb) as (x & Hx & Hv).
    exists x. apply canonical_SetBytes in Hx.
    cbn. unfold Group_DeserializeScalar. cbn in Hl. by rewrite Hl, Hx.
  - apply on_curve_laws.
  - apply on_curve_coords. exists pt_gen. symmetry. apply el_coords_gen.
  - intros [[x y]|] _; done.
  - intros e e' _ _. apply Equal_true.
  - intros e s He _. by apply Mult_nmul.
  - intros s _. cbn. rewrite Base_nmul. symmetry. apply Mult_nmul.
    apply on_curve_coords. exists pt_gen. symmetry. apply el_coords_gen.
  - intros e [X ->]%on_curve_coords. cbn. rewrite nmul_coords. apply el_coords_zero, el_order.
  - intros k Hk. cbn. rewrite <-el_coords_gen, nmul_coords. rewrite el_coords_zero.
    by apply el_gen_order.
  - intros e [X ->]%on_curve_coords HX. by apply Bytes_length, coords_ne.
  - intros e e' [X ->]%on_curve_coords [Y ->]%on_curve_coords. apply p256_Bytes_inj.
  - intros e _ He. by destruct e as [[x y]|].
  - by eexists.
  - intros e [X ->]%on_curve_coords HX. by apply DeserializeElement_Bytes, coords_ne.
Defined.

(** ** Random scalars and scalars from integers *)

Lemma accept_None buf : ¬ 0 < be_combine buf < n → accept buf = None.
Proof.
  intros Hn. unfold accept. destruct (nat_SetBytes buf) as [x|] eqn:E; [| done]. cbn.
  apply bl_SetBytes_value in E. pose proof (bl_range x).
  by rewrite bl_IsZero, (proj2 (Z.eqb_eq _ _)) by lia.
Qed.

Lemma accept_usable buf :
  length buf = 32%nat → 0 < be_combine buf < n →
  ∃ x, accept buf = Some x ∧ nval x = be_combine buf.
Proof.
  intros Hl Hv. destruct (bl_SetBytes buf) as [x Hx]; [lia.. |]. exists x.
  pose proof (bl_SetBytes_value _ _ Hx) as E. unfold accept. rewrite Hx. cbn.
  by rewrite bl_IsZero, (proj2 (Z.eqb_neq _ _)) by lia.
Qed.

Lemma p256_randomScalar_returns r k buf :
  (∀ j, (j < k)%nat → ∃ b, rng_read r (rng_calls r + j) 32 = Some b ∧ ¬ 0 < be_combine b < n) →
  rng_read r (rng_calls r + k) 32 = Some buf → length buf = 32%nat → 0 < be_combine buf < n →
  ∃ x, nval x = be_combine buf
       ∧ ∀ fuel', (k < fuel')%nat → randomScalar fuel' r = Some (Ok x, advance (S k) r).
Proof.
  intros Hr Hb Hl Hv.
  destruct (accept_usable buf Hl Hv) as (x & Hx & Hxv).
  exists x. split; [done |]. intros fuel' Hf. eapply reject_loop_accepts; [| done..].
  intros j Hj. destruct (Hr j Hj) as (b & Hb' & Hn). exists b. split; [done |].
  by apply accept_None.
Qed.

Lemma NewScalarFromBigInt_reduced v : 0 ≤ v < n → ∃ x, NewScalarFromBigInt v = Ok x ∧ nval x = v.
Proof.
  intros Hv. pose proof bl_order as [_ Ho]. unfold NewScalarFromBigInt.
  pose proof (length_big_Bytes v 32) as Hl. cbn [Z.of_nat] in Hl.
  rewrite (proj2 (Nat.ltb_ge _ _)) by (apply Hl; lia).
  rewrite pad_big_Bytes by (cbn; lia).
  assert (be_combine (encode_int BigEndian 32 v) = v) as Hd.
  { apply (decode_encode_int BigEndian). cbn. lia. }
  rewrite bl_SetOverflowingBytes by (rewrite ?length_encode_int, ?Hd; done || lia).
  destruct (canonical_value (L := bigmod_laws) v Hv) as (x & Hx & Hxv). exists x.
  by rewrite (canonical_SetBytes _ _ Hx).
Qed.
End Laws.
End Adapter.

(** ** scalar_ct.go: the [ctScalar] wrapper *)

Module ct.
Section CtScalar.
Context {B : BigmodLib}.

(** [type ctScalar struct { nat *bigmod.Nat }] *)
Definition ctScalar : Type := BNat.

Definition newCTScalar : ctScalar := nat_Zero.

Definition newCTScalarFromBytes (b : bytes) : option ctScalar :=
  if negb (length b =? 32)%nat then None else nat_SetBytes b.

Definition newCTScalarFromBytesWide (b : bytes) : option ctScalar :=
  if negb (length b =? 32)%nat then None else nat_SetOverflowingBytes b.

Definition Bytes (s : ctScalar) : bytes := nat_Bytes s.

Definition IsZero (s : ctScalar) : Z := Z.b2z (nat_IsZero s).

Definition Equal (s t : ctScalar) : Z := Z.b2z (nat_Equal s t).

Definition Add (s t : ctScalar) : ctScalar := nat_Add (copyNat s) t.

Definition Sub (s t : ctScalar) : ctScalar := nat_Sub (copyNat s) t.

Definition Negate (s : ctScalar) : ctScalar := nat_Sub nat_Zero s.

Definition Mul (s t : ctScalar) : ctScalar := nat_Mul (copyNat s) t.

Definition Inv (s : ctScalar) : ctScalar :=
  match nat_InverseVarTime s with
  | None => newCTScalar
  | Some result => result
  end.

Definition selectConditional (s t : ctScalar) (cond : Z) : ctScalar :=
  if cond =? 1 then copyNat t else s.

Context {n : Z} {LB : BigmodLaws B n}.

(** The wrapper agrees with the group's scalars. *)
Lemma Inv_agrees s x : Scalar_Inv s = Ok x → Inv s = x.
Proof.
  unfold Scalar_Inv, Inv. destruct (Scalar_IsZero s); [done |].
  destruct (nat_InverseVarTime s); [by intros [= ->] | done].
Qed.

Lemma newCTScalarFromBytes_agrees b x :
  newCTScalarFromBytes b = Some x ↔ Group_DeserializeScalar b = Ok x.
Proof.
  unfold newCTScalarFromBytes, Group_DeserializeScalar, ScalarSize.
  destruct (length b =? 32)%nat; [| done]. cbn. destruct (nat_SetBytes b); naive_solver.
Qed.

(** In range both constructors agree. *)
Lemma newCTScalarFromBytesWide_small b :
  be_combine b < n → newCTScalarFromBytesWide b = newCTScalarFromBytes b.
Proof.
  intros Hb. unfold newCTScalarFromBytesWide, newCTScalarFromBytes.
  destruct (Nat.eqb_spec (length b) 32); [| done]. cbn. by apply bl_SetOverflowingBytes.
Qed.

Lemma selectConditional_spec s t c : selectConditional s t c = if c =? 1 then t else s.
Proof. unfold selectConditional. by rewrite copyNat_id. Qed.
End CtScalar.
End ct.
End p256.
