(* ===== verification/Ed448.v ===== *)
(** * pkg/frost/group/ed448/ed448.go

    The adapter of circl/ecc/goldilocks to the group interface.  A scalar is
    the array of 56 little-endian bytes that the library works on, which need
    not be reduced; the package hands out reduced ones only.  Points are
    compared, copied and negated through their encodings.  The group order is
    the package variable [groupOrderBytes], a variable of the section here so
    that the theorems can be instantiated at a small order; its value in the
    source is [ed448_groupOrderBytes]. *)

From Stdlib Require Import Zcong.
From S2P Require Export Libraries.

Local Open Scope Z_scope.

(** ** circl/ecc/goldilocks *)

(** [goldilocks.Scalar] is [[56]byte]; [gs_Neg s] is the value of [s] after
    [s.Neg()], [gs_FromBytes x] of [s] after [s.FromBytes(x)].  The error of
    [MarshalBinary] is always nil. *)
Class GoldilocksLib : Type := {
  gs_Add : bytes → bytes → bytes;
  gs_Sub : bytes → bytes → bytes;
  gs_Mul : bytes → bytes → bytes;
  gs_Neg : bytes → bytes;
  gs_IsZero : bytes → bool;
  gs_FromBytes : bytes → bytes;
  GPoint : Type;
  g_Identity : GPoint;
  g_Generator : GPoint;
  g_Add : GPoint → GPoint → GPoint;
  g_Double : GPoint → GPoint;
  g_ScalarMult : bytes → GPoint → GPoint;
  g_ScalarBaseMult : bytes → GPoint;
  g_IsOnCurve : GPoint → bool;
  g_MarshalBinary : GPoint → bytes;
  g_FromBytes : bytes → option GPoint;
}.

(** [x ^= 0x80] on the last byte of an encoding, which holds the sign of the
    x-coordinate. *)
Definition flip_sign (bs : bytes) : bytes :=
  alter (λ b, byte.of_Z (Z.lxor (byte.unsigned b) 128)) (length bs - 1)%nat bs.

(** A scalar that the library's operations accept and return. *)
Definition reduced (n : Z) (s : bytes) : Prop := length s = 56%nat ∧ le_combine s < n.

(** The result of a scalar operation: the reduced array of a residue. *)
Definition residue (n : Z) (s : bytes) (z : Z) : Prop :=
  length s = 56%nat ∧ le_combine s = z mod n.

(** What the library documents for the subgroup of order [n]: arithmetic modulo
    [n], point addition, multiples of the points of the subgroup by scalars
    up to [n], and the encodings of RFC 8032, where flipping the sign gives
    the opposite point unless its x-coordinate is zero, which has one sign. *)
Class GoldilocksLaws (V : GoldilocksLib) (n : Z) : Type := {
  gl_prime : Z.prime n;
  gl_order : 2 ^ 32 < n ≤ 2 ^ 446;
  gl_Add x y : reduced n x → reduced n y → residue n (gs_Add x y) (le_combine x + le_combine y);
  gl_Sub x y : reduced n x → reduced n y → residue n (gs_Sub x y) (le_combine x - le_combine y);
  gl_Mul x y : reduced n x → reduced n y → residue n (gs_Mul x y) (le_combine x * le_combine y);
  gl_Neg x : reduced n x → residue n (gs_Neg x) (- le_combine x);
  gl_IsZero x : reduced n x → gs_IsZero x = (le_combine x =? 0);
  gl_FromBytes bs : residue n (gs_FromBytes bs) (le_combine bs);
  gl_neg : GPoint → GPoint;
  gl_abelian :: AbelianOn (λ _, True) g_Add g_Identity gl_neg;
  gl_Double X : g_Double X = g_Add X X;
  gl_ScalarMult s X : length s = 56%nat → le_combine s ≤ n →
    nmul g_Add g_Identity n X = g_Identity →
    g_ScalarMult s X = nmul g_Add g_Identity (le_combine s) X;
  gl_ScalarBaseMult s : g_ScalarBaseMult s = g_ScalarMult s g_Generator;
  gl_Generator : nmul g_Add g_Identity n g_Generator = g_Identity;
  gl_Generator_order k : 0 < k < n → nmul g_Add g_Identity k g_Generator ≠ g_Identity;
  gl_IsOnCurve X : g_IsOnCurve X = true;
  gl_Marshal_length X : length (g_MarshalBinary X) = 57%nat;
  gl_FromBytes_Marshal X : g_FromBytes (g_MarshalBinary X) = Some X;
  gl_FromBytes_flip X :
    g_FromBytes (flip_sign (g_MarshalBinary X)) = Some (gl_neg X)
    ∨ g_FromBytes (flip_sign (g_MarshalBinary X)) = None ∧ gl_neg X = X;
}.

Module ed448.

Definition ElementSize : nat := 57.
Definition ScalarSize : nat := 57.
Definition internalScalarSize : nat := 56.

Definition ed448_groupOrderBytes : bytes :=
  byte.of_Z <$> [243; 68; 88; 171; 146; 194; 120; 35; 85; 143; 197; 141; 114; 194; 108; 33;
                 144; 54; 214; 174; 73; 219; 78; 196; 233; 35; 202; 124; 255; 255; 255; 255;
                 255; 255; 255; 255; 255; 255; 255; 255; 255; 255; 255; 255; 255; 255; 255; 255;
                 255; 255; 255; 255; 255; 255; 255; 63; 0].

Section Adapter.
Context {V : GoldilocksLib} (groupOrderBytes : bytes).

(** [new(big.Int).SetBytes(reverseBytes(groupOrderBytes[:56]))] *)
Definition groupOrder : Z := be_combine (reverseBytes (take internalScalarSize groupOrderBytes)).

(** [type Element struct { point *goldilocks.Point }] and
    [type Scalar struct { value goldilocks.Scalar }]. *)
Definition Element : Type := GPoint.
Definition Scalar : Type := bytes.

(** [if len(a) != len(b) { return false }; for i := range a { if a[i] != b[i] ... }] *)
Definition same_bytes (a b : bytes) : bool :=
  if negb (length a =? length b)%nat then false
  else forallb (λ '(x, y), bool_decide (x = y)) (zip a b).

(** [copy(dst[:], src)] into an array of [n] zero bytes. *)
Definition copy_into (n : nat) (src : bytes) : bytes :=
  take n src ++ zero_bytes (n - length src).

(** ** Elements *)

Definition Element_Add (e other : Element) : Element := g_Add e other.

Definition Element_Negate (e : Element) : Element :=
  let identity := g_Identity in
  let negBytes := flip_sign (g_MarshalBinary e) in
  match g_FromBytes negBytes with
  | Some negPoint => negPoint
  | None => g_Add (g_Double identity) e
  end.

Definition Element_IsIdentity (e : Element) : bool :=
  same_bytes (g_MarshalBinary e) (g_MarshalBinary g_Identity).

Definition Element_Equal (e other : Element) : bool :=
  same_bytes (g_MarshalBinary e) (g_MarshalBinary other).

Definition Element_Bytes (e : Element) : bytes := g_MarshalBinary e.

(** The decoding error is dropped; the point would then be nil. *)
Definition Element_Copy (e : Element) : Element :=
  default g_Identity (g_FromBytes (g_MarshalBinary e)).

(** ** Scalars *)

Definition Scalar_Add (s other : Scalar) : Scalar := gs_Add s other.

Definition Scalar_Sub (s other : Scalar) : Scalar := gs_Sub s other.

Definition Scalar_Mul (s other : Scalar) : Scalar := gs_Mul s other.

Definition Scalar_IsZero (s : Scalar) : bool := gs_IsZero s.

Definition Scalar_Inv (s : Scalar) : Res Scalar :=
  if Scalar_IsZero s then Fail (Sentinel ErrZeroScalar)
  else
    let bigEndian := reverseBytes s in
    let value := be_combine bigEndian in
    match big_ModInverse value groupOrder with
    | None => Fail (NewParameterError "scalar" "failed to invert scalar"
                      (Sentinel ErrInvalidParameters))
    | Some result => Ok (gs_FromBytes (reverseBytes (big_Bytes result)))
    end.

Definition Scalar_Negate (s : Scalar) : Scalar := gs_Neg s.

(** [for i := 0; i < len(s.value); i++ { diff |= s.value[i] ^ other.value[i] }] *)
Definition Scalar_Equal (s other : Scalar) : bool :=
  let diff := foldl (λ diff '(a, b), Z.lor diff (Z.lxor (byte.unsigned a) (byte.unsigned b))) 0
                (zip s other) in
  diff =? 0.

Definition Scalar_Bytes (s : Scalar) : bytes := copy_into ScalarSize s.

Definition Scalar_Copy (s : Scalar) : Scalar := copy_into internalScalarSize s.

Definition Scalar_Compare (s other : Scalar) : Z :=
  big_Cmp (be_combine (reverseBytes s)) (be_combine (reverseBytes other)).

(** [for i := range s.value { s.value[i] = 0 }] *)
Definition Scalar_Zeroize (s : Scalar) : Scalar := (λ _, byte.of_Z 0) <$> s.

(** ** The group *)

Definition Group_NewScalar : Scalar := zero_bytes internalScalarSize.

(** [var four goldilocks.Scalar; four[0] = 4] *)
Definition Group_Cofactor : Scalar := <[0%nat := byte.of_Z 4]> (zero_bytes internalScalarSize).

Definition Group_RandomScalar : Rand Scalar :=
  randomBytes ← rand_wrap
    (λ err, NewParameterError "random" "failed to generate random bytes" err) (rand_Read 64);
  mret (gs_FromBytes randomBytes).

Definition Group_ScalarMult (element : Element) (scalar : Scalar) : Element :=
  g_ScalarMult scalar element.

Definition Group_ScalarBaseMult (scalar : Scalar) : Element := g_ScalarBaseMult scalar.

Definition Group_SerializeElement (element : Element) : Res bytes :=
  if Element_IsIdentity element then Fail (Sentinel ErrIdentityElement)
  else Ok (Element_Bytes element).

Definition Group_DeserializeElement (data : bytes) : Res Element :=
  _ ← fail_if (negb (length data =? ElementSize)%nat)
        (NewParameterError "data" "invalid element encoding length"
           (Sentinel ErrDeserializationFailed));
  match g_FromBytes data with
  | None => Fail (NewParameterError "data" "failed to decode point"
                    (Sentinel ErrDeserializationFailed))
  | Some point =>
      _ ← fail_if (negb (g_IsOnCurve point))
            (NewParameterError "data" "point not on curve" (Sentinel ErrDeserializationFailed));
      _ ← fail_if (Element_IsIdentity point) (Sentinel ErrIdentityElement);
      let orderScalar := copy_into internalScalarSize (take internalScalarSize groupOrderBytes) in
      let lP := g_ScalarMult orderScalar point in
      _ ← fail_if (negb (Element_IsIdentity lP))
            (NewParameterError "data" "point not in prime-order subgroup"
               (Sentinel ErrDeserializationFailed));
      Ok point
  end.

Definition Group_DeserializeScalar (data : bytes) : Res Scalar :=
  _ ← fail_if (negb (length data =? ScalarSize)%nat)
        (NewParameterError "data" "invalid scalar encoding length"
           (Sentinel ErrDeserializationFailed));
  let bigEndian := reverseBytes (take internalScalarSize data) in
  let value := be_combine bigEndian in
  _ ← fail_if (0 <=? big_Cmp value groupOrder)
        (NewParameterError "data" "scalar value >= group order"
           (Sentinel ErrDeserializationFailed));
  Ok (copy_into internalScalarSize (take internalScalarSize data)).

Definition NewScalar (value : Z) : Scalar :=
  let reduced := value mod groupOrder in
  copy_into internalScalarSize (reverseBytes (big_Bytes reduced)).

Definition NewScalarFromBytes (data : bytes) : Scalar := gs_FromBytes data.

Definition NewGroup : Group := {|
  Group.Element := Element;
  Group.Scalar := Scalar;
  e_Add := Element_Add;
  e_Negate := Element_Negate;
  e_IsIdentity := Element_IsIdentity;
  e_Equal := Element_Equal;
  e_Bytes := Element_Bytes;
  e_Copy := Element_Copy;
  s_Add := Scalar_Add;
  s_Sub := Scalar_Sub;
  s_Mul := Scalar_Mul;
  s_Inv := Scalar_Inv;
  s_Negate := Scalar_Negate;
  s_IsZero := Scalar_IsZero;
  s_Equal := Scalar_Equal;
  s_Bytes := Scalar_Bytes;
  s_Copy := Scalar_Copy;
  s_Compare := Scalar_Compare;
  Order := groupOrderBytes;
  Cofactor := Group_Cofactor;
  Identity := Element_Copy g_Identity;
  Generator := Element_Copy g_Generator;
  Group.NewScalar := Group_NewScalar;
  NewElement := Element_Copy g_Identity;
  RandomScalar := Group_RandomScalar;
  ScalarMult := Group_ScalarMult;
  ScalarBaseMult := Group_ScalarBaseMult;
  SerializeElement := Group_SerializeElement;
  DeserializeElement := Group_DeserializeElement;
  SerializeScalar := Scalar_Bytes;
  DeserializeScalar := Group_DeserializeScalar;
  ElementLength := ElementSize;
  ScalarLength := ScalarSize;
  Name := "ed448";
  ByteOrder := LittleEndian;
|}.

(** ** Byte loops *)

Lemma same_bytes_true a b : same_bytes a b = true ↔ a = b.
Proof.
  unfold same_bytes. destruct (Nat.eqb_spec (length a) (length b)) as [Hl|Hl]; cbn.
  - revert b Hl. induction a as [|x a IH]; intros [|y b] Hl; try done. injection Hl as Hl. cbn.
    rewrite andb_true_iff, bool_decide_eq_true, IH by done. naive_solver.
  - split; [done | by intros ->].
Qed.

Lemma same_bytes_false a b : same_bytes a b = false ↔ a ≠ b.
Proof. rewrite <-not_true_iff_false. by rewrite same_bytes_true. Qed.

Lemma Scalar_Equal_true a b : length a = length b → Scalar_Equal a b = true ↔ a = b.
Proof.
  intros Hl. unfold Scalar_Equal. rewrite Z.eqb_eq.
  cut (∀ d, foldl (λ diff '(a, b), Z.lor diff (Z.lxor (byte.unsigned a) (byte.unsigned b))) d
              (zip a b) = 0 ↔ d = 0 ∧ a = b); [intros H; rewrite H; tauto |].
  revert b Hl. induction a as [|x a IH]; intros [|y b] Hl d; try done; [cbn; tauto |].
  injection Hl as Hl. cbn.
  rewrite IH by done. rewrite Z.lor_eq_0_iff, Z.lxor_eq_0_iff.
  split; [intros [[-> Hxy] ->]; split; [done | f_equal; by apply byte.unsigned_inj] |].
  intros [-> [= -> ->]]. done.
Qed.

Lemma copy_into_exact n s : length s = n → copy_into n s = s.
Proof.
  intros <-. unfold copy_into. rewrite firstn_all, Nat.sub_diag. apply app_nil_r.
Qed.

Lemma copy_into_pad s : length s = 56%nat → copy_into 57 s = s ++ zero_bytes 1.
Proof. intros Hl. unfold copy_into. by rewrite take_ge, Hl by lia. Qed.

(** ** The contract *)

Section Laws.
Context {n : Z} {L : GoldilocksLaws V n}.
Context (Horder : groupOrder = n) (Hlength : length groupOrderBytes = 57%nat).

Lemma groupOrder_le : le_combine (take 56 groupOrderBytes) = n.
Proof. rewrite <-Horder. unfold groupOrder. by rewrite be_combine_reverseBytes. Qed.

(** *** Scalars *)

Definition is_reduced (s : Scalar) : bool :=
  (length s =? 56)%nat && (le_combine s <? n).

Lemma is_reduced_true s : is_reduced s = true ↔ reduced n s.
Proof. unfold is_reduced, reduced. by rewrite andb_true_iff, Nat.eqb_eq, Z.ltb_lt. Qed.

Lemma residue_reduced s z : residue n s z → is_reduced s = true ∧ le_combine s = z mod n.
Proof.
  intros [Hl Hv]. split; [| done]. apply is_reduced_true. split; [done |].
  rewrite Hv. pose proof (proj1 gl_order). apply Z.mod_pos_bound. lia.
Qed.

Lemma residue_small s z : residue n s z → 0 ≤ z < n → le_combine s = z.
Proof. intros [_ ->] Hz. by apply Z.mod_small. Qed.

Lemma reduced_inj x y :
  is_reduced x = true → is_reduced y = true → le_combine x = le_combine y → x = y.
Proof.
  intros [Hx _]%is_reduced_true [Hy _]%is_reduced_true H.
  apply (decode_int_inj LittleEndian); [congruence | done].
Qed.

Lemma Inv_spec x : is_reduced x = true → le_combine x ≠ 0 →
  ∃ y, Scalar_Inv x = Ok y ∧ is_reduced y = true ∧ (le_combine y * le_combine x) mod n = 1.
Proof.
  intros Hx Hx0. pose proof (proj1 gl_order) as Ho.
  assert (0 ≤ le_combine x < n) as Hb.
  { split; [apply le_combine_bound | by apply is_reduced_true in Hx as []]. }
  unfold Scalar_Inv, Scalar_IsZero.
  rewrite gl_IsZero, (proj2 (Z.eqb_neq _ _) Hx0) by (by apply is_reduced_true).
  rewrite be_combine_reverseBytes, Horder.
  destruct (ModInverse_prime (le_combine x) n gl_prime) as (y & -> & Hy & Hm); [lia |].
  eexists. split; [done |].
  destruct (residue_reduced _ _ (gl_FromBytes (reverseBytes (big_Bytes y)))) as [Hr Hv].
  split; [done |]. rewrite Hv, reverseBytes_reverse.
  rewrite (decode_big_Bytes y (proj1 Hy) : le_combine (reverse _) = _).
  by rewrite (Z.mod_small y).
Qed.

Lemma Bytes_encode s :
  is_reduced s = true → Scalar_Bytes s = encode_int LittleEndian 57 (le_combine s).
Proof.
  intros [Hl _]%is_reduced_true. unfold Scalar_Bytes, ScalarSize. rewrite copy_into_pad by done.
  rewrite <-(encode_decode_int LittleEndian (s ++ zero_bytes 1)). cbn [decode_int].
  by rewrite le_combine_zeros, length_app, Hl.
Qed.

(** The range test of the decoder looks at 56 of the 57 bytes. *)
Lemma DeserializeScalar_spec bs x :
  Group_DeserializeScalar bs = Ok x ↔
  length bs = 57%nat ∧ le_combine (take 56 bs) < n ∧ x = take 56 bs.
Proof.
  unfold Group_DeserializeScalar. rewrite be_combine_reverseBytes, Horder.
  unfold ScalarSize, internalScalarSize.
  destruct (Nat.eqb_spec (length bs) 57) as [Hl|Hl]; cbn; [| naive_solver].
  rewrite copy_into_exact by (rewrite length_take; lia).
  unfold big_Cmp. destruct (Z.compare_spec (le_combine (take 56 bs)) n); cbn; naive_solver lia.
Qed.

Lemma DeserializeScalar_ignores_last s b b' :
  length s = 56%nat → Group_DeserializeScalar (s ++ [b]) = Group_DeserializeScalar (s ++ [b']).
Proof.
  intros Hl. unfold Group_DeserializeScalar, internalScalarSize.
  rewrite !length_app, !take_app_le, !take_ge by lia. done.
Qed.

(** *** Points *)

Local Abbreviation times k X := (nmul g_Add g_Identity k X).

Lemma Marshal_inj X Y : g_MarshalBinary X = g_MarshalBinary Y → X = Y.
Proof. intros H%(f_equal g_FromBytes). rewrite !gl_FromBytes_Marshal in H. congruence. Qed.

Lemma Element_Equal_true X Y : Element_Equal X Y = true ↔ X = Y.
Proof. unfold Element_Equal. rewrite same_bytes_true. split; [apply Marshal_inj | by intros ->]. Qed.

Lemma ed448_IsIdentity_true X : Element_IsIdentity X = true ↔ X = g_Identity.
Proof. apply Element_Equal_true. Qed.

Lemma ed448_IsIdentity_false X : X ≠ g_Identity → Element_IsIdentity X = false.
Proof. by rewrite <-not_true_iff_false, ed448_IsIdentity_true. Qed.

Lemma Copy_id X : Element_Copy X = X.
Proof. unfold Element_Copy. by rewrite gl_FromBytes_Marshal. Qed.

(** When the flipped encoding does not decode the point is its own opposite,
    and the fallback, which adds where its comment subtracts, returns it. *)
Lemma Negate_neg X : Element_Negate X = gl_neg X.
Proof.
  unfold Element_Negate. destruct (gl_FromBytes_flip X) as [-> | [-> HX]]; [done |].
  rewrite gl_Double, HX, (ab_id (ok := λ _, True) g_Identity I).
  by apply (ab_id_l (ok := λ _, True)).
Qed.

(** The prime-order subgroup. *)
Definition prime_order (X : GPoint) : bool := Element_IsIdentity (times n X).

Lemma prime_order_true (X : GPoint) : prime_order X = true ↔ times n X = g_Identity.
Proof. apply ed448_IsIdentity_true. Qed.

Lemma prime_order_laws : AbelianOn (λ X : GPoint, prime_order X = true) g_Add g_Identity Element_Negate.
Proof.
  destruct gl_abelian as [_ _ _ Hass Hcomm Hid Hneg].
  split; intros *; rewrite ?prime_order_true, ?Negate_neg; auto.
  - intros HX HY. by rewrite (nmul_distr (ok := λ _, True)), HX, HY, Hid by done.
  - apply (nmul_zero (ok := λ _, True)).
  - intros HX. pose proof (nmul_neg (ok := λ _, True) n x I) as Hn. rewrite HX in Hn.
    by rewrite (ab_id_l (ok := λ _, True)) in Hn.
Qed.

Lemma SerializeElement_point X :
  X ≠ g_Identity → Group_SerializeElement X = Ok (g_MarshalBinary X).
Proof. intros HX. unfold Group_SerializeElement. by rewrite ed448_IsIdentity_false. Qed.

(** The decoder accepts the encodings of the subgroup's points. *)
Lemma DeserializeElement_subgroup X :
  prime_order X = true → X ≠ g_Identity → Group_DeserializeElement (g_MarshalBinary X) = Ok X.
Proof.
  intros Hp HX. apply prime_order_true in Hp.
  unfold Group_DeserializeElement, ElementSize, internalScalarSize.
  assert (length (take 56 groupOrderBytes) = 56%nat) by (rewrite length_take; lia).
  rewrite copy_into_exact by done.
  rewrite gl_Marshal_length, gl_FromBytes_Marshal, gl_IsOnCurve, (ed448_IsIdentity_false X HX).
  rewrite gl_ScalarMult, groupOrder_le, Hp by (rewrite ?groupOrder_le; done || lia).
  by rewrite (proj2 (ed448_IsIdentity_true g_Identity)).
Qed.

(** It refuses every other point under the library's documented behaviour for
    all points, [ScalarMult] returning [kP] for the unreduced [k] that the
    code passes it. *)
Lemma DeserializeElement_valid bs X :
  (∀ s Y, length s = 56%nat → g_ScalarMult s Y = times (le_combine s) Y) →
  Group_DeserializeElement bs = Ok X → prime_order X = true.
Proof.
  intros HM H. unfold Group_DeserializeElement in H. apply bind_Ok in H as (u & _ & H).
  destruct (g_FromBytes bs) as [Y|]; [| done]. ok_inv. subst Y.
  apply negb_false_iff in Hr1. unfold internalScalarSize in Hr1.
  assert (length (take 56 groupOrderBytes) = 56%nat) as Hl by (rewrite length_take; lia).
  rewrite copy_into_exact, HM, groupOrder_le in Hr1 by done. exact Hr1.
Qed.

(** *** The adapter *)

Lemma value_range s : is_reduced s = true → 0 ≤ le_combine s < n.
Proof. intros [_ Hs]%is_reduced_true. split; [apply le_combine_bound | done]. Qed.

Lemma NewScalar_zero : residue n Group_NewScalar 0.
Proof.
  split; [apply length_replicate |]. rewrite (le_combine_zeros [] 56 : le_combine Group_NewScalar = _). symmetry.
  apply Z.mod_0_l. pose proof (proj1 gl_order). lia.
Qed.

Lemma Cofactor_four : residue n Group_Cofactor 4.
Proof. pose proof (proj1 gl_order). split; [done |]. rewrite Z.mod_small by lia. done. Qed.

Lemma DeserializeScalar_canonical bs :
  length bs = 57%nat → le_combine bs < n →
  ∃ x, Group_DeserializeScalar bs = Ok x ∧ is_reduced x = true ∧ le_combine x = le_combine bs.
Proof.
  intros Hl Hb. pose proof (proj2 gl_order) as Ho.
  assert (length (take 56 bs) = 56%nat) as Ht by (rewrite length_take; lia).
  assert (le_combine (take 56 bs) = le_combine bs) as Hv.
  { rewrite <-(take_drop 56 bs) at 2. rewrite le_combine_app_add, Ht.
    pose proof (le_combine_bound (take 56 bs)). pose proof (le_combine_bound (drop 56 bs)).
    rewrite <-(take_drop 56 bs), le_combine_app_add, Ht in Hb.
    assert (le_combine (drop 56 bs) = 0) as ->; [| lia].
    change (8 * Z.of_nat 56) with 448 in Hb.
    assert (2 ^ 446 < 2 ^ 448) by (by apply Z.pow_lt_mono_r). nia. }
  exists (take 56 bs). split_and!; [apply DeserializeScalar_spec | apply is_reduced_true |]; auto.
  - rewrite Hv. auto.
  - split; [done | lia].
Qed.

Lemma RandomScalar_reduced r x r' : Group_RandomScalar r = (Ok x, r') → is_reduced x = true.
Proof.
  unfold Group_RandomScalar. intros H. rand_inv.
  match goal with H : gs_FromBytes _ = _ |- _ => rewrite <-H | _ => idtac end.
  by eapply residue_reduced, gl_FromBytes.
Qed.

#[export] Instance laws : AdapterLaws NewGroup.
Proof.
  pose proof (proj1 gl_order) as Ho.
  refine {| adapter_order := n; valid_scalar := (is_reduced : @Group.Scalar NewGroup → bool);
            valid_element := (prime_order : @Group.Element NewGroup → bool);
            sval := (le_combine : @Group.Scalar NewGroup → Z) |};
    cbn; rewrite ?Copy_id; try done.
  - apply value_range.
  - apply reduced_inj.
  - apply (residue_reduced _ _ NewScalar_zero).
  - intros x y Hx%is_reduced_true Hy%is_reduced_true. by apply residue_reduced, gl_Add.
  - intros x y Hx%is_reduced_true Hy%is_reduced_true. by apply residue_reduced, gl_Sub.
  - intros x y Hx%is_reduced_true Hy%is_reduced_true. by apply residue_reduced, gl_Mul.
  - intros x Hx%is_reduced_true. by apply residue_reduced, gl_Neg.
  - apply Inv_spec.
  - intros x Hx%is_reduced_true H0. eexists. unfold Scalar_Inv, Scalar_IsZero.
    by rewrite gl_IsZero, (proj2 (Z.eqb_eq _ _) H0).
  - intros x Hx%is_reduced_true. by apply gl_IsZero.
  - intros x y Hx Hy. apply eq_true_iff_eq. rewrite Z.eqb_eq.
    pose proof Hx as [Hlx _]%is_reduced_true. pose proof Hy as [Hly _]%is_reduced_true.
    rewrite Scalar_Equal_true by congruence. split; [by intros -> | by apply reduced_inj].
  - intros x y _ _. unfold Scalar_Compare. by rewrite !be_combine_reverseBytes.
  - intros x [Hx _]%is_reduced_true. by apply copy_into_exact.
  - apply (residue_reduced _ _ Cofactor_four).
  - apply RandomScalar_reduced.
  - split; [unfold ScalarSize; lia |]. etrans; [apply gl_order |].
    apply Z.pow_le_mono_r; unfold ScalarSize; lia.
  - apply Bytes_encode.
  - apply DeserializeScalar_canonical.
  - intros bs x (Hl & Hb & ->)%DeserializeScalar_spec. apply is_reduced_true.
    split; [rewrite length_take; lia | done].
  - apply prime_order_laws.
  - apply prime_order_true, gl_Generator.
  - intros X _. apply ed448_IsIdentity_true.
  - intros X Y _ _. apply Element_Equal_true.
  - intros X _. apply Copy_id.
  - intros X s HX%prime_order_true Hs. pose proof (value_range s Hs).
    apply is_reduced_true in Hs as [Hs _]. apply gl_ScalarMult; [done | lia | done].
  - intros s _. apply gl_ScalarBaseMult.
  - intros X. apply prime_order_true.
  - apply gl_Generator_order.
  - intros X _ _. apply gl_Marshal_length.
  - intros X Y _ _. apply Marshal_inj.
  - intros X _. apply SerializeElement_point.
  - eexists. unfold Group_SerializeElement. by rewrite (proj2 (ed448_IsIdentity_true _)).
  - intros X. apply DeserializeElement_subgroup.
Defined.
End Laws.
End Adapter.
End ed448.
