(* ===== verification/Suites.v ===== *)
(** * The five ciphersuites of [pkg/frost/ciphersuite/]

    [p256_sha256], [secp256k1_sha256], [ristretto255_sha512],
    [ed25519_sha512] and [ed448_shake256]: their hash functions onto the
    groups of the adapters, [HashToCurve] and [VerifySignature], as instances
    of [Ciphersuite].  Their theorems are in [SuiteLaws]. *)

From S2P Require Export Hashing.
From S2P Require Export Secp256k1.
From S2P Require Export Ristretto255.
From S2P Require Export Ed25519.
From S2P Require Export P256.
From S2P Require Export Ed448.

(** ** Signature verification

    The body of [VerifySignature] in the three prime-order suites, with the
    lengths of the two halves, and in the two suites with a cofactor. *)

Section Verifiers.
Context (G : Group) (h2 : bytes → @Scalar G) (elen slen : nat).

(** Decoding and the challenge, common to both. *)
Definition parse_signature (message signature : bytes) (publicKey : option Element)
  : Res (Element * Scalar * Scalar * Element) :=
  match publicKey with
  | None => Fail (NewParameterError "publicKey" "public key is nil"
                    (Sentinel ErrInvalidParameters))
  | Some publicKey =>
      _ ← fail_if (e_IsIdentity publicKey)
            (NewVerificationError "signature" "public key is identity element"
               (Sentinel ErrIdentityElement));
      _ ← fail_if (negb (length signature =? elen + slen))
            (NewParameterError "signature" "invalid signature length"
               (Sentinel ErrInvalidSignature));
      let rBytes := take elen signature in
      let zBytes := drop elen signature in
      R ← wrap (NewVerificationError "signature" "failed to deserialize R")
            (DeserializeElement rBytes);
      z ← wrap (NewVerificationError "signature" "failed to deserialize z")
            (DeserializeScalar zBytes);
      let c := h2 (e_Bytes R ++ e_Bytes publicKey ++ message) in
      Ok (R, z, c, publicKey)
  end.

Definition plain_verify (message signature : bytes) (publicKey : option Element) : Res unit :=
  '(R, z, c, publicKey) ← parse_signature message signature publicKey;
  let left := ScalarBaseMult z in
  let cPK := ScalarMult publicKey c in
  let right := e_Add R cPK in
  fail_if (negb (e_Equal left right))
    (NewVerificationError "signature" "signature verification failed"
       (Sentinel ErrInvalidSignature)).

Definition cofactored_verify (message signature : bytes) (publicKey : option Element)
  : Res unit :=
  '(R, z, c, publicKey) ← parse_signature message signature publicKey;
  let cofactor := Cofactor in
  let zG := ScalarBaseMult z in
  let left := ScalarMult zG cofactor in
  let cPK := ScalarMult publicKey c in
  let rPlusCPK := e_Add R cPK in
  let right := ScalarMult rPlusCPK cofactor in
  fail_if (negb (e_Equal left right))
    (NewVerificationError "signature" "signature verification failed"
       (Sentinel ErrInvalidSignature)).
End Verifiers.

(** [for i := 0; i < n; i++ { ...; if found { return } }] *)
Definition try_loop {A} (n : nat) (f : nat → option A) : option A :=
  foldr (λ i rest, match f i with Some a => Some a | None => rest end) None (seq 0 n).

Definition counterBuf (i : nat) : bytes := [byte.of_Z (Z.of_nat i)].

Definition no_point : error :=
  NewParameterError "data" "failed to find valid curve point after 256 attempts"
    (Sentinel ErrDeserializationFailed).

(** A hash-to-scalar call whose panics the code rules out: the interface has no
    error.  The lemmas [hashToScalar_Ok] show that it never panics. *)
Definition scalar_of {A} (zero : A) (m : Res A) : A :=
  match m with Ok s => s | _ => zero end.

(** ** ciphersuite/p256_sha256 *)

Module p256_sha256.
Section Suite.
Context {S256 : SHA256} {B : BigmodLib} {C : EllipticLib} (fuel : nat).

Local Abbreviation G := (p256.NewGroup fuel).

Definition contextString : string := "FROST-P256-SHA256-v1".

Definition Hash (data : bytes) : bytes := sha256 data.

Definition hashToScalar (domain : string) (data : bytes) : Res (@Scalar G) :=
  let dst := string_bytes contextString ++ string_bytes domain in
  uniformBytes ← expandMessageXMD data dst 48;
  let orderBytes := @Order G in
  let groupOrder := be_combine orderBytes in
  let hashInt := (be_combine uniformBytes mod groupOrder)%Z in
  p256.NewScalarFromBigInt hashInt.

Definition HashToScalar (domain : string) (data : bytes) : @Scalar G :=
  scalar_of (@NewScalar G) (hashToScalar domain data).

Definition H1 (data : bytes) : @Scalar G := HashToScalar domainH1 data.
Definition H2 (data : bytes) : @Scalar G := HashToScalar domainH2 data.
Definition H3 (data : bytes) : @Scalar G := HashToScalar domainH3 data.
Definition H4 (msg : bytes) : bytes := Hash (domainSeparate contextString domainH4 msg).
Definition H5 (data : bytes) : bytes := Hash (domainSeparate contextString domainH5 data).
Definition HDKG (data : bytes) : @Scalar G := HashToScalar "dkg" data.
Definition HID (data : bytes) : @Scalar G := HashToScalar "id" data.

Definition tryFindPoint (x : Z) : option (@Element G) :=
  foldr (λ prefix rest,
    let xBytes := big_Bytes x in
    if (32 <? length xBytes) then rest
    else
      let compressed := byte.of_Z prefix :: zero_bytes (32 - length xBytes) ++ xBytes in
      match @DeserializeElement G compressed with
      | Ok elem => Some elem
      | _ => rest
      end) None [2%Z; 3%Z].

Definition HashToCurve (data : bytes) : Res (@Element G) :=
  let input := domainSeparate contextString "h2c" data in
  match try_loop 256 (λ i,
    let hash := Hash (input ++ counterBuf i) in
    let x := be_combine hash in
    let fieldPrime := be_combine (@Order G) in
    tryFindPoint (x mod fieldPrime)%Z) with
  | Some point => Ok point
  | None => Fail no_point
  end.

Definition VerifySignature : bytes → bytes → option (@Element G) → Res unit :=
  plain_verify G H2 (@ElementLength G) (@ScalarLength G).

Definition New : Ciphersuite G := {|
  ID := contextString; Group.H1 := H1; Group.H2 := H2; Group.H3 := H3; Group.H4 := H4;
  Group.H5 := H5; Group.HDKG := HDKG; Group.HID := HID; Group.HashToCurve := HashToCurve;
  Group.Hash := Hash; Group.VerifySignature m s P := VerifySignature m s (Some P);
  ContextString := contextString |}.
End Suite.
End p256_sha256.

(** ** ciphersuite/secp256k1_sha256 *)

Module secp256k1_sha256.
Section Suite.
Context {S256 : SHA256} {V : SecpLib} (fuel : nat).

Local Abbreviation G := (secp256k1.NewGroup fuel).

Definition contextString : string := "FROST-secp256k1-SHA256-v1".

Definition groupOrder : Z := be_combine secp256k1.groupOrder.

Definition fieldPrime : Z := be_combine (byte.of_Z <$>
  [255; 255; 255; 255; 255; 255; 255; 255; 255; 255; 255; 255; 255; 255; 255; 255;
   255; 255; 255; 255; 255; 255; 255; 255; 255; 255; 255; 254; 255; 255; 252; 47]%Z).

Definition domainSeparate (domain : string) (data : bytes) : bytes :=
  Hashing.domainSeparate contextString domain data.

(** The body is the same text as in [p256_sha256]. *)
Definition expandMessageXMD : bytes → bytes → nat → Res bytes := Hashing.expandMessageXMD.

Definition Hash (data : bytes) : bytes := sha256 data.

Definition hashToScalar (domain : string) (data : bytes) : Res (@Scalar G) :=
  let dst := string_bytes contextString ++ string_bytes domain in
  uniformBytes ← expandMessageXMD data dst 48;
  let hashInt := (be_combine uniformBytes mod groupOrder)%Z in
  let scalarBytes := big_Bytes hashInt in
  if (32 <? length scalarBytes) then Panic
  else
    let padded := zero_bytes (32 - length scalarBytes) ++ scalarBytes in
    Ok (secp_NewScalarFromBytes padded).

Definition HashToScalar (domain : string) (data : bytes) : @Scalar G :=
  scalar_of (@NewScalar G) (hashToScalar domain data).

Definition H1 (data : bytes) : @Scalar G := HashToScalar domainH1 data.
Definition H2 (data : bytes) : @Scalar G := HashToScalar domainH2 data.
Definition H3 (data : bytes) : @Scalar G := HashToScalar domainH3 data.
Definition H4 (msg : bytes) : bytes := Hash (domainSeparate domainH4 msg).
Definition H5 (data : bytes) : bytes := Hash (domainSeparate domainH5 data).
Definition HDKG (data : bytes) : @Scalar G := HashToScalar "dkg" data.
Definition HID (data : bytes) : @Scalar G := HashToScalar "id" data.

Definition tryFindPoint (x : Z) : option (@Element G) :=
  foldr (λ prefix rest,
    let xBytes := big_Bytes x in
    if (32 <? length xBytes) then rest
    else
      let compressed := byte.of_Z prefix :: zero_bytes (32 - length xBytes) ++ xBytes in
      match @DeserializeElement G compressed with
      | Ok elem => Some elem
      | _ => rest
      end) None [2%Z; 3%Z].

Definition HashToCurve (data : bytes) : Res (@Element G) :=
  let input := domainSeparate "h2c" data in
  match try_loop 256 (λ i,
    let hash := Hash (input ++ counterBuf i) in
    let x := be_combine hash in
    tryFindPoint (x mod fieldPrime)%Z) with
  | Some point => Ok point
  | None => Fail no_point
  end.

Definition VerifySignature : bytes → bytes → option (@Element G) → Res unit :=
  plain_verify G H2 (@ElementLength G) (@ScalarLength G).

Definition New : Ciphersuite G := {|
  ID := contextString; Group.H1 := H1; Group.H2 := H2; Group.H3 := H3; Group.H4 := H4;
  Group.H5 := H5; Group.HDKG := HDKG; Group.HID := HID; Group.HashToCurve := HashToCurve;
  Group.Hash := Hash; Group.VerifySignature m s P := VerifySignature m s (Some P);
  ContextString := contextString |}.
End Suite.
End secp256k1_sha256.

(** ** ciphersuite/ristretto255_sha512 *)

Module ristretto255_sha512.
Section Suite.
Context {S512 : SHA512} {V : RistrettoLib}.

Local Abbreviation G := ristretto255.NewGroup.

Definition contextString : string := "FROST-RISTRETTO255-SHA512-v1".

Definition domainSeparate (domain : string) (data : bytes) : bytes :=
  Hashing.domainSeparate contextString domain data.

Definition Hash (data : bytes) : bytes := sha512 data.

Definition hashToScalar (domain : string) (data : bytes) : Res (@Scalar G) :=
  let input := domainSeparate domain data in
  let hash := Hash input in
  if negb (length hash =? 64) then Panic
  else match l_SetUniformBytes hash with
       | None => Panic
       | Some scalar => Ok scalar
       end.

Definition HashToScalar (domain : string) (data : bytes) : @Scalar G :=
  scalar_of (@NewScalar G) (hashToScalar domain data).

Definition H1 (data : bytes) : @Scalar G := HashToScalar domainH1 data.
Definition H2 (data : bytes) : @Scalar G := HashToScalar domainH2 data.
Definition H3 (data : bytes) : @Scalar G := HashToScalar domainH3 data.
Definition H4 (msg : bytes) : bytes := Hash (domainSeparate domainH4 msg).
Definition H5 (data : bytes) : bytes := Hash (domainSeparate domainH5 data).
Definition HDKG (data : bytes) : @Scalar G := HashToScalar "dkg" data.
Definition HID (data : bytes) : @Scalar G := HashToScalar "id" data.

Definition HashToCurve (data : bytes) : Res (@Element G) :=
  let input := domainSeparate "h2c" data in
  let hash := Hash input in
  match ristretto_map hash with
  | None => Fail (NewParameterError "data" "failed to map hash to curve point"
                    (OpaqueError "ristretto255: SetUniformBytes"))
  | Some elem => Ok elem
  end.

Definition VerifySignature : bytes → bytes → option (@Element G) → Res unit :=
  plain_verify G H2 32 32.

Definition New : Ciphersuite G := {|
  ID := contextString; Group.H1 := H1; Group.H2 := H2; Group.H3 := H3; Group.H4 := H4;
  Group.H5 := H5; Group.HDKG := HDKG; Group.HID := HID; Group.HashToCurve := HashToCurve;
  Group.Hash := Hash; Group.VerifySignature m s P := VerifySignature m s (Some P);
  ContextString := contextString |}.
End Suite.
End ristretto255_sha512.

(** ** ciphersuite/ed25519_sha512 *)

Module ed25519_sha512.
Section Suite.
Context {S512 : SHA512} {V : Edwards25519Lib}.

Local Abbreviation G := ed25519.NewGroup.

Definition contextString : string := "FROST-ED25519-SHA512-v1".

Definition domainSeparate (domain : string) (data : bytes) : bytes :=
  Hashing.domainSeparate contextString domain data.

Definition Hash (data : bytes) : bytes := sha512 data.

(** The reduction of a hash, whose two panics are library bugs. *)
Definition reduce (hash : bytes) : Res (@Scalar G) :=
  if negb (length hash =? 64) then Panic
  else match l_SetUniformBytes hash with
       | None => Panic
       | Some scalar => Ok scalar
       end.

Definition hashToScalar (domain : string) (data : bytes) : Res (@Scalar G) :=
  let input := domainSeparate domain data in
  let hash := Hash input in
  reduce hash.

Definition HashToScalar (domain : string) (data : bytes) : @Scalar G :=
  scalar_of (@NewScalar G) (hashToScalar domain data).

Definition H1 (data : bytes) : @Scalar G := HashToScalar domainH1 data.

(** The challenge is not domain separated, as in plain Ed25519. *)
Definition H2 (data : bytes) : @Scalar G := scalar_of (@NewScalar G) (reduce (Hash data)).

Definition H3 (data : bytes) : @Scalar G := HashToScalar domainH3 data.
Definition H4 (msg : bytes) : bytes := Hash (domainSeparate domainH4 msg).
Definition H5 (data : bytes) : bytes := Hash (domainSeparate domainH5 data).
Definition HDKG (data : bytes) : @Scalar G := HashToScalar "dkg" data.
Definition HID (data : bytes) : @Scalar G := HashToScalar "id" data.

Definition HashToCurve (data : bytes) : Res (@Element G) :=
  let input := domainSeparate "h2c" data in
  match try_loop 256 (λ i,
    let hash := Hash (input ++ counterBuf i) in
    p_SetBytes (take 32 hash)) with
  | Some point => Ok point
  | None => Fail no_point
  end.

Definition VerifySignature : bytes → bytes → option (@Element G) → Res unit :=
  cofactored_verify G H2 32 32.

Definition New : Ciphersuite G := {|
  ID := contextString; Group.H1 := H1; Group.H2 := H2; Group.H3 := H3; Group.H4 := H4;
  Group.H5 := H5; Group.HDKG := HDKG; Group.HID := HID; Group.HashToCurve := HashToCurve;
  Group.Hash := Hash; Group.VerifySignature m s P := VerifySignature m s (Some P);
  ContextString := contextString |}.
End Suite.
End ed25519_sha512.

(** ** ciphersuite/ed448_shake256

    The writes to and reads from the sponge never fail. *)

Module ed448_shake256.
Section Suite.
Context {K : SHAKE256} {V : GoldilocksLib} (groupOrderBytes : bytes).

Local Abbreviation G := (ed448.NewGroup groupOrderBytes).

Definition contextString : string := "FROST-ED448-SHAKE256-v1".
Definition ed448H2Prefix : string := "SigEd448".
Definition hashOutputSize : nat := 114.

Definition domainSeparate (domain : string) (data : bytes) : bytes :=
  Hashing.domainSeparate contextString domain data.

Definition Hash (data : bytes) : bytes := shake256 hashOutputSize data.

Definition hashToScalar (domain : string) (data : bytes) : @Scalar G :=
  let input := domainSeparate domain data in
  let output := shake256 hashOutputSize input in
  ed448.NewScalarFromBytes output.

Definition H1 (data : bytes) : @Scalar G := hashToScalar domainH1 data.

Definition H2 (data : bytes) : @Scalar G :=
  let output := shake256 hashOutputSize
                  (string_bytes ed448H2Prefix ++ [byte.of_Z 0; byte.of_Z 0] ++ data) in
  ed448.NewScalarFromBytes output.

Definition H3 (data : bytes) : @Scalar G := hashToScalar domainH3 data.
Definition H4 (msg : bytes) : bytes := Hash (domainSeparate domainH4 msg).
Definition H5 (data : bytes) : bytes := Hash (domainSeparate domainH5 data).
Definition HDKG (data : bytes) : @Scalar G := hashToScalar "dkg" data.
Definition HID (data : bytes) : @Scalar G := hashToScalar "id" data.

Definition HashToCurve (data : bytes) : Res (@Element G) :=
  let input := domainSeparate "h2c" data in
  match try_loop 256 (λ i,
    let pointBytes := shake256 57 (input ++ counterBuf i) in
    point ← g_FromBytes pointBytes;
    if g_IsOnCurve point then Some point else None) with
  | Some point => Ok point
  | None => Fail no_point
  end.

Definition VerifySignature : bytes → bytes → option (@Element G) → Res unit :=
  cofactored_verify G H2 57 57.

Definition New : Ciphersuite G := {|
  ID := contextString; Group.H1 := H1; Group.H2 := H2; Group.H3 := H3; Group.H4 := H4;
  Group.H5 := H5; Group.HDKG := HDKG; Group.HID := HID; Group.HashToCurve := HashToCurve;
  Group.Hash := Hash; Group.VerifySignature m s P := VerifySignature m s (Some P);
  ContextString := contextString |}.
End Suite.
End ed448_shake256.
