(* ===== verification/Curves.v ===== *)
(** * The curves of the ciphersuites, executable

    Edwards25519, ristretto255, Ed448, P-256 and secp256k1 after RFC 7748, RFC
    8032, RFC 9496 and SEC 1, on the machine integers of the
    kernel: instances of the classes that stand for the curve libraries, on which the
    definitions can be run.  No law is proved of them; they carry no theorem but
    the runs of [Vectors.v]. *)

From Stdlib Require Import Uint63.
From S2P Require Export Suites.

Local Open Scope Z_scope.

Module curves.

(** ** Multiples

    Sixteen-ary, from the highest digit on. *)

Section Multiplication.
Context {P : Type} (add : P → P → P) (double : P → P) (zero : P).

Fixpoint digits (fuel : nat) (n : Z) : list nat :=
  match fuel with
  | O => []
  | S fuel => if n =? 0 then [] else Z.to_nat (n mod 16) :: digits fuel (n / 16)
  end.
Definition digits_of (n : Z) : list nat := digits (Z.to_nat (Z.log2 n / 4 + 1)) n.

(** [0], [X], ..., [15 X] *)
Definition multiples (X : P) : list P :=
  reverse (Nat.iter 14 (λ l, match l with Y :: _ => add Y X :: l | [] => [] end) [X; zero]).

Definition times (n : Z) (X : P) : P :=
  let table := multiples X in
  foldr (λ d Y, let Z := Nat.iter 4 double Y in if (d =? 0)%nat then Z else add Z (nth d table zero))
    zero (digits_of n).

(** The multiples of [16^i X], and the multiplication from such a table. *)
Fixpoint comb (n : nat) (X : P) : list (list P) :=
  match n with O => [] | S n => multiples X :: comb n (Nat.iter 4 double X) end.
Definition table_times (table : list (list P)) (n : Z) : P :=
  foldl (λ Y '(d, row), if (d =? 0)%nat then Y else add Y (nth d row zero)) zero
    (zip (digits_of n) table).
End Multiplication.

(** ** Prime fields

    A number is a list of machine integers of 63 bits, the lowest first, as long
    as the modulus; it stands for its product with [2 ^ (63 * limbs)] modulo
    the prime (Montgomery). *)

Definition limbs_of (k : nat) (z : Z) : list int :=
  (λ i, Uint63.of_Z (Z.shiftr z (63 * Z.of_nat i))) <$> seq 0 k.
Definition limbs_to (l : list int) : Z := foldr (λ x n, Uint63.to_Z x + 2 ^ 63 * n) 0 l.

Record field := {
  f_prime : Z;
  f_modulus : list int;
  f_ninv : int;   (* minus the inverse of the prime modulo 2^63 *)
  f_zero : list int;
  f_one : list int;
  f_square : list int;   (* of the radix: to enter Montgomery's form *)
}.
Definition fe : Type := list int.

(** Newton's iteration doubles the correct bits of an inverse modulo [2 ^ 63]. *)
Definition inverse_63 (p : Z) : Z := Nat.iter 6 (λ x, (x * (2 - p * x)) mod 2 ^ 63) 1.

Definition make_field (k : nat) (p : Z) : field := {|
  f_prime := p;
  f_modulus := limbs_of k p;
  f_ninv := Uint63.of_Z (- inverse_63 p);
  f_zero := limbs_of k 0;
  f_one := limbs_of k (2 ^ (63 * Z.of_nat k) mod p);
  f_square := limbs_of k (2 ^ (126 * Z.of_nat k) mod p);
|}.

(** [t + a * b + carry], where [t] has one limb more than [b]. *)
Fixpoint row (a : int) (b t : list int) (carry : int) : list int :=
  match b, t with
  | b0 :: b, t0 :: t =>
      let '(hi, lo) := PrimInt63.mulc a b0 in
      let s := PrimInt63.add lo t0 in
      let hi := if PrimInt63.ltb s lo then PrimInt63.add hi 1%uint63 else hi in
      let s' := PrimInt63.add s carry in
      let hi := if PrimInt63.ltb s' s then PrimInt63.add hi 1%uint63 else hi in
      s' :: row a b t hi
  | [], t0 :: _ => [PrimInt63.add t0 carry]
  | _, [] => []
  end.

Fixpoint limbs_add (a b : list int) (carry : bool) : list int :=
  match a, b with
  | x :: a, y :: b =>
      match (if carry then PrimInt63.addcarryc x y else PrimInt63.addc x y) with
      | C0 s => s :: limbs_add a b false
      | C1 s => s :: limbs_add a b true
      end
  | _, _ => []
  end.

(** The difference, and whether it is negative. *)
Fixpoint limbs_sub (a b : list int) (borrow : bool) : list int * bool :=
  match a, b with
  | x :: a, y :: b =>
      match (if borrow then PrimInt63.subcarryc x y else PrimInt63.subc x y) with
      | C0 s => let '(l, c) := limbs_sub a b false in (s :: l, c)
      | C1 s => let '(l, c) := limbs_sub a b true in (s :: l, c)
      end
  | _, _ => ([], borrow)
  end.

Section Operations.
Context (m : field).

(** A number below twice the modulus. *)
Definition reduce_once (a : fe) : fe :=
  let '(d, negative) := limbs_sub a (f_modulus m) false in if negative then a else d.

Definition fadd (a b : fe) : fe := reduce_once (limbs_add a b false).
Definition fsub (a b : fe) : fe :=
  let '(d, negative) := limbs_sub a b false in
  if negative then limbs_add d (f_modulus m) false else d.
Definition fneg (a : fe) : fe := fsub (f_zero m) a.

(** A limb of the first factor at a time; the lowest limb of the sum becomes zero
    and is dropped. *)
Fixpoint montgomery (a b t : list int) : list int :=
  match a with
  | [] => t
  | x :: a =>
      let t := row x b (t ++ [0%uint63]) 0%uint63 in
      let q := PrimInt63.mul (default 0%uint63 (head t)) (f_ninv m) in
      montgomery a b (tail (row q (f_modulus m) t 0%uint63))
  end.
Definition fmul (a b : fe) : fe :=
  reduce_once (montgomery a b (f_zero m)).
Definition fsq (a : fe) : fe := fmul a a.

Fixpoint feq (a b : fe) : bool :=
  match a, b with
  | x :: a, y :: b => PrimInt63.eqb x y && feq a b
  | [], [] => true
  | _, _ => false
  end.
Definition fis0 (a : fe) : bool := feq a (f_zero m).

Definition fpow (a : fe) (n : Z) : fe := times fmul fsq (f_one m) n a.

(** [1 / a], by Fermat. *)
Definition finv (a : fe) : fe := fpow a (f_prime m - 2).

Definition elt (z : Z) : fe :=
  let k := length (f_modulus m) in
  fmul (limbs_of k (if (0 <=? z) && (z <? f_prime m) then z else z mod f_prime m)) (f_square m).
Definition value_limbs (a : fe) : list int :=
  fmul a (limbs_of (length (f_modulus m)) 1).
Definition value (a : fe) : Z := limbs_to (value_limbs a).
Definition odd_elt (a : fe) : bool :=
  match value_limbs a with x :: _ => negb (Uint63.is_even x) | [] => false end.
End Operations.

(** ** Scalars: the field of the order *)

Definition decode_scalar (F : field) (o : ByteOrder_t) (len : nat) (bs : bytes) : option fe :=
  let n := decode_int o bs in
  if (length bs =? len)%nat && (n <? f_prime F) then Some (elt F n) else None.

Definition scalars (F : field) (o : ByteOrder_t) (len : nat) : ScalarLib :=
  Build_ScalarLib fe (f_zero F) (fadd F) (fsub F) (fmul F) (fneg F) (finv F) feq
    (λ x, encode_int o len (value F x)) (decode_scalar F o len).

(** ** Edwards curves: [a x^2 + y^2 = 1 + d x^2 y^2] *)

Record edwards := { e_F : field; e_a : fe; e_d : fe; e_gx : fe; e_gy : fe }.

Definition make_edwards (m : field) (a d gx gy : Z) : edwards :=
  {| e_F := m; e_a := elt m a; e_d := elt m d; e_gx := elt m gx; e_gy := elt m gy |}.

Section Edwards.
Context (E : edwards).
Local Abbreviation m := (e_F E).

(** [(X : Y : Z)] *)
Definition epoint : Type := fe * fe * fe.

Definition e_identity : epoint := (f_zero m, f_one m, f_one m).
Definition e_base : epoint := (e_gx E, e_gy E, f_one m).

(** The unified addition. *)
Definition e_add (P Q : epoint) : epoint :=
  let '(x1, y1, z1) := P in let '(x2, y2, z2) := Q in
  let A := fmul m z1 z2 in
  let B := fsq m A in
  let C := fmul m x1 x2 in
  let D := fmul m y1 y2 in
  let K := fmul m (e_d E) (fmul m C D) in
  let F := fsub m B K in
  let G := fadd m B K in
  let H := fsub m (fsub m (fmul m (fadd m x1 y1) (fadd m x2 y2)) C) D in
  (fmul m A (fmul m F H), fmul m A (fmul m G (fsub m D (fmul m (e_a E) C))), fmul m F G).

Definition e_double (P : epoint) : epoint :=
  let '(x, y, z) := P in
  let B := fsq m (fadd m x y) in
  let C := fsq m x in
  let D := fsq m y in
  let K := fmul m (e_a E) C in
  let F := fadd m K D in
  let H := fsq m z in
  let J := fsub m F (fadd m H H) in
  (fmul m (fsub m (fsub m B C) D) J, fmul m F (fsub m K D), fmul m F J).

Definition e_neg (P : epoint) : epoint :=
  let '(x, y, z) := P in (fneg m x, y, z).

Definition e_eq (P Q : epoint) : bool :=
  let '(x1, y1, z1) := P in let '(x2, y2, z2) := Q in
  feq (fmul m x1 z2) (fmul m x2 z1) && feq (fmul m y1 z2) (fmul m y2 z1).

Definition e_normal (P : epoint) : epoint :=
  let '(x, y, z) := P in
  if feq z (f_one m) then P
  else let zi := finv m z in (fmul m x zi, fmul m y zi, f_one m).
Definition e_affine (P : epoint) : Z * Z :=
  let '(x, y, _) := e_normal P in (value m x, value m y).

(** The results of multiplications are normalized. *)
Definition e_times (n : Z) (P : epoint) : epoint :=
  e_normal (times e_add e_double e_identity n P).
Definition e_comb (n : nat) : list (list epoint) := comb e_add e_double e_identity n e_base.
Definition e_table_times (table : list (list epoint)) (n : Z) : epoint :=
  e_normal (table_times e_add e_identity table n).

(** [y] in little-endian bytes, with the parity of [x] in the last bit. *)
Definition e_encode (len : nat) (P : epoint) : bytes :=
  let '(x, y) := e_affine P in
  encode_int LittleEndian len (y + (x mod 2) * 2 ^ (8 * Z.of_nat len - 1)).

(** The square root of [u / v], if there is one. *)
Context (sqrt_ratio : fe → fe → option fe).

Definition e_decode (len : nat) (bs : bytes) : option epoint :=
  if negb (length bs =? len)%nat then None
  else
    let n := decode_int LittleEndian bs in
    let sign := n / 2 ^ (8 * Z.of_nat len - 1) in
    let y := n mod 2 ^ (8 * Z.of_nat len - 1) in
    if f_prime m <=? y then None
    else
      let y := elt m y in
      let yy := fsq m y in
      match sqrt_ratio (fsub m yy (f_one m)) (fsub m (fmul m (e_d E) yy) (e_a E)) with
      | None => None
      | Some x =>
          if fis0 m x && (sign =? 1) then None
          else Some (if Bool.eqb (odd_elt m x) (sign =? 1) then x else fneg m x, y, f_one m)
      end.
End Edwards.

(** ** Edwards25519 *)

Definition p25519 : Z := 2 ^ 255 - 19.
Definition order25519 : Z := 2 ^ 252 + 27742317777372353535851937790883648493.
Definition m25519 : field := Eval vm_compute in make_field 5 p25519.
Definition curve25519 : edwards := Eval vm_compute in make_edwards m25519 (-1)
  37095705934669439343138083508754565189542113879843219016388785533085940283555
  15112221349535400772501151409588531511454012693041857206046113283949847762202
  46316835694926478169428394003475163141307993866256225615783033603165251855960.
Definition d25519 : fe := Eval vm_compute in e_d curve25519.
Definition minus1 : fe := Eval vm_compute in e_a curve25519.
Definition add25519 : epoint → epoint → epoint := e_add curve25519.
Definition table25519 : list (list epoint) := Eval vm_compute in e_comb curve25519 64.
Definition sqrt_m1 : fe := Eval vm_compute in elt m25519
  19681161376707505956807079304988542015446066515923890162744021073123829784752.

(** SQRT_RATIO_M1 of RFC 9496: whether [u / v] is a square, and the root of it or
    of [sqrt_m1 * u / v] that is even. *)
Definition sqrt_ratio_m1 (u v : fe) : bool * fe :=
  let m := m25519 in
  let v3 := fmul m (fsq m v) v in
  let r := fmul m (fmul m u v3) (fpow m (fmul m u (fmul m (fsq m v3) v)) ((p25519 - 5) / 8)) in
  let check := fmul m v (fsq m r) in
  let correct_sign := feq check u in
  let flipped_sign := feq check (fneg m u) in
  let flipped_sign_i := feq check (fmul m (fneg m u) sqrt_m1) in
  let r := if flipped_sign || flipped_sign_i then fmul m sqrt_m1 r else r in
  (correct_sign || flipped_sign, if odd_elt m r then fneg m r else r).

Definition root25519 (u v : fe) : option fe :=
  let '(is_square, r) := sqrt_ratio_m1 u v in if is_square then Some r else None.

Definition n25519 : field := Eval vm_compute in make_field 5 order25519.
Definition scalars25519 : ScalarLib := scalars n25519 LittleEndian 32.
Definition reduce_wide (bs : bytes) : option fe :=
  if (length bs =? 64)%nat then Some (elt n25519 (le_combine bs)) else None.
Definition uniform25519 : UniformLib scalars25519 :=
  Build_UniformLib scalars25519 reduce_wide.

Definition mult25519 (s : fe) : epoint → epoint :=
  e_times curve25519 (value n25519 s).
Definition base25519 (s : fe) : epoint :=
  e_table_times curve25519 table25519 (value n25519 s).

Definition edwards_points : PointLib scalars25519 :=
  Build_PointLib scalars25519 epoint (e_identity curve25519) (e_base curve25519) add25519 (e_neg curve25519)
    (e_eq curve25519) (e_encode curve25519 32) (e_decode curve25519 root25519 32)
    mult25519 base25519.

#[export] Instance filippo_edwards25519 : Edwards25519Lib :=
  Build_Edwards25519Lib scalars25519 uniform25519 edwards_points.

(** ** Ristretto255 *)

Definition sqrt_ad_minus_one : fe := Eval vm_compute in elt m25519
  25063068953384623474111414158702152701244531502492656460079210482610430750235.
Definition invsqrt_a_minus_d : fe := Eval vm_compute in elt m25519
  54469307008909316920995813868745141605393597292927456921205312896311721017578.

Definition abs25519 (x : fe) : fe := if odd_elt m25519 x then fneg m25519 x else x.

Definition r_equal (P Q : epoint) : bool :=
  let m := m25519 in
  let '(x1, y1, _) := P in let '(x2, y2, _) := Q in
  feq (fmul m x1 y2) (fmul m y1 x2) || feq (fmul m y1 y2) (fmul m x1 x2).

Definition r_encode (P : epoint) : bytes :=
  let m := m25519 in
  let '(x, y, z) := P in
  (* extended coordinates *)
  let x0 := fmul m x z in let y0 := fmul m y z in let z0 := fsq m z in let t0 := fmul m x y in
  let u1 := fmul m (fadd m z0 y0) (fsub m z0 y0) in
  let u2 := fmul m x0 y0 in
  let '(_, invsqrt) := sqrt_ratio_m1 (f_one m) (fmul m u1 (fsq m u2)) in
  let den1 := fmul m invsqrt u1 in
  let den2 := fmul m invsqrt u2 in
  let z_inv := fmul m (fmul m den1 den2) t0 in
  let rotate := odd_elt m (fmul m t0 z_inv) in
  let x := if rotate then fmul m y0 sqrt_m1 else x0 in
  let y := if rotate then fmul m x0 sqrt_m1 else y0 in
  let den_inv := if rotate then fmul m den1 invsqrt_a_minus_d else den2 in
  let y := if odd_elt m (fmul m x z_inv) then fneg m y else y in
  encode_int LittleEndian 32 (value m (abs25519 (fmul m den_inv (fsub m z0 y)))).

Definition r_decode (bs : bytes) : option epoint :=
  let m := m25519 in
  let n := le_combine bs in
  if negb (length bs =? 32)%nat || (p25519 <=? n) || Z.odd n then None
  else
    let s := elt m n in
    let ss := fsq m s in
    let u1 := fsub m (f_one m) ss in
    let u2 := fadd m (f_one m) ss in
    let u2_sqr := fsq m u2 in
    let v := fsub m (fneg m (fmul m d25519 (fsq m u1))) u2_sqr in
    let '(was_square, invsqrt) := sqrt_ratio_m1 (f_one m) (fmul m v u2_sqr) in
    let den_x := fmul m invsqrt u2 in
    let den_y := fmul m (fmul m invsqrt den_x) v in
    let x := abs25519 (fmul m (fadd m s s) den_x) in
    let y := fmul m u1 den_y in
    if negb was_square || odd_elt m (fmul m x y) || fis0 m y then None
    else Some (x, y, f_one m).

Definition r_map (t : fe) : epoint :=
  let m := m25519 in let one := f_one m in let d := d25519 in
  let r := fmul m sqrt_m1 (fsq m t) in
  let u := fmul m (fadd m r one) (fsub m one (fsq m d)) in
  let v := fmul m (fsub m minus1 (fmul m r d)) (fadd m r d) in
  let '(was_square, s) := sqrt_ratio_m1 u v in
  let s := if was_square then s else fneg m (abs25519 (fmul m s t)) in
  let c := if was_square then minus1 else r in
  let N := fsub m (fmul m c (fmul m (fsub m r one) (fsq m (fsub m d one)))) v in
  let w0 := fmul m (fadd m s s) v in
  let w1 := fmul m N sqrt_ad_minus_one in
  let w2 := fsub m one (fsq m s) in
  let w3 := fadd m one (fsq m s) in
  (* (X : Y : Z) of the extended point (w0 w3, w2 w1, w1 w3, w0 w2) *)
  (fmul m w0 w3, fmul m w2 w1, fmul m w1 w3).

Definition r_one_way_map (bs : bytes) : option epoint :=
  if negb (length bs =? 64)%nat then None
  else
    let half := λ bs, r_map (elt m25519 (le_combine bs mod 2 ^ 255)) in
    Some (add25519 (half (take 32 bs)) (half (drop 32 bs))).

Definition ristretto_points : PointLib scalars25519 :=
  Build_PointLib scalars25519 epoint (e_identity curve25519) (e_base curve25519) add25519 (e_neg curve25519)
    r_equal r_encode r_decode mult25519 base25519.

#[export] Instance gtank_ristretto255 : RistrettoLib :=
  Build_RistrettoLib scalars25519 uniform25519 ristretto_points r_one_way_map.

(** ** Ed448 *)

Definition p448 : Z := 2 ^ 448 - 2 ^ 224 - 1.
Definition order448 : Z :=
  2 ^ 446 - 13818066809895115352007386748515426880336692474882178609894547503885.
Definition m448 : field := Eval vm_compute in make_field 8 p448.
Definition curve448 : edwards := Eval vm_compute in make_edwards m448 1 (-39081)
  224580040295924300187604334099896036246789641632564134246125461686950415467406032909029192869357953282578032075146446173674602635247710
  298819210078481492676017930443930673437544040154080242095928241372331506189835876003536878655418784733982303233503462500531545062832660.
Definition add448 : epoint → epoint → epoint := e_add curve448.
Definition table448 : list (list epoint) := Eval vm_compute in e_comb curve448 112.

Definition root448 (u v : fe) : option fe :=
  let m := m448 in
  let u3 := fmul m (fsq m u) u in
  let r := fmul m (fmul m u3 v) (fpow m (fmul m (fmul m u3 (fsq m u)) (fmul m (fsq m v) v))
                                   ((p448 - 3) / 4)) in
  if feq (fmul m v (fsq m r)) u then Some r else None.

(** The library's scalars are 56 bytes. *)
Definition n448 : field := Eval vm_compute in make_field 8 order448.
Definition bytes448 (x : fe) : bytes := encode_int LittleEndian 56 (value n448 x).
Definition scalar448 (bs : bytes) : fe := elt n448 (le_combine bs).

#[export] Instance circl_goldilocks : GoldilocksLib := {|
  gs_Add x y := bytes448 (fadd n448 (scalar448 x) (scalar448 y));
  gs_Sub x y := bytes448 (fsub n448 (scalar448 x) (scalar448 y));
  gs_Mul x y := bytes448 (fmul n448 (scalar448 x) (scalar448 y));
  gs_Neg x := bytes448 (fneg n448 (scalar448 x));
  gs_IsZero x := fis0 n448 (scalar448 x);
  gs_FromBytes bs := bytes448 (scalar448 bs);
  GPoint := epoint;
  g_Identity := e_identity curve448;
  g_Generator := e_base curve448;
  g_Add := add448;
  g_Double := e_double curve448;
  g_ScalarMult s X := e_times curve448 (le_combine s) X;
  g_ScalarBaseMult s := e_table_times curve448 table448 (le_combine s);
  g_IsOnCurve '(x, y, z) :=
    let m := m448 in
    let xx := fsq m x in let yy := fsq m y in let zz := fsq m z in
    feq (fmul m zz (fadd m xx yy)) (fadd m (fsq m zz) (fmul m (e_d curve448) (fmul m xx yy)));
  g_MarshalBinary := e_encode curve448 57;
  g_FromBytes := e_decode curve448 root448 57;
|}.

(** ** Weierstrass curves: [y^2 = x^3 + a x + b] *)

Record weierstrass := {
  w_F : field; w_a : fe; w_b : fe; w_b3 : fe; w_gx : Z; w_gy : Z; w_n : Z
}.

Definition make_weierstrass (m : field) (a b gx gy n : Z) : weierstrass :=
  {| w_F := m; w_a := elt m a; w_b := elt m b; w_b3 := elt m (3 * b);
     w_gx := gx; w_gy := gy; w_n := n |}.

Section Weierstrass.
Context (W : weierstrass).
Local Abbreviation m := (w_F W).
Local Abbreviation a := (w_a W).
Local Abbreviation b3 := (w_b3 W).

(** [(X : Y : Z)]; the identity is [(0 : 1 : 0)]. *)
Definition wpoint : Type := fe * fe * fe.
Definition w_identity : wpoint := (f_zero m, f_one m, f_zero m).

(** The complete addition of Renes, Costello and Batina. *)
Definition w_plus (P Q : wpoint) : wpoint :=
  let '(x1, y1, z1) := P in let '(x2, y2, z2) := Q in
  let t0 := fmul m x1 x2 in
  let t1 := fmul m y1 y2 in
  let t2 := fmul m z1 z2 in
  let t3 := fsub m (fsub m (fmul m (fadd m x1 y1) (fadd m x2 y2)) t0) t1 in
  let t4 := fsub m (fsub m (fmul m (fadd m x1 z1) (fadd m x2 z2)) t0) t2 in
  let t5 := fsub m (fsub m (fmul m (fadd m y1 z1) (fadd m y2 z2)) t1) t2 in
  let w := fadd m (fmul m b3 t2) (fmul m a t4) in
  let l := fsub m t1 w in
  let r := fadd m t1 w in
  let at2 := fmul m a t2 in
  let s := fadd m (fadd m (fadd m t0 t0) t0) at2 in
  let u := fadd m (fmul m b3 t4) (fmul m a (fsub m t0 at2)) in
  (fsub m (fmul m t3 l) (fmul m t5 u),
   fadd m (fmul m l r) (fmul m s u),
   fadd m (fmul m t5 r) (fmul m t3 s)).

Definition w_double (P : wpoint) : wpoint :=
  let '(x, y, z) := P in
  if fis0 m z then P
  else
    let xx := fsq m x in
    let w := fadd m (fmul m a (fsq m z)) (fadd m xx (fadd m xx xx)) in
    let yz := fmul m y z in
    let s := fadd m yz yz in
    let ss := fsq m s in
    let r := fmul m y s in
    let rr := fsq m r in
    let b := fsub m (fsub m (fsq m (fadd m x r)) xx) rr in
    let h := fsub m (fsq m w) (fadd m b b) in
    (fmul m h s, fsub m (fmul m w (fsub m b h)) (fadd m rr rr), fmul m s ss).

Definition w_point (x y : Z) : wpoint := (elt m x, elt m y, f_one m).
Definition w_base : wpoint := w_point (w_gx W) (w_gy W).
Definition w_neg (P : wpoint) : wpoint :=
  let '(x, y, z) := P in (x, fneg m y, z).

Definition w_eq (P Q : wpoint) : bool :=
  let '(x1, y1, z1) := P in let '(x2, y2, z2) := Q in
  feq (fmul m x1 z2) (fmul m x2 z1) && feq (fmul m y1 z2) (fmul m y2 z1).

Definition w_normal (P : wpoint) : wpoint :=
  let '(x, y, z) := P in
  if fis0 m z || feq z (f_one m) then P
  else let zi := finv m z in (fmul m x zi, fmul m y zi, f_one m).
Definition w_affine (P : wpoint) : option (Z * Z) :=
  let '(x, y, z) := w_normal P in
  if fis0 m z then None else Some (value m x, value m y).

Definition w_times (n : Z) (P : wpoint) : wpoint :=
  w_normal (times w_plus w_double w_identity n P).
Definition w_comb (n : nat) : list (list wpoint) := comb w_plus w_double w_identity n w_base.
Definition w_table_times (table : list (list wpoint)) (n : Z) : wpoint :=
  w_normal (table_times w_plus w_identity table n).

(** [x^3 + a x + b] *)
Definition w_rhs (x : fe) : fe :=
  fadd m (fmul m x (fadd m (fsq m x) a)) (w_b W).
Definition w_on_curve (x y : Z) : bool :=
  (0 <=? x) && (x <? f_prime m) && (0 <=? y) && (y <? f_prime m) &&
  feq (fsq m (elt m y)) (w_rhs (elt m x)).

(** SEC 1 compressed points; the prime is 3 modulo 4. *)
Definition w_marshal (x y : Z) : bytes :=
  byte.of_Z (2 + y mod 2) :: encode_int BigEndian 32 x.
Definition w_unmarshal (bs : bytes) : option (Z * Z) :=
  match bs with
  | tag :: xs =>
      let t := byte.unsigned tag in let x := be_combine xs in
      if negb (length xs =? 32)%nat || negb ((t =? 2) || (t =? 3)) || (f_prime m <=? x) then None
      else
              let rhs := w_rhs (elt m x) in
        let y := fpow m rhs ((f_prime m + 1) / 4) in
        if negb (feq (fsq m y) rhs) then None
        else Some (x, value m (if Bool.eqb (odd_elt m y) (t =? 3) then y else fneg m y))
  | [] => None
  end.
End Weierstrass.

(** ** P-256: crypto/elliptic and bigmod *)

Definition p_p256 : Z := 2 ^ 256 - 2 ^ 224 + 2 ^ 192 + 2 ^ 96 - 1.
Definition curve_p256 : weierstrass := Eval vm_compute in make_weierstrass (make_field 5 p_p256) (-3)
  0x5ac635d8aa3a93e7b3ebbd55769886bc651d06b0cc53b0f63bce3c3e27d2604b
  0x6b17d1f2e12c4247f8bce6e563a440f277037d812deb33a0f4a13945d898c296
  0x4fe342e2fe1a7f9b8ee7eb4a7c0f9e162bce33576b315ececbb6406837bf51f5
  0xffffffff00000000ffffffffffffffffbce6faada7179e84f3b9cac2fc632551.
Definition table_p256 : list (list wpoint) := Eval vm_compute in w_comb curve_p256 64.

#[export] Instance elliptic_p256 : EllipticLib := {|
  c_Add x1 y1 x2 y2 :=
    w_affine curve_p256 (w_plus curve_p256 (w_point curve_p256 x1 y1) (w_point curve_p256 x2 y2));
  c_ScalarMult x y k :=
    w_affine curve_p256 (w_times curve_p256 (be_combine k) (w_point curve_p256 x y));
  c_ScalarBaseMult k :=
    w_affine curve_p256 (w_table_times curve_p256 table_p256 (be_combine k));
  c_MarshalCompressed := w_marshal;
  c_UnmarshalCompressed := w_unmarshal curve_p256;
  c_IsOnCurve := w_on_curve curve_p256;
  c_P := p_p256;
  c_N := w_n curve_p256;
  c_Gx := w_gx curve_p256;
  c_Gy := w_gy curve_p256;
|}.

Definition n_p256 : field := Eval vm_compute in make_field 5 (w_n curve_p256).

#[export] Instance filippo_bigmod : BigmodLib := {|
  BNat := fe;
  nat_Zero := f_zero n_p256;
  nat_Add := fadd n_p256;
  nat_Sub := fsub n_p256;
  nat_Mul := fmul n_p256;
  nat_InverseVarTime x := if fis0 n_p256 x then None else Some (finv n_p256 x);
  nat_IsZero := fis0 n_p256;
  nat_Equal := feq;
  nat_Bytes x := encode_int BigEndian 32 (value n_p256 x);
  nat_SetBytes := decode_scalar n_p256 BigEndian 32;
  nat_SetOverflowingBytes bs :=
    if (length bs =? 32)%nat then Some (elt n_p256 (be_combine bs)) else None;
|}.

(** ** secp256k1 *)

Definition p_secp256k1 : Z := 2 ^ 256 - 2 ^ 32 - 977.
Definition curve_secp256k1 : weierstrass := Eval vm_compute in
  make_weierstrass (make_field 5 p_secp256k1) 0 7
  0x79be667ef9dcbbac55a06295ce870b07029bfcdb2dce28d959f2815b16f81798
  0x483ada7726a3c4655da4fbfc0e1108a8fd17b448a68554199c47d08ffb10d4b8
  0xfffffffffffffffffffffffffffffffebaaedce6af48a03bbfd25e8cd0364141.
Definition table_secp256k1 : list (list wpoint) := Eval vm_compute in w_comb curve_secp256k1 64.

Definition n_secp256k1 : field := Eval vm_compute in make_field 5 (w_n curve_secp256k1).
Definition scalars_secp256k1 : ScalarLib := scalars n_secp256k1 BigEndian 32.
Definition add_secp256k1 : wpoint → wpoint → wpoint := w_plus curve_secp256k1.
Definition mult_secp256k1 (s : fe) : wpoint → wpoint :=
  w_times curve_secp256k1 (value n_secp256k1 s).
Definition base_secp256k1 (s : fe) : wpoint :=
  w_table_times curve_secp256k1 table_secp256k1 (value n_secp256k1 s).

Definition secp256k1_bytes (X : wpoint) : bytes :=
  match w_affine curve_secp256k1 X with
  | Some (x, y) => w_marshal x y
  | None => [byte.of_Z 0]
  end.
Definition secp256k1_set_bytes (bs : bytes) : option wpoint :=
  '(x, y) ← w_unmarshal curve_secp256k1 bs; Some (w_point curve_secp256k1 x y).

Definition secp256k1_points : PointLib scalars_secp256k1 :=
  Build_PointLib scalars_secp256k1 wpoint (w_identity curve_secp256k1) (w_base curve_secp256k1) add_secp256k1
    (w_neg curve_secp256k1) (w_eq curve_secp256k1) secp256k1_bytes secp256k1_set_bytes
    mult_secp256k1 base_secp256k1.

#[export] Instance yawning_secp256k1 : SecpLib :=
  Build_SecpLib scalars_secp256k1 secp256k1_points (fis0 n_secp256k1)
    (λ bs, elt n_secp256k1 (be_combine bs)).
End curves.
