(* ===== verification/Reputation.v ===== *)
(** * Participant reputation: [pkg/frost/security/reputation.go]

    The tracker counts misbehavior per participant and kind and excludes a
    participant when a configured threshold is reached.  [ReputationTracker] is
    the interface the coordinator uses, with the law it relies on; the in-memory
    tracker implements it.  The theorems relate every state the tracker can
    reach to the sequence of calls that led there: exclusion is exactly what the
    policy says about that sequence, and the history is the list of what was
    reported and not yet cleaned up. *)

From S2P Require Export Prelude.
From S2P Require Export SecurityErrors.

(** [misbehaviorType] is a Go string; these are its named values. *)
Abbreviation MisbehaviorType := string (only parsing).
Definition MisbehaviorAuthenticationFailure : MisbehaviorType := "authentication_failure".
Definition MisbehaviorInvalidShare : MisbehaviorType := "invalid_share".
Definition MisbehaviorTimeout : MisbehaviorType := "timeout".
Definition MisbehaviorNonceReuse : MisbehaviorType := "nonce_reuse".
Definition MisbehaviorInvalidCommitment : MisbehaviorType := "invalid_commitment".

(** ** The interface

    The part of [ReputationTracker] that other components call.  [now] and
    [now'] are the readings of the clock the call may take. *)

Class ReputationTracker : Type := {
  tracker : Type;
  rt_IsExcluded : tracker → Z → Res bool;
  rt_RecordMisbehavior : tracker → Z → MisbehaviorType → string → Z → Z → Res unit * tracker;
}.

(** Recording misbehavior of one participant never lifts an exclusion, does
    not touch the status of the others and does not panic. *)
Class ReputationLaws (T : ReputationTracker) : Prop := {
  law_record_keeps t id ty details now now' id' :
    rt_IsExcluded t id' = Ok true →
    rt_IsExcluded (rt_RecordMisbehavior t id ty details now now').2 id' = Ok true;
  law_record_others t id ty details now now' id' :
    id' ≠ id →
    rt_IsExcluded (rt_RecordMisbehavior t id ty details now now').2 id' = rt_IsExcluded t id';
  law_record_total t id ty details now now' :
    (rt_RecordMisbehavior t id ty details now now').1 ≠ Panic;
}.

(** ** The in-memory tracker *)

Module reputation.

(** Times are nanoseconds; the zero [time.Time] is 0. *)
Definition zero_time : Z := 0.

Record MisbehaviorRecord := {
  mr_ParticipantID : Z;
  mr_Type : MisbehaviorType;
  mr_Timestamp : Z;
  mr_Details : string;
}.

Record ParticipantReputation := {
  pr_ParticipantID : Z;
  AuthenticationFailures : Z;
  InvalidShares : Z;
  Timeouts : Z;
  NonceReuses : Z;
  InvalidCommitments : Z;
  FirstSeen : Z;
  LastSeen : Z;
  Excluded : bool;
  ExcludedAt : Z;
  ExclusionReason : string;
}.

Definition TotalViolations (r : ParticipantReputation) : Z :=
  wrap_int (wrap_int (wrap_int (wrap_int (AuthenticationFailures r + InvalidShares r)
    + Timeouts r) + NonceReuses r) + InvalidCommitments r).

Record ReputationConfig := {
  MaxAuthenticationFailures : Z;
  MaxInvalidShares : Z;
  MaxTimeouts : Z;
  MaxNonceReuses : Z;
  MaxInvalidCommitments : Z;
  RecordRetention : Z;
}.

Definition DefaultReputationConfig : ReputationConfig :=
  {| MaxAuthenticationFailures := 3; MaxInvalidShares := 2; MaxTimeouts := 5;
     MaxNonceReuses := 1; MaxInvalidCommitments := 3;
     RecordRetention := 30 * 24 * 3600 * 10 ^ 9 |}.

Record InMemoryReputationTracker := {
  config : ReputationConfig;
  reputations : gmap Z ParticipantReputation;
  history : gmap Z (list MisbehaviorRecord);
}.

Definition NewInMemoryReputationTracker (config : ReputationConfig)
  : InMemoryReputationTracker :=
  {| config := config; reputations := ∅; history := ∅ |}.

(** A reputation record created by [&ParticipantReputation{...}]. *)
Definition new_reputation (id firstSeen lastSeen : Z) : ParticipantReputation :=
  {| pr_ParticipantID := id; AuthenticationFailures := 0; InvalidShares := 0; Timeouts := 0;
     NonceReuses := 0; InvalidCommitments := 0; FirstSeen := firstSeen; LastSeen := lastSeen;
     Excluded := false; ExcludedAt := zero_time; ExclusionReason := "" |}.

Definition set_LastSeen (now : Z) (r : ParticipantReputation) : ParticipantReputation :=
  {| pr_ParticipantID := pr_ParticipantID r; AuthenticationFailures := AuthenticationFailures r;
     InvalidShares := InvalidShares r; Timeouts := Timeouts r; NonceReuses := NonceReuses r;
     InvalidCommitments := InvalidCommitments r; FirstSeen := FirstSeen r; LastSeen := now;
     Excluded := Excluded r; ExcludedAt := ExcludedAt r; ExclusionReason := ExclusionReason r |}.

Definition set_counts (a s t n c : Z) (r : ParticipantReputation) : ParticipantReputation :=
  {| pr_ParticipantID := pr_ParticipantID r; AuthenticationFailures := a;
     InvalidShares := s; Timeouts := t; NonceReuses := n; InvalidCommitments := c;
     FirstSeen := FirstSeen r; LastSeen := LastSeen r;
     Excluded := Excluded r; ExcludedAt := ExcludedAt r; ExclusionReason := ExclusionReason r |}.

Definition set_exclusion (b : bool) (at_ : Z) (reason : string) (r : ParticipantReputation)
  : ParticipantReputation :=
  {| pr_ParticipantID := pr_ParticipantID r; AuthenticationFailures := AuthenticationFailures r;
     InvalidShares := InvalidShares r; Timeouts := Timeouts r; NonceReuses := NonceReuses r;
     InvalidCommitments := InvalidCommitments r; FirstSeen := FirstSeen r; LastSeen := LastSeen r;
     Excluded := b; ExcludedAt := at_; ExclusionReason := reason |}.

(** [excludeParticipantLocked]: the record is there, the callers created it. *)
Definition excludeParticipantLocked (reason : string) (now : Z) (rep : ParticipantReputation)
  : ParticipantReputation :=
  if Excluded rep then rep else set_exclusion true now reason rep.

(** One case of the switch: [count++] and the threshold test. *)
Definition exclude_if (max count : Z) (reason : string) (now : Z) (rep : ParticipantReputation)
  : ParticipantReputation :=
  if (0 <? max)%Z && (max <=? count)%Z then excludeParticipantLocked reason now rep else rep.

Definition count_violation (cfg : ReputationConfig) (ty : MisbehaviorType) (now : Z)
    (rep : ParticipantReputation) : ParticipantReputation :=
  let a := AuthenticationFailures rep in let s := InvalidShares rep in
  let t := Timeouts rep in let n := NonceReuses rep in let c := InvalidCommitments rep in
  if bool_decide (ty = MisbehaviorAuthenticationFailure) then
    let a := wrap_int (a + 1) in
    exclude_if (MaxAuthenticationFailures cfg) a "exceeded authentication failure threshold" now
      (set_counts a s t n c rep)
  else if bool_decide (ty = MisbehaviorInvalidShare) then
    let s := wrap_int (s + 1) in
    exclude_if (MaxInvalidShares cfg) s "exceeded invalid share threshold" now
      (set_counts a s t n c rep)
  else if bool_decide (ty = MisbehaviorTimeout) then
    let t := wrap_int (t + 1) in
    exclude_if (MaxTimeouts cfg) t "exceeded timeout threshold" now
      (set_counts a s t n c rep)
  else if bool_decide (ty = MisbehaviorNonceReuse) then
    let n := wrap_int (n + 1) in
    exclude_if (MaxNonceReuses cfg) n "exceeded nonce reuse threshold" now
      (set_counts a s t n c rep)
  else if bool_decide (ty = MisbehaviorInvalidCommitment) then
    let c := wrap_int (c + 1) in
    exclude_if (MaxInvalidCommitments cfg) c "exceeded invalid commitment threshold" now
      (set_counts a s t n c rep)
  else rep.

Definition RecordMisbehavior (t : InMemoryReputationTracker) (participantID : Z)
    (misbehaviorType : MisbehaviorType) (details : string) (now now' : Z)
  : Res unit * InMemoryReputationTracker :=
  let rep := default (new_reputation participantID now zero_time)
                     (reputations t !! participantID) in
  let rep := set_LastSeen now rep in
  let rep := count_violation (config t) misbehaviorType now' rep in
  let record := {| mr_ParticipantID := participantID; mr_Type := misbehaviorType;
                   mr_Timestamp := now; mr_Details := details |} in
  (Ok (), {| config := config t;
             reputations := <[participantID := rep]> (reputations t);
             history := <[participantID := default [] (history t !! participantID) ++ [record]]>
                          (history t) |}).

Definition GetReputation (t : InMemoryReputationTracker) (participantID : Z)
  : Res ParticipantReputation :=
  match reputations t !! participantID with
  | None => Fail security.ErrParticipantNotFound
  | Some rep => Ok rep
  end.

Definition IsExcluded (t : InMemoryReputationTracker) (participantID : Z) : Res bool :=
  match reputations t !! participantID with
  | None => Ok false
  | Some rep => Ok (Excluded rep)
  end.

Definition ExcludeParticipant (t : InMemoryReputationTracker) (participantID : Z)
    (reason : string) (now now' : Z) : Res unit * InMemoryReputationTracker :=
  let rep := default (new_reputation participantID now now) (reputations t !! participantID) in
  let rep := excludeParticipantLocked reason now' rep in
  (Ok (), {| config := config t; reputations := <[participantID := rep]> (reputations t);
             history := history t |}).

Definition ReinstateParticipant (t : InMemoryReputationTracker) (participantID : Z)
  : Res unit * InMemoryReputationTracker :=
  match reputations t !! participantID with
  | None => (Fail security.ErrParticipantNotFound, t)
  | Some rep =>
      (Ok (), {| config := config t;
                 reputations := <[participantID := set_exclusion false zero_time "" rep]>
                                  (reputations t);
                 history := history t |})
  end.

Definition GetMisbehaviorHistory (t : InMemoryReputationTracker) (participantID limit : Z)
  : Res (list MisbehaviorRecord) :=
  match history t !! participantID with
  | None => Fail security.ErrParticipantNotFound
  | Some records =>
      if (limit <=? 0)%Z || (Z.of_nat (length records) <=? limit)%Z then Ok records
      else let start := length records - Z.to_nat limit in Ok (drop start records)
  end.

(** The records of one participant that survive a cleanup, and the number of
    those that do not. *)
Definition keep_new (cutoff : Z) (records : list MisbehaviorRecord)
  : list MisbehaviorRecord * Z :=
  foldl (λ '(kept, removed) r,
           if (cutoff <? mr_Timestamp r)%Z then (kept ++ [r], removed)
           else (kept, wrap_int (removed + 1))) ([], 0%Z) records.

(** The range over the map deletes or replaces the entry it is visiting. *)
Definition cleanup_step (cutoff : Z) (acc : gmap Z (list MisbehaviorRecord) * Z)
    (entry : Z * list MisbehaviorRecord) : gmap Z (list MisbehaviorRecord) * Z :=
  let '(h, removed) := acc in
  let '(participantID, records) := entry in
  let '(newRecords, n) := keep_new cutoff records in
  (if bool_decide (length newRecords = 0) then delete participantID h
   else <[participantID := newRecords]> h, wrap_int (removed + n)).

Definition CleanupOldRecords `{MapOrder} (t : InMemoryReputationTracker) (maxAge now : Z)
  : Res Z * InMemoryReputationTracker :=
  if (maxAge <=? 0)%Z then (Ok 0%Z, t)
  else
    let cutoff := (now - maxAge)%Z in
    let '(h, removed) := foldl (cleanup_step cutoff) (history t, 0%Z)
                               (range_entries 0 (history t)) in
    (Ok removed, {| config := config t; reputations := reputations t; history := h |}).
End reputation.

#[export] Instance InMemoryTracker : ReputationTracker := {|
  tracker := reputation.InMemoryReputationTracker;
  rt_IsExcluded := reputation.IsExcluded;
  rt_RecordMisbehavior := reputation.RecordMisbehavior;
|}.

(** ** Executions *)

Section Facts.
Context `{MapOrder}.
Import reputation.
Implicit Types (t : InMemoryReputationTracker) (rep : ParticipantReputation) (cfg : ReputationConfig).

(** A call that changes the tracker, with its clock readings. *)
Inductive event : Type :=
| Record_ (id : Z) (ty : MisbehaviorType) (details : string) (now now' : Z)
| Exclude (id : Z) (reason : string) (now now' : Z)
| Reinstate (id : Z)
| Cleanup (maxAge now : Z).

Definition apply_event t (e : event) : InMemoryReputationTracker :=
  match e with
  | Record_ id ty details now now' => (RecordMisbehavior t id ty details now now').2
  | Exclude id reason now now' => (ExcludeParticipant t id reason now now').2
  | Reinstate id => (ReinstateParticipant t id).2
  | Cleanup maxAge now => (CleanupOldRecords t maxAge now).2
  end.

Definition run cfg (evs : list event) : InMemoryReputationTracker :=
  foldl apply_event (NewInMemoryReputationTracker cfg) evs.

(** ** The policy, stated on the sequence of calls *)

Definition limit_of cfg (ty : MisbehaviorType) : Z :=
  if bool_decide (ty = MisbehaviorAuthenticationFailure) then MaxAuthenticationFailures cfg
  else if bool_decide (ty = MisbehaviorInvalidShare) then MaxInvalidShares cfg
  else if bool_decide (ty = MisbehaviorTimeout) then MaxTimeouts cfg
  else if bool_decide (ty = MisbehaviorNonceReuse) then MaxNonceReuses cfg
  else if bool_decide (ty = MisbehaviorInvalidCommitment) then MaxInvalidCommitments cfg
  else 0%Z.

Definition is_record (id : Z) (ty : MisbehaviorType) (e : event) : bool :=
  match e with
  | Record_ id' ty' _ _ _ => bool_decide (id' = id) && bool_decide (ty' = ty)
  | _ => false
  end.

(** How often misbehavior of a kind was reported. *)
Definition reports (id : Z) (ty : MisbehaviorType) (evs : list event) : nat :=
  length (filter (λ e, is_record id ty e = true) evs).

(** Does the call [e] after the calls [pre] exclude [id]? *)
Definition triggers cfg (id : Z) (pre : list event) (e : event) : bool :=
  match e with
  | Record_ id' ty _ _ _ =>
      bool_decide (id' = id) && (0 <? limit_of cfg ty)%Z &&
      (limit_of cfg ty <=? Z.of_nat (reports id ty pre) + 1)%Z
  | Exclude id' _ _ _ => bool_decide (id' = id)
  | _ => false
  end.

(** A participant is excluded when some call excluded it and none reinstated it
    since. *)
Definition policy_excludes cfg (id : Z) (evs : list event) : Prop :=
  ∃ pre e post, evs = pre ++ e :: post ∧ triggers cfg id pre e = true ∧ Reinstate id ∉ post.

Definition count_of (ty : MisbehaviorType) rep : Z :=
  if bool_decide (ty = MisbehaviorAuthenticationFailure) then AuthenticationFailures rep
  else if bool_decide (ty = MisbehaviorInvalidShare) then InvalidShares rep
  else if bool_decide (ty = MisbehaviorTimeout) then Timeouts rep
  else if bool_decide (ty = MisbehaviorNonceReuse) then NonceReuses rep
  else if bool_decide (ty = MisbehaviorInvalidCommitment) then InvalidCommitments rep
  else 0%Z.

Definition named_types : list MisbehaviorType :=
  [MisbehaviorAuthenticationFailure; MisbehaviorInvalidShare; MisbehaviorTimeout;
   MisbehaviorNonceReuse; MisbehaviorInvalidCommitment].

Lemma exclude_if_count ty max count reason now rep :
  count_of ty (exclude_if max count reason now rep) = count_of ty rep.
Proof. unfold exclude_if, excludeParticipantLocked. by repeat case_match. Qed.

Lemma exclude_if_Excluded max count reason now rep :
  Excluded (exclude_if max count reason now rep) =
    Excluded rep || ((0 <? max)%Z && (max <=? count)%Z).
Proof.
  unfold exclude_if, excludeParticipantLocked.
  destruct ((0 <? max)%Z && (max <=? count)%Z); [| by rewrite orb_false_r].
  destruct (Excluded rep) eqn:E; cbn; [by rewrite E | done].
Qed.

(** Case analysis on the kind of a report. *)
Ltac by_kind := repeat case_bool_decide; subst; try done.

Lemma count_violation_Excluded cfg ty now rep :
  Excluded (count_violation cfg ty now rep) =
    Excluded rep || ((0 <? limit_of cfg ty)%Z &&
                     (limit_of cfg ty <=? wrap_int (count_of ty rep + 1))%Z).
Proof.
  unfold count_violation, limit_of, count_of. by_kind; rewrite ?exclude_if_Excluded; try done.
  by rewrite orb_false_r.
Qed.

(** The counter of each named kind is its own. *)
Lemma count_violation_count cfg ty now rep ty' :
  ty' ∈ named_types →
  count_of ty' (count_violation cfg ty now rep) =
    if bool_decide (ty = ty') then wrap_int (count_of ty' rep + 1) else count_of ty' rep.
Proof.
  intros Hn. unfold count_violation. repeat case_bool_decide; subst; rewrite ?exclude_if_count;
    try done; unfold named_types in Hn;
    repeat (apply elem_of_cons in Hn as [->|Hn]; [try done; try congruence |]);
    by apply not_elem_of_nil in Hn.
Qed.

Lemma limit_of_named cfg ty : limit_of cfg ty ≠ 0%Z → ty ∈ named_types.
Proof. unfold limit_of, named_types. intros Hl. by_kind; set_solver. Qed.

(** ** The tracker implements the policy *)

Definition record_of t (id : Z) : ParticipantReputation :=
  default (new_reputation id 0 0) (reputations t !! id).
Definition excluded t (id : Z) : bool := default false (Excluded <$> reputations t !! id).

Lemma IsExcluded_Ok t id : IsExcluded t id = Ok (excluded t id).
Proof. unfold IsExcluded, excluded. by destruct (reputations t !! id). Qed.

(** One call, as the policy sees it. *)
Lemma apply_event_excluded t e id :
  excluded (apply_event t e) id =
    match e with
    | Record_ id' ty _ _ _ =>
        excluded t id || (bool_decide (id' = id) && (0 <? limit_of (config t) ty)%Z &&
          (limit_of (config t) ty <=? wrap_int (count_of ty (record_of t id) + 1))%Z)
    | Exclude id' _ _ _ => excluded t id || bool_decide (id' = id)
    | Reinstate id' => excluded t id && negb (bool_decide (id' = id))
    | Cleanup _ _ => excluded t id
    end.
Proof.
  destruct e as [id' ty details now now'|id' reason now now'|id'|maxAge now]; cbn [apply_event].
  - unfold excluded, RecordMisbehavior, record_of. cbn [snd reputations].
    case_bool_decide; subst; [| by rewrite lookup_insert_ne, !andb_false_l, orb_false_r].
    rewrite lookup_insert_eq. cbn. rewrite count_violation_Excluded.
    by destruct (reputations t !! id).
  - unfold excluded, ExcludeParticipant. cbn [snd reputations].
    case_bool_decide; subst; [| by rewrite lookup_insert_ne, orb_false_r].
    rewrite lookup_insert_eq, orb_true_r. cbn. unfold excludeParticipantLocked.
    by destruct (Excluded (default _ _)) eqn:E.
  - unfold excluded, ReinstateParticipant. destruct (reputations t !! id') eqn:E; cbn [snd reputations].
    + case_bool_decide; subst.
      * rewrite lookup_insert_eq, andb_false_r. done.
      * by rewrite lookup_insert_ne, andb_true_r.
    + case_bool_decide; subst; [by rewrite E | by rewrite andb_true_r].
  - unfold excluded, CleanupOldRecords. case_match; [done |]. by destruct (foldl _ _ _).
Qed.

Lemma apply_event_count t e id ty :
  ty ∈ named_types →
  count_of ty (record_of (apply_event t e) id) =
    if is_record id ty e then wrap_int (count_of ty (record_of t id) + 1)
    else count_of ty (record_of t id).
Proof.
  intros Hty. destruct e as [id' ty' details now now'|id' reason now now'|id'|maxAge now];
    cbn [apply_event is_record].
  - unfold record_of, RecordMisbehavior. cbn [snd reputations].
    destruct (decide (id' = id)) as [->|Hne];
      [| by rewrite lookup_insert_ne, (bool_decide_eq_false_2 (id' = id))].
    rewrite lookup_insert_eq. cbn -[count_of count_violation]. rewrite count_violation_count by done.
    rewrite (bool_decide_eq_true_2 (id = id)) by done. cbn [andb].
    by destruct (reputations t !! id).
  - unfold record_of, ExcludeParticipant. cbn [snd reputations].
    destruct (decide (id' = id)) as [->|Hne]; [| by rewrite lookup_insert_ne].
    rewrite lookup_insert_eq. cbn. unfold excludeParticipantLocked.
    destruct (reputations t !! id); by case_match.
  - unfold record_of, ReinstateParticipant. destruct (reputations t !! id') eqn:E; [| done].
    cbn [snd reputations]. destruct (decide (id' = id)) as [->|Hne]; [| by rewrite lookup_insert_ne].
    by rewrite lookup_insert_eq, E.
  - unfold record_of, CleanupOldRecords. case_match; [done |]. by destruct (foldl _ _ _).
Qed.

Lemma apply_event_config t e : config (apply_event t e) = config t.
Proof.
  destruct e; cbn; try done.
  - unfold ReinstateParticipant. by case_match.
  - unfold CleanupOldRecords. case_match; [done |]. by destruct (foldl _ _ _).
Qed.

Lemma run_config cfg evs : config (run cfg evs) = cfg.
Proof.
  induction evs as [|e evs IH] using rev_ind; [done |].
  unfold run in *. by rewrite foldl_app; cbn; rewrite apply_event_config.
Qed.

Lemma run_snoc cfg evs e : run cfg (evs ++ [e]) = apply_event (run cfg evs) e.
Proof. unfold run. by rewrite foldl_app. Qed.

Lemma reports_snoc id ty evs e :
  reports id ty (evs ++ [e]) = reports id ty evs + (if is_record id ty e then 1 else 0).
Proof.
  unfold reports. rewrite filter_app, length_app. f_equal. cbn.
  destruct (is_record id ty e) eqn:E; case_decide; done || congruence.
Qed.

Lemma reports_le id ty evs : reports id ty evs ≤ length evs.
Proof. apply length_filter. Qed.

Lemma run_count cfg evs id ty :
  (Z.of_nat (length evs) < 2 ^ 63)%Z → ty ∈ named_types →
  count_of ty (record_of (run cfg evs) id) = Z.of_nat (reports id ty evs).
Proof.
  intros Hlen Hty. induction evs as [|e evs IH] using rev_ind; [unfold count_of; by by_kind |].
  rewrite length_app in Hlen. cbn in Hlen. pose proof (reports_le id ty evs) as Hle.
  rewrite run_snoc, apply_event_count, reports_snoc, IH by (done || lia).
  destruct (is_record id ty e); [rewrite wrap_int_small; lia | lia].
Qed.

Lemma policy_excludes_snoc cfg id evs e :
  policy_excludes cfg id (evs ++ [e]) ↔
  triggers cfg id evs e = true ∨ (policy_excludes cfg id evs ∧ e ≠ Reinstate id).
Proof.
  split.
  - intros (pre & e' & post & Heq & Ht & Hp). destruct post as [|x post _] using rev_ind.
    + apply app_inj_tail in Heq as [-> ->]. by left.
    + right. rewrite app_comm_cons, app_assoc in Heq. apply app_inj_tail in Heq as [-> ->].
      split; [| set_solver]. exists pre, e', post. set_solver.
  - intros [Ht|[(pre & e' & post & -> & Ht & Hp) Hne]].
    + exists evs, e, []. set_solver.
    + exists pre, e', (post ++ [e]). rewrite <-app_assoc. set_solver.
Qed.

(** C22: the tracker implements the exclusion policy: after any sequence of
    calls, a participant is reported as excluded exactly when some call excluded
    it, by hand or as the report that reached its kind's enabled threshold
    counting all reports ever made, and it was not reinstated since. *)
Theorem exclusion_policy cfg evs id :
  (Z.of_nat (length evs) < 2 ^ 63)%Z →
  ∃ b, IsExcluded (run cfg evs) id = Ok b ∧ (b = true ↔ policy_excludes cfg id evs).
Proof.
  intros Hlen. eexists. split; [apply IsExcluded_Ok |].
  induction evs as [|e evs IH] using rev_ind.
  - split; [done |]. intros (pre & e & post & Heq & _). by destruct pre.
  - rewrite length_app in Hlen. cbn in Hlen.
    rewrite run_snoc, apply_event_excluded, policy_excludes_snoc, run_config, <-IH by lia.
    destruct e as [id' ty details now now'|id' reason now now'|id'|maxAge now]; cbn [triggers].
    + rewrite orb_true_iff.
      enough (Hc : (limit_of cfg ty ≠ 0)%Z →
        wrap_int (count_of ty (record_of (run cfg evs) id) + 1) = (Z.of_nat (reports id ty evs) + 1)%Z).
      { destruct (decide (limit_of cfg ty = 0%Z)) as [->|Hl]; [| rewrite Hc by done; naive_solver].
        rewrite !andb_false_r, !andb_false_l. naive_solver. }
      intros Hl%limit_of_named. rewrite run_count by (done || lia).
      pose proof (reports_le id ty evs). apply wrap_int_small. lia.
    + rewrite orb_true_iff. naive_solver.
    + rewrite andb_true_iff, negb_true_iff, bool_decide_eq_false. naive_solver.
    + naive_solver.
Qed.

(** *** The interface law *)

#[export] Instance InMemoryTracker_laws : ReputationLaws InMemoryTracker.
Proof.
  split; cbn [rt_IsExcluded rt_RecordMisbehavior tracker InMemoryTracker].
  - intros t id ty details now now' id'. rewrite !IsExcluded_Ok. intros [= Ht].
    change (RecordMisbehavior t id ty details now now').2
      with (apply_event t (Record_ id ty details now now')).
    by rewrite apply_event_excluded, Ht.
  - intros t id ty details now now' id' Hne. rewrite !IsExcluded_Ok. f_equal.
    change (RecordMisbehavior t id ty details now now').2
      with (apply_event t (Record_ id ty details now now')).
    rewrite apply_event_excluded, bool_decide_eq_false_2 by done. apply orb_false_r.
  - done.
Qed.

(** *** The history *)

(** What a sequence of calls leaves of the reports about [id]. *)
Definition spec_history (id : Z) (evs : list event) : list MisbehaviorRecord :=
  foldl (λ h e, match e with
                | Record_ id' ty details now _ =>
                    if bool_decide (id' = id)
                    then h ++ [{| mr_ParticipantID := id'; mr_Type := ty;
                                  mr_Timestamp := now; mr_Details := details |}]
                    else h
                | Cleanup maxAge now =>
                    if (maxAge <=? 0)%Z then h
                    else filter (λ r, now - maxAge < mr_Timestamp r)%Z h
                | _ => h
                end) [] evs.

Lemma keep_new_kept cutoff records :
  (keep_new cutoff records).1 = filter (λ r, cutoff < mr_Timestamp r)%Z records.
Proof.
  unfold keep_new.
  enough (Hk : ∀ acc n, (foldl (λ '(kept, removed) r,
    if (cutoff <? mr_Timestamp r)%Z then (kept ++ [r], removed)
    else (kept, wrap_int (removed + 1))) (acc, n) records).1
    = acc ++ filter (λ r, cutoff < mr_Timestamp r)%Z records) by apply (Hk [] 0%Z).
  induction records as [|r records IH]; intros acc n; [by rewrite app_nil_r |].
  cbn [foldl]. rewrite filter_cons.
  destruct (Z.ltb_spec cutoff (mr_Timestamp r)); rewrite IH; case_decide; try lia.
  - by rewrite <-app_assoc.
  - done.
Qed.

Lemma filter_nil_length {A} (l : list A) : bool_decide (length l = 0) = bool_decide (l = []).
Proof. apply bool_decide_ext. by destruct l. Qed.

(** The entry of [id] after the cleanup loop has visited the entries [es]. *)
Lemma cleanup_loop cutoff es h removed id :
  NoDup es.*1 → (∀ i r, (i, r) ∈ es → h !! i = Some r) →
  (foldl (cleanup_step cutoff) (h, removed) es).1 !! id =
    match h !! id with
    | Some records =>
        if bool_decide (id ∈ es.*1)
        then let kept := filter (λ r, cutoff < mr_Timestamp r)%Z records in
             if bool_decide (kept = []) then None else Some kept
        else Some records
    | None => None
    end.
Proof.
  revert h removed. induction es as [|[i r] es IH]; intros h removed Hnd Hin.
  - cbn. by destruct (h !! id).
  - rewrite fmap_cons in Hnd. apply NoDup_cons in Hnd as [Hi Hnd]. cbn [fst] in Hi.
    cbn [foldl cleanup_step]. destruct (keep_new cutoff r) as [kept n] eqn:Hk.
    pose proof (keep_new_kept cutoff r) as Hkept. rewrite Hk in Hkept. cbn in Hkept. subst kept.
    pose proof (Hin i r (list_elem_of_here _ _)) as Hhi.
    rewrite IH; [| done |].
    + rewrite filter_nil_length, fmap_cons. cbn [fst].
      destruct (decide (id = i)) as [->|Hne].
      * rewrite Hhi.
        rewrite (bool_decide_eq_false_2 (i ∈ es.*1)) by done.
        rewrite (bool_decide_eq_true_2 (i ∈ i :: _)) by left. cbn zeta.
        destruct (decide (filter (λ r0, cutoff < mr_Timestamp r0)%Z r = [])) as [He|He];
          [rewrite !(bool_decide_eq_true_2 _ He) | rewrite !(bool_decide_eq_false_2 _ He)];
          [by rewrite lookup_delete_eq | by rewrite lookup_insert_eq].
      * assert (Heq : bool_decide (id ∈ i :: es.*1) = bool_decide (id ∈ es.*1)).
        { apply bool_decide_ext. rewrite elem_of_cons. naive_solver. }
        rewrite Heq.
        destruct (decide (filter (λ r0, cutoff < mr_Timestamp r0)%Z r = [])) as [He|He];
          [rewrite (bool_decide_eq_true_2 _ He) | rewrite (bool_decide_eq_false_2 _ He)];
          [by rewrite lookup_delete_ne | by rewrite lookup_insert_ne].
    + intros j r' Hj. assert (j ≠ i).
      { intros ->. apply Hi. apply list_elem_of_fmap. by exists (i, r'). }
      rewrite filter_nil_length. specialize (Hin j r' (list_elem_of_further _ _ _ Hj)).
      clear IH. case_bool_decide; [by rewrite lookup_delete_ne | by rewrite lookup_insert_ne].
Qed.

Lemma cleanup_history t maxAge now id :
  (0 < maxAge)%Z →
  history (CleanupOldRecords t maxAge now).2 !! id =
    match history t !! id with
    | Some records => let kept := filter (λ r, now - maxAge < mr_Timestamp r)%Z records in
                      if bool_decide (kept = []) then None else Some kept
    | None => None
    end.
Proof.
  intros Hage. unfold CleanupOldRecords. rewrite (proj2 (Z.leb_gt _ _)) by lia.
  pose proof (cleanup_loop (now - maxAge) (range_entries 0 (history t)) (history t) 0 id
    (range_entries_NoDup 0 (history t)) (λ i r, proj1 (elem_of_range_entries 0 (history t) i r))) as Hl.
  destruct (foldl _ _ _) as [h removed]. cbn [fst snd history] in *. rewrite Hl.
  destruct (history t !! id) eqn:E; [| done]. rewrite bool_decide_eq_true_2; [done |].
  apply list_elem_of_fmap. eexists (id, _). split; [done |]. by apply elem_of_range_entries.
Qed.

(** The stored history is the specified one; an empty one is not stored. *)
Lemma run_history cfg evs id :
  history (run cfg evs) !! id =
    if bool_decide (spec_history id evs = []) then None else Some (spec_history id evs).
Proof.
  induction evs as [|e evs IH] using rev_ind; [done |].
  assert (Hs : ∀ f, spec_history id (evs ++ [f]) = foldl (λ h e, match e with
    | Record_ id' ty details now _ => if bool_decide (id' = id)
        then h ++ [{| mr_ParticipantID := id'; mr_Type := ty; mr_Timestamp := now; mr_Details := details |}]
        else h
    | Cleanup maxAge now => if (maxAge <=? 0)%Z then h else filter (λ r, now - maxAge < mr_Timestamp r)%Z h
    | _ => h end) (spec_history id evs) [f]) by (intros f; unfold spec_history; by rewrite foldl_app).
  rewrite run_snoc, Hs. cbn [foldl]. clear Hs.
  destruct e as [id' ty details now now'|id' reason now now'|id'|maxAge now]; cbn [apply_event].
  - unfold RecordMisbehavior. cbn [snd history].
    destruct (decide (id' = id)) as [->|Hne].
    + rewrite lookup_insert_eq, IH, (bool_decide_eq_true_2 (id = id)) by done.
      rewrite (bool_decide_eq_false_2 (_ ++ _ = [])) by (by intros [_ ?]%app_eq_nil).
      by case_bool_decide as He; [rewrite He |].
    + by rewrite lookup_insert_ne, (bool_decide_eq_false_2 (id' = id)).
  - done.
  - unfold ReinstateParticipant. by destruct (reputations (run cfg evs) !! id').
  - destruct (Z.leb_spec maxAge 0).
    + unfold CleanupOldRecords. by rewrite (proj2 (Z.leb_le _ _)).
    + rewrite cleanup_history, IH by lia. clear IH.
      case_bool_decide as He; [by rewrite He | done].
Qed.

(** The history query returns the last [limit] reports about a participant
    in order, all of them for a limit of zero or less, out of those that no
    cleanup has found too old; when nothing is left the participant is unknown. *)
Theorem history_policy cfg evs id limit :
  GetMisbehaviorHistory (run cfg evs) id limit =
    let h := spec_history id evs in
    if bool_decide (h = []) then Fail security.ErrParticipantNotFound
    else Ok (if (limit <=? 0)%Z then h else drop (length h - Z.to_nat limit) h).
Proof.
  unfold GetMisbehaviorHistory. rewrite run_history. case_bool_decide; [done |].
  destruct (Z.leb_spec limit 0); [done |]. cbn [orb].
  destruct (Z.leb_spec (Z.of_nat (length (spec_history id evs))) limit); [| done].
  by replace (length (spec_history id evs) - Z.to_nat limit) with 0 by lia.
Qed.
End Facts.
