(* ===== verification/CommitmentTracker.v ===== *)
(** * Nonce-reuse tracking: [pkg/frost/security/commitment_tracker.go] and
      [frost_nonce_tracker.go]

    [CommitmentTracker] is the interface, with the laws its clients use;
    [memory] is the in-memory implementation, with its session index; [nonce]
    is the FROST tracker on top of the interface.  The theorems: the in-memory
    tracker refines a plain set of live commitments under every sequence of
    calls, and a nonce commitment once recorded is refused until its session is
    cleared or it expires. *)

From stdpp Require Import pretty.
From S2P Require Export SecurityErrors.
From S2P Require Export Hashing.

(** ** Commitment identifiers *)

Definition hex_digit (n : Z) : Ascii.ascii :=
  Ascii.ascii_of_nat (if (n <? 10)%Z then Z.to_nat (48 + n) else Z.to_nat (87 + n)).

(** [hex.EncodeToString] *)
Fixpoint hex_EncodeToString (b : bytes) : string :=
  match b with
  | [] => EmptyString
  | x :: b => String (hex_digit (Z.shiftr (byte.unsigned x) 4))
                (String (hex_digit (Z.land (byte.unsigned x) 15)) (hex_EncodeToString b))
  end.

Record CommitmentIdentifier := {
  SessionID : string;
  ParticipantID : string;
  CommitmentData : bytes;
  Timestamp : Z;
  Metadata : gmap string string;
}.

Definition commitment_Hash `{SHA256} (c : CommitmentIdentifier) : string :=
  hex_EncodeToString (sha256 (string_bytes (SessionID c) ++ string_bytes (ParticipantID c)
                                ++ CommitmentData c)).

(** [now.Sub(t)]: durations are 64-bit nanoseconds and saturate. *)
Definition time_Sub (now t : Z) : Z := Z.max (- 2 ^ 63) (Z.min (2 ^ 63 - 1) (now - t)).

(** ** The interface *)

Class CommitmentTracker : Type := {
  ct_state : Type;
  ct_RecordCommitment : CommitmentIdentifier → ct_state → Res unit * ct_state;
  ct_CheckCommitment : CommitmentIdentifier → ct_state → Res unit;
  ct_ClearSession : string → ct_state → Res unit * ct_state;
  (** the duration and the clock *)
  ct_ClearExpired : Z → Z → ct_state → Res Z * ct_state;
  ct_Count : ct_state → Res Z;
  ct_CountSession : string → ct_state → Res Z;
}.

(** A tracker holds a set of commitments; recording adds what it does not hold
    and refuses the rest, recognizably and without effect; checking tells which
    of the two recording would do. *)
Class CommitmentTrackerLaws (T : CommitmentTracker) : Type := {
  ct_holds : ct_state → CommitmentIdentifier → Prop;
  (** commitments the tracker does not tell apart *)
  ct_same : relation CommitmentIdentifier;
  ct_same_ident c c' :
    SessionID c = SessionID c' → ParticipantID c = ParticipantID c' →
    CommitmentData c = CommitmentData c' → ct_same c c';
  ct_holds_proper t :: Proper (ct_same ==> iff) (ct_holds t);
  ct_holds_dec t c :: Decision (ct_holds t c);
  ct_record_new c t : ¬ ct_holds t c →
    (ct_RecordCommitment c t).1 = Ok () ∧
    ∀ c', ct_holds (ct_RecordCommitment c t).2 c' ↔ ct_holds t c' ∨ ct_same c c';
  ct_record_held c t : ct_holds t c →
    ∃ e, ct_RecordCommitment c t = (Fail e, t) ∧
         errors_Is_value e security.ErrCommitmentReused = true;
  ct_check_new c t : ¬ ct_holds t c → ct_CheckCommitment c t = Ok ();
  ct_check_held c t : ct_holds t c →
    ∃ e, ct_CheckCommitment c t = Fail e ∧
         errors_Is_value e security.ErrCommitmentReused = true;
}.

(** ** The in-memory tracker *)

Module memory.
Section Defs.
Context `{SHA256} `{security.Regexp} `{MapOrder}.

Record InMemoryCommitmentTracker := {
  commitments : gmap string CommitmentIdentifier;
  sessionIndex : gmap string (gset string);
}.

Definition NewInMemoryCommitmentTracker : InMemoryCommitmentTracker :=
  {| commitments := ∅; sessionIndex := ∅ |}.

(** [globalSanitizer.SanitizeCommitmentError(...)] with the current value of the
    package variable. *)
Definition reuse_error (globalSanitizer : security.ErrorSanitizer) (c : CommitmentIdentifier)
  : Res unit :=
  match security.SanitizeCommitmentError globalSanitizer (SessionID c) (ParticipantID c)
          (Some security.ErrCommitmentReused) with
  | Some e => Fail e
  | None => Ok ()
  end.

Definition RecordCommitment (globalSanitizer : security.ErrorSanitizer)
    (c : CommitmentIdentifier) (t : InMemoryCommitmentTracker)
  : Res unit * InMemoryCommitmentTracker :=
  let hash := commitment_Hash c in
  match commitments t !! hash with
  | Some _ => (reuse_error globalSanitizer c, t)
  | None =>
      let index := default ∅ (sessionIndex t !! SessionID c) in
      (Ok (), {| commitments := <[hash := c]> (commitments t);
                 sessionIndex := <[SessionID c := {[hash]} ∪ index]> (sessionIndex t) |})
  end.

Definition CheckCommitment (globalSanitizer : security.ErrorSanitizer)
    (c : CommitmentIdentifier) (t : InMemoryCommitmentTracker) : Res unit :=
  let hash := commitment_Hash c in
  match commitments t !! hash with
  | Some _ => reuse_error globalSanitizer c
  | None => Ok ()
  end.

Definition ClearSession (sessionID : string) (t : InMemoryCommitmentTracker)
  : Res unit * InMemoryCommitmentTracker :=
  match sessionIndex t !! sessionID with
  | None => (Ok (), t)
  | Some hashes =>
      (Ok (), {| commitments := foldr delete (commitments t) (elements hashes);
                 sessionIndex := delete sessionID (sessionIndex t) |})
  end.

(** The body of the first range: the commitments, the expired sessions and the
    count so far. *)
Definition expire_step (ttl now : Z)
    (acc : gmap string CommitmentIdentifier * gmap string bool * Z)
    (entry : string * CommitmentIdentifier) :=
  let '(cs, expiredSessions, expiredCount) := acc in
  let '(hash, c) := entry in
  if (ttl <? time_Sub now (Timestamp c))%Z
  then (delete hash cs, <[SessionID c := true]> expiredSessions, wrap_int (expiredCount + 1))
  else acc.

(** The body of the second range. *)
Definition reindex_step (cs : gmap string CommitmentIdentifier)
    (index : gmap string (gset string)) (sessionID : string) : gmap string (gset string) :=
  let sessionHashes := filter (λ hash, is_Some (cs !! hash))
                         (default ∅ (index !! sessionID)) in
  if bool_decide (sessionHashes = ∅) then delete sessionID index
  else <[sessionID := sessionHashes]> index.

Definition ClearExpired (ttl now : Z) (t : InMemoryCommitmentTracker)
  : Res Z * InMemoryCommitmentTracker :=
  let '(cs, expiredSessions, expiredCount) :=
    foldl (expire_step ttl now) (commitments t, ∅, 0%Z) (range_entries 0 (commitments t)) in
  let index := foldl (reindex_step cs) (sessionIndex t) (range_entries 1 expiredSessions).*1 in
  (Ok expiredCount, {| commitments := cs; sessionIndex := index |}).

Definition Count (t : InMemoryCommitmentTracker) : Res Z :=
  Ok (Z.of_nat (size (commitments t))).

Definition CountSession (sessionID : string) (t : InMemoryCommitmentTracker) : Res Z :=
  match sessionIndex t !! sessionID with
  | None => Ok 0%Z
  | Some hashes => Ok (Z.of_nat (size hashes))
  end.
End Defs.
End memory.

Definition InMemoryCommitments `{SHA256, security.Regexp, MapOrder}
  (globalSanitizer : security.ErrorSanitizer) : CommitmentTracker := {|
  ct_state := memory.InMemoryCommitmentTracker;
  ct_RecordCommitment := memory.RecordCommitment globalSanitizer;
  ct_CheckCommitment := memory.CheckCommitment globalSanitizer;
  ct_ClearSession := memory.ClearSession;
  ct_ClearExpired := memory.ClearExpired;
  ct_Count := memory.Count;
  ct_CountSession := memory.CountSession;
|}.

(** ** The abstract tracker: a map of live commitments, no index *)

Section Spec.
Context `{SHA256} `{security.Regexp} (san : security.ErrorSanitizer).

Abbreviation live := (gmap string CommitmentIdentifier).

Inductive tracker_request : Type :=
| CallRecord (c : CommitmentIdentifier)
| CallCheck (c : CommitmentIdentifier)
| CallClear (sessionID : string)
| CallExpire (ttl now : Z)
| CallCount
| CallCountSession (sessionID : string).

Inductive tracker_reply : Type := Done (r : Res unit) | Number (r : Res Z).

Definition of_session (s : string) (l : live) : live :=
  filter (λ p, SessionID p.2 = s) l.
Definition not_of_session (s : string) (l : live) : live :=
  filter (λ p, SessionID p.2 ≠ s) l.
Definition expired (ttl now : Z) (c : CommitmentIdentifier) : Prop :=
  (ttl < time_Sub now (Timestamp c))%Z.
#[local] Instance expired_dec ttl now c : Decision (expired ttl now c).
Proof. unfold expired. apply _. Defined.

Definition spec_call (k : tracker_request) (l : live) : tracker_reply * live :=
  match k with
  | CallRecord c => if l !! commitment_Hash c is Some _ then (Done (memory.reuse_error san c), l)
                 else (Done (Ok ()), <[commitment_Hash c := c]> l)
  | CallCheck c => (Done (if l !! commitment_Hash c is Some _ then memory.reuse_error san c else Ok ()), l)
  | CallClear s => (Done (Ok ()), not_of_session s l)
  | CallExpire ttl now =>
      (Number (Ok (wrap_int (Z.of_nat (size (filter (λ p, expired ttl now p.2) l))))),
       filter (λ p, ¬ expired ttl now p.2) l)
  | CallCount => (Number (Ok (Z.of_nat (size l))), l)
  | CallCountSession s => (Number (Ok (Z.of_nat (size (of_session s l)))), l)
  end.

Definition spec_run (l : live) (ks : list tracker_request) : list tracker_reply * live :=
  foldl (λ '(rs, l) k, let '(r, l) := spec_call k l in (rs ++ [r], l)) ([], l) ks.

Lemma spec_run_snoc l ks k :
  spec_run l (ks ++ [k]) =
    let '(rs, l) := spec_run l ks in let '(r, l) := spec_call k l in (rs ++ [r], l).
Proof. unfold spec_run. rewrite foldl_app. cbn. by destruct (foldl _ _ ks). Qed.
End Spec.

Section Calls.
Context `{CommitmentTracker}.

Definition tracker_call (k : tracker_request) (t : ct_state) : tracker_reply * ct_state :=
  match k with
  | CallRecord c => let '(r, t) := ct_RecordCommitment c t in (Done r, t)
  | CallCheck c => (Done (ct_CheckCommitment c t), t)
  | CallClear s => let '(r, t) := ct_ClearSession s t in (Done r, t)
  | CallExpire ttl now => let '(r, t) := ct_ClearExpired ttl now t in (Number r, t)
  | CallCount => (Number (ct_Count t), t)
  | CallCountSession s => (Number (ct_CountSession s t), t)
  end.

Definition tracker_run (t : ct_state) (ks : list tracker_request) : list tracker_reply * ct_state :=
  foldl (λ '(rs, t) k, let '(r, t) := tracker_call k t in (rs ++ [r], t)) ([], t) ks.

Lemma tracker_run_snoc t ks k :
  tracker_run t (ks ++ [k]) =
    let '(rs, t) := tracker_run t ks in let '(r, t) := tracker_call k t in (rs ++ [r], t).
Proof. unfold tracker_run. rewrite foldl_app. cbn. by destruct (foldl _ _ ks). Qed.
End Calls.
#[export] Existing Instance expired_dec.

(** ** The index invariant *)

Section Index.
Context `{SHA256} `{security.Regexp} `{MapOrder}.
Import memory.
Implicit Types (t : InMemoryCommitmentTracker) (c : CommitmentIdentifier).

(** The hashes of a session's live commitments. *)
Definition hashes (s : string) (l : gmap string CommitmentIdentifier) : gset string :=
  dom (of_session s l).

Lemma elem_of_hashes s l h : h ∈ hashes s l ↔ ∃ c, l !! h = Some c ∧ SessionID c = s.
Proof.
  unfold hashes, of_session. rewrite elem_of_dom. split.
  - intros [c Hc]. apply map_lookup_filter_Some in Hc as [? ?]. eauto.
  - intros (c & ? & ?). exists c. by apply map_lookup_filter_Some.
Qed.

(** The index holds exactly the non-empty sessions. *)
Definition some_nonempty (x : gset string) : option (gset string) :=
  if bool_decide (x = ∅) then None else Some x.
Definition index_ok t : Prop :=
  ∀ s, sessionIndex t !! s = some_nonempty (hashes s (commitments t)).

Lemma some_nonempty_default x : default ∅ (some_nonempty x) = x.
Proof. unfold some_nonempty. by case_bool_decide. Qed.

Lemma index_default t s : index_ok t → default ∅ (sessionIndex t !! s) = hashes s (commitments t).
Proof. intros Hi. rewrite Hi. apply some_nonempty_default. Qed.

Lemma record_index san c t : index_ok t → index_ok (RecordCommitment san c t).2.
Proof.
  intros Hi. unfold RecordCommitment. destruct (commitments t !! commitment_Hash c) eqn:Hl; [done |].
  intros s. cbn. destruct (decide (SessionID c = s)) as [<-|Hs].
  - rewrite lookup_insert_eq, index_default by done. unfold some_nonempty.
    assert (Hs : {[commitment_Hash c]} ∪ hashes (SessionID c) (commitments t)
      = hashes (SessionID c) (<[commitment_Hash c := c]> (commitments t))).
    { apply set_eq. intros h. rewrite elem_of_union, elem_of_singleton, !elem_of_hashes.
      destruct (decide (h = commitment_Hash c)) as [->|Hh]; [rewrite lookup_insert_eq; naive_solver |].
      rewrite lookup_insert_ne by done. naive_solver. }
    rewrite <-Hs, bool_decide_eq_false_2; [done |]. intros He.
    apply (not_elem_of_empty (C := gset string) (commitment_Hash c)). rewrite <-He. set_solver.
  - rewrite lookup_insert_ne, Hi by done. f_equal. apply set_eq. intros h.
    rewrite !elem_of_hashes. destruct (decide (h = commitment_Hash c)) as [->|Hh].
    + rewrite lookup_insert_eq, Hl. naive_solver.
    + by rewrite lookup_insert_ne.
Qed.

Lemma delete_hashes (l : list string) (cs : gmap string CommitmentIdentifier) h :
  foldr delete cs l !! h = if bool_decide (h ∈ l) then None else cs !! h.
Proof.
  induction l as [|x l IH]; [done |]. cbn. destruct (decide (h = x)) as [->|Hx].
  - rewrite lookup_delete_eq. by rewrite bool_decide_eq_true_2 by left.
  - rewrite lookup_delete_ne by done. rewrite IH. erewrite bool_decide_ext; [done |].
    rewrite elem_of_cons. naive_solver.
Qed.
Lemma not_of_session_lookup s (l : gmap string CommitmentIdentifier) h :
  not_of_session s l !! h = if bool_decide (h ∈ hashes s l) then None else l !! h.
Proof.
  unfold not_of_session. case_bool_decide as Hh.
  - apply elem_of_hashes in Hh as (c & Hl & Hs). apply map_lookup_filter_None. right.
    intros c' Hc'. cbn. simplify_eq. tauto.
  - destruct (l !! h) as [c|] eqn:Hl.
    + apply map_lookup_filter_Some. split; [done |]. cbn. intros Hs. apply Hh, elem_of_hashes. eauto.
    + apply map_lookup_filter_None. by left.
Qed.

Lemma clear_refines s t :
  index_ok t →
  (ClearSession s t).1 = Ok () ∧ commitments (ClearSession s t).2 = not_of_session s (commitments t) ∧
  index_ok (ClearSession s t).2.
Proof.
  intros Hi. assert (Hcs : commitments (ClearSession s t).2 = not_of_session s (commitments t)).
  { apply map_eq. intros h. rewrite not_of_session_lookup. unfold ClearSession.
    rewrite (Hi s). unfold some_nonempty. case_bool_decide as He.
    - rewrite He, bool_decide_eq_false_2 by apply not_elem_of_empty. done.
    - cbn. rewrite delete_hashes. erewrite bool_decide_ext; [done |]. by rewrite elem_of_elements. }
  split; [unfold ClearSession; by case_match |]. split; [done |].
  intros s'. rewrite Hcs.
  assert (hashes s' (not_of_session s (commitments t))
          = if bool_decide (s' = s) then ∅ else hashes s' (commitments t)) as ->.
  { apply set_eq. intros h. rewrite elem_of_hashes. setoid_rewrite not_of_session_lookup.
    case_bool_decide as Hh; rewrite elem_of_hashes in Hh.
    - split; [by intros (c & ? & _) |]. case_bool_decide; [by intros ?%not_elem_of_empty |].
      rewrite elem_of_hashes. naive_solver.
    - case_bool_decide; rewrite ?elem_of_hashes; [| done]. subst.
      split; [by intros ? | by intros ?%not_elem_of_empty]. }
  unfold ClearSession. pose proof (Hi s) as Hs.
  destruct (sessionIndex t !! s) eqn:Hx; cbn; case_bool_decide; subst.
  - by rewrite lookup_delete_eq.
  - by rewrite lookup_delete_ne.
  - by rewrite Hx.
  - apply Hi.
Qed.

(** *** Expiry *)

Section Expiry.
Context (ttl now : Z).

Local Abbreviation old l := (filter (λ p, expired ttl now p.2) l).

Lemma expire_loop (l : list (string * CommitmentIdentifier)) cs es n :
  ∃ cs' es',
    foldl (expire_step ttl now) (cs, es, wrap_int n) l
      = (cs', es', wrap_int (n + Z.of_nat (length (old l)))) ∧
    (∀ h, cs' !! h = if bool_decide (h ∈ (old l).*1) then None else cs !! h) ∧
    (∀ s, is_Some (es' !! s) ↔ is_Some (es !! s) ∨ ∃ p, p ∈ old l ∧ SessionID p.2 = s).
Proof.
  revert cs es n. induction l as [|[h c] l IH]; intros cs es n.
  - exists cs, es. split; [by rewrite Z.add_0_r |]. split; [done |]. intros s.
    cbn. setoid_rewrite elem_of_nil. naive_solver.
  - cbn [foldl expire_step]. destruct (Z.ltb_spec ttl (time_Sub now (Timestamp c))) as [Hlt|Hge].
    + rewrite wrap_int_add_l, !filter_cons_True by done.
      destruct (IH (delete h cs) (<[SessionID c := true]> es) (n + 1)%Z)
        as (cs' & es' & -> & Hcs & Hes).
      exists cs', es'. split; [do 2 f_equal; cbn; lia |]. split.
      * intros h'. rewrite Hcs. cbn. destruct (decide (h' = h)) as [->|Hh].
        -- rewrite lookup_delete_eq. do 2 case_bool_decide; try done;
             rewrite elem_of_cons in *; naive_solver.
        -- rewrite lookup_delete_ne by done. do 2 case_bool_decide; try done;
             rewrite elem_of_cons in *; naive_solver.
      * intros s. rewrite Hes, lookup_insert_is_Some. setoid_rewrite elem_of_cons.
        destruct (decide (SessionID c = s)); naive_solver.
    + rewrite !filter_cons_False by (cbn; unfold expired; lia).
      destruct (IH cs es n) as (cs' & es' & -> & Hcs & Hes). eauto.
Qed.

Lemma length_filter_entries (l : gmap string CommitmentIdentifier) :
  length (old (range_entries 0 l)) = size (filter (λ p, expired ttl now p.2) l).
Proof.
  rewrite range_entries_perm, <-length_map_to_list, map_filter_alt.
  symmetry. apply Permutation_length, map_to_list_to_map.
  apply NoDup_fmap_fst.
  - intros h c c' Hc Hc'. apply list_elem_of_filter in Hc as [_ Hc], Hc' as [_ Hc'].
    apply elem_of_map_to_list in Hc, Hc'. congruence.
  - apply NoDup_filter, NoDup_map_to_list.
Qed.

Lemma reindex_loop cs (ss : list string) index s :
  NoDup ss →
  foldl (reindex_step cs) index ss !! s =
    if bool_decide (s ∈ ss)
    then some_nonempty (filter (λ h, is_Some (cs !! h)) (default ∅ (index !! s)))
    else index !! s.
Proof.
  revert index. induction ss as [|x ss IH]; intros index Hnd; [done |].
  apply NoDup_cons in Hnd as [Hx Hnd]. cbn [foldl]. rewrite IH by done.
  assert (Hstep : reindex_step cs index x !! s =
    if decide (s = x)
    then some_nonempty (filter (λ h, is_Some (cs !! h)) (default ∅ (index !! x)))
    else index !! s).
  { unfold reindex_step, some_nonempty. cbv zeta. set (hs := filter _ _).
    destruct (decide (s = x)) as [->|Hs];
      destruct (bool_decide (hs = ∅)).
    - apply lookup_delete_eq.
    - apply lookup_insert_eq.
    - by apply lookup_delete_ne.
    - by apply lookup_insert_ne. }
  rewrite Hstep. case_decide; subst.
  - rewrite bool_decide_eq_false_2 by done. by rewrite bool_decide_eq_true_2 by (by left).
  - erewrite bool_decide_ext; [done |]. rewrite elem_of_cons. naive_solver.
Qed.

Lemma filter_hashes s (l l' : gmap string CommitmentIdentifier) :
  l' ⊆ l → filter (λ h, is_Some (l' !! h)) (hashes s l) = hashes s l'.
Proof.
  intros Hsub. apply set_eq. intros h. rewrite elem_of_filter, !elem_of_hashes. split.
  - intros ([c' Hc'] & c & Hc & Hs). exists c'. split; [done |].
    apply (lookup_weaken _ _ _ _ Hc') in Hsub. congruence.
  - intros (c & Hc & Hs). split; [eauto |]. exists c. split; [| done]. by eapply lookup_weaken.
Qed.

Lemma expire_refines t :
  index_ok t →
  (ClearExpired ttl now t).1
    = Ok (wrap_int (Z.of_nat (size (filter (λ p, expired ttl now p.2) (commitments t))))) ∧
  commitments (ClearExpired ttl now t).2 = filter (λ p, ¬ expired ttl now p.2) (commitments t) ∧
  index_ok (ClearExpired ttl now t).2.
Proof.
  intros Hi. unfold ClearExpired. change 0%Z with (wrap_int 0).
  destruct (expire_loop (range_entries 0 (commitments t)) (commitments t) ∅ 0)
    as (cs & es & -> & Hcs & Hes).
  rewrite length_filter_entries. cbn [fst snd commitments sessionIndex].
  assert (Hold : ∀ h, h ∈ (old (range_entries 0 (commitments t))).*1 ↔
                      ∃ c, commitments t !! h = Some c ∧ expired ttl now c).
  { intros h. rewrite list_elem_of_fmap. split.
    - intros ([h' c] & -> & [Hc Hin]%list_elem_of_filter).
      apply elem_of_range_entries in Hin. eauto.
    - intros (c & Hc & He). exists (h, c). split; [done |]. apply list_elem_of_filter.
      split; [done |]. by apply elem_of_range_entries. }
  assert (Hf : cs = filter (λ p, ¬ expired ttl now p.2) (commitments t)).
  { apply map_eq. intros h. rewrite Hcs. case_bool_decide as Hh; rewrite Hold in Hh.
    - symmetry. apply map_lookup_filter_None. right. intros c Hc. cbn. naive_solver.
    - destruct (commitments t !! h) as [c|] eqn:Hc; symmetry.
      + apply map_lookup_filter_Some. split; [done |]. cbn. naive_solver.
      + apply map_lookup_filter_None. by left. }
  split; [done |]. split; [done |]. intros s. cbn [sessionIndex commitments].
  assert (Hsub : cs ⊆ commitments t) by (rewrite Hf; apply map_filter_subseteq).
  rewrite reindex_loop by apply range_entries_NoDup. rewrite index_default by done.
  rewrite filter_hashes by done. case_bool_decide as Hs; [done |].
  rewrite (Hi s). f_equal. apply set_eq. intros h. rewrite !elem_of_hashes.
  split; [| intros (c & Hc & ?); exists c; split; [by eapply lookup_weaken | done]].
  intros (c & Hc & Hsess). exists c. split; [| done]. rewrite Hcs, bool_decide_eq_false_2; [done |].
  intros (c' & Hc' & He)%Hold. apply Hs. simplify_eq.
  assert (is_Some (es !! SessionID c)) as [b Hb].
  { apply Hes. right. exists (h, c). split; [| done]. apply list_elem_of_filter.
    split; [done |]. by apply elem_of_range_entries. }
  apply list_elem_of_fmap. exists (SessionID c, b). split; [done |]. by apply elem_of_range_entries.
Qed.
End Expiry.

(** ** Refinement *)

Lemma count_session_refines s t :
  index_ok t → CountSession s t = Ok (Z.of_nat (size (of_session s (commitments t)))).
Proof.
  intros Hi. unfold CountSession. rewrite (Hi s), <-size_dom.
  change (dom (of_session s (commitments t))) with (hashes s (commitments t)).
  unfold some_nonempty. case_bool_decide as He; [| done]. by rewrite He, size_empty.
Qed.

Lemma call_refines san k t :
  index_ok t →
  let '(r, t') := tracker_call (H := InMemoryCommitments san) k t in
  spec_call san k (commitments t) = (r, commitments t') ∧ index_ok t'.
Proof.
  intros Hi. destruct k as [c|c|s|ttl now| |s]; cbn.
  - pose proof (record_index san c t Hi) as Hi'. revert Hi'. unfold RecordCommitment.
    by destruct (commitments t !! commitment_Hash c).
  - unfold CheckCommitment. by destruct (commitments t !! commitment_Hash c).
  - destruct (clear_refines s t Hi) as (Hr & Hc & Hi').
    destruct (ClearSession s t) as [r t']. cbn in *. by rewrite Hr, Hc.
  - destruct (expire_refines ttl now t Hi) as (Hr & Hc & Hi').
    destruct (ClearExpired ttl now t) as [r t']. cbn in *. by rewrite Hr, Hc.
  - done.
  - by rewrite count_session_refines.
Qed.

(** C20: the in-memory tracker refines the abstract one: after any sequence of
    calls, in every order of the map ranges, each call has answered what the
    plain map of live commitments answers, and the session index is exactly the
    index of the live commitments. *)
Theorem tracker_refinement san ks :
  let '(rs, t) := tracker_run (H := InMemoryCommitments san) NewInMemoryCommitmentTracker ks in
  spec_run san ∅ ks = (rs, commitments t) ∧ index_ok t.
Proof.
  induction ks as [|k ks IH] using rev_ind; [done |].
  rewrite tracker_run_snoc, spec_run_snoc. destruct (tracker_run _ ks) as [rs t].
  destruct IH as [-> Hi]. pose proof (call_refines san k t Hi) as Hk.
  destruct (tracker_call k t) as [r t']. destruct Hk as [-> Hi']. done.
Qed.
End Index.

(** The in-memory tracker holds what has a recorded hash. *)
Definition memory_holds `{SHA256} (t : memory.InMemoryCommitmentTracker)
    (c : CommitmentIdentifier) : Prop := is_Some (memory.commitments t !! commitment_Hash c).
Definition memory_same `{SHA256} (c c' : CommitmentIdentifier) : Prop := commitment_Hash c = commitment_Hash c'.

#[export] Instance InMemory_laws `{SHA256, security.Regexp, MapOrder} san :
  CommitmentTrackerLaws (InMemoryCommitments san).
Proof.
  refine {| ct_holds := memory_holds : @ct_state (InMemoryCommitments san) → _;
            ct_same := memory_same |};
    unfold memory_holds, memory_same; cbn;
    unfold memory.RecordCommitment, memory.CheckCommitment, memory.reuse_error.
  - intros c c' Hs Hp Hd. unfold commitment_Hash. by rewrite Hs, Hp, Hd.
  - intros t c c' Hc. by rewrite Hc.
  - intros t c. apply _.
  - intros c t Hn. apply eq_None_not_Some in Hn. rewrite Hn. split; [done |]. intros c'.
    cbn. rewrite lookup_insert_is_Some'. tauto.
  - intros c t [c' Hc]. rewrite Hc.
    destruct (SanitizeCommitmentError_reused san (SessionID c) (ParticipantID c)) as (e & -> & He).
    eauto.
  - intros c t Hn. apply eq_None_not_Some in Hn. by rewrite Hn.
  - intros c t [c' Hc]. rewrite Hc.
    destruct (SanitizeCommitmentError_reused san (SessionID c) (ParticipantID c)) as (e & -> & He).
    eauto.
Defined.

(** ** The FROST nonce tracker *)

Module nonce.
Section Defs.
Context {G : Group} `{CommitmentTracker}.

Definition identifier (kind : string) (sessionID : string) (participantID : Z) (data : bytes)
    (now : Z) (metadata : gmap string string) : CommitmentIdentifier :=
  {| SessionID := sessionID; ParticipantID := pretty participantID +:+ "-" +:+ kind;
     CommitmentData := data; Timestamp := now; Metadata := metadata |}.

Definition metadata (kind : string) (sessionID : string) (participantID : Z)
  : gmap string string :=
  {[ "type" := kind; "participant" := pretty participantID; "session" := sessionID;
     "commitment_id" := sessionID +:+ "-" +:+ pretty participantID +:+ "-" +:+ kind ]}.

Definition failure (what : string) (sessionID : string) (participantID : Z) (e : error)
  : error :=
  Errorf (what +:+ " failed for participant " +:+ pretty participantID +:+ " in session "
            +:+ sessionID) e.

(** A no-op, as in the code. *)
Definition ClearParticipant (sessionID : string) (participantID : Z) (t : ct_state)
  : Res unit * ct_state := (Ok (), t).

Definition RecordSigningCommitments (sessionID : string) (participantID : Z)
    (c : SigningCommitments) (now : Z) (t : ct_state) : Res unit * ct_state :=
  match HidingNonceCommitment c with
  | None => (Panic, t)
  | Some hiding =>
      let '(r, t) := ct_RecordCommitment
        (identifier "hiding" sessionID participantID (e_Bytes hiding) now
           (metadata "hiding" sessionID participantID)) t in
      match r with
      | Panic => (Panic, t)
      | Fail e => (Fail (failure "hiding commitment recording" sessionID participantID e), t)
      | Ok _ =>
          match BindingNonceCommitment c with
          | None => (Panic, t)
          | Some binding =>
              let '(r, t) := ct_RecordCommitment
                (identifier "binding" sessionID participantID (e_Bytes binding) now
                   (metadata "binding" sessionID participantID)) t in
              match r with
              | Panic => (Panic, t)
              | Fail e =>
                  let '(_, t) := ClearParticipant sessionID participantID t in
                  (Fail (failure "binding commitment recording" sessionID participantID e), t)
              | Ok _ => (Ok (), t)
              end
          end
      end
  end.

Definition CheckSigningCommitments (sessionID : string) (participantID : Z)
    (c : SigningCommitments) (now now' : Z) (t : ct_state) : Res unit :=
  hiding ← deref (HidingNonceCommitment c);
  _ ← wrap (failure "hiding commitment check" sessionID participantID)
        (ct_CheckCommitment (identifier "hiding" sessionID participantID (e_Bytes hiding) now ∅) t);
  binding ← deref (BindingNonceCommitment c);
  wrap (failure "binding commitment check" sessionID participantID)
    (ct_CheckCommitment (identifier "binding" sessionID participantID (e_Bytes binding) now' ∅) t).

Definition ClearSession (sessionID : string) (t : ct_state) : Res unit * ct_state :=
  ct_ClearSession sessionID t.
Definition ClearExpired (ttl now : Z) (t : ct_state) : Res Z * ct_state :=
  ct_ClearExpired ttl now t.
Definition SessionCommitmentCount (sessionID : string) (t : ct_state) : Res Z :=
  ct_CountSession sessionID t.
Definition TotalCommitmentCount (t : ct_state) : Res Z := ct_Count t.
End Defs.
End nonce.

Section NonceFacts.
Context {G : Group} `{T : CommitmentTracker} {LT : CommitmentTrackerLaws T}.
Import nonce.
Implicit Types (t : ct_state) (c : SigningCommitments) (s : string) (id now : Z).

(** The identifiers under which a commitment pair is tracked; time and metadata
    do not matter to [ct_holds]. *)
Definition hiding_of s id (h : Element) := identifier "hiding" s id (e_Bytes h) 0 ∅.
Definition binding_of s id (b : Element) := identifier "binding" s id (e_Bytes b) 0 ∅.

Lemma holds_identifier t kind s id data now m :
  ct_holds t (identifier kind s id data now m) ↔ ct_holds t (identifier kind s id data 0 ∅).
Proof. f_equiv. by apply ct_same_ident. Qed.

(** The tracker holds one of the two commitments. *)
Definition reused t s id c : Prop :=
  (∃ h, HidingNonceCommitment c = Some h ∧ ct_holds t (hiding_of s id h)) ∨
  (∃ b, BindingNonceCommitment c = Some b ∧ ct_holds t (binding_of s id b)).

Definition refused (r : Res unit) : Prop :=
  ∃ e, r = Fail e ∧ errors_Is_value e security.ErrCommitmentReused = true.

Lemma refused_failure what s id e :
  errors_Is_value e security.ErrCommitmentReused = true →
  refused (Fail (failure what s id e)).
Proof.
  intros He. eexists. split; [done |]. unfold errors_Is_value in *. cbn [chain failure existsb].
  by rewrite He, orb_true_r.
Qed.

(** Recording through the interface: grows the set, or refuses. *)
Lemma record_cases x t :
  (¬ ct_holds t x ∧ ∃ t', ct_RecordCommitment x t = (Ok (), t') ∧
     ∀ y, ct_holds t' y ↔ ct_holds t y ∨ ct_same x y) ∨
  (ct_holds t x ∧ ∃ e, ct_RecordCommitment x t = (Fail e, t) ∧
     errors_Is_value e security.ErrCommitmentReused = true).
Proof.
  destruct (decide (ct_holds t x)) as [Hx|Hx].
  - right. split; [done |]. by apply ct_record_held.
  - left. split; [done |]. destruct (ct_record_new x t Hx) as [H1 H2].
    destruct (ct_RecordCommitment x t) as [r t']. cbn in *. subst. eauto.
Qed.

(** No call forgets. *)
Lemma record_grows s id c now t y :
  ct_holds t y → ct_holds (RecordSigningCommitments s id c now t).2 y.
Proof.
  intros Hy. unfold RecordSigningCommitments, ClearParticipant.
  destruct (HidingNonceCommitment c) as [h|]; [| done].
  destruct (record_cases (identifier "hiding" s id (e_Bytes h) now (metadata "hiding" s id)) t)
    as [(_ & t1 & -> & H1)|(_ & e & -> & _)]; [| done].
  destruct (BindingNonceCommitment c) as [b|]; [| cbn; apply H1; by left].
  destruct (record_cases (identifier "binding" s id (e_Bytes b) now (metadata "binding" s id)) t1)
    as [(_ & t2 & -> & H2)|(_ & e & -> & _)]; cbn; rewrite ?H2, ?H1; tauto.
Qed.

(** The commitment pair was recorded: a later pair that shares a member is
    recognized. *)
Lemma recorded_holds s id c now t h b :
  HidingNonceCommitment c = Some h → BindingNonceCommitment c = Some b →
  (RecordSigningCommitments s id c now t).1 = Ok () →
  let t' := (RecordSigningCommitments s id c now t).2 in
  ct_holds t' (hiding_of s id h) ∧ ct_holds t' (binding_of s id b).
Proof.
  unfold RecordSigningCommitments. intros -> ->.
  destruct (record_cases (identifier "hiding" s id (e_Bytes h) now (metadata "hiding" s id)) t)
    as [(_ & t1 & -> & H1)|(_ & e & -> & _)]; [| done].
  destruct (record_cases (identifier "binding" s id (e_Bytes b) now (metadata "binding" s id)) t1)
    as [(_ & t2 & -> & H2)|(_ & e & -> & _)]; [| done].
  intros _. cbn. split; rewrite H2; [left; rewrite H1 |]; right; by apply ct_same_ident.
Qed.

Lemma record_refused s id c now t h :
  HidingNonceCommitment c = Some h → reused t s id c →
  refused (RecordSigningCommitments s id c now t).1.
Proof.
  intros Hh Hr. unfold RecordSigningCommitments. rewrite Hh.
  destruct (record_cases (identifier "hiding" s id (e_Bytes h) now (metadata "hiding" s id)) t)
    as [(Hn & t1 & -> & H1)|(_ & e & -> & He)]; [| by apply refused_failure].
  rewrite holds_identifier in Hn. destruct Hr as [(h' & Hh' & Hc)|(b & Hb & Hc)]; [by simplify_eq |].
  rewrite Hb.
  destruct (record_cases (identifier "binding" s id (e_Bytes b) now (metadata "binding" s id)) t1)
    as [(Hn' & _)|(_ & e & -> & He)]; [| by apply refused_failure].
  exfalso. apply Hn'. rewrite holds_identifier. apply H1. by left.
Qed.

Lemma check_refused s id c now now' t h :
  HidingNonceCommitment c = Some h → reused t s id c →
  refused (CheckSigningCommitments s id c now now' t).
Proof.
  intros Hh Hr. unfold CheckSigningCommitments. rewrite Hh. cbn [deref]. step.
  set (x := identifier "hiding" _ _ _ _ _).
  destruct (decide (ct_holds t x)) as [Hx|Hx].
  { destruct (ct_check_held _ _ Hx) as (e & -> & He). by apply refused_failure. }
  rewrite (ct_check_new _ _ Hx). step. unfold x in Hx. rewrite holds_identifier in Hx.
  destruct Hr as [(h' & Hh' & Hc)|(b & Hb & Hc)]; [by simplify_eq |].
  rewrite Hb. step.
  assert (Hy : ct_holds t (identifier "binding" s id (e_Bytes b) now' ∅))
    by (by rewrite holds_identifier).
  destruct (ct_check_held _ _ Hy) as (e & -> & He). by apply refused_failure.
Qed.

(** The recordings that may happen in between. *)
Inductive records : ct_state → ct_state → Prop :=
| records_refl t : records t t
| records_step t s id c now t' :
    records (RecordSigningCommitments s id c now t).2 t' → records t t'.

Lemma records_grow t t' y : records t t' → ct_holds t y → ct_holds t' y.
Proof. induction 1; [done |]. intros Hy. by apply IHrecords, record_grows. Qed.

(** C21: nonce reuse is caught: once a commitment pair is recorded, and whatever
    is recorded afterwards by anyone in any session, a pair of the same
    participant in the same session that shares the hiding or the binding
    commitment is refused by both the recording and the checking call, with an
    error that [errors.Is] recognizes as [ErrCommitmentReused]. *)
Theorem nonce_reuse_refused s id c now t t' c' h b now1 now2 :
  HidingNonceCommitment c = Some h → BindingNonceCommitment c = Some b →
  (RecordSigningCommitments s id c now t).1 = Ok () →
  records (RecordSigningCommitments s id c now t).2 t' →
  is_Some (HidingNonceCommitment c') →
  HidingNonceCommitment c' = Some h ∨ BindingNonceCommitment c' = Some b →
  refused (RecordSigningCommitments s id c' now1 t').1 ∧
  refused (CheckSigningCommitments s id c' now1 now2 t').
Proof.
  intros Hh Hb Hok Hrec [h' Hh'] Hsame.
  destruct (recorded_holds s id c now t h b Hh Hb Hok) as [H1 H2].
  assert (Hr : reused t' s id c').
  { destruct Hsame; [left | right]; eexists; (split; [done |]); by eapply records_grow. }
  split; [by eapply record_refused | by eapply check_refused].
Qed.

(** A failed recording is not undone: when only the binding commitment is a
    reuse, the call fails but the hiding commitment stays recorded, so that the
    participant's next pair with the same hiding commitment is refused although
    no pair with it was ever accepted.  [ClearParticipant], which should undo
    it, does nothing. *)
Theorem failed_recording_stays s id c now t h b c' now' :
  HidingNonceCommitment c = Some h → BindingNonceCommitment c = Some b →
  HidingNonceCommitment c' = Some h →
  ¬ ct_holds t (hiding_of s id h) → ct_holds t (binding_of s id b) →
  let t' := (RecordSigningCommitments s id c now t).2 in
  refused (RecordSigningCommitments s id c now t).1 ∧
  ct_holds t' (hiding_of s id h) ∧
  refused (RecordSigningCommitments s id c' now' t').1.
Proof.
  intros Hh Hb Hh' Hn Hheld t'.
  assert (Hr : refused (RecordSigningCommitments s id c now t).1)
    by (eapply record_refused; [done | right; eauto]).
  assert (Ht' : ct_holds t' (hiding_of s id h)).
  { unfold t', RecordSigningCommitments. rewrite Hh, Hb.
    destruct (record_cases (identifier "hiding" s id (e_Bytes h) now (metadata "hiding" s id)) t)
      as [(_ & t1 & -> & H1)|(Hc & _)]; [| by rewrite holds_identifier in Hc].
    assert (ct_holds t1 (hiding_of s id h)) by (apply H1; right; by apply ct_same_ident).
    destruct (record_cases (identifier "binding" s id (e_Bytes b) now (metadata "binding" s id)) t1)
      as [(Hc & _)|(_ & e & -> & _)]; [| done].
    exfalso. apply Hc. rewrite holds_identifier. apply H1. by left. }
  split; [done |]. split; [done |]. eapply record_refused; [done | left; eauto].
Qed.
End NonceFacts.

(** The in-memory tracker hashes the session and the participant without a
    separator between them. *)
Lemma commitment_Hash_ambiguous `{SHA256} c c' :
  SessionID c +:+ ParticipantID c = SessionID c' +:+ ParticipantID c' →
  CommitmentData c = CommitmentData c' → commitment_Hash c = commitment_Hash c'.
Proof.
  intros Hs Hd. unfold commitment_Hash. rewrite Hd, !app_assoc. unfold string_bytes.
  assert (Happ : ∀ a b, String.list_byte_of_string a ++ String.list_byte_of_string b
                        = String.list_byte_of_string (a +:+ b)).
  { induction a as [|x a IH]; intros b; [done |]. cbn. by rewrite IH. }
  by rewrite !Happ, Hs.
Qed.

(** Participant 1 of session [s1] is taken for participant 11 of session
    [s]: after participant 11 recorded a pair in [s], every pair of participant 1
    in the session named [s] followed by the digit 1 that shares a commitment
    with it is refused as a reuse. *)
Theorem sessions_confused `{G : Group, SHA256, security.Regexp, MapOrder} san s c now now' t h b :
  HidingNonceCommitment c = Some h → BindingNonceCommitment c = Some b →
  (nonce.RecordSigningCommitments (H := InMemoryCommitments san) s 11 c now t).1 = Ok () →
  refused (nonce.RecordSigningCommitments (H := InMemoryCommitments san) (s +:+ "1") 1 c now'
             (nonce.RecordSigningCommitments (H := InMemoryCommitments san) s 11 c now t).2).1.
Proof.
  intros Hh Hb Hok. destruct (recorded_holds s 11 c now t h b Hh Hb Hok) as [Hheld _].
  eapply record_refused; [done |]. left. exists h. split; [done |].
  eapply ct_holds_proper; [| exact Hheld]. apply commitment_Hash_ambiguous; [| done].
  change ((s +:+ "1") +:+ "1-hiding" = s +:+ "11-hiding").
  clear. induction s as [|x s IH]; [done |].
  exact (f_equal (String x) IH).
Qed.
