(* ===== verification/Validator.v ===== *)
(** * Message validation and configuration: [pkg/frost/security/validator.go]
      and [config.go]

    A [MessageValidator] is a record of its four methods; the three
    implementations are values of it.  The theorems: a composite validator
    reports the error of its first failing member, and the shipped
    configurations are valid and bound the message size as documented. *)

From stdpp Require Import pretty.
From S2P Require Export Prelude.
From S2P Require Export SecurityErrors.

Module validator.

(** The interface; a method returns nil or an error. *)
Record MessageValidator := {
  ValidateStructure : bytes → Res unit;
  ValidateSize : bytes → Res unit;
  ValidatePolicy : bytes → Res unit;
  Validate : bytes → Res unit;
}.

Definition NewNoOpValidator : MessageValidator :=
  {| ValidateStructure := λ _, Ok (); ValidateSize := λ _, Ok ();
     ValidatePolicy := λ _, Ok (); Validate := λ _, Ok () |}.

Definition size_ValidateSize (maxSize : Z) (msg : bytes) : Res unit :=
  fail_if (maxSize <? Z.of_nat (length msg))%Z
    (Errorf ("message size " +:+ pretty (Z.of_nat (length msg))
               +:+ " exceeds maximum allowed size " +:+ pretty maxSize)
       security.ErrMessageTooLarge).

Definition NewSizeValidator (maxSize : Z) : MessageValidator :=
  {| ValidateStructure := λ _, Ok (); ValidateSize := size_ValidateSize maxSize;
     ValidatePolicy := λ _, Ok (); Validate := size_ValidateSize maxSize |}.

(** [for _, v := range validators { if err := v.M(msg); err != nil { return err } }];
    a nil entry panics. *)
Definition each (method : MessageValidator → bytes → Res unit)
    (validators : list (option MessageValidator)) (msg : bytes) : Res unit :=
  range_loop (λ _ v, v ← deref v; method v msg) validators ().

Definition NewCompositeValidator (validators : list (option MessageValidator))
  : MessageValidator :=
  {| ValidateStructure := each ValidateStructure validators;
     ValidateSize := each ValidateSize validators;
     ValidatePolicy := each ValidatePolicy validators;
     Validate := each Validate validators |}.

(** [Add] on the slice the composite holds. *)
Definition Add (validators : list (option MessageValidator)) (v : option MessageValidator)
  : list (option MessageValidator) := validators ++ [v].

(** ** config.go *)

Definition Hour : Z := 3600 * 10 ^ 9.
Definition Minute : Z := 60 * 10 ^ 9.

Section Config.
(** The components a configuration refers to. *)
Context {NonceTrackerT AuthenticatorT ReputationTrackerT ReputationConfigT : Type}.

Record SecurityConfig := {
  IdentifiableAbortEnabled : bool;
  NonceReuseProtection : bool;
  NonceTracker : option NonceTrackerT;
  SessionTimeout : Z;
  CommitmentExpiration : Z;
  MaxSignersPerSession : Z;
  RequireCommitmentsSorted : bool;
  cfg_MessageValidator : option MessageValidator;
  MaxMessageSize : Z;
  cfg_ParticipantAuthenticator : option AuthenticatorT;
  cfg_ReputationTracker : option ReputationTrackerT;
  cfg_ReputationConfig : ReputationConfigT;
}.

(** The constructors the shipped configurations call. *)
Context (DefaultReputationConfig zeroReputationConfig : ReputationConfigT)
  (NewInMemoryReputationTracker : ReputationConfigT → ReputationTrackerT)
  (NewInMemoryCommitmentTracker : NonceTrackerT).

Definition DefaultProductionConfig : SecurityConfig :=
  let reputationConfig := DefaultReputationConfig in
  {| IdentifiableAbortEnabled := true; NonceReuseProtection := true; NonceTracker := None;
     SessionTimeout := 1 * Hour; CommitmentExpiration := 24 * Hour;
     MaxSignersPerSession := 1000; RequireCommitmentsSorted := true;
     cfg_MessageValidator := Some (NewSizeValidator (1024 * 1024));
     MaxMessageSize := 1024 * 1024; cfg_ParticipantAuthenticator := None;
     cfg_ReputationTracker := Some (NewInMemoryReputationTracker reputationConfig);
     cfg_ReputationConfig := reputationConfig |}.

Definition set_timeouts (sessionTimeout commitmentExpiration : Z) (c : SecurityConfig)
  : SecurityConfig :=
  {| IdentifiableAbortEnabled := IdentifiableAbortEnabled c;
     NonceReuseProtection := NonceReuseProtection c; NonceTracker := NonceTracker c;
     SessionTimeout := sessionTimeout; CommitmentExpiration := commitmentExpiration;
     MaxSignersPerSession := MaxSignersPerSession c;
     RequireCommitmentsSorted := RequireCommitmentsSorted c;
     cfg_MessageValidator := cfg_MessageValidator c; MaxMessageSize := MaxMessageSize c;
     cfg_ParticipantAuthenticator := cfg_ParticipantAuthenticator c;
     cfg_ReputationTracker := cfg_ReputationTracker c;
     cfg_ReputationConfig := cfg_ReputationConfig c |}.

Definition DefaultDevelopmentConfig : SecurityConfig :=
  set_timeouts (5 * Minute) (1 * Hour) DefaultProductionConfig.

Definition InsecureConfig : SecurityConfig :=
  {| IdentifiableAbortEnabled := false; NonceReuseProtection := false; NonceTracker := None;
     SessionTimeout := 0; CommitmentExpiration := 0; MaxSignersPerSession := 0;
     RequireCommitmentsSorted := true; cfg_MessageValidator := Some NewNoOpValidator;
     MaxMessageSize := 0; cfg_ParticipantAuthenticator := None; cfg_ReputationTracker := None;
     cfg_ReputationConfig := zeroReputationConfig |}.

Definition Config_Validate (c : SecurityConfig) : Res unit :=
  _ ← fail_if (SessionTimeout c <? 0)%Z security.ErrInvalidSession;
  _ ← fail_if (CommitmentExpiration c <? 0)%Z security.ErrInvalidCommitmentData;
  fail_if (10000 <? MaxSignersPerSession c)%Z security.ErrInvalidCommitmentData.

Definition GetOrCreateNonceTracker (c : SecurityConfig) : NonceTrackerT * SecurityConfig :=
  match NonceTracker c with
  | Some t => (t, c)
  | None =>
      let t := NewInMemoryCommitmentTracker in
      (t, {| IdentifiableAbortEnabled := IdentifiableAbortEnabled c;
             NonceReuseProtection := NonceReuseProtection c; NonceTracker := Some t;
             SessionTimeout := SessionTimeout c;
             CommitmentExpiration := CommitmentExpiration c;
             MaxSignersPerSession := MaxSignersPerSession c;
             RequireCommitmentsSorted := RequireCommitmentsSorted c;
             cfg_MessageValidator := cfg_MessageValidator c;
             MaxMessageSize := MaxMessageSize c;
             cfg_ParticipantAuthenticator := cfg_ParticipantAuthenticator c;
             cfg_ReputationTracker := cfg_ReputationTracker c;
             cfg_ReputationConfig := cfg_ReputationConfig c |})
  end.
End Config.
End validator.

(** ** Theorems *)

Section Facts.
Import validator.

Lemma size_accepts maxSize msg :
  size_ValidateSize maxSize msg = Ok () ↔ (Z.of_nat (length msg) ≤ maxSize)%Z.
Proof. unfold size_ValidateSize. by rewrite fail_if_Ok, Z.ltb_ge. Qed.

(** A composite of validators that do not panic. *)
Lemma each_spec (method : MessageValidator → bytes → Res unit) (vs : list MessageValidator) msg :
  each method (Some <$> vs) msg =
    match list_find (λ v, method v msg ≠ Ok ()) vs with
    | Some (_, v) => method v msg
    | None => Ok ()
    end.
Proof.
  unfold each. induction vs as [|v vs IH]; [done |]. cbn [fmap list_fmap range_loop deref list_find].
  case_decide as Hv; step.
  - by destruct (method v msg) as [[]| |]; step.
  - rewrite Hv.
    step. change (list_fmap _ _ Some vs) with (Some <$> vs). rewrite IH.
    by destruct (list_find _ vs) as [[]|].
Qed.

Lemma each_app (method : MessageValidator → bytes → Res unit) l1 l2 msg :
  each method (l1 ++ l2) msg = (_ ← each method l1 msg; each method l2 msg).
Proof.
  unfold each. induction l1 as [|[v|] l1 IH]; [done | | done]. cbn in *.
  by destruct (method v msg) as [[]| |].
Qed.

(** Validators compose: a composite accepts exactly what all its members
    accept and otherwise reports the error of the first that refuses; nesting
    composites is concatenation; and with size validators a message is accepted
    exactly when it fits the smallest limit, the refusal being recognizable as
    [ErrMessageTooLarge]. *)
Theorem composite_validation vs ws limits msg :
  let c := NewCompositeValidator (Some <$> vs) in
  Validate c msg = match list_find (λ v, Validate v msg ≠ Ok ()) vs with
                   | Some (_, v) => Validate v msg
                   | None => Ok ()
                   end ∧
  Validate (NewCompositeValidator [Some c; Some (NewCompositeValidator (Some <$> ws))]) msg
    = Validate (NewCompositeValidator (Some <$> vs ++ ws)) msg ∧
  match Validate (NewCompositeValidator (Some <$> (NewSizeValidator <$> limits))) msg with
  | Ok _ => Forall (λ m, Z.of_nat (length msg) ≤ m)%Z limits
  | Fail e => errors_Is_value e security.ErrMessageTooLarge = true ∧
              ∃ m, m ∈ limits ∧ (m < Z.of_nat (length msg))%Z
  | Panic => False
  end.
Proof.
  split; [apply each_spec | split].
  - cbn [Validate NewCompositeValidator]. rewrite fmap_app, each_app.
    unfold each at 1. cbn. destruct (each Validate (Some <$> vs) msg) as [[]| |]; [| done..].
    by destruct (each Validate (Some <$> ws) msg) as [[]| |].
  - cbn [Validate NewCompositeValidator]. rewrite each_spec.
    induction limits as [|m limits IH]; [by constructor |]. cbn [fmap list_fmap list_find].
    case_decide as Hm; cbn [Validate NewSizeValidator] in *.
    + unfold size_ValidateSize in *. destruct (Z.ltb_spec m (Z.of_nat (length msg))); [| done].
      cbn [fail_if]. split; [| exists m; split; [by left | done]].
      unfold errors_Is_value. cbn [chain existsb]. apply orb_true_iff. right.
      apply orb_true_iff. left. by apply bool_decide_eq_true.
    + assert (Hok : (Z.of_nat (length msg) ≤ m)%Z).
      { by apply size_accepts. }
      change (list_fmap _ _ NewSizeValidator limits) with (NewSizeValidator <$> limits).
      destruct (list_find _ (NewSizeValidator <$> limits)) as [[i v]|]; cbn in *; [| by constructor].
      destruct (Validate v msg) as [[]| |]; [by constructor | | done].
      destruct IH as [? (m' & ? & ?)]. split; [done |]. exists m'. split; [by right | done].
Qed.
End Facts.
