(* ===== verification/Authenticator.v ===== *)
(** * Participant authentication: [pkg/frost/security/authenticator.go]

    The two authenticators behind [ParticipantAuthenticator] and the helpers by
    which participants sign their messages.  Go's [crypto/ed25519] is a
    parameter.  The theorems say exactly what an accepted proof vouches for: the
    participant, and the pair of commitments or the share, but neither the
    kind's own identifier field nor the session. *)

From S2P Require Export SecurityErrors.
From S2P Require Export Types.

(** [ed25519.Verify] and [Sign] on keys of the right length, and the law of the
    signature scheme. *)
Class Ed25519 : Type := {
  ed_Verify : bytes → bytes → bytes → bool;
  ed_Sign : bytes → bytes → bytes;
}.
Class Ed25519Laws (E : Ed25519) : Type := {
  ed_Public : bytes → bytes;
  law_ed_Public sk : length (ed_Public sk) = 32;
  law_ed_Sign sk msg : ed_Verify (ed_Public sk) msg (ed_Sign sk msg) = true;
}.

Module authenticator.

Definition PublicKeySize : nat := 32.
Definition PrivateKeySize : nat := 64.

Section Defs.
Context {G : Group} {E : Ed25519}.

(** The interface: two methods that return nil or an error. *)
Record ParticipantAuthenticator := {
  AuthenticateCommitment : Z → SigningCommitments → bytes → Res unit;
  AuthenticateSignatureShare : Z → SignatureShare → bytes → Res unit;
}.

Definition NewNoOpAuthenticator : ParticipantAuthenticator :=
  {| AuthenticateCommitment := λ _ _ _, Ok (); AuthenticateSignatureShare := λ _ _ _, Ok () |}.

(** [ed25519.Verify] panics on a key of the wrong length. *)
Definition Verify (publicKey message sig : bytes) : Res bool :=
  if length publicKey =? PublicKeySize then Ok (ed_Verify publicKey message sig) else Panic.

(** Little-endian, unlike [Identifier.Serialize]. *)
Definition idBytes (participantID : Z) : bytes :=
  [byte.of_Z participantID; byte.of_Z (Z.shiftr participantID 8);
   byte.of_Z (Z.shiftr participantID 16); byte.of_Z (Z.shiftr participantID 24)].

Definition serializeCommitment (participantID : Z) (commitment : SigningCommitments)
  : Res bytes :=
  hiding ← deref (HidingNonceCommitment commitment);
  binding ← deref (BindingNonceCommitment commitment);
  Ok (idBytes participantID ++ e_Bytes hiding ++ e_Bytes binding).

Definition serializeSignatureShare (participantID : Z) (share : SignatureShare) : Res bytes :=
  s ← deref (share_value share);
  Ok (idBytes participantID ++ s_Bytes s).

(** The body the two methods share: look up the key, build the message, verify. *)
Definition authenticate (publicKeys : option (gmap Z bytes)) (participantID : Z)
    (message : Res bytes) (what : string) (proof : bytes) : Res unit :=
  match default ∅ publicKeys !! participantID with
  | None => Fail (NewParticipantError participantID "public key not found"
                    security.ErrAuthenticationFailed)
  | Some publicKey =>
      message ← message;
      ok ← Verify publicKey message proof;
      fail_if (negb ok) (NewParticipantError participantID
                           (what +:+ " signature verification failed")
                           security.ErrAuthenticationFailed)
  end.

(** The key map is shared with its creator; [None] is the nil map. *)
Definition ed_AuthenticateCommitment (publicKeys : option (gmap Z bytes)) (participantID : Z)
    (commitment : SigningCommitments) (proof : bytes) : Res unit :=
  authenticate publicKeys participantID (serializeCommitment participantID commitment)
    "commitment" proof.

Definition ed_AuthenticateSignatureShare (publicKeys : option (gmap Z bytes))
    (participantID : Z) (share : SignatureShare) (proof : bytes) : Res unit :=
  authenticate publicKeys participantID (serializeSignatureShare participantID share)
    "signature share" proof.

Definition NewEd25519Authenticator (publicKeys : option (gmap Z bytes))
  : ParticipantAuthenticator :=
  {| AuthenticateCommitment := ed_AuthenticateCommitment publicKeys;
     AuthenticateSignatureShare := ed_AuthenticateSignatureShare publicKeys |}.

(** Writing to a nil map panics, deleting from it does nothing. *)
Definition AddPublicKey (participantID : Z) (publicKey : bytes)
    (publicKeys : option (gmap Z bytes)) : Res (option (gmap Z bytes)) :=
  match publicKeys with
  | None => Panic
  | Some m => Ok (Some (<[participantID := publicKey]> m))
  end.
Definition RemovePublicKey (participantID : Z) (publicKeys : option (gmap Z bytes))
  : option (gmap Z bytes) := delete participantID <$> publicKeys.
Definition GetPublicKey (participantID : Z) (publicKeys : option (gmap Z bytes)) : bytes :=
  default [] (default ∅ publicKeys !! participantID).
Definition ParticipantCount (publicKeys : option (gmap Z bytes)) : Z :=
  Z.of_nat (size (default ∅ publicKeys)).

(** [fmt.Errorf("invalid private key size: ...")] *)
Definition private_key_error (n : nat) : error :=
  FreshError ("invalid private key size: expected 64, got " +:+ pretty.pretty n).

Definition SignCommitment (participantID : Z) (commitment : SigningCommitments)
    (privateKey : bytes) : Res bytes :=
  _ ← fail_if (negb (length privateKey =? PrivateKeySize)) (private_key_error (length privateKey));
  message ← serializeCommitment participantID commitment;
  Ok (ed_Sign privateKey message).

Definition SignSignatureShare (participantID : Z) (share : SignatureShare)
    (privateKey : bytes) : Res bytes :=
  _ ← fail_if (negb (length privateKey =? PrivateKeySize)) (private_key_error (length privateKey));
  message ← serializeSignatureShare participantID share;
  Ok (ed_Sign privateKey message).

(** A [crypto.Signer] is its [Sign] method. *)
Definition SignCommitmentWithSigner (participantID : Z) (commitment : SigningCommitments)
    (signer : bytes → Res bytes) : Res bytes :=
  message ← serializeCommitment participantID commitment;
  wrap (Errorf "failed to sign commitment") (signer message).

Definition SignSignatureShareWithSigner (participantID : Z) (share : SignatureShare)
    (signer : bytes → Res bytes) : Res bytes :=
  message ← serializeSignatureShare participantID share;
  wrap (Errorf "failed to sign signature share") (signer message).

(** The exported serializers, without the participant. *)
Definition SerializeCommitment (commitment : SigningCommitments) : Res bytes :=
  hiding ← deref (HidingNonceCommitment commitment);
  binding ← deref (BindingNonceCommitment commitment);
  Ok (e_Bytes hiding ++ e_Bytes binding).
Definition SerializeSignatureShare (share : SignatureShare) : Res bytes :=
  s ← deref (share_value share); Ok (s_Bytes s).
End Defs.
End authenticator.

(** ** Theorems *)

Section Facts.
Context {G : Group} {L : GroupLaws G} {E : Ed25519}.
Import authenticator.
Implicit Types (keys : option (gmap Z bytes)) (c : SigningCommitments) (sh : SignatureShare).

Lemma idBytes_inj id id' rest rest' :
  is_uint32 id → is_uint32 id' → idBytes id ++ rest = idBytes id' ++ rest' → id = id' ∧ rest = rest'.
Proof.
  intros Hid Hid' H. unfold idBytes in H. rewrite (le_split_4 id), (le_split_4 id') in H.
  apply app_inj_1 in H as [H ->]; [| by rewrite !length_le_split].
  split; [by apply le_split_4_inj | done].
Qed.

Lemma authenticate_Ok keys id message what proof :
  authenticate keys id message what proof = Ok () ↔
  ∃ pk msg, default ∅ keys !! id = Some pk ∧ length pk = PublicKeySize ∧
            message = Ok msg ∧ ed_Verify pk msg proof = true.
Proof.
  unfold authenticate, Verify. split.
  - intros H. destruct (default ∅ keys !! id) as [pk|]; [| done]. ok_inv.
    destruct (Nat.eqb_spec (length pk) PublicKeySize); [| done]. simplify_eq.
    exists pk. eexists. split_and!; try done. by apply negb_false_iff.
  - intros (pk & msg & -> & Hl & -> & Hv). step. rewrite Hl, Nat.eqb_refl. step. by rewrite Hv.
Qed.

(** The elements of a commitment pair that honest participants send. *)
Definition well_formed c (h b : Element) : Prop :=
  HidingNonceCommitment c = Some h ∧ BindingNonceCommitment c = Some b ∧
  h ≠ Identity ∧ b ≠ Identity.

Lemma serializeCommitment_Ok id c h b :
  HidingNonceCommitment c = Some h → BindingNonceCommitment c = Some b →
  serializeCommitment id c = Ok (idBytes id ++ e_Bytes h ++ e_Bytes b).
Proof. unfold serializeCommitment. by intros -> ->. Qed.

(** C23: an accepted proof is a valid signature, under the key registered for the
    participant, of a message from which the participant and the two commitments
    can be read back and which no signature share has; but the message leaves out
    the commitment's own identifier, so the same proof is accepted for the pair
    under any other participant's label. *)
Theorem authentication_sound keys id c h b proof :
  is_uint32 id → well_formed c h b →
  ed_AuthenticateCommitment keys id c proof = Ok () →
  ∃ pk msg, default ∅ keys !! id = Some pk ∧ ed_Verify pk msg proof = true ∧
    (∀ id' c' h' b', is_uint32 id' → well_formed c' h' b' →
       serializeCommitment id' c' = Ok msg → id' = id ∧ h' = h ∧ b' = b) ∧
    (2 * ElementLength ≠ ScalarLength →
       ∀ id' sh, serializeSignatureShare id' sh ≠ Ok msg) ∧
    (∀ c', HidingNonceCommitment c' = Some h → BindingNonceCommitment c' = Some b →
       ed_AuthenticateCommitment keys id c' proof = Ok ()).
Proof.
  intros Hid (Hh & Hb & Hh0 & Hb0) H.
  apply authenticate_Ok in H as (pk & msg & Hpk & Hl & Hmsg & Hv). exists pk, msg.
  split; [done |]. split; [done |].
  rewrite (serializeCommitment_Ok _ _ _ _ Hh Hb) in Hmsg.
  assert (msg = idBytes id ++ e_Bytes h ++ e_Bytes b) as -> by (by apply (inj (@Ok error _))).
  split; [| split].
  - intros id' c' h' b' Hid' (Hh' & Hb' & Hh0' & Hb0') Hs.
    rewrite (serializeCommitment_Ok _ _ _ _ Hh' Hb') in Hs.
    assert (idBytes id' ++ e_Bytes h' ++ e_Bytes b' = idBytes id ++ e_Bytes h ++ e_Bytes b)
      as Hs' by (by apply (inj (@Ok error _))). clear Hs. rename Hs' into Hs.
    apply idBytes_inj in Hs as [-> Hs]; [| done..].
    apply app_inj_1 in Hs as [Hs1 Hs2]; [| by rewrite !law_e_Bytes_length].
    split; [done |]. split; by apply law_e_Bytes_inj.
  - intros Hne id' sh Hs. unfold serializeSignatureShare in Hs.
    destruct (share_value sh) as [s|]; [| done]. apply Hne.
    assert (idBytes id' ++ s_Bytes s = idBytes id ++ e_Bytes h ++ e_Bytes b) as Hs'
      by (by apply (inj (@Ok error _))).
    apply (f_equal length) in Hs'. rewrite !length_app, law_s_Bytes,
      law_SerializeScalar_length, !law_e_Bytes_length in Hs' by done.
    cbn in Hs'. lia.
  - intros c' Hh' Hb'. apply authenticate_Ok. eexists _, _. split_and!; [done | done | | done].
    by apply serializeCommitment_Ok.
Qed.

Lemma authentication_complete {LE : Ed25519Laws E} keys id c h b sk :
  well_formed c h b → length sk = PrivateKeySize → default ∅ keys !! id = Some (ed_Public sk) →
  ∃ proof, SignCommitment id c sk = Ok proof ∧ ed_AuthenticateCommitment keys id c proof = Ok ().
Proof.
  intros (Hh & Hb & _ & _) Hsk Hpk. unfold SignCommitment. rewrite Hsk. step.
  rewrite (serializeCommitment_Ok id _ _ _ Hh Hb). eexists. split; [done |].
  apply authenticate_Ok. eexists _, _. split; [done |]. split; [apply law_ed_Public |].
  split; [by apply serializeCommitment_Ok | apply law_ed_Sign].
Qed.

End Facts.
