(* ===== verification/Signer.v ===== *)
(** * Signers: [pkg/signer/signer.go]

    The Ed25519 signer, whose key lives in protected memory ([Secmem.v]), the
    adapter for a foreign [crypto.Signer] and the [MultiSigner] of a coordinator.
    The theorem connects them with the authenticator of [Authenticator.v]: what
    a registered signer signs is accepted under the keys the [MultiSigner] gives
    out, until the signer is destroyed; and creating a signer wipes the key
    slice it is given, so that a second signer made from it has the zero key. *)

From S2P Require Export Authenticator.
From S2P Require Export Secmem.

(** [ed25519.NewKeyFromSeed], whose result ends in the public key. *)
Class Ed25519Keys {E : Ed25519} (LE : Ed25519Laws E) : Type := {
  ed_NewKeyFromSeed : bytes → bytes;
  law_ed_NewKeyFromSeed seed : length seed = 32 →
    length (ed_NewKeyFromSeed seed) = 64 ∧
    drop 32 (ed_NewKeyFromSeed seed) = ed_Public (ed_NewKeyFromSeed seed);
}.

Module signer.
Section Defs.
Context `{Memguard} {E : Ed25519} {LE : Ed25519Laws E} `{!Ed25519Keys LE} `{MapOrder}.
Import secmem.

(** A [crypto.PublicKey], by its dynamic type. *)
Inductive PublicKey :=
| ed25519_PublicKey (key : bytes)
| other_PublicKey (key : bytes).

(** The interface [Signer]; a nil slice is [None]. *)
Record Signer := {
  Public : PublicKey;
  Sign : bytes → Res bytes;
  PublicKeyBytes : option bytes;
  SignBytes : bytes → Res bytes;
}.

(** A [crypto.Signer]: one that implements [Signer] as well, or not. *)
Inductive CryptoSigner :=
| implements_Signer (s : Signer)
| plain_Signer (Public : PublicKey) (Sign : bytes → Res bytes).

Definition crypto_Public (c : CryptoSigner) : PublicKey :=
  match c with implements_Signer s => Public s | plain_Signer p _ => p end.
Definition crypto_Sign (c : CryptoSigner) : bytes → Res bytes :=
  match c with implements_Signer s => Sign s | plain_Signer _ f => f end.

(** *** The Ed25519 signer *)

Record Ed25519Signer := {
  secret : option SecretBytes;
  publicKey : bytes;
}.

(** [ed25519.Sign] panics on a key of the wrong length. *)
Definition ed25519_Sign (key digest : bytes) : Res bytes :=
  if length key =? authenticator.PrivateKeySize then Ok (ed_Sign key digest) else Panic.

(** The signer, and the caller's slice after the call. *)
Definition NewEd25519Signer (privateKey : bytes) : Res Ed25519Signer * bytes :=
  if negb (length privateKey =? authenticator.PrivateKeySize)
  then (Fail (authenticator.private_key_error (length privateKey)), privateKey)
  else
    let publicKey := drop 32 privateKey in
    let '(secret, privateKey) := NewSecretBytes privateKey in
    (Ok {| secret := secret; publicKey := publicKey |}, privateKey).

Definition GenerateEd25519Signer : Rand Ed25519Signer :=
  seed ← rand_wrap (Errorf "failed to generate ed25519 key") (rand_Read 32);
  let priv := ed_NewKeyFromSeed seed in
  let pub := drop 32 priv in
  let '(secret, _) := NewSecretBytes priv in
  mret {| secret := secret; publicKey := pub |}.

Definition ed_Signer_Sign (digest : bytes) (s : Ed25519Signer) : Res bytes * Ed25519Signer :=
  let '(m, secret') := WithSecret (secret s) (λ keyBytes, ed25519_Sign keyBytes digest) in
  (wrap (Errorf "failed to sign") m, {| secret := secret'; publicKey := publicKey s |}).

Definition PrivateKey (s : Ed25519Signer) : option bytes * Ed25519Signer :=
  let '(m, secret') := WithSecret (secret s) (λ keyBytes, Ok keyBytes) in
  (match m with Ok key => Some key | _ => None end,
   {| secret := secret'; publicKey := publicKey s |}).

Definition Destroy (s : Ed25519Signer) : Ed25519Signer :=
  {| secret := secmem.Destroy (secret s); publicKey := publicKey s |}.

(** The signer behind the interface, at a state of its key; signing seals the
    same key again, so later calls answer alike ([Sign_again]). *)
Definition ed_Signer (s : Ed25519Signer) : Signer :=
  {| Public := ed25519_PublicKey (publicKey s);
     Sign := λ digest, (ed_Signer_Sign digest s).1;
     PublicKeyBytes := Some (publicKey s);
     SignBytes := λ message, (ed_Signer_Sign message s).1 |}.

(** *** The adapter *)

Definition adapter_PublicKeyBytes (c : CryptoSigner) : option bytes :=
  match crypto_Public c with
  | ed25519_PublicKey key => Some key
  | other_PublicKey _ => None
  end.

Definition cryptoSignerAdapter (c : CryptoSigner) : Signer :=
  {| Public := crypto_Public c;
     Sign := crypto_Sign c;
     PublicKeyBytes := adapter_PublicKeyBytes c;
     SignBytes := crypto_Sign c |}.

Definition FromCryptoSigner (c : CryptoSigner) : Signer :=
  match c with
  | implements_Signer s => s
  | plain_Signer _ _ => cryptoSignerAdapter c
  end.

(** *** The signers of several participants; a registered one may be nil *)

Definition MultiSigner : Type := gmap Z (option Signer).

Definition NewMultiSigner : MultiSigner := ∅.

Definition AddSigner (participantID : Z) (signer : option Signer) (m : MultiSigner)
  : MultiSigner := <[participantID := signer]> m.

Definition GetSigner (participantID : Z) (m : MultiSigner) : option Signer :=
  default None (m !! participantID).

Definition RemoveSigner (participantID : Z) (m : MultiSigner) : MultiSigner :=
  delete participantID m.

Definition HasSigner (participantID : Z) (m : MultiSigner) : bool :=
  bool_decide (is_Some (m !! participantID)).

Definition PublicKeys (m : MultiSigner) : Res (gmap Z (option bytes)) :=
  range_loop (λ keys '(id, signer), s ← deref signer; Ok (<[id := PublicKeyBytes s]> keys))
    (range_entries 0 m) ∅.

Definition Ed25519PublicKeys (m : MultiSigner) : Res (gmap Z bytes) :=
  range_loop (λ keys '(id, signer),
    s ← deref signer;
    match PublicKeyBytes s with
    | Some pub => Ok (<[id := pub]> keys)
    | None => Ok keys
    end) (range_entries 0 m) ∅.

Definition VerifySignature (publicKey message signature : bytes) : Res bool :=
  authenticator.Verify publicKey message signature.
End Defs.
End signer.

Section Facts.
Context {M : Memguard} `{!MemguardLaws M} {E : Ed25519} {LE : Ed25519Laws E}.
Context {O : MapOrder}.
Import authenticator signer.

(** A signer that was created and not destroyed, with its private key. *)
Definition ready (s : Ed25519Signer) (priv : bytes) : Prop :=
  length priv = PrivateKeySize ∧ holds (secret s) priv ∧ publicKey s = drop 32 priv.

Lemma key_nonempty (priv : bytes) : length priv = PrivateKeySize → priv ≠ [].
Proof. by destruct priv. Qed.

Lemma ZeroBytes_zero b : secmem.ZeroBytes b = zero_bytes (length b).
Proof. unfold secmem.ZeroBytes. by destruct b. Qed.

Lemma NewEd25519Signer_ready priv :
  length priv = PrivateKeySize →
  ∃ s, NewEd25519Signer priv = (Ok s, zero_bytes PrivateKeySize) ∧ ready s priv.
Proof.
  intros Hl. unfold NewEd25519Signer. rewrite Hl. cbn [Nat.eqb negb PrivateKeySize].
  pose proof (NewSecretBytes_holds priv (key_nonempty _ Hl)) as Hs.
  pose proof (ZeroBytes_zero priv) as Hz. rewrite Hl in Hz. cbn [PrivateKeySize] in Hz.
  rewrite <-Hz. destruct priv as [|x priv]; [done |]. eexists.
  split; [done |]. split; [exact Hl | split; [exact Hs | done]].
Qed.

Lemma GenerateEd25519Signer_ready {K : Ed25519Keys LE} r s r' :
  (∀ k n buf, rng_read r k n = Some buf → length buf = n) →
  GenerateEd25519Signer r = (Ok s, r') → ∃ priv, ready s priv ∧ drop 32 priv = ed_Public priv.
Proof.
  intros Hr H. unfold GenerateEd25519Signer, rand_wrap, rand_Read in H.
  unfold mbind, rand_mbind in H. destruct (rng_read r (rng_calls r) 32) as [seed|] eqn:Hs; [| done].
  destruct (law_ed_NewKeyFromSeed seed (Hr _ _ _ Hs)) as [Hl Hp]. cbn in H.
  pose proof (NewSecretBytes_holds _ (key_nonempty _ Hl)) as Hh.
  destruct (secmem.NewSecretBytes _) as [sec z]. injection H as <- _.
  exists (ed_NewKeyFromSeed seed). split; [by split | done].
Qed.

Lemma Sign_ready s priv digest :
  ready s priv →
  (ed_Signer_Sign digest s).1 = Ok (ed_Sign priv digest) ∧ ready (ed_Signer_Sign digest s).2 priv.
Proof.
  intros (Hl & Hs & Hp).
  destruct (WithSecret_holds (secret s) priv (λ k, ed25519_Sign k digest)
    (key_nonempty _ Hl) Hs) as [H1 H2].
  unfold ed_Signer_Sign. destruct (secmem.WithSecret _ _) as [m sec]. cbn in *.
  unfold ed25519_Sign in H1. rewrite Hl, Nat.eqb_refl in H1. subst m. split; [done |].
  split; [done | by split].
Qed.

(** Signing leaves the signer ready to sign. *)
Lemma Sign_again s priv digest digest' :
  ready s priv →
  (ed_Signer_Sign digest' (ed_Signer_Sign digest s).2).1 = (ed_Signer_Sign digest' s).1.
Proof.
  intros H. rewrite (proj1 (Sign_ready _ _ digest' H)).
  by apply Sign_ready, Sign_ready.
Qed.

Lemma Sign_destroyed s priv digest :
  ready s priv →
  (ed_Signer_Sign digest (signer.Destroy s)).1 = Fail (Errorf "failed to sign" secmem.ErrDestroyed).
Proof.
  intros (_ & Hs & _). unfold ed_Signer_Sign. cbn [secret signer.Destroy].
  rewrite WithSecret_gone; [done |]. apply (Destroy_gone _ priv). by left.
Qed.

(** The key that is given out for an entry of the map. *)
Definition key_of (o : option (option Signer)) : option bytes :=
  match o with Some (Some s) => PublicKeyBytes s | _ => None end.

(** The loop that collects the keys. *)
Lemma collect_keys (l : list (Z * option Signer)) (keys : gmap Z bytes) :
  NoDup l.*1 → Forall (λ p, is_Some p.2) l →
  ∃ keys', range_loop (λ keys '(id, signer),
      s ← deref signer;
      match PublicKeyBytes s with
      | Some pub => Ok (<[id := pub]> keys)
      | None => Ok keys
      end) l keys = Ok (Err := error) keys' ∧
    ∀ id, keys' !! id =
      match key_of ((list_to_map l : gmap Z (option Signer)) !! id) with
      | Some pub => Some pub
      | None => keys !! id
      end.
Proof.
  revert keys. induction l as [|[i o] l IH]; intros keys Hnd Hl; cbn [range_loop].
  - exists keys. split; [done |]. intros id. cbn [list_to_map foldr]. by rewrite lookup_empty.
  - apply NoDup_cons in Hnd as [Hi Hnd]. apply Forall_cons in Hl as [[s Ho] Hl]. cbn in Ho. subst o.
    apply not_elem_of_list_to_map_1 in Hi. cbn [fst] in Hi. step.
    destruct (PublicKeyBytes s) as [pub|] eqn:Hp.
    + destruct (IH (<[i := pub]> keys) Hnd Hl) as (keys' & Hk & Hlook). exists keys'.
      split; [done |]. intros id. rewrite Hlook, list_to_map_cons. destruct (decide (i = id)) as [->|Hne].
      * rewrite Hi, !lookup_insert_eq. cbn. by rewrite Hp.
      * by rewrite !lookup_insert_ne by done.
    + destruct (IH keys Hnd Hl) as (keys' & Hk & Hlook). exists keys'.
      split; [done |]. intros id. rewrite Hlook, list_to_map_cons. destruct (decide (i = id)) as [->|Hne].
      * rewrite Hi, !lookup_insert_eq. cbn. by rewrite Hp.
      * by rewrite !lookup_insert_ne by done.
Qed.

(** The keys of the registered signers that have one, whatever its type. *)
Lemma Ed25519PublicKeys_spec (m : gmap Z (option Signer)) :
  map_Forall (λ _ o, is_Some o) m →
  ∃ keys, Ed25519PublicKeys m = Ok keys ∧
    ∀ id, keys !! id = key_of (m !! id).
Proof.
  intros Hm. destruct (collect_keys (range_entries 0 m) ∅ (range_entries_NoDup 0 m)) as (keys & Hk & Hl).
  - apply Forall_forall. intros [i o] Hi. apply elem_of_range_entries in Hi. exact (Hm i o Hi).
  - exists keys. split; [exact Hk |]. intros id. rewrite Hl.
    assert ((list_to_map (range_entries 0 m) : gmap Z (option Signer)) = m) as ->.
    { rewrite <-(list_to_map_to_list m) at 2.
      apply list_to_map_proper; [apply range_entries_NoDup | apply range_entries_perm]. }
    destruct (key_of (m !! id)); [done | apply lookup_empty].
Qed.

Context {G : Group}.

(** C32: for every participant registered with a signer made from an Ed25519 key
    pair, what the signer signs for it, a commitment or a share, is accepted by
    the authenticator under the keys that [Ed25519PublicKeys] gives out; after
    [Destroy] it signs nothing, with an error that is recognizably
    [ErrDestroyed].  The call that makes the signer leaves zeros in the caller's
    key slice, from which a second call makes a signer with the zero key. *)
Theorem signer_authenticates (m : gmap Z (option Signer)) id priv :
  length priv = PrivateKeySize → drop 32 priv = ed_Public priv →
  ∃ s, (NewEd25519Signer priv).1 = Ok s ∧
    (map_Forall (λ _ o, is_Some o) m →
     ∃ keys, Ed25519PublicKeys (AddSigner id (Some (ed_Signer s)) m) = Ok keys ∧
       (∀ c msg, serializeCommitment id c = Ok msg →
          ∃ proof, SignCommitmentWithSigner id c (SignBytes (ed_Signer s)) = Ok proof ∧
                   ed_AuthenticateCommitment (Some keys) id c proof = Ok ()) ∧
       (∀ sh msg, serializeSignatureShare id sh = Ok msg →
          ∃ proof, SignSignatureShareWithSigner id sh (SignBytes (ed_Signer s)) = Ok proof ∧
                   ed_AuthenticateSignatureShare (Some keys) id sh proof = Ok ())) ∧
    (∀ message, ∃ e, SignBytes (ed_Signer (signer.Destroy s)) message = Fail e ∧
                     errors_Is_value e secmem.ErrDestroyed = true) ∧
    (∃ s', (NewEd25519Signer (NewEd25519Signer priv).2).1 = Ok s' ∧
           publicKey s' = zero_bytes PublicKeySize).
Proof.
  intros Hl Hpub. destruct (NewEd25519Signer_ready priv Hl) as (s & -> & Hr). exists s.
  split; [done |]. split_and!.
  - intros Hm. destruct (Ed25519PublicKeys_spec (AddSigner id (Some (ed_Signer s)) m))
      as (keys & Hk & Hlook); [by apply map_Forall_insert_2 |].
    exists keys. split; [done |]. specialize (Hlook id).
    change (keys !! id = key_of (<[id := Some (ed_Signer s)]> m !! id)) in Hlook.
    rewrite lookup_insert_eq in Hlook. cbn in Hlook.
    destruct Hr as (_ & Hs & Hpk). rewrite Hpk, Hpub in Hlook.
    assert (∀ msg what, authenticate (Some keys) id (Ok msg) what (ed_Sign priv msg) = Ok ()) as Hauth.
    { intros msg what. apply authenticate_Ok. eexists _, msg.
      split; [exact Hlook |]. split; [apply law_ed_Public |]. split; [done | apply law_ed_Sign]. }
    pose proof (λ msg, proj1 (Sign_ready s priv msg (conj Hl (conj Hs Hpk)))) as Hsign.
    split; intros x msg Hmsg; exists (ed_Sign priv msg).
    + unfold SignCommitmentWithSigner, ed_AuthenticateCommitment. rewrite Hmsg. step.
      split; [| apply Hauth]. cbn [SignBytes ed_Signer]. by rewrite Hsign.
    + unfold SignSignatureShareWithSigner, ed_AuthenticateSignatureShare. rewrite Hmsg. step.
      split; [| apply Hauth]. cbn [SignBytes ed_Signer]. by rewrite Hsign.
  - intros msg. eexists. split; [by apply (Sign_destroyed s priv) | done].
  - cbn [snd]. destruct (NewEd25519Signer_ready (zero_bytes PrivateKeySize)) as (s' & -> & _ & _ & Hp); [done |].
    exists s'. split; [done |]. by rewrite Hp.
Qed.
End Facts.
