(* ===== verification/Keystore.v ===== *)
(** * The key store: [pkg/frost/keystore]

    [keystore] has the errors, the stored formats and their conversions
    (errors.go, types.go), [adapter] is the wrapping of a storage backend that
    file_storage.go and memory_storage.go share, and [keychain] the key store on
    top of it (keychain_store.go).  encoding/json is a parameter with the
    round-trip law of the two stored structs.

    The theorems: a stored key package is read back until it is deleted or
    updated, whatever else happens to the store, but without its threshold; the
    storage key of an identifier cannot leave its directory, and identifiers
    that differ in the replaced characters share one; and two concurrent stores
    under one identifier can both succeed. *)

From Stdlib Require Import Ascii.
From S2P Require Export Types.
From S2P Require Export Secmem.
From S2P Require Export Storage.

Module keystore.

(** ** errors.go *)

Definition ErrNotFound : error := KeystoreError "not found" None.
Definition ErrAlreadyExists : error := KeystoreError "already exists" None.
Definition ErrInvalidIdentifier : error := KeystoreError "invalid identifier" None.
Definition ErrInvalidGroupID : error := KeystoreError "invalid group ID" None.
Definition ErrInvalidKeyID : error := KeystoreError "invalid key ID" None.
Definition ErrSerializeScalar : error := KeystoreError "serialize scalar" None.
Definition ErrDeserializeScalar : error := KeystoreError "deserialize scalar" None.
Definition ErrSerializeElement : error := KeystoreError "serialize element" None.
Definition ErrDeserializeElement : error := KeystoreError "deserialize element" None.
Definition ErrMarshalJSON : error := KeystoreError "marshal JSON" None.
Definition ErrUnmarshalJSON : error := KeystoreError "unmarshal JSON" None.
Definition ErrStorageBackend : error := KeystoreError "storage backend" None.
Definition ErrInvalidKeyPackage : error := KeystoreError "invalid key package" None.
Definition ErrInvalidMetadata : error := KeystoreError "invalid metadata" None.

(** [e.Op] of a keystore error. *)
Definition Op (e : error) : string :=
  match e with KeystoreError op _ => op | _ => "" end.

(** [e.Wrap(err)] *)
Definition Wrap (e err : error) : error := KeystoreError (Op e) (Some err).

(** [errors.As(err, &kErr)] stops at the first keystore error of the chain. *)
Definition as_KeystoreError (err : error) : option error :=
  List.find (λ e, match e with KeystoreError _ _ => true | _ => false end) (chain err).

Definition has_Op (op : string) (err : error) : bool :=
  match as_KeystoreError err with
  | Some kErr => bool_decide (Op kErr = op)
  | None => false
  end.

Definition IsNotFoundError (err : error) : bool := has_Op (Op ErrNotFound) err.
Definition IsAlreadyExistsError (err : error) : bool := has_Op (Op ErrAlreadyExists) err.
End keystore.

(** ** file_storage.go and memory_storage.go: the backend with the key store's
    errors.  [PutOptions] has the fields of [Options]. *)

Module adapter.
Section Defs.
Context (B : Backend).
Import keystore.

Definition DefaultPutOptions : storage.Options :=
  {| storage.Permissions := 384; storage.Metadata := ∅; storage.TTL := 0 |}.

Definition Put (now : Z) (key : string) (data : bytes) (opts : option storage.Options)
    (s : b_state) : Res unit * b_state :=
  let opts := default DefaultPutOptions opts in
  let storageOpts := {| storage.Permissions := storage.Permissions opts;
                        storage.Metadata := storage.Metadata opts;
                        storage.TTL := storage.TTL opts |} in
  let '(r, s') := b_Put now key data (Some storageOpts) s in
  (wrap (Wrap ErrStorageBackend) r, s').

(** [if err == storage.ErrNotFound { return ErrNotFound }; return
    ErrStorageBackend.Wrap(err)] *)
Definition map_error (err : error) : error :=
  if bool_decide (err = storage.ErrNotFound) then ErrNotFound else Wrap ErrStorageBackend err.

Definition Get (now : Z) (key : string) (s : b_state) : Res bytes :=
  wrap map_error (b_Get now key s).

Definition Delete (key : string) (s : b_state) : Res unit * b_state :=
  let '(r, s') := b_Delete key s in (wrap map_error r, s').

Definition Exists_ (now : Z) (key : string) (s : b_state) : Res bool :=
  wrap (Wrap ErrStorageBackend) (b_Exists now key s).

Definition List_ (now : Z) (prefix : string) (s : b_state) : Res (list string) :=
  wrap (Wrap ErrStorageBackend) (b_List now prefix s).

Definition Close (s : b_state) : Res unit * b_state := b_Close s.

Definition storage_backend : Backend := {|
  b_state := b_state; b_Put := Put; b_Get := Get; b_Delete := Delete;
  b_Exists := Exists_; b_List := List_; b_Close := Close |}.
End Defs.

(** Wrapping keeps the contract, with the key store's own [ErrNotFound]. *)
Section Laws.
Context (B : Backend) {L : BackendLaws B storage.ErrNotFound}.

#[export] Program Instance laws : BackendLaws (storage_backend B) keystore.ErrNotFound := {|
  b_accepts := b_accepts (B := B);
  b_open := b_open (B := B);
  b_live := b_live (B := B);
|}.
Next Obligation.
  intros now k s Ho Hk. cbn. unfold Get. rewrite (law_b_Get (B := B) now k s Ho Hk).
  by destruct (b_live (B := B) now s !! k).
Qed.
Next Obligation. intros now k s Ho Hk. cbn. unfold Exists_. by rewrite (law_b_Exists (B := B) now k s Ho Hk). Qed.
Next Obligation.
  intros now p s Ho. cbn. unfold List_. destruct (law_b_List (B := B) now p s Ho) as (keys & -> & H).
  by exists keys.
Qed.
Next Obligation.
  intros now k d o s Ho Hk Ht. cbn. unfold Put.
  pose proof (law_b_Put (B := B) now k d (Some {|
    storage.Permissions := storage.Permissions (default DefaultPutOptions o);
    storage.Metadata := storage.Metadata (default DefaultPutOptions o);
    storage.TTL := storage.TTL (default DefaultPutOptions o) |}) s Ho Hk) as H.
  destruct (b_Put (Backend := B) _ _ _ _ _) as [r s']. cbn in *.
  destruct H as (-> & H1 & H2); [by destruct o |]. done.
Qed.
Next Obligation.
  intros k s Ho Hk. cbn. unfold Delete. destruct (law_b_Delete (B := B) k s Ho Hk) as (H1 & H2 & H3 & H4).
  destruct (b_Delete (Backend := B) k s) as [r s']. cbn in *. split_and!; [done | done | |].
  - intros now Hl. by rewrite (H3 now Hl).
  - destruct H4 as [-> | ->]; [by left | by right].
Qed.
End Laws.
End adapter.

(** The methods of [FileStorage], in file_storage.go, are the same. *)
Module memory_storage.
Section Defs.
Context `{MapOrder}.

Definition MemoryStorage : Backend := adapter.storage_backend memory_backend.backend.

Definition NewMemoryStorage : b_state (Backend := MemoryStorage) := memory_backend.NewMemoryBackend.

#[export] Instance memory_storage_laws : BackendLaws MemoryStorage keystore.ErrNotFound :=
  adapter.laws memory_backend.backend.
End Defs.
End memory_storage.

(** ** types.go *)

Module stored.
Section Defs.
Context {G : Group} {M : Memguard}.
Import keystore.

Record StoredVerificationShare := {
  svs_Identifier : Z;
  svs_VerificationKey : bytes;
}.

Record KeyMetadata := {
  KeyID : string;
  GroupID : string;
  md_MinSigners : Z;
  md_MaxSigners : Z;
  CreatedAt : Z;
  UpdatedAt : Z;
  Tags : gmap string string;
}.

Record StoredKeyPackage := {
  skp_Identifier : Z;
  skp_SecretShare : bytes;
  SecretShareProtected : option secmem.SecretBytes;
  skp_GroupPublicKey : bytes;
  skp_VerificationShares : list StoredVerificationShare;
  skp_Metadata : KeyMetadata;
}.

Record GroupPublicKeyEntry := {
  ge_GroupID : string;
  ge_PublicKey : bytes;
  ge_MinSigners : Z;
  ge_MaxSigners : Z;
  ge_CreatedAt : Z;
}.

(** One iteration of the loop over the stored verification shares. *)
Definition to_share (vs : StoredVerificationShare) : Res VerificationShare :=
  verificationKey ← wrap (Wrap ErrDeserializeElement) (DeserializeElement (svs_VerificationKey vs));
  Ok {| vs_Identifier := svs_Identifier vs; VerificationKey := Some verificationKey |}.

(** The zero values of the two fields that are not set stay. *)
Definition ToKeyPackage (s : StoredKeyPackage) : Res KeyPackage :=
  secretShare ←
    match SecretShareProtected s with
    | Some _ =>
        (secmem.WithSecret (SecretShareProtected s)
           (λ b, wrap (Wrap ErrDeserializeScalar) (DeserializeScalar b))).1
    | None => wrap (Wrap ErrDeserializeScalar) (DeserializeScalar (skp_SecretShare s))
    end;
  groupPublicKey ← wrap (Wrap ErrDeserializeElement) (DeserializeElement (skp_GroupPublicKey s));
  verificationShares ← range_map to_share (skp_VerificationShares s);
  Ok {| kp_Identifier := skp_Identifier s;
        SecretShare := Some secretShare;
        GroupPublicKey := Some groupPublicKey;
        VerificationShares := verificationShares;
        MinSigners := 0; MaxSigners := 0 |}.

Definition from_share (vs : VerificationShare) : Res StoredVerificationShare :=
  verificationKey ← deref (VerificationKey vs);
  Ok {| svs_Identifier := vs_Identifier vs; svs_VerificationKey := e_Bytes verificationKey |}.

Definition FromKeyPackage (keyID groupID : string) (kp : KeyPackage)
    (minSigners maxSigners createdAt : Z) : Res StoredKeyPackage :=
  share ← deref (SecretShare kp);
  let secretShare := s_Bytes share in
  let '(secretShareProtected, _) := secmem.NewSecretBytes secretShare in
  let secretShareForJSON := s_Bytes share in
  publicKey ← deref (GroupPublicKey kp);
  let groupPublicKey := e_Bytes publicKey in
  verificationShares ← range_map from_share (VerificationShares kp);
  Ok {| skp_Identifier := kp_Identifier kp;
        skp_SecretShare := secretShareForJSON;
        SecretShareProtected := secretShareProtected;
        skp_GroupPublicKey := groupPublicKey;
        skp_VerificationShares := verificationShares;
        skp_Metadata := {| KeyID := keyID; GroupID := groupID; md_MinSigners := minSigners;
                           md_MaxSigners := maxSigners; CreatedAt := createdAt;
                           UpdatedAt := createdAt; Tags := ∅ |} |}.

(** What MarshalJSON leaves out. *)
Definition unprotected (s : StoredKeyPackage) : StoredKeyPackage :=
  {| skp_Identifier := skp_Identifier s; skp_SecretShare := skp_SecretShare s;
     SecretShareProtected := None; skp_GroupPublicKey := skp_GroupPublicKey s;
     skp_VerificationShares := skp_VerificationShares s; skp_Metadata := skp_Metadata s |}.
End Defs.
End stored.

(** encoding/json on the two stored structs. *)
Class Json {M : Memguard} : Type := {
  json_Marshal : stored.StoredKeyPackage → Res bytes;
  json_Unmarshal : bytes → Res stored.StoredKeyPackage;
  json_MarshalGroup : stored.GroupPublicKeyEntry → Res bytes;
  json_UnmarshalGroup : bytes → Res stored.GroupPublicKeyEntry;
}.

(** Strings that are not valid UTF-8 are changed by the encoding. *)
Class JsonLaws {M : Memguard} (J : Json) : Type := {
  utf8 : string → Prop;
  law_json s :
    utf8 (stored.KeyID (stored.skp_Metadata s)) → utf8 (stored.GroupID (stored.skp_Metadata s)) →
    map_Forall (λ k v, utf8 k ∧ utf8 v) (stored.Tags (stored.skp_Metadata s)) →
    json_Marshal s ≫= json_Unmarshal = Ok (stored.unprotected s);
  law_json_group e :
    utf8 (stored.ge_GroupID e) → json_MarshalGroup e ≫= json_UnmarshalGroup = Ok e;
}.

(** ** keychain_store.go *)

(** [strings.ReplaceAll(s, old, new)] with a non-empty [old]: from left to right,
    [skip] characters of a match are still to be passed over. *)
Fixpoint replace_from (skip : nat) (s old new : string) : string :=
  match s with
  | EmptyString => EmptyString
  | String c s' =>
      match skip with
      | S skip => replace_from skip s' old new
      | O => if String.prefix old s
             then new +:+ replace_from (String.length old - 1) s' old new
             else String c (replace_from 0 s' old new)
      end
  end.
Definition ReplaceAll (s old new : string) : string := replace_from 0 s old new.

Module keychain.
Section Defs.
Context {G : Group} {M : Memguard} {J : Json} {S : Backend}.
Import keystore stored.

Definition keyPackagePrefix : string := "frost/keypackages/".
Definition groupKeyPrefix : string := "frost/groups/".
Definition keyPackageSuffix : string := ".json".
Definition groupKeySuffix : string := ".json".

(** The group and the storage of a configuration, when set, are [G] and [S]. *)
Record Config := {
  Group_set : bool;
  Storage_set : bool;
  cfg_Tags : gmap string string;
}.

Record KeychainStore := { config : Config }.

Definition NewKeychainStore (config : option Config) : Res KeychainStore :=
  match config with
  | None => Fail (FreshError "config is required")
  | Some config =>
      _ ← fail_if (negb (Group_set config)) (FreshError "group is required");
      _ ← fail_if (negb (Storage_set config)) (FreshError "storage backend is required");
      Ok {| config := config |}
  end.

Definition sanitize (id : string) : string := ReplaceAll (ReplaceAll id "/" "_") ".." "_".

Definition keyPackageStorageKey (keyID : string) : string :=
  keyPackagePrefix +:+ sanitize keyID +:+ keyPackageSuffix.

Definition groupKeyStorageKey (groupID : string) : string :=
  groupKeyPrefix +:+ sanitize groupID +:+ groupKeySuffix.

(** [time.Now().Unix()] of a clock in nanoseconds. *)
Definition Unix (now : Z) : Z := (now / 1000000000)%Z.

Definition put_options (permissions : Z) : storage.Options :=
  {| storage.Permissions := permissions; storage.Metadata := ∅; storage.TTL := 0 |}.

(** *** Key packages

    The store has no lock: [StoreKeyPackage] first asks whether the key exists
    and later puts the data, with other calls possibly in between. *)

Definition store_check (now : Z) (keyID groupID : string) (kp : option KeyPackage) (s : b_state)
  : Res unit :=
  _ ← fail_if (bool_decide (keyID = "")) ErrInvalidKeyID;
  _ ← fail_if (bool_decide (groupID = "")) ErrInvalidGroupID;
  _ ← fail_if (bool_decide (kp = None)) ErrInvalidKeyPackage;
  exists_ ← wrap (Wrap ErrStorageBackend) (b_Exists now (keyPackageStorageKey keyID) s);
  fail_if exists_ ErrAlreadyExists.

Definition add_tags (tags : gmap string string) (md : KeyMetadata) : KeyMetadata :=
  {| KeyID := KeyID md; GroupID := GroupID md; md_MinSigners := md_MinSigners md;
     md_MaxSigners := md_MaxSigners md; CreatedAt := CreatedAt md; UpdatedAt := UpdatedAt md;
     Tags := tags ∪ Tags md |}.

Definition with_metadata (md : KeyMetadata) (s : StoredKeyPackage) : StoredKeyPackage :=
  {| skp_Identifier := skp_Identifier s; skp_SecretShare := skp_SecretShare s;
     SecretShareProtected := SecretShareProtected s; skp_GroupPublicKey := skp_GroupPublicKey s;
     skp_VerificationShares := skp_VerificationShares s; skp_Metadata := md |}.

Definition store_put (k : KeychainStore) (now : Z) (keyID groupID : string)
    (kp : option KeyPackage) (minSigners maxSigners : Z) (s : b_state) : Res unit * b_state :=
  match (kp ← deref kp;
         storedKP ← FromKeyPackage keyID groupID kp minSigners maxSigners (Unix now);
         let storedKP := with_metadata
               (add_tags (cfg_Tags (config k)) (skp_Metadata storedKP)) storedKP in
         wrap (Wrap ErrMarshalJSON) (json_Marshal storedKP)) with
  | Ok data =>
      let '(r, s') := b_Put now (keyPackageStorageKey keyID) data (Some (put_options 384)) s in
      (wrap (Wrap ErrStorageBackend) r, s')
  | Fail err => (Fail err, s)
  | Panic => (Panic, s)
  end.

Definition StoreKeyPackage (k : KeychainStore) (now : Z) (keyID groupID : string)
    (kp : option KeyPackage) (minSigners maxSigners : Z) (s : b_state) : Res unit * b_state :=
  match store_check now keyID groupID kp s with
  | Ok _ => store_put k now keyID groupID kp minSigners maxSigners s
  | Fail err => (Fail err, s)
  | Panic => (Panic, s)
  end.

(** [if err == ErrNotFound { return ErrNotFound }; return
    ErrStorageBackend.Wrap(err)] *)
Definition pass_not_found (err : error) : error :=
  if bool_decide (err = ErrNotFound) then ErrNotFound else Wrap ErrStorageBackend err.

(** [if len(storedKP.SecretShare) > 0 { protect and wipe it }] *)
Definition protect (s : StoredKeyPackage) : StoredKeyPackage :=
  if 0 <? length (skp_SecretShare s) then
    let '(secret, wiped) := secmem.NewSecretBytes (skp_SecretShare s) in
    {| skp_Identifier := skp_Identifier s; skp_SecretShare := wiped;
       SecretShareProtected := secret; skp_GroupPublicKey := skp_GroupPublicKey s;
       skp_VerificationShares := skp_VerificationShares s; skp_Metadata := skp_Metadata s |}
  else s.

Definition GetKeyPackage (now : Z) (keyID : string) (s : b_state)
  : Res (KeyPackage * KeyMetadata) :=
  _ ← fail_if (bool_decide (keyID = "")) ErrInvalidKeyID;
  data ← wrap pass_not_found (b_Get now (keyPackageStorageKey keyID) s);
  storedKP ← wrap (Wrap ErrUnmarshalJSON) (json_Unmarshal data);
  let storedKP := protect storedKP in
  kp ← ToKeyPackage storedKP;
  Ok (kp, skp_Metadata storedKP).

Definition DeleteKeyPackage (keyID : string) (s : b_state) : Res unit * b_state :=
  if bool_decide (keyID = "") then (Fail ErrInvalidKeyID, s)
  else
    let '(r, s') := b_Delete (keyPackageStorageKey keyID) s in (wrap pass_not_found r, s').

(** One iteration of the listing loop: unreadable entries are skipped. *)
Definition list_one (now : Z) (groupID : string) (s : b_state) (metadata : list KeyMetadata)
    (key : string) : Res (list KeyMetadata) :=
  match b_Get now key s with
  | Ok data =>
      match json_Unmarshal data with
      | Ok storedKP =>
          if negb (bool_decide (groupID = ""))
             && negb (bool_decide (GroupID (skp_Metadata storedKP) = groupID))
          then Ok metadata else Ok (metadata ++ [skp_Metadata storedKP])
      | Fail _ => Ok metadata
      | Panic => Panic
      end
  | Fail _ => Ok metadata
  | Panic => Panic
  end.

Definition ListKeyPackages (now : Z) (groupID : string) (s : b_state) : Res (list KeyMetadata) :=
  keys ← wrap (Wrap ErrStorageBackend) (b_List now keyPackagePrefix s);
  range_loop (list_one now groupID s) keys [].

Definition KeyPackageExists (now : Z) (keyID : string) (s : b_state) : Res bool :=
  _ ← fail_if (bool_decide (keyID = "")) ErrInvalidKeyID;
  wrap (Wrap ErrStorageBackend) (b_Exists now (keyPackageStorageKey keyID) s).

Definition stamp (now : Z) (md : KeyMetadata) : KeyMetadata :=
  {| KeyID := KeyID md; GroupID := GroupID md; md_MinSigners := md_MinSigners md;
     md_MaxSigners := md_MaxSigners md; CreatedAt := CreatedAt md; UpdatedAt := Unix now;
     Tags := Tags md |}.

(** The last component is the caller's metadata afterwards: its update time is
    set even when the call then fails. *)
Definition UpdateMetadata (now : Z) (keyID : string) (metadata : option KeyMetadata) (s : b_state)
  : Res unit * b_state * option KeyMetadata :=
  match (_ ← fail_if (bool_decide (keyID = "")) ErrInvalidKeyID;
         md ← match metadata with Some md => Ok md | None => Fail ErrInvalidMetadata end;
         data ← wrap pass_not_found (b_Get now (keyPackageStorageKey keyID) s);
         storedKP ← wrap (Wrap ErrUnmarshalJSON) (json_Unmarshal data);
         Ok (stamp now md, storedKP)) with
  | Ok (md, storedKP) =>
      match wrap (Wrap ErrMarshalJSON) (json_Marshal (with_metadata md storedKP)) with
      | Ok updatedData =>
          let '(r, s') :=
            b_Put now (keyPackageStorageKey keyID) updatedData (Some (put_options 384)) s in
          (wrap (Wrap ErrStorageBackend) r, s', Some md)
      | Fail err => (Fail err, s, Some md)
      | Panic => (Panic, s, Some md)
      end
  | Fail err => (Fail err, s, metadata)
  | Panic => (Panic, s, metadata)
  end.

(** *** Group public keys *)

Definition StoreGroupPublicKey (now : Z) (groupID : string) (publicKey : option Element)
    (minSigners maxSigners : Z) (s : b_state) : Res unit * b_state :=
  match (_ ← fail_if (bool_decide (groupID = "")) ErrInvalidGroupID;
         publicKey ← match publicKey with
                     | Some pk => Ok pk
                     | None => Fail (FreshError "public key is required")
                     end;
         exists_ ← wrap (Wrap ErrStorageBackend) (b_Exists now (groupKeyStorageKey groupID) s);
         _ ← fail_if exists_ ErrAlreadyExists;
         let entry := {| ge_GroupID := groupID; ge_PublicKey := e_Bytes publicKey;
                         ge_MinSigners := minSigners; ge_MaxSigners := maxSigners;
                         ge_CreatedAt := Unix now |} in
         wrap (Wrap ErrMarshalJSON) (json_MarshalGroup entry)) with
  | Ok data =>
      let '(r, s') := b_Put now (groupKeyStorageKey groupID) data (Some (put_options 420)) s in
      (wrap (Wrap ErrStorageBackend) r, s')
  | Fail err => (Fail err, s)
  | Panic => (Panic, s)
  end.

Definition GetGroupPublicKey (now : Z) (groupID : string) (s : b_state) : Res Element :=
  _ ← fail_if (bool_decide (groupID = "")) ErrInvalidGroupID;
  data ← wrap pass_not_found (b_Get now (groupKeyStorageKey groupID) s);
  entry ← wrap (Wrap ErrUnmarshalJSON) (json_UnmarshalGroup data);
  wrap (Wrap ErrDeserializeElement) (DeserializeElement (ge_PublicKey entry)).

Definition DeleteGroupPublicKey (groupID : string) (s : b_state) : Res unit * b_state :=
  if bool_decide (groupID = "") then (Fail ErrInvalidGroupID, s)
  else
    let '(r, s') := b_Delete (groupKeyStorageKey groupID) s in (wrap pass_not_found r, s').

Definition list_group (now : Z) (s : b_state) (entries : list GroupPublicKeyEntry) (key : string)
  : Res (list GroupPublicKeyEntry) :=
  match b_Get now key s with
  | Ok data =>
      match json_UnmarshalGroup data with
      | Ok entry => Ok (entries ++ [entry])
      | Fail _ => Ok entries
      | Panic => Panic
      end
  | Fail _ => Ok entries
  | Panic => Panic
  end.

Definition ListGroups (now : Z) (s : b_state) : Res (list GroupPublicKeyEntry) :=
  keys ← wrap (Wrap ErrStorageBackend) (b_List now groupKeyPrefix s);
  range_loop (list_group now s) keys [].

Definition GroupExists (now : Z) (groupID : string) (s : b_state) : Res bool :=
  _ ← fail_if (bool_decide (groupID = "")) ErrInvalidGroupID;
  wrap (Wrap ErrStorageBackend) (b_Exists now (groupKeyStorageKey groupID) s).

Definition Close (s : b_state) : Res unit * b_state := b_Close s.
End Defs.
End keychain.

(** ** Storage keys *)

Section Keys.
Context {G : Group} {M : Memguard} {J : Json} {S : Backend}.
Import keystore keychain.

(** The two replacements, written out. *)
Definition slash : ascii := "/"%char.
Definition dot : ascii := "."%char.
Fixpoint slashes (s : string) : string :=
  match s with
  | EmptyString => EmptyString
  | String c s => String (if decide (c = slash) then "_"%char else c) (slashes s)
  end.

Lemma prefix_one c c' s : String.prefix (String c "") (String c' s) = bool_decide (c = c').
Proof.
  change (String.prefix (String c "") (String c' s))
    with (if Ascii.ascii_dec c c' then String.prefix "" s else false).
  destruct (Ascii.ascii_dec c c') as [->|Hc].
  - rewrite bool_decide_true by done. by destruct s.
  - by rewrite bool_decide_false.
Qed.

Lemma ReplaceAll_slashes s : ReplaceAll s "/" "_" = slashes s.
Proof.
  unfold ReplaceAll. induction s as [|c s IH]; [done |]. cbn [replace_from].
  rewrite prefix_one. case_bool_decide as Hc; cbn [slashes].
  - subst c. rewrite decide_True by done. cbn. by rewrite IH.
  - rewrite decide_False by done. by rewrite IH.
Qed.

(** The first two characters decide whether [..] is replaced. *)
Lemma prefix_dots c s :
  String.prefix ".." (String c s) = bool_decide (c = dot) && String.prefix "." s.
Proof.
  change (String.prefix ".." (String c s))
    with (if Ascii.ascii_dec dot c then String.prefix "." s else false).
  destruct (Ascii.ascii_dec dot c) as [<-|Hc].
  - by rewrite bool_decide_true.
  - by rewrite bool_decide_false by congruence.
Qed.

Definition dots (s : string) : string := ReplaceAll s ".." "_".

Lemma dots_cons c s :
  dots (String c s) =
    if bool_decide (c = dot) && String.prefix "." s
    then String "_" (dots (match s with String _ s' => s' | EmptyString => EmptyString end))
    else String c (dots s).
Proof.
  unfold dots, ReplaceAll. cbn [replace_from]. rewrite prefix_dots.
  destruct (bool_decide (c = dot)); cbn [andb]; [| done].
  destruct (String.prefix "." s) eqn:Hs; [| done]. by destruct s as [|c' s].
Qed.

(** Induction along the replacements. *)
Lemma dots_ind (P : string → string → Prop) :
  P "" "" →
  (∀ s, P s (dots s) → P (String dot (String dot s)) (String "_" (dots s))) →
  (∀ c s, ¬ (c = dot ∧ String.prefix "." s = true) → P s (dots s) →
     P (String c s) (String c (dots s))) →
  ∀ s, P s (dots s).
Proof.
  intros H0 H2 H1 s. assert (∀ n s, String.length s < n → P s (dots s)) as H;
    [| by apply (H (1 + String.length s)); lia].
  intros n. induction n as [|n IH]; intros [|c t] Hn; [lia | lia | done |]. cbn in Hn.
  rewrite dots_cons. destruct (bool_decide (c = dot) && String.prefix "." t) eqn:Hd.
  - apply andb_true_iff in Hd as [->%bool_decide_eq_true Ht].
    destruct t as [|c' t]; [done |]. rewrite prefix_one in Ht. apply bool_decide_eq_true in Ht as <-.
    apply H2, IH. cbn in Hn. lia.
  - apply H1; [| apply IH; lia]. intros [-> Ht]. by rewrite Ht in Hd.
Qed.

Lemma Contains_cons c s sub :
  storage.Contains (String c s) sub = storage.HasPrefix (String c s) sub || storage.Contains s sub.
Proof. done. Qed.

Lemma slashes_none s : storage.Contains (slashes s) "/" = false.
Proof.
  induction s as [|c s IH]; [done |]. cbn [slashes]. rewrite Contains_cons, IH.
  unfold storage.HasPrefix. rewrite prefix_one, orb_false_r. apply bool_decide_eq_false.
  by destruct (decide (c = slash)).
Qed.

Lemma dots_keep_slashes s :
  storage.Contains s "/" = false → storage.Contains (dots s) "/" = false.
Proof.
  apply (dots_ind (λ s t, storage.Contains s "/" = false → storage.Contains t "/" = false)); [done | |].
  - intros t IH H. rewrite !Contains_cons in *. apply IH. by apply orb_false_iff in H as [_ H].
  - intros c t _ IH H. rewrite Contains_cons in *. unfold storage.HasPrefix in *.
    rewrite prefix_one in *. apply orb_false_iff in H as [-> H]. by apply IH.
Qed.

Lemma dots_first s : String.prefix "." (dots s) = true → String.prefix "." s = true.
Proof.
  apply (dots_ind (λ s t, String.prefix "." t = true → String.prefix "." s = true)); [done | done |].
  intros c t _ _. by rewrite !prefix_one.
Qed.

Lemma dots_none s : storage.Contains (dots s) ".." = false.
Proof.
  apply (dots_ind (λ _ t, storage.Contains t ".." = false)); [done | |].
  - intros t H. rewrite Contains_cons, H. by destruct (dots t).
  - intros c t Hn H. rewrite Contains_cons, H, orb_false_r. unfold storage.HasPrefix.
    rewrite prefix_dots. apply andb_false_iff. destruct (decide (c = dot)) as [->|Hc].
    + right. destruct (String.prefix "." (dots t)) eqn:Ht; [| done].
      destruct Hn. split; [done | by apply dots_first].
    + left. by apply bool_decide_eq_false.
Qed.

Lemma slashes_id s : storage.Contains s "/" = false → slashes s = s.
Proof.
  induction s as [|c s IH]; [done |]. rewrite Contains_cons. unfold storage.HasPrefix.
  rewrite prefix_one. intros [Hc Hs]%orb_false_iff. apply bool_decide_eq_false in Hc.
  cbn [slashes]. rewrite decide_False by (intros ->; by apply Hc). by rewrite IH.
Qed.

Lemma dots_id s : storage.Contains s ".." = false → dots s = s.
Proof.
  apply (dots_ind (λ s t, storage.Contains s ".." = false → t = s)); [done | by intros [] _ |].
  intros c t _ IH. rewrite Contains_cons. intros [_ H]%orb_false_iff. by rewrite IH.
Qed.

(** The string ends in a dot. *)
Fixpoint ends_dot (s : string) : bool :=
  match s with
  | EmptyString => false
  | String c EmptyString => bool_decide (c = dot)
  | String _ s => ends_dot s
  end.

Lemma Contains_dots_app s t :
  storage.Contains (s +:+ t) ".."
  = storage.Contains s ".." || storage.Contains t ".." || (ends_dot s && String.prefix "." t).
Proof.
  induction s as [|c s IH]; [cbn; by rewrite orb_false_r |].
  change (String c s +:+ t) with (String c (s +:+ t)). rewrite !Contains_cons, IH.
  unfold storage.HasPrefix. rewrite !prefix_dots. destruct s as [|c' s].
  - cbn [String.app ends_dot storage.Contains storage.HasPrefix String.prefix orb].
    change ("" +:+ t) with t.
    by destruct (bool_decide (c = dot)), (String.prefix "." t), (storage.Contains t "..").
  - change (String c' s +:+ t) with (String c' (s +:+ t)). rewrite !prefix_one. cbn [ends_dot].
    by rewrite !orb_assoc.
Qed.

Lemma app_inj_suffix (s s' t : string) : s +:+ t = s' +:+ t → s = s'.
Proof.
  revert s'. induction s as [|c s IH]; intros [|c' s'] H; [done | | |].
  - apply (f_equal String.length) in H. rewrite !length_append in H. cbn in H. lia.
  - apply (f_equal String.length) in H. rewrite !length_append in H. cbn in H. lia.
  - injection H as -> H. by rewrite (IH s').
Qed.

Lemma app_inj_prefix (p s s' : string) : p +:+ s = p +:+ s' → s = s'.
Proof. induction p as [|c p IH]; [done |]. intros H. apply IH. by injection H. Qed.

Lemma sanitize_eq id : sanitize id = dots (slashes id).
Proof. unfold sanitize. by rewrite ReplaceAll_slashes. Qed.

Lemma storage_key_eq id id' :
  keyPackageStorageKey id = keyPackageStorageKey id' ↔ sanitize id = sanitize id'.
Proof.
  unfold keyPackageStorageKey. split; [| by intros ->].
  intros H%app_inj_prefix%app_inj_suffix. done.
Qed.

(** The storage key of a key package is a name in the key packages'
    directory: between prefix and suffix there is no slash and no [..], so that
    no identifier leaves the directory or meets a group's key.  The name is the
    identifier itself when that has no slash and no [..]; any two identifiers
    share a storage key exactly when they agree after the replacements, as
    [a/b], [a..b] and [a_b] do.  The whole key contains a [..], which a file
    backend refuses, exactly when the name ends in a dot. *)
Theorem storage_keys id :
  storage.Contains (sanitize id) "/" = false ∧ storage.Contains (sanitize id) ".." = false ∧
  (storage.Contains id "/" = false → storage.Contains id ".." = false → sanitize id = id) ∧
  (∀ id', keyPackageStorageKey id = keyPackageStorageKey id' ↔ sanitize id = sanitize id') ∧
  (∀ groupID, keyPackageStorageKey id ≠ groupKeyStorageKey groupID) ∧
  storage.Contains (keyPackageStorageKey id) ".." = ends_dot (sanitize id) ∧
  keyPackageStorageKey "a/b" = keyPackageStorageKey "a_b" ∧
  keyPackageStorageKey "a..b" = keyPackageStorageKey "a_b".
Proof.
  assert (storage.Contains (sanitize id) ".." = false) as Hd
    by (rewrite sanitize_eq; apply dots_none).
  split_and!; [| done | | | done | | done | done].
  - rewrite sanitize_eq. apply dots_keep_slashes, slashes_none.
  - intros H1 H2. rewrite sanitize_eq, slashes_id by done. by apply dots_id.
  - intros id'. apply storage_key_eq.
  - unfold keyPackageStorageKey. rewrite !Contains_dots_app, Hd. cbn.
    by rewrite andb_true_r, orb_false_r.
Qed.
End Keys.

(** ** Storing and reading back *)

Section Store.
Context {G : Group} {L : GroupLaws G} {M : Memguard} `{!MemguardLaws M}.
Context {J : Json} {JL : JsonLaws J} {B : Backend} {LB : BackendLaws B keystore.ErrNotFound}.
Import keystore stored keychain.
Implicit Types (kp : KeyPackage) (s : b_state) (now : Z).

(** What is left of a key package in the store. *)
Definition forget kp : KeyPackage :=
  {| kp_Identifier := kp_Identifier kp; SecretShare := SecretShare kp;
     GroupPublicKey := GroupPublicKey kp; VerificationShares := VerificationShares kp;
     MinSigners := 0; MaxSigners := 0 |}.

(** A key package without nil fields and identity keys. *)
Definition usable_element (o : option Element) : Prop := ∃ P, o = Some P ∧ P ≠ Identity.
Definition storable kp : Prop :=
  is_Some (SecretShare kp) ∧ usable_element (GroupPublicKey kp) ∧
  Forall (λ vs, usable_element (VerificationKey vs)) (VerificationShares kp).

Lemma element_back P : P ≠ Identity → DeserializeElement (e_Bytes P) = Ok P.
Proof. intros HP. by apply law_DeserializeElement. Qed.

Lemma shares_back vss :
  Forall (λ vs, usable_element (VerificationKey vs)) vss →
  ∃ svs, range_map from_share vss = Ok svs ∧ range_map to_share svs = Ok vss.
Proof.
  induction 1 as [|vs vss (P & Hvs & HP) _ (svs & IH1 & IH2)]; [by exists [] |].
  eexists ({| svs_Identifier := vs_Identifier vs; svs_VerificationKey := e_Bytes P |} :: svs).
  cbn [range_map]. unfold from_share at 1. rewrite Hvs. step. rewrite IH1. split; [done |].
  unfold to_share at 1. cbn [svs_VerificationKey]. rewrite (element_back P HP). step.
  rewrite IH2. cbn. rewrite <-Hvs. by destruct vs.
Qed.

Lemma share_nonempty (x : Scalar) : s_Bytes x ≠ [].
Proof.
  intros Hx. pose proof law_ScalarLength. pose proof (law_SerializeScalar_length x) as Hl.
  rewrite <-law_s_Bytes, Hx in Hl. cbn in Hl. lia.
Qed.

(** The conversions undo each other, with any metadata and through JSON. *)
Lemma package_back keyID groupID kp mn mx t :
  storable kp →
  ∃ st, FromKeyPackage keyID groupID kp mn mx t = Ok st ∧
    skp_Metadata st = {| KeyID := keyID; GroupID := groupID; md_MinSigners := mn;
      md_MaxSigners := mx; CreatedAt := t; UpdatedAt := t; Tags := ∅ |} ∧
    ∀ md, ToKeyPackage (protect (unprotected (with_metadata md st))) = Ok (forget kp).
Proof.
  intros ([x Hx] & (P & HP & HP0) & Hvs). destruct (shares_back _ Hvs) as (svs & Hf & Ht).
  pose proof (share_nonempty x) as Hne.
  unfold FromKeyPackage. rewrite Hx. step. destruct (secmem.NewSecretBytes (s_Bytes x)) as [sec z].
  rewrite HP. step. rewrite Hf. step. eexists. split; [done |]. split; [done |]. intros md.
  unfold protect. cbn [with_metadata unprotected skp_SecretShare].
  rewrite (proj2 (Nat.ltb_lt _ _)) by (destruct (s_Bytes x); [done | cbn; lia]).
  pose proof (NewSecretBytes_holds _ Hne) as Hh.
  destruct (secmem.NewSecretBytes (s_Bytes x)) as [[sec'|] z']; [| done]. cbn in Hh.
  unfold ToKeyPackage. cbn [SecretShareProtected].
  rewrite (proj1 (WithSecret_holds _ _ _ Hne Hh)), law_s_Bytes, law_SerializeScalar. step.
  cbn [unprotected with_metadata skp_GroupPublicKey skp_VerificationShares skp_Identifier].
  rewrite (element_back P HP0). step. rewrite Ht. step. unfold forget. by rewrite Hx, HP.
Qed.

(** Under its storage key the backend holds data that reads as the package. *)
Definition holds_package keyID kp md s : Prop :=
  b_open s ∧ ∃ data st, (∀ now, b_live now s !! keyPackageStorageKey keyID = Some data) ∧
    json_Unmarshal data = Ok st ∧ ToKeyPackage (protect st) = Ok (forget kp) ∧
    skp_Metadata (protect st) = md.

Lemma holds_package_read keyID kp md s now :
  b_accepts (keyPackageStorageKey keyID) → keyID ≠ "" →
  holds_package keyID kp md s → GetKeyPackage now keyID s = Ok (forget kp, md).
Proof.
  intros Ha Hk (Ho & data & st & Hl & Hu & Hp & Hm). unfold GetKeyPackage.
  rewrite bool_decide_false by done. step. rewrite (law_b_Get _ _ _ Ho Ha), Hl. step.
  rewrite Hu. step. rewrite Hp. step. by rewrite Hm.
Qed.

Lemma protect_metadata st : skp_Metadata (protect st) = skp_Metadata st.
Proof. unfold protect. destruct (0 <? _); [| done]. by destruct (secmem.NewSecretBytes _). Qed.

(** The metadata under which a package is stored. *)
Definition stored_metadata (k : KeychainStore) now keyID groupID mn mx : KeyMetadata :=
  {| KeyID := keyID; GroupID := groupID; md_MinSigners := mn; md_MaxSigners := mx;
     CreatedAt := Unix now; UpdatedAt := Unix now; Tags := cfg_Tags (config k) |}.

Definition tags_ok (k : KeychainStore) : Prop :=
  map_Forall (λ x y, utf8 x ∧ utf8 y) (cfg_Tags (config k)).

(** The second half of a store writes the package, whatever was there. *)
Lemma store_put_holds k now keyID groupID kp mn mx s :
  b_open s → b_accepts (keyPackageStorageKey keyID) → storable kp →
  utf8 keyID → utf8 groupID → tags_ok k →
  (store_put k now keyID groupID (Some kp) mn mx s).1 = Ok () ∧
  holds_package keyID kp (stored_metadata k now keyID groupID mn mx)
    (store_put k now keyID groupID (Some kp) mn mx s).2.
Proof.
  intros Ho Ha Hst Hk Hg Htags.
  destruct (package_back keyID groupID kp mn mx (Unix now) Hst) as (st & Hf & Hm & Hback).
  unfold store_put. step. rewrite Hf. step.
  set (md := add_tags _ _). set (st' := with_metadata md st).
  assert (md = stored_metadata k now keyID groupID mn mx) as Hmd.
  { unfold md, add_tags. rewrite Hm. cbn. by rewrite (right_id_L ∅ (∪)). }
  pose proof (law_json (J := J) st') as Hj. cbn [skp_Metadata with_metadata st'] in Hj.
  rewrite Hmd in Hj. specialize (Hj Hk Hg Htags). apply bind_Ok in Hj as (data & Hdata & Hun).
  rewrite Hdata. step.
  destruct (law_b_Put now _ data (Some (put_options 384)) s Ho Ha eq_refl) as (H1 & H2 & H3).
  destruct (b_Put _ _ _ _ _) as [r s']. cbn [fst snd] in *. subst r. split; [done |].
  split; [done |]. exists data, (unprotected st'). split_and!; [| done | apply Hback |].
  - intros now'. by rewrite H3, lookup_insert_eq.
  - by rewrite protect_metadata.
Qed.

Lemma store_put_elsewhere k now keyID groupID (o : option KeyPackage) mn mx s :
  b_open s → b_accepts (keyPackageStorageKey keyID) → ∀ now' key,
  key ≠ keyPackageStorageKey keyID →
  b_live now' (store_put k now keyID groupID o mn mx s).2 !! key = b_live now' s !! key.
Proof.
  intros Ho Ha now' key Hne. unfold store_put. destruct (_ ≫= _) as [data|e|]; [| done..].
  destruct (law_b_Put now _ data (Some (put_options 384)) s Ho Ha eq_refl) as (_ & _ & H3).
  destruct (b_Put _ _ _ _ _) as [r s']. cbn [fst snd] in *. by rewrite H3, lookup_insert_ne.
Qed.

(** *** Calls that leave a package alone *)

Inductive call :=
| CStore (now : Z) (keyID groupID : string) (kp : option KeyPackage) (mn mx : Z)
| CDelete (keyID : string)
| CUpdate (now : Z) (keyID : string) (md : option KeyMetadata)
| CStoreGroup (now : Z) (groupID : string) (publicKey : option Element) (mn mx : Z)
| CDeleteGroup (groupID : string).

Definition call_state (k : KeychainStore) (c : call) s : b_state :=
  match c with
  | CStore now keyID groupID kp mn mx => (StoreKeyPackage k now keyID groupID kp mn mx s).2
  | CDelete keyID => (DeleteKeyPackage keyID s).2
  | CUpdate now keyID md => (UpdateMetadata now keyID md s).1.2
  | CStoreGroup now groupID pk mn mx => (StoreGroupPublicKey now groupID pk mn mx s).2
  | CDeleteGroup groupID => (DeleteGroupPublicKey groupID s).2
  end.

Definition call_key (c : call) : string :=
  match c with
  | CStore _ keyID _ _ _ _ | CDelete keyID | CUpdate _ keyID _ => keyPackageStorageKey keyID
  | CStoreGroup _ groupID _ _ _ | CDeleteGroup groupID => groupKeyStorageKey groupID
  end.

(** Deleting and updating are what may change the entry of a key. *)
Definition may_change (key : string) (c : call) : Prop :=
  match c with CDelete _ | CUpdate _ _ _ | CDeleteGroup _ => call_key c = key | _ => False end.

Definition other_call (k : KeychainStore) (key : string) s s' : Prop :=
  ∃ c, b_accepts (call_key c) ∧ ¬ may_change key c ∧ s' = call_state k c s.

(** A state in which [key] has [data] for ever. *)
Definition kept (key : string) (data : bytes) s : Prop :=
  b_open s ∧ ∀ now, b_live now s !! key = Some data.

Lemma Put_kept key data now key' data' p s :
  b_accepts key' → key' ≠ key → kept key data s →
  kept key data (b_Put now key' data' (Some (put_options p)) s).2.
Proof.
  intros Ha Hne [Ho Hl]. destruct (law_b_Put now key' data' (Some (put_options p)) s Ho Ha eq_refl)
    as (_ & H2 & H3). split; [done |]. intros now'. by rewrite H3, lookup_insert_ne.
Qed.

Lemma Delete_kept key data key' s :
  b_accepts key' → key' ≠ key → kept key data s → kept key data (b_Delete key' s).2.
Proof.
  intros Ha Hne [Ho Hl]. destruct (law_b_Delete key' s Ho Ha) as (H1 & H2 & _).
  split; [done |]. intros now'. by rewrite H2, lookup_delete_ne.
Qed.

Lemma Exists_kept now key data s :
  b_accepts key → kept key data s → b_Exists now key s = Ok true.
Proof.
  intros Ha [Ho Hl]. rewrite (law_b_Exists _ _ _ Ho Ha), Hl. by rewrite bool_decide_true.
Qed.

Lemma store_check_kept now keyID groupID (o : option KeyPackage) data s :
  b_accepts (keyPackageStorageKey keyID) → kept (keyPackageStorageKey keyID) data s →
  keyID ≠ "" → groupID ≠ "" → o ≠ None →
  store_check now keyID groupID o s = Fail ErrAlreadyExists.
Proof.
  intros Ha Hkept Hk Hg Hkp. unfold store_check. rewrite !bool_decide_false by done. step.
  by rewrite (Exists_kept _ _ _ _ Ha Hkept).
Qed.

(** Splits on the outcome that decides what a call does; the failing branches
    leave the state as it is. *)
Ltac on_outcome H :=
  lazymatch goal with
  | |- kept _ _ (snd (match ?m with Ok _ => _ | Fail _ => _ | Panic => _ end)) =>
      destruct m as [?|?|] eqn:H; [| done | done]
  | |- kept _ _ (snd (fst (match ?m with Ok _ => _ | Fail _ => _ | Panic => _ end))) =>
      destruct m as [?|?|] eqn:H; [| done | done]
  end.

Lemma other_call_kept k key data s s' :
  other_call k key s s' → kept key data s → kept key data s'.
Proof.
  intros (c & Ha & Hn & ->) Hkept.
  destruct c as [now id g kp mn mx|id|now id md|now g pk mn mx|g]; cbn in *.
  - unfold StoreKeyPackage. on_outcome Hc.
    assert (keyPackageStorageKey id ≠ key) as Hne.
    { intros <-. unfold store_check in Hc. rewrite (Exists_kept _ _ _ _ Ha Hkept) in Hc.
      by destruct (bool_decide (id = "")), (bool_decide (g = "")), (bool_decide (kp = None)). }
    unfold store_put. on_outcome Hd.
    pose proof (Put_kept key data now _ a0 384 s Ha Hne Hkept). by destruct (b_Put _ _ _ _ _).
  - unfold DeleteKeyPackage. case_bool_decide; [done |].
    pose proof (Delete_kept key data _ s Ha Hn Hkept). by destruct (b_Delete _ _).
  - unfold UpdateMetadata. on_outcome Hc. destruct a as [md' st].
    on_outcome Hd.
    pose proof (Put_kept key data now _ a 384 s Ha Hn Hkept). by destruct (b_Put _ _ _ _ _).
  - unfold StoreGroupPublicKey. on_outcome Hc.
    assert (groupKeyStorageKey g ≠ key) as Hne.
    { intros <-. rewrite (Exists_kept _ _ _ _ Ha Hkept) in Hc.
      by destruct (bool_decide (g = "")), pk. }
    pose proof (Put_kept key data now _ a 420 s Ha Hne Hkept). by destruct (b_Put _ _ _ _ _).
  - unfold DeleteGroupPublicKey. case_bool_decide; [done |].
    pose proof (Delete_kept key data _ s Ha Hn Hkept). by destruct (b_Delete _ _).
Qed.

Lemma other_calls_hold k keyID kp md s s' :
  rtc (other_call k (keyPackageStorageKey keyID)) s s' →
  holds_package keyID kp md s → holds_package keyID kp md s'.
Proof.
  intros Hst (Ho & data & st & Hl & Hrest).
  assert (kept (keyPackageStorageKey keyID) data s') as [Ho' Hl'].
  { assert (kept (keyPackageStorageKey keyID) data s) as Hk by done.
    clear -Hst Hk LB. induction Hst; eauto using other_call_kept. }
  split; [done |]. by exists data, st.
Qed.

(** A fresh entry passes the first half of a store. *)
Lemma store_check_fresh now keyID groupID kp s :
  b_open s → b_accepts (keyPackageStorageKey keyID) →
  b_live now s !! keyPackageStorageKey keyID = None → keyID ≠ "" → groupID ≠ "" →
  store_check now keyID groupID (Some kp) s = Ok ().
Proof.
  intros Ho Ha Hl Hk Hg. unfold store_check. rewrite !bool_decide_false by done. step.
  by rewrite (law_b_Exists _ _ _ Ho Ha), Hl.
Qed.

Lemma holds_package_kept keyID kp md s :
  holds_package keyID kp md s → ∃ data, kept (keyPackageStorageKey keyID) data s.
Proof. intros (Ho & data & _ & Hl & _). by exists data. Qed.

(** C28: over every backend that keeps its contract, a key package stored under a
    free identifier is read back after any sequence of other calls, with the
    metadata it was stored under: calls for other keys or groups, and stores
    under the same identifier, which are refused.  Only deleting or updating an
    identifier with the same storage key changes what is read.  The package
    that comes back has lost its threshold and its number of participants. *)
Theorem keystore_roundtrip k now keyID groupID kp mn mx s :
  b_open s → b_accepts (keyPackageStorageKey keyID) →
  b_live now s !! keyPackageStorageKey keyID = None →
  keyID ≠ "" → groupID ≠ "" → storable kp → utf8 keyID → utf8 groupID → tags_ok k →
  let '(r, s1) := StoreKeyPackage k now keyID groupID (Some kp) mn mx s in
  r = Ok () ∧
  ∀ s2, rtc (other_call k (keyPackageStorageKey keyID)) s1 s2 →
    (∀ now', GetKeyPackage now' keyID s2
       = Ok (forget kp, stored_metadata k now keyID groupID mn mx)) ∧
    (∀ now' kp' mn' mx',
       StoreKeyPackage k now' keyID groupID (Some kp') mn' mx' s2 = (Fail ErrAlreadyExists, s2)).
Proof.
  intros Ho Ha Hl Hk Hg Hst Hk8 Hg8 Htags. unfold StoreKeyPackage at 1.
  rewrite (store_check_fresh _ _ _ _ _ Ho Ha Hl Hk Hg).
  destruct (store_put_holds k now keyID groupID kp mn mx s Ho Ha Hst Hk8 Hg8 Htags) as [Hr Hh].
  destruct (store_put _ _ _ _ _ _ _ _) as [r s1]. cbn [fst snd] in *. split; [done |].
  intros s2 Hsteps. pose proof (other_calls_hold _ _ _ _ _ _ Hsteps Hh) as Hh2.
  split; intros now'.
  - by apply holds_package_read.
  - intros kp' mn' mx'. destruct (holds_package_kept _ _ _ _ Hh2) as [data Hkept].
    unfold StoreKeyPackage. by rewrite (store_check_kept _ _ _ _ _ _ Ha Hkept Hk Hg).
Qed.

(** [StoreKeyPackage] is not atomic.  Two stores under one storage key, run
    one after the other, leave the first package and refuse the second; but
    when both ask whether the key exists before either puts, both succeed and
    the first package is lost. *)
Theorem concurrent_stores k now keyID groupID kp1 kp2 mn mx s :
  b_open s → b_accepts (keyPackageStorageKey keyID) →
  b_live now s !! keyPackageStorageKey keyID = None →
  keyID ≠ "" → groupID ≠ "" → storable kp1 → storable kp2 →
  utf8 keyID → utf8 groupID → tags_ok k →
  let first := store_put k now keyID groupID (Some kp1) mn mx s in
  let second := store_put k now keyID groupID (Some kp2) mn mx first.2 in
  (store_check now keyID groupID (Some kp1) s = Ok () ∧
   store_check now keyID groupID (Some kp2) first.2 = Fail ErrAlreadyExists) ∧
  (store_check now keyID groupID (Some kp1) s = Ok () ∧
   store_check now keyID groupID (Some kp2) s = Ok () ∧
   first.1 = Ok () ∧ second.1 = Ok () ∧
   fst <$> GetKeyPackage now keyID second.2 = Ok (forget kp2)).
Proof.
  intros Ho Ha Hl Hk Hg Hs1 Hs2 Hk8 Hg8 Htags first second.
  destruct (store_put_holds k now keyID groupID kp1 mn mx s Ho Ha Hs1 Hk8 Hg8 Htags) as [Hr1 Hh1].
  fold first in Hr1, Hh1.
  destruct (store_put_holds k now keyID groupID kp2 mn mx first.2 (proj1 Hh1) Ha Hs2 Hk8 Hg8 Htags)
    as [Hr2 Hh2]. fold second in Hr2, Hh2.
  pose proof (λ kp, store_check_fresh now keyID groupID kp s Ho Ha Hl Hk Hg) as Hfresh.
  destruct (holds_package_kept _ _ _ _ Hh1) as [data Hkept].
  split; [split | split_and!]; try done.
  - by apply (store_check_kept _ _ _ _ _ _ Ha Hkept).
  - by rewrite (holds_package_read _ _ _ _ now Ha Hk Hh2).
Qed.
End Store.
