(* ===== verification/KeystoreFiles.v ===== *)
(** * The key store over files

    The key store of [Keystore.v] on the file backend: which identifiers have a
    file, and that a package that was stored is read back and disturbs no other
    entry. *)

From S2P Require Export Keystore.
From S2P Require Import FileStore.
Import keystore keychain stored.

(** ** file_storage.go *)

Module file_storage.
Section Defs.
Context `{MapOrder}.

Definition FileStorage : Backend := adapter.storage_backend file_backend.backend.

Definition NewFileStorage (storagePath : string) : os.Os file_backend.FileBackend :=
  os.ok_or (Wrap ErrStorageBackend) (file_backend.NewFileBackend storagePath).

#[export] Instance file_storage_laws : BackendLaws FileStorage keystore.ErrNotFound :=
  adapter.laws file_backend.backend (L := file_laws).
End Defs.
End file_storage.

(** ** The storage keys as paths of three segments *)

Lemma json_not_tmp s : HasSuffix (s +:+ ".json") ".tmp" = false.
Proof.
  induction s as [|c s IH]; [done |].
  change (String c s +:+ ".json") with (String c (s +:+ ".json")). cbn [HasSuffix].
  rewrite IH, orb_false_r. apply bool_decide_eq_false. intros He%(f_equal String.length).
  cbn in He. rewrite length_append in He. cbn in He. lia.
Qed.

Lemma named_file_key (dir id : string) :
  dir = "keypackages" ∨ dir = "groups" → ends_dot (sanitize id) = false →
  file_key ("frost" +:+ "/" +:+ dir +:+ "/" +:+ sanitize id +:+ ".json").
Proof.
  intros Hdir Hid.
  assert (storage.Contains (sanitize id) "/" = false) as Hslash
    by (rewrite sanitize_eq; apply dots_keep_slashes, slashes_none).
  assert (storage.Contains (sanitize id) ".." = false) as Hdots
    by (rewrite sanitize_eq; apply dots_none).
  exists ["frost"; dir; sanitize id +:+ ".json"]. split_and!; [done | | | |].
  - repeat constructor; try done; try (by destruct Hdir as [-> | ->]).
    + intros He%(f_equal String.length). rewrite length_append in He. cbn in He. lia.
    + intros He%(f_equal String.length). rewrite length_append in He. cbn in He. lia.
    + by rewrite Contains_slash_app, Hslash.
  - unfold Rel. cbn [foldl]. by rewrite !append_assoc.
  - rewrite !Contains_dots_app, Hdots, Hid. by destruct Hdir as [-> | ->].
  - rewrite <-!append_assoc. apply json_not_tmp.
Qed.

Lemma package_file_key id :
  ends_dot (sanitize id) = false → file_key (keyPackageStorageKey id).
Proof. intros Hid. apply (named_file_key "keypackages" id); auto. Qed.

Lemma group_file_key id : ends_dot (sanitize id) = false → file_key (groupKeyStorageKey id).
Proof. intros Hid. apply (named_file_key "groups" id); auto. Qed.

(** ** Packages in files *)

Section Files.
Context {G : Group} {L : GroupLaws G} {M : Memguard} `{!MemguardLaws M}.
Context {J : Json} {JL : JsonLaws J} `{MapOrder}.

Import file_storage.
Abbreviation files := FileStorage.
Implicit Types (s : b_state (Backend := files)) (kp : KeyPackage).

(** The store on a new base directory is empty and in order. *)
Lemma NewFileStorage_works storagePath fs :
  storage.HasPrefix storagePath "/" = true → works fs → tree (os.fs_nodes fs) →
  (∀ q d, q `prefix_of` Clean storagePath → os.node_at (os.fs_nodes fs) q ≠ Some (os.File d)) →
  (∀ q, below (Clean storagePath) q → os.fs_nodes fs !! q = None) →
  ∃ f fs', NewFileStorage storagePath fs = (Ok f, fs') ∧ store_ok (f, fs') ∧
           live_files (f, fs') = ∅.
Proof.
  intros Habs Hw Ht Hf Hb.
  destruct (NewFileBackend_works storagePath fs Habs Hw Ht Hf Hb) as (f & fs' & H1 & H2 & H3).
  exists f, fs'. unfold NewFileStorage, os.ok_or. by rewrite H1.
Qed.

(** An identifier whose name ends in a dot has no file. *)
Lemma dotted_refused k now keyID groupID kp mn mx s :
  keyID ≠ "" → groupID ≠ "" → ends_dot (sanitize keyID) = true →
  StoreKeyPackage (S := files) k now keyID groupID (Some kp) mn mx s
    = (Fail (Wrap ErrStorageBackend (Wrap ErrStorageBackend storage.ErrInvalidKey)), s).
Proof.
  intros Hk Hg Hid. unfold StoreKeyPackage, store_check. rewrite !bool_decide_false by done. step.
  change (b_Exists now ?key s) with
    (wrap (Wrap ErrStorageBackend) (file_backend.Exists_ key s.1 s.2).1).
  assert (∀ key, storage.Contains key ".." = true →
    file_backend.Exists_ key s.1 s.2 = (Fail storage.ErrInvalidKey, s.2)) as Hx
    by (intros; apply refused_key; auto).
  rewrite Hx; [done |]. unfold keyPackageStorageKey. rewrite !Contains_dots_app, Hid. cbn.
  by rewrite orb_true_r.
Qed.

(** C24: over files, on a disk that works, a key package can be stored under any
    free identifier whose name does not end in a dot and is read back, without
    its threshold; the tree keeps its shape, and every other entry, whether a
    package or a group, stays as it was.  An identifier whose name ends in a
    dot is refused. *)
Theorem files_keep_packages k now keyID groupID kp mn mx s :
  store_ok s → keyID ≠ "" → groupID ≠ "" → storable kp → utf8 keyID → utf8 groupID → tags_ok k →
  live_files s !! keyPackageStorageKey keyID = None →
  let '(r, s1) := StoreKeyPackage (S := files) k now keyID groupID (Some kp) mn mx s in
  if ends_dot (sanitize keyID)
  then r = Fail (Wrap ErrStorageBackend (Wrap ErrStorageBackend storage.ErrInvalidKey)) ∧ s1 = s
  else r = Ok () ∧ store_ok s1 ∧
       (∀ now', GetKeyPackage (S := files) now' keyID s1
          = Ok (forget kp, stored_metadata k now keyID groupID mn mx)) ∧
       (∀ key, key ≠ keyPackageStorageKey keyID → live_files s1 !! key = live_files s !! key).
Proof.
  intros Hs Hk Hg Hst Hk8 Hg8 Htags Hfree. destruct (ends_dot (sanitize keyID)) eqn:Hid.
  { by rewrite dotted_refused. }
  pose proof (package_file_key _ Hid) as Hkey.
  assert (store_check (S := files) now keyID groupID (Some kp) s = Ok ()) as Hc
    by (by apply (store_check_fresh (LB := file_storage_laws))).
  destruct (store_put_holds (LB := file_storage_laws) k now keyID groupID kp mn mx s Hs Hkey Hst Hk8 Hg8 Htags)
    as [Hr Hh].
  pose proof (store_put_elsewhere (LB := file_storage_laws) k now keyID groupID (Some kp) mn mx s Hs Hkey) as He.
  unfold StoreKeyPackage. rewrite Hc.
  destruct (store_put _ _ _ _ _ _ _ _) as [r s1]. cbn [fst snd] in *. split; [done |].
  split; [apply Hh |]. split; [| intros key Hne; by apply (He 0%Z)].
  intros now'. by apply (holds_package_read (LB := file_storage_laws)).
Qed.
End Files.
