(* ===== verification/Serialization.v ===== *)
(** * Versioned wire formats: [pkg/frost/serialization]

    The eight-byte header (header.go) and the serializer's five pairs of methods
    (serializer.go).  The theorems: what a serializer writes, a serializer of
    the same ciphersuite reads back at the same data type, and any other reader
    refuses it with the error that names the first mismatch; a reader accepts
    only data of exactly the right length with a valid header, and never
    panics. *)

From S2P Require Export Types.

(** ** header.go *)

Module serialization.

Definition CurrentVersion : Z := 1.
Definition HeaderSize : nat := 8.

(** The package's own error values. *)
Definition ErrInvalidHeader : error := OpaqueError "invalid serialization header".
Definition ErrVersionMismatch : error := OpaqueError "serialization version mismatch".
Definition ErrCiphersuiteMismatch : error := OpaqueError "ciphersuite mismatch".
Definition ErrDataTypeMismatch : error := OpaqueError "data type mismatch".
Definition ErrInvalidData : error := OpaqueError "invalid serialized data".

(** [DataType] is a [uint8] with named values. *)
Abbreviation DataType := Z (only parsing).
Definition DataTypeUnknown : DataType := 0%Z.
Definition DataTypeSigningNonces : DataType := 1%Z.
Definition DataTypeSigningCommitments : DataType := 2%Z.
Definition DataTypeKeyPackage : DataType := 3%Z.
Definition DataTypeSignature : DataType := 4%Z.
Definition DataTypePublicKey : DataType := 5%Z.
Definition DataTypeSecretShare : DataType := 6%Z.
Definition DataTypeSignatureShare : DataType := 7%Z.

Definition DataType_String (dt : DataType) : string :=
  if (dt =? DataTypeSigningNonces)%Z then "SigningNonces"
  else if (dt =? DataTypeSigningCommitments)%Z then "SigningCommitments"
  else if (dt =? DataTypeKeyPackage)%Z then "KeyPackage"
  else if (dt =? DataTypeSignature)%Z then "Signature"
  else if (dt =? DataTypePublicKey)%Z then "PublicKey"
  else if (dt =? DataTypeSecretShare)%Z then "SecretShare"
  else if (dt =? DataTypeSignatureShare)%Z then "SignatureShare"
  else "Unknown".

Record Header := {
  Version : Z;
  CiphersuiteID : Z;
  h_DataType : DataType;
  Reserved : Z;
}.

Definition NewHeader (ciphersuiteID : Z) (dataType : DataType) : Header :=
  {| Version := CurrentVersion; CiphersuiteID := ciphersuiteID;
     h_DataType := dataType; Reserved := 0 |}.

(** [binary.BigEndian.PutUint32] and [PutUint16]. *)
Definition PutUint32 (v : Z) : bytes :=
  [byte.of_Z (Z.shiftr v 24); byte.of_Z (Z.shiftr v 16); byte.of_Z (Z.shiftr v 8); byte.of_Z v].
Definition PutUint16 (v : Z) : bytes := [byte.of_Z (Z.shiftr v 8); byte.of_Z v].

Definition Header_Serialize (h : Header) : bytes :=
  byte.of_Z (Version h) :: PutUint32 (CiphersuiteID h)
    ++ byte.of_Z (h_DataType h) :: PutUint16 (Reserved h).

(** [data[0]], [data[1:5]], [data[5]] and [data[6:8]]. *)
Definition DeserializeHeader (data : bytes) : Res Header :=
  match data with
  | b0 :: b1 :: b2 :: b3 :: b4 :: b5 :: b6 :: b7 :: _ =>
      Ok {| Version := byte.unsigned b0;
            CiphersuiteID := be_combine [b1; b2; b3; b4];
            h_DataType := byte.unsigned b5;
            Reserved := be_combine [b6; b7] |}
  | _ => Fail ErrInvalidHeader
  end.

Definition Validate (h : Header) (expectedCiphersuiteID : Z) (expectedDataType : DataType)
  : Res unit :=
  _ ← fail_if (negb (Version h =? CurrentVersion)%Z) ErrVersionMismatch;
  _ ← fail_if (negb (CiphersuiteID h =? expectedCiphersuiteID)%Z) ErrCiphersuiteMismatch;
  fail_if (negb (h_DataType h =? expectedDataType)%Z) ErrDataTypeMismatch.

(** The code points a [range] over a string yields: UTF-8 decoding, in which
    an invalid byte yields U+FFFD and is skipped. *)
Definition cont (b : Init.Byte.byte) (lo hi : Z) : bool :=
  (lo <=? byte.unsigned b)%Z && (byte.unsigned b <=? hi)%Z.
Definition low6 (b : Init.Byte.byte) : Z := Z.land (byte.unsigned b) 63.

Fixpoint runes (s : bytes) : list Z :=
  match s with
  | [] => []
  | b0 :: s1 =>
      let x := byte.unsigned b0 in
      let bad := 65533%Z :: runes s1 in
      if (x <? 128)%Z then x :: runes s1
      else if ((x <? 194) || (244 <? x))%Z then bad
      else match s1 with
           | [] => bad
           | b1 :: s2 =>
               if (x <? 224)%Z then
                 if cont b1 128 191
                 then Z.lor (Z.shiftl (Z.land x 31) 6) (low6 b1) :: runes s2 else bad
               else
                 let lo := if (x =? 224)%Z then 160%Z else if (x =? 240)%Z then 144%Z else 128%Z in
                 let hi := if (x =? 237)%Z then 159%Z else if (x =? 244)%Z then 143%Z else 191%Z in
                 if negb (cont b1 lo hi) then bad
                 else match s2 with
                      | [] => bad
                      | b2 :: s3 =>
                          if negb (cont b2 128 191) then bad
                          else if (x <? 240)%Z then
                            Z.lor (Z.lor (Z.shiftl (Z.land x 15) 12) (Z.shiftl (low6 b1) 6))
                                  (low6 b2) :: runes s3
                          else match s3 with
                               | [] => bad
                               | b3 :: s4 =>
                                   if negb (cont b3 128 191) then bad
                                   else Z.lor (Z.lor (Z.lor (Z.shiftl (Z.land x 7) 18)
                                                            (Z.shiftl (low6 b1) 12))
                                                     (Z.shiftl (low6 b2) 6)) (low6 b3) :: runes s4
                               end
                      end
           end
  end.

(** [h = h*31 + uint32(c)] in 32-bit arithmetic. *)
Definition CiphersuiteIDFromString (id : string) : Z :=
  foldl (λ h c, (h * 31 + c) mod 2 ^ 32)%Z 0%Z (runes (string_bytes id)).

(** ** serializer.go *)

Section Defs.
Context {G : Group}.

Record Serializer := { ciphersuiteID : Z }.

Definition NewSerializer {CS : Ciphersuite G} : Serializer :=
  {| ciphersuiteID := CiphersuiteIDFromString ID |}.

(** The two checks every method that reads starts with. *)
Definition read_header (s : Serializer) (data : bytes) (dt : DataType) : Res unit :=
  header ← DeserializeHeader data;
  Validate header (ciphersuiteID s) dt.

Definition SerializeSignature (s : Serializer) (sig : Signature) : Res bytes :=
  match sig_R sig, sig_Z sig with
  | Some R, Some Z =>
      let header := NewHeader (ciphersuiteID s) DataTypeSignature in
      rBytes ← SerializeElement R;
      let zBytes := SerializeScalar Z in
      Ok (Header_Serialize header ++ rBytes ++ zBytes)
  | _, _ => Fail ErrInvalidData
  end.

Definition DeserializeSignature (s : Serializer) (data : bytes) : Res Signature :=
  _ ← read_header s data DataTypeSignature;
  let elemLen := ElementLength in
  let scalarLen := ScalarLength in
  _ ← fail_if (negb (length data =? HeaderSize + elemLen + scalarLen)) ErrInvalidData;
  r ← DeserializeElement (slice data HeaderSize (HeaderSize + elemLen));
  z ← DeserializeScalar (drop (HeaderSize + elemLen) data);
  Ok {| sig_R := Some r; sig_Z := Some z |}.

Definition SerializeSigningCommitments (s : Serializer) (sc : SigningCommitments) : Res bytes :=
  match HidingNonceCommitment sc, BindingNonceCommitment sc with
  | Some hiding, Some binding =>
      let header := NewHeader (ciphersuiteID s) DataTypeSigningCommitments in
      hidingBytes ← SerializeElement hiding;
      bindingBytes ← SerializeElement binding;
      Ok (Header_Serialize header ++ PutUint32 (cm_Identifier sc) ++ hidingBytes ++ bindingBytes)
  | _, _ => Fail ErrInvalidData
  end.

Definition DeserializeSigningCommitments (s : Serializer) (data : bytes)
  : Res SigningCommitments :=
  _ ← read_header s data DataTypeSigningCommitments;
  let elemLen := ElementLength in
  _ ← fail_if (negb (length data =? HeaderSize + 4 + elemLen * 2)) ErrInvalidData;
  identifier ← BigEndian_Uint32 (slice data HeaderSize (HeaderSize + 4));
  hiding ← DeserializeElement (slice data (HeaderSize + 4) (HeaderSize + 4 + elemLen));
  binding ← DeserializeElement (drop (HeaderSize + 4 + elemLen) data);
  Ok {| cm_Identifier := identifier;
        HidingNonceCommitment := Some hiding;
        BindingNonceCommitment := Some binding |}.

Definition SerializeSignatureShare (s : Serializer) (ss : SignatureShare) : Res bytes :=
  match share_value ss with
  | Some share =>
      let header := NewHeader (ciphersuiteID s) DataTypeSignatureShare in
      let shareBytes := SerializeScalar share in
      Ok (Header_Serialize header ++ PutUint32 (share_Identifier ss) ++ shareBytes)
  | None => Fail ErrInvalidData
  end.

Definition DeserializeSignatureShare (s : Serializer) (data : bytes) : Res SignatureShare :=
  _ ← read_header s data DataTypeSignatureShare;
  let scalarLen := ScalarLength in
  _ ← fail_if (negb (length data =? HeaderSize + 4 + scalarLen)) ErrInvalidData;
  identifier ← BigEndian_Uint32 (slice data HeaderSize (HeaderSize + 4));
  share ← DeserializeScalar (drop (HeaderSize + 4) data);
  Ok {| share_Identifier := identifier; share_value := Some share |}.

Definition SerializePublicKey (s : Serializer) (pk : option Element) : Res bytes :=
  match pk with
  | Some pk =>
      let header := NewHeader (ciphersuiteID s) DataTypePublicKey in
      pkBytes ← SerializeElement pk;
      Ok (Header_Serialize header ++ pkBytes)
  | None => Fail ErrInvalidData
  end.

Definition DeserializePublicKey (s : Serializer) (data : bytes) : Res Element :=
  _ ← read_header s data DataTypePublicKey;
  let elemLen := ElementLength in
  _ ← fail_if (negb (length data =? HeaderSize + elemLen)) ErrInvalidData;
  DeserializeElement (drop HeaderSize data).

(** The wipe of the intermediate copy of the share is not observable. *)
Definition SerializeSecretShare (s : Serializer) (share : option Scalar) : Res bytes :=
  match share with
  | Some share =>
      let header := NewHeader (ciphersuiteID s) DataTypeSecretShare in
      let shareBytes := SerializeScalar share in
      Ok (Header_Serialize header ++ shareBytes)
  | None => Fail ErrInvalidData
  end.

Definition DeserializeSecretShare (s : Serializer) (data : bytes) : Res Scalar :=
  _ ← read_header s data DataTypeSecretShare;
  let scalarLen := ScalarLength in
  _ ← fail_if (negb (length data =? HeaderSize + scalarLen)) ErrInvalidData;
  DeserializeScalar (drop HeaderSize data).
End Defs.
End serialization.

(** ** Theorems *)

Section HeaderFacts.
Import serialization.

Lemma byte_of_Z_small z : (0 ≤ z < 256)%Z → byte.unsigned (byte.of_Z z) = z.
Proof. intros Hz. rewrite byte.unsigned_of_Z. unfold byte.wrap. apply Z.mod_small. lia. Qed.

Lemma be_combine_PutUint32 v : is_uint32 v → be_combine (PutUint32 v) = v.
Proof.
  intros Hv. change (PutUint32 v) with (Serialize v). rewrite be_combine_Serialize.
  apply Z.mod_small. unfold is_uint32, uint32_max in Hv. lia.
Qed.

Lemma DeserializeHeader_Serialize id dt rest :
  is_uint32 id → (0 ≤ dt < 256)%Z →
  DeserializeHeader (Header_Serialize (NewHeader id dt) ++ rest) = Ok (NewHeader id dt).
Proof.
  intros Hid Hdt. unfold Header_Serialize, PutUint32, PutUint16. cbn [app DeserializeHeader].
  change [byte.of_Z (Z.shiftr ?v 24); _; _; _] with (PutUint32 v).
  cbn [Version CiphersuiteID h_DataType Reserved NewHeader].
  rewrite be_combine_PutUint32, (byte_of_Z_small dt) by done. reflexivity.
Qed.

(** What a reader says about a header another serializer wrote. *)
Lemma read_header_written s id dt dt' rest :
  is_uint32 id → (0 ≤ dt < 256)%Z →
  read_header s (Header_Serialize (NewHeader id dt) ++ rest) dt' =
    if decide (id = ciphersuiteID s)
    then if decide (dt = dt') then Ok () else Fail ErrDataTypeMismatch
    else Fail ErrCiphersuiteMismatch.
Proof.
  intros Hid Hdt. unfold read_header. rewrite DeserializeHeader_Serialize by done. step.
  unfold Validate. cbn [Version CiphersuiteID h_DataType NewHeader]. step.
  destruct (Z.eqb_spec id (ciphersuiteID s)); case_decide; try done; step.
  destruct (Z.eqb_spec dt dt'); by case_decide.
Qed.

Lemma read_header_no_panic s data dt : read_header s data dt ≠ Panic.
Proof.
  unfold read_header. do 8 (destruct data as [|? data]; [done |]). cbn. step.
  unfold Validate, fail_if.
  repeat (case_match; step; try done).
Qed.

Lemma CiphersuiteIDFromString_uint32 id : is_uint32 (CiphersuiteIDFromString id).
Proof.
  unfold CiphersuiteIDFromString. generalize (runes (string_bytes id)) as cs.
  assert (H0 : is_uint32 0) by done. revert H0. generalize 0%Z as h.
  intros h Hh cs. revert h Hh. induction cs as [|c cs IH]; intros h Hh; [done |].
  apply IH. unfold is_uint32, uint32_max. pose proof (Z.mod_pos_bound (h * 31 + c) (2 ^ 32)). lia.
Qed.
End HeaderFacts.

(** *** All wire formats at once *)

Section WireFacts.
Context {G : Group} {L : GroupLaws G}.
Import serialization.

Inductive wire_value : Type :=
| WSignature (sig : Signature)
| WCommitments (sc : SigningCommitments)
| WShare (ss : SignatureShare)
| WPublicKey (pk : Element)
| WSecretShare (share : Scalar).

Inductive wire_kind : Set := KSignature | KCommitments | KShare | KPublicKey | KSecretShare.

#[export] Instance wire_kind_eq_dec : EqDecision wire_kind.
Proof. solve_decision. Defined.

Definition kind_of (v : wire_value) : wire_kind :=
  match v with
  | WSignature _ => KSignature | WCommitments _ => KCommitments | WShare _ => KShare
  | WPublicKey _ => KPublicKey | WSecretShare _ => KSecretShare
  end.

Definition data_type (k : wire_kind) : Z :=
  match k with
  | KSignature => DataTypeSignature | KCommitments => DataTypeSigningCommitments
  | KShare => DataTypeSignatureShare | KPublicKey => DataTypePublicKey
  | KSecretShare => DataTypeSecretShare
  end.

Definition serialize (s : Serializer) (v : wire_value) : Res bytes :=
  match v with
  | WSignature sig => SerializeSignature s sig
  | WCommitments sc => SerializeSigningCommitments s sc
  | WShare ss => SerializeSignatureShare s ss
  | WPublicKey pk => SerializePublicKey s (Some pk)
  | WSecretShare share => SerializeSecretShare s (Some share)
  end.

Definition deserialize (s : Serializer) (k : wire_kind) (data : bytes) : Res wire_value :=
  match k with
  | KSignature => WSignature <$> DeserializeSignature s data
  | KCommitments => WCommitments <$> DeserializeSigningCommitments s data
  | KShare => WShare <$> DeserializeSignatureShare s data
  | KPublicKey => WPublicKey <$> DeserializePublicKey s data
  | KSecretShare => WSecretShare <$> DeserializeSecretShare s data
  end.

Definition payload_length (k : wire_kind) : nat :=
  match k with
  | KSignature => ElementLength + ScalarLength
  | KCommitments => 4 + (ElementLength + ElementLength)
  | KShare => 4 + ScalarLength
  | KPublicKey => ElementLength
  | KSecretShare => ScalarLength
  end.

(** Participant identifiers fit the four bytes they are written to. *)
Definition wire_ids_ok (v : wire_value) : Prop :=
  match v with
  | WCommitments sc => is_uint32 (cm_Identifier sc)
  | WShare ss => is_uint32 (share_Identifier ss)
  | _ => True
  end.

Lemma SerializeElement_inv P bs :
  SerializeElement P = Ok bs → P ≠ Identity ∧ bs = e_Bytes P ∧ length bs = ElementLength.
Proof.
  intros H. destruct (decide (P = Identity)) as [->|HP].
  - destruct law_SerializeElement_id as [e He]. congruence.
  - rewrite law_SerializeElement in H by done. injection H as <-.
    split; [done |]. split; [done |]. by apply law_e_Bytes_length.
Qed.

(** Everything a serializer writes is the header and a payload. *)
Lemma serialize_header s v data :
  serialize s v = Ok data →
  ∃ payload, data = Header_Serialize (NewHeader (ciphersuiteID s) (data_type (kind_of v))) ++ payload.
Proof.
  destruct v as [[[R|] [z|]]|[id [D|] [E|]]|[id [z|]]|pk|x]; cbn; try done;
    intros H; ok_inv; subst; eauto.
Qed.

Lemma data_type_inj k k' : data_type k = data_type k' → k = k'.
Proof. by destruct k, k'. Qed.

Lemma data_type_byte k : (0 ≤ data_type k < 256)%Z.
Proof. by destruct k. Qed.

(** Every reader starts with the header check and stops if it fails. *)
Lemma deserialize_header_Fail s k data e :
  read_header s data (data_type k) = Fail e → deserialize s k data = Fail e.
Proof.
  intros H. destruct k; cbn [data_type] in H;
    unfold deserialize, DeserializeSignature, DeserializeSigningCommitments,
      DeserializeSignatureShare, DeserializePublicKey, DeserializeSecretShare;
    by rewrite H.
Qed.

Lemma Header_Serialize_length h : length (Header_Serialize h) = HeaderSize.
Proof. done. Qed.

Lemma drop_header h rest n : drop (HeaderSize + n) (Header_Serialize h ++ rest) = drop n rest.
Proof. done. Qed.

Lemma slice_header h rest n m :
  slice (Header_Serialize h ++ rest) (HeaderSize + n) (HeaderSize + n + m) = take m (drop n rest).
Proof. unfold slice. rewrite drop_header. f_equal. lia. Qed.

Lemma read_own_header s dt rest :
  is_uint32 (ciphersuiteID s) → (0 ≤ dt < 256)%Z →
  read_header s (Header_Serialize (NewHeader (ciphersuiteID s) dt) ++ rest) dt = Ok ().
Proof. intros Hs Hdt. rewrite read_header_written by done. by rewrite !decide_True. Qed.

Lemma PutUint32_length id : length (PutUint32 id) = 4.
Proof. done. Qed.

Lemma read_identifier id rest :
  is_uint32 id → BigEndian_Uint32 (take 4 (PutUint32 id ++ rest)) = Ok id.
Proof. intros Hid. change (Ok (be_combine (PutUint32 id)) = (Ok id : Res Z)). by rewrite be_combine_PutUint32. Qed.

#[local] Opaque Header_Serialize PutUint32.

Lemma take_app_at {A} n (u w : list A) : length u = n → take n (u ++ w) = u.
Proof. intros <-. apply take_app_length. Qed.

Lemma drop_app_at {A} n (u w : list A) : length u = n → drop n (u ++ w) = w.
Proof. intros <-. apply drop_app_length. Qed.

Lemma Signature_roundtrip s sig data :
  is_uint32 (ciphersuiteID s) → SerializeSignature s sig = Ok data →
  DeserializeSignature s data = Ok sig.
Proof.
  intros Hs H. destruct sig as [[R|] [z|]]; try done. unfold SerializeSignature in H. cbn [sig_R sig_Z] in H.
  ok_inv. subst data. rename select (SerializeElement R = _) into HR.
  apply SerializeElement_inv in HR as (HR & -> & Hlen).
  unfold DeserializeSignature. rewrite read_own_header by done. step.
  rewrite !length_app, Header_Serialize_length, Hlen, law_SerializeScalar_length.
  rewrite (proj2 (Nat.eqb_eq _ _)) by lia. step.
  pose proof (slice_header (NewHeader (ciphersuiteID s) DataTypeSignature)
    (e_Bytes R ++ SerializeScalar z) 0 ElementLength) as Hsl.
  rewrite Nat.add_0_r in Hsl. rewrite Hsl, drop_0, take_app_at by done.
  rewrite law_DeserializeElement by done. step.
  by rewrite drop_header, drop_app_at, law_SerializeScalar.
Qed.

Lemma SigningCommitments_roundtrip s sc data :
  is_uint32 (ciphersuiteID s) → is_uint32 (cm_Identifier sc) →
  SerializeSigningCommitments s sc = Ok data → DeserializeSigningCommitments s data = Ok sc.
Proof.
  intros Hs Hid H. destruct sc as [id [D|] [E|]]; try done.
  unfold SerializeSigningCommitments in H.
  cbn [HidingNonceCommitment BindingNonceCommitment cm_Identifier] in H, Hid. ok_inv. subst data.
  rename select (SerializeElement D = _) into HD. rename select (SerializeElement E = _) into HE.
  apply SerializeElement_inv in HD as (HD & -> & HlD).
  apply SerializeElement_inv in HE as (HE & -> & HlE).
  unfold DeserializeSigningCommitments. rewrite read_own_header by done. step.
  rewrite !length_app, Header_Serialize_length, PutUint32_length, HlD, HlE.
  rewrite (proj2 (Nat.eqb_eq _ _)) by lia. step.
  set (h := Header_Serialize _).
  pose proof (slice_header (NewHeader (ciphersuiteID s) DataTypeSigningCommitments)
    (PutUint32 id ++ e_Bytes D ++ e_Bytes E)) as Hsl. fold h in Hsl.
  pose proof (Hsl 0 4) as H0. rewrite Nat.add_0_r, drop_0 in H0. rewrite H0, read_identifier by done.
  step. rewrite Hsl. rewrite (drop_app_at 4), take_app_at by (done || apply PutUint32_length).
  rewrite law_DeserializeElement by done. step.
  rewrite <-Nat.add_assoc. unfold h. rewrite drop_header, <-drop_drop, (drop_app_at 4), drop_app_at by (done || apply PutUint32_length).
  by rewrite law_DeserializeElement.
Qed.

Lemma SignatureShare_roundtrip s ss data :
  is_uint32 (ciphersuiteID s) → is_uint32 (share_Identifier ss) →
  SerializeSignatureShare s ss = Ok data → DeserializeSignatureShare s data = Ok ss.
Proof.
  intros Hs Hid H. destruct ss as [id [z|]]; [| done].
  unfold SerializeSignatureShare in H. cbn [share_value share_Identifier] in H, Hid. ok_inv. subst data.
  unfold DeserializeSignatureShare. rewrite read_own_header by done. step.
  rewrite !length_app, Header_Serialize_length, ?PutUint32_length, law_SerializeScalar_length.
  rewrite (proj2 (Nat.eqb_eq _ _)) by lia. step.
  pose proof (slice_header (NewHeader (ciphersuiteID s) DataTypeSignatureShare)
    (PutUint32 id ++ SerializeScalar z) 0 4) as H0.
  rewrite Nat.add_0_r, drop_0 in H0. cbn [share_Identifier]. rewrite H0, read_identifier by done. step.
  rewrite drop_header, (drop_app_at 4) by apply PutUint32_length. by rewrite law_SerializeScalar.
Qed.

Lemma PublicKey_roundtrip s pk data :
  is_uint32 (ciphersuiteID s) → SerializePublicKey s (Some pk) = Ok data →
  DeserializePublicKey s data = Ok pk.
Proof.
  intros Hs H. unfold SerializePublicKey in H. ok_inv. subst data.
  rename select (SerializeElement pk = _) into HP.
  apply SerializeElement_inv in HP as (HP & -> & Hlen).
  unfold DeserializePublicKey. rewrite read_own_header by done. step.
  rewrite length_app, Header_Serialize_length, Hlen, Nat.eqb_refl. step.
  by apply law_DeserializeElement.
Qed.

Lemma SecretShare_roundtrip s x data :
  is_uint32 (ciphersuiteID s) → SerializeSecretShare s (Some x) = Ok data →
  DeserializeSecretShare s data = Ok x.
Proof.
  intros Hs H. unfold SerializeSecretShare in H. ok_inv. subst data. unfold DeserializeSecretShare. rewrite read_own_header by done.
  step. rewrite length_app, Header_Serialize_length, law_SerializeScalar_length, Nat.eqb_refl. step.
  apply law_SerializeScalar.
Qed.

(** C7: what a serializer writes is read back by a serializer of the same
    ciphersuite at the same data type, exactly; a serializer of another
    ciphersuite refuses it as a ciphersuite mismatch and every other reader as a
    data type mismatch, for all five wire formats. *)
Theorem deserialize_serialize s s' v k data :
  is_uint32 (ciphersuiteID s) → wire_ids_ok v → serialize s v = Ok data →
  deserialize s' k data =
    if decide (ciphersuiteID s = ciphersuiteID s')
    then if decide (kind_of v = k) then Ok v else Fail ErrDataTypeMismatch
    else Fail ErrCiphersuiteMismatch.
Proof.
  intros Hs Hids H. destruct (serialize_header _ _ _ H) as [payload Hp].
  assert (Hh : read_header s' data (data_type k) =
    if decide (ciphersuiteID s = ciphersuiteID s')
    then if decide (data_type (kind_of v) = data_type k) then Ok () else Fail ErrDataTypeMismatch
    else Fail ErrCiphersuiteMismatch).
  { rewrite Hp. by apply read_header_written, data_type_byte. }
  destruct (decide (ciphersuiteID s = ciphersuiteID s')) as [He|Hne];
    [| by apply deserialize_header_Fail].
  destruct (decide (kind_of v = k)) as [<-|Hk].
  - clear Hh Hp payload. assert (s' = s) as -> by (destruct s, s'; cbn in He; by subst).
    destruct v; cbn in H, Hids |- *; apply fmap_Ok; eexists; (split; [| reflexivity]).
    + by apply Signature_roundtrip.
    + by apply SigningCommitments_roundtrip.
    + by apply SignatureShare_roundtrip.
    + by apply PublicKey_roundtrip.
    + by apply SecretShare_roundtrip.
  - apply deserialize_header_Fail. rewrite Hh. apply decide_False. intros Hd. apply Hk.
    by apply data_type_inj.
Qed.

Lemma identifier_no_panic data :
  HeaderSize + 4 ≤ length data →
  BigEndian_Uint32 (slice data HeaderSize (HeaderSize + 4)) ≠ Panic.
Proof.
  intros Hl. destruct (length_4_inv (slice data HeaderSize (HeaderSize + 4)))
    as (b0 & b1 & b2 & b3 & ->); [| done].
  unfold slice. rewrite length_take, length_drop. lia.
Qed.

(** A reader accepts only data of exactly the length of its format whose
    header carries the current version, its ciphersuite and its data type, and
    on no input does it panic, provided the group's decoders do not. *)
Theorem deserialize_total s k data :
  (∀ bs, DeserializeElement bs ≠ Panic) → (∀ bs, DeserializeScalar bs ≠ Panic) →
  deserialize s k data ≠ Panic ∧
  (∀ v, deserialize s k data = Ok v →
     kind_of v = k ∧ length data = HeaderSize + payload_length k ∧
     ∃ h, DeserializeHeader data = Ok h ∧ Version h = CurrentVersion ∧
          CiphersuiteID h = ciphersuiteID s ∧ h_DataType h = data_type k).
Proof.
  intros He Hsc. split.
  - pose proof (read_header_no_panic s data (data_type k)) as Hh.
    destruct k; cbn [data_type] in Hh; unfold deserialize, DeserializeSignature,
      DeserializeSigningCommitments, DeserializeSignatureShare, DeserializePublicKey,
      DeserializeSecretShare; no_panic; try done; apply identifier_no_panic; ok_inv;
      (match goal with H : negb _ = false |- _ => apply negb_false_iff, Nat.eqb_eq in H end; lia).
  - intros v H.
    assert (Hc : kind_of v = k ∧ read_header s data (data_type k) = Ok () ∧
                 length data = HeaderSize + payload_length k).
    { destruct k; unfold deserialize, DeserializeSignature, DeserializeSigningCommitments,
        DeserializeSignatureShare, DeserializePublicKey, DeserializeSecretShare in H; ok_inv; subst v;
        repeat match goal with H : negb _ = false |- _ => apply negb_false_iff, Nat.eqb_eq in H end;
        repeat match goal with u : unit |- _ => destruct u end; cbn [payload_length];
        split_and!; first [reflexivity | assumption | lia]. }
    destruct Hc as (Hk & Hh & Hl). do 2 (split; [done |]). unfold read_header, Validate in Hh. ok_inv.
    repeat match goal with H : negb _ = false |- _ => apply negb_false_iff, Z.eqb_eq in H end. eauto.
Qed.
End WireFacts.
