(* ===== verification/ZGroup.v ===== *)
(** * A concrete prime-order group and ciphersuite

    The additive group of integers modulo the prime [2^32 + 15], in either byte
    order, with a polynomial hash.  It discharges [GroupLaws], so the contract
    the protocol is proved against has a model, and it is the group in which
    the witnesses evaluate the definitions. *)

From Stdlib Require Import Znumtheory Zmod.
From S2P Require Import Primality.
From S2P Require Export Types.

Definition zp : Z := 4294967311.

Lemma zp_Zprime : Z.prime zp.
Proof.
  apply (check_steps_sound [Trial 364289%Z 602; Pocklington zp 2 [364289%Z]] []);
    [constructor | by vm_compute | repeat constructor].
Qed.

(** ** The group *)

Definition enc_int (o : ByteOrder_t) (v : Z) : bytes :=
  match o with LittleEndian => le_split 8 v | BigEndian => reverse (le_split 8 v) end.

Definition zdecode (o : ByteOrder_t) (bs : bytes) : Res (Zmod zp) :=
  _ ← fail_if (negb (length bs =? 8)) (Sentinel ErrDeserializationFailed);
  _ ← fail_if (zp <=? decode_int o bs)%Z (Sentinel ErrDeserializationFailed);
  Ok (Zmod.of_Z zp (decode_int o bs)).

Definition zencode (o : ByteOrder_t) (x : Zmod zp) : bytes := enc_int o (Zmod.unsigned x).

Definition ZGroup (o : ByteOrder_t) : Group := {|
  Element := Zmod zp;
  Scalar := Zmod zp;
  e_Add := Zmod.add;
  e_Negate := Zmod.opp;
  e_IsIdentity x := Zmod.eqb x Zmod.zero;
  e_Equal := Zmod.eqb;
  e_Bytes := zencode o;
  e_Copy x := x;
  s_Add := Zmod.add;
  s_Sub := Zmod.sub;
  s_Mul := Zmod.mul;
  s_Inv x := if Zmod.eqb x Zmod.zero then Fail (Sentinel ErrZeroScalar) else Ok (Zmod.inv x);
  s_Negate := Zmod.opp;
  s_IsZero x := Zmod.eqb x Zmod.zero;
  s_Equal := Zmod.eqb;
  s_Bytes := zencode o;
  s_Copy x := x;
  s_Compare x y := match (Zmod.unsigned x ?= Zmod.unsigned y)%Z with
                   | Lt => (-1)%Z | Eq => 0%Z | Gt => 1%Z end;
  Order := enc_int o zp;
  Cofactor := Zmod.one;
  Identity := Zmod.zero;
  Generator := Zmod.one;
  NewScalar := Zmod.zero;
  NewElement := Zmod.zero;
  RandomScalar := (bs ← rand_Read 8; mret (Zmod.of_Z zp (le_combine bs)));
  ScalarMult := Zmod.mul;
  ScalarBaseMult x := x;
  SerializeElement x := if Zmod.eqb x Zmod.zero then Fail (Sentinel ErrIdentityElement)
                        else Ok (zencode o x);
  DeserializeElement bs :=
    x ← zdecode o bs;
    _ ← fail_if (Zmod.eqb x Zmod.zero) (Sentinel ErrIdentityElement);
    Ok x;
  SerializeScalar := zencode o;
  DeserializeScalar := zdecode o;
  ElementLength := 8;
  ScalarLength := 8;
  Name := "Z/(2^32+15)";
  ByteOrder := o;
|}.

(** A 32-bit polynomial hash with a domain byte. *)
Definition toy_hash (domain : Z) (data : bytes) : Z :=
  foldl (λ h b, (h * 257 + byte.unsigned b + 1) mod zp)%Z (7 + domain)%Z data.

#[export] Instance ToySuite (o : ByteOrder_t) : Ciphersuite (ZGroup o) := {|
  ID := "TOY";
  H1 d := (Zmod.of_Z zp (toy_hash 1 d) : @Scalar (ZGroup o));
  H2 d := (Zmod.of_Z zp (toy_hash 2 d) : @Scalar (ZGroup o));
  H3 d := (Zmod.of_Z zp (toy_hash 3 d) : @Scalar (ZGroup o));
  H4 d := le_split 8 (toy_hash 4 d);
  H5 d := le_split 8 (toy_hash 5 d);
  HDKG d := (Zmod.of_Z zp (toy_hash 6 d) : @Scalar (ZGroup o));
  HID d := (Zmod.of_Z zp (toy_hash 7 d) : @Scalar (ZGroup o));
  HashToCurve d := Ok (Zmod.of_Z zp (toy_hash 8 d) : @Element (ZGroup o));
  Hash d := le_split 8 (toy_hash 9 d);
  VerifySignature _ _ _ := Ok tt;
  ContextString := "TOY";
|}.

(** A random source whose [k]-th read is determined by [k] and a seed. *)
Definition toy_rng (seed : Z) : Rng :=
  {| rng_read k n := Some (le_split n (seed + 1009 * (Z.of_nat k + 1))%Z); rng_calls := 0 |}.

(** ** The laws *)

Lemma enc_int_length o v : length (enc_int o v) = 8.
Proof. destruct o; cbn [enc_int]; rewrite ?length_reverse; apply length_le_split. Qed.

Lemma decode_enc_int o v : (0 ≤ v < zp)%Z → decode_int o (enc_int o v) = v.
Proof.
  intros Hv. unfold zp in Hv.
  destruct o; cbn [enc_int decode_int]; unfold be_combine; rewrite ?reverse_involutive;
    rewrite le_combine_split; apply Z.mod_small; lia.
Qed.

Lemma zp_range (x : Zmod zp) : (0 ≤ Zmod.unsigned x < zp)%Z.
Proof. apply Zmod.unsigned_pos_bound. done. Qed.

Lemma zdecode_zencode o x : zdecode o (zencode o x) = Ok x.
Proof.
  unfold zdecode, zencode. rewrite enc_int_length. simpl.
  rewrite decode_enc_int by apply zp_range.
  pose proof (zp_range x). rewrite (proj2 (Z.leb_gt _ _)) by lia. simpl.
  f_equal. apply Zmod.of_Z_unsigned.
Qed.

Lemma zmod_eqb_true (x y : Zmod zp) : Zmod.eqb x y = true ↔ x = y.
Proof. apply Zmod.eqb_eq. Qed.

Lemma zdecode_small o bs :
  length bs = 8 → (decode_int o bs < zp)%Z → zdecode o bs = Ok (Zmod.of_Z zp (decode_int o bs)).
Proof.
  intros Hl Hv. unfold zdecode. rewrite Hl. simpl.
  by rewrite (proj2 (Z.leb_gt _ _)) by done.
Qed.

Lemma zfield : field_theory (Zmod.of_Z zp 0) (Zmod.of_Z zp 1) Zmod.add Zmod.mul Zmod.sub
  Zmod.opp (λ x y, Zmod.mul x (Zmod.inv y)) Zmod.inv eq.
Proof.
  destruct (Zmod.field_theory zp zp_Zprime) as [HR H1 Hd Hi].
  constructor; [exact HR | exact H1 | done | exact Hi].
Qed.

#[export] Instance ZGroup_laws o : GroupLaws (ZGroup o).
Proof.
  refine {| order := zp; sc := Zmod.of_Z zp : Z → @Scalar (ZGroup o);
            sc_inverse := (@Zmod.inv zp : @Scalar (ZGroup o) → @Scalar (ZGroup o)) |}.
  - done.
  - intros a b. apply Zmod.of_Z_inj.
  - intros a b. apply Zmod.of_Z_add.
  - intros a b. apply Zmod.of_Z_mul.
  - apply zfield.
  - done.
  - apply (λ x, zmod_eqb_true x Zmod.zero).
  - apply zmod_eqb_true.
  - done.
  - intros x Hx. cbn. destruct (Zmod.eqb x Zmod.zero) eqn:E; [| done].
    apply zmod_eqb_true in E. done.
  - by exists (Sentinel ErrZeroScalar).
  - cbn. lia.
  - apply zdecode_small.
  - intros x. apply enc_int_length.
  - apply zdecode_zencode.
  - done.
  - apply (ARadd_assoc (Rth_ARth (Eqsth _) (Eq_ext _ _ _) (F_R zfield))).
  - apply (Radd_comm (F_R zfield)).
  - intros P. cbn. rewrite (Radd_comm (F_R zfield)). apply (Radd_0_l (F_R zfield)).
  - apply (Ropp_def (F_R zfield)).
  - done.
  - apply (λ x, zmod_eqb_true x Zmod.zero).
  - apply zmod_eqb_true.
  - done.
  - intros P. cbn. rewrite (Rmul_comm (F_R zfield)). apply (Rmul_1_l (F_R zfield)).
  - intros P x y. cbn. rewrite !(Rmul_comm (F_R zfield) P). apply (Rdistr_l (F_R zfield)).
  - intros P x y. apply (Rmul_assoc (F_R zfield)).
  - intros P Q x. apply (Rdistr_l (F_R zfield)).
  - intros x. cbn. symmetry. apply (Rmul_1_l (F_R zfield)).
  - done.
  - intros P _. apply enc_int_length.
  - intros P Q H. cbn in H. pose proof (zdecode_zencode o P) as HP.
    rewrite H, zdecode_zencode in HP. congruence.
  - intros P HP. cbn. destruct (Zmod.eqb P Zmod.zero) eqn:E; [| done].
    apply zmod_eqb_true in E. done.
  - by exists (Sentinel ErrIdentityElement).
  - intros P HP. cbn [DeserializeElement e_Bytes ZGroup]. rewrite zdecode_zencode. simpl.
    destruct (Zmod.eqb P Zmod.zero) eqn:E; [| done].
    apply zmod_eqb_true in E. done.
Defined.

Lemma toy_rng_works seed : rng_works (toy_rng seed).
Proof. intros k n. by eexists. Qed.

(** The concrete [RandomScalar] fails only when its source does. *)
Lemma ZGroup_samples o : samples (@RandomScalar (ZGroup o)).
Proof.
  intros r Hr. destruct (Hr (rng_calls r) 8) as [bs Hbs].
  exists (Zmod.of_Z zp (le_combine bs)),
    {| rng_read := rng_read r; rng_calls := S (rng_calls r) |}.
  split; [| exact Hr].
  apply rand_bind_Ok. eexists bs, _. split; [unfold rand_Read; by rewrite Hbs | done].
Qed.

Lemma zdecode_no_panic o bs : zdecode o bs ≠ Panic.
Proof. unfold zdecode. no_panic. Qed.

Lemma ZGroup_element_no_panic o bs : DeserializeElement (Group := ZGroup o) bs ≠ Panic.
Proof. cbn [DeserializeElement ZGroup]. no_panic. apply zdecode_no_panic. Qed.
