(* ===== verification/Poly.v ===== *)
(** * Polynomials over the scalar field

    The mathematics the protocol rests on, stated over the group interface:
    evaluation of coefficient lists, the bound on the number of roots, Lagrange
    interpolation, and evaluation "in the exponent". *)

From S2P Require Export Group.

Section Poly.
Context {G : Group} {L : GroupLaws G}.
Add Field scalar_field : law_field.

Implicit Types (x y a r : Scalar) (cs ds xs : list Scalar) (P Q : Element).
Local Open Scope scalar_scope.
Local Open Scope element_scope.

(** ** Sums *)

Fixpoint ssum (xs : list Scalar) : Scalar :=
  match xs with [] => 0 | x :: xs' => x + ssum xs' end.
Fixpoint esum (Ps : list Element) : Element :=
  match Ps with [] => Identity | P :: Ps' => P ⊞ esum Ps' end.

Lemma ssum_app xs ys : ssum (xs ++ ys) = ssum xs + ssum ys.
Proof. induction xs as [|x xs IH]; cbn; [ring | rewrite IH; ring]. Qed.

Lemma esum_app Ps Qs : esum (Ps ++ Qs) = esum Ps ⊞ esum Qs.
Proof.
  induction Ps as [|P Ps IH]; cbn; [by rewrite e_id_l |].
  by rewrite IH, law_e_assoc.
Qed.

#[export] Instance ssum_Permutation : Proper (Permutation ==> eq) ssum.
Proof.
  induction 1 as [| | |? ? ? ? IH1 ? IH2]; cbn; [done | congruence | ring |].
  by rewrite IH1.
Qed.

#[export] Instance esum_Permutation : Proper (Permutation ==> eq) esum.
Proof.
  induction 1 as [| |P Q l |? ? ? ? IH1 ? IH2]; cbn; [done | congruence | |].
  - rewrite !law_e_assoc. f_equal. apply law_e_comm.
  - by rewrite IH1.
Qed.

Lemma foldl_s_Add xs a : foldl s_Add a xs = a + ssum xs.
Proof.
  revert a. induction xs as [|x xs IH]; intros a; cbn; [ring |].
  rewrite IH. ring.
Qed.

Lemma foldl_e_Add Ps Q : foldl e_Add Q Ps = Q ⊞ esum Ps.
Proof.
  revert Q. induction Ps as [|P Ps IH]; intros Q; cbn; [by rewrite law_e_id |].
  rewrite IH. by rewrite law_e_assoc.
Qed.

Lemma ssum_fmap_mul {A} (f : A → Scalar) k (l : list A) :
  ssum ((λ i, f i * k) <$> l) = ssum (f <$> l) * k.
Proof.
  induction l as [|i l IH]; cbn; [ring |].
  rewrite IH. ring.
Qed.

Lemma ssum_fmap_add {A} (f h : A → Scalar) (l : list A) :
  ssum ((λ i, f i + h i) <$> l) = ssum (f <$> l) + ssum (h <$> l).
Proof.
  induction l as [|i l IH]; cbn; [ring |].
  rewrite IH. ring.
Qed.

Lemma ssum_fmap_zero {A} (f : A → Scalar) (l : list A) :
  (∀ i, i ∈ l → f i = 0) → ssum (f <$> l) = 0.
Proof.
  induction l as [|i l IH]; intros H; cbn; [done |].
  rewrite IH by (intros; apply H; by apply list_elem_of_further).
  rewrite H by apply list_elem_of_here. ring.
Qed.

Lemma ssum_swap {A B} (f : A → B → Scalar) (la : list A) (lb : list B) :
  ssum ((λ i, ssum (f i <$> lb)) <$> la) = ssum ((λ j, ssum ((λ i, f i j) <$> la)) <$> lb).
Proof.
  induction la as [|i la IH]; cbn [fmap list_fmap ssum].
  - by rewrite (ssum_fmap_zero (λ _, 0)).
  - rewrite IH, <-ssum_fmap_add. done.
Qed.

(** A sum in which at most one term is non-zero. *)
Lemma ssum_single {A} (f : A → Scalar) (l : list A) k :
  NoDup l → k ∈ l → (∀ i, i ∈ l → i ≠ k → f i = 0) → ssum (f <$> l) = f k.
Proof.
  induction l as [|i l IH]; intros Hnd Hk H; [by apply not_elem_of_nil in Hk |].
  apply NoDup_cons in Hnd as [Hi Hnd]. cbn.
  apply elem_of_cons in Hk as [->|Hk].
  - rewrite ssum_fmap_zero; [ring |].
    intros j Hj. apply H; [by apply list_elem_of_further | by intros ->].
  - rewrite IH; [| done | done | intros; apply H; [by apply list_elem_of_further | done]].
    rewrite H; [ring | apply list_elem_of_here | by intros ->].
Qed.

(** *** Sums in the exponent *)

Lemma base_ssum xs : g^(ssum xs) = esum ((λ x, g^x) <$> xs).
Proof.
  induction xs as [|x xs IH]; cbn; [apply base_zero |].
  by rewrite base_add, IH.
Qed.

Lemma esum_mult Ps x : esum Ps ⊡ x = esum ((λ P, P ⊡ x) <$> Ps).
Proof.
  induction Ps as [|P Ps IH]; cbn; [apply mult_identity |].
  by rewrite law_mult_e_add, IH.
Qed.

Lemma esum_fmap_add {A} (f h : A → Element) (l : list A) :
  esum ((λ i, f i ⊞ h i) <$> l) = esum (f <$> l) ⊞ esum (h <$> l).
Proof.
  induction l as [|i l IH]; cbn; [by rewrite law_e_id |].
  by rewrite IH, e_add_swap.
Qed.

Lemma esum_fmap_mult_l {A} P (f : A → Scalar) (l : list A) :
  esum ((λ i, P ⊡ f i) <$> l) = P ⊡ ssum (f <$> l).
Proof.
  induction l as [|i l IH]; cbn; [by rewrite mult_zero |].
  by rewrite IH, law_mult_add.
Qed.

(** ** Evaluation *)

Fixpoint peval (cs : list Scalar) (x : Scalar) : Scalar :=
  match cs with
  | [] => 0
  | c :: cs' => c + x * peval cs' x
  end.

(** Evaluation of committed coefficients: [sum_j C_j * x^j]. *)
Fixpoint ceval (Cs : list Element) (x : Scalar) : Element :=
  match Cs with
  | [] => Identity
  | C :: Cs' => C ⊞ (ceval Cs' x ⊡ x)
  end.

Lemma ceval_base cs x : ceval ((λ c, g^c) <$> cs) x = g^(peval cs x).
Proof.
  induction cs as [|c cs IH]; cbn; [by rewrite base_zero |].
  rewrite IH, base_mul, <-base_add. f_equal. ring.
Qed.

Lemma peval_zero cs : peval cs 0 = hd 0 cs.
Proof. destruct cs as [|c cs]; cbn; [done | ring]. Qed.

Lemma ceval_zero Cs : ceval Cs 0 = hd Identity Cs.
Proof. destruct Cs as [|C Cs]; cbn; [done |]. by rewrite mult_zero, law_e_id. Qed.

Lemma peval_zip_add cs ds x :
  length cs = length ds → peval (zip_with s_Add cs ds) x = peval cs x + peval ds x.
Proof.
  revert ds. induction cs as [|c cs IH]; intros [|d ds]; cbn; [| done | done |].
  - intros _. ring.
  - intros [= H]. rewrite IH by done. ring.
Qed.

Lemma ceval_zip_add Cs Ds x :
  length Cs = length Ds → ceval (zip_with e_Add Cs Ds) x = ceval Cs x ⊞ ceval Ds x.
Proof.
  revert Ds. induction Cs as [|C Cs IH]; intros [|D Ds]; cbn; [| done | done |].
  - intros _. by rewrite law_e_id.
  - intros [= H]. rewrite IH, law_mult_e_add, e_add_swap by done. done.
Qed.

(** ** A polynomial has fewer roots than coefficients *)

Lemma divide_linear cs r :
  ∃ qs, length qs = pred (length cs) ∧
        ∀ x, peval cs x = peval cs r + (x - r) * peval qs x.
Proof.
  induction cs as [|c [|c' cs] IH].
  - exists []. split; [done |]. intros x. cbn. ring.
  - exists []. split; [done |]. intros x. cbn. ring.
  - destruct IH as (qs & Hl & Hq). exists (peval (c' :: cs) r :: qs).
    split; [cbn in *; by rewrite Hl |]. intros x.
    change (c + x * peval (c' :: cs) x =
            c + r * peval (c' :: cs) r + (x - r) * (peval (c' :: cs) r + x * peval qs x)).
    rewrite (Hq x). ring.
Qed.

Lemma too_many_roots rs cs :
  NoDup rs → length cs ≤ length rs → (∀ r, r ∈ rs → peval cs r = 0) →
  ∀ x, peval cs x = 0.
Proof.
  revert cs. induction rs as [|r rs IH]; intros cs Hnd Hlen Hr x.
  - destruct cs; [done | simpl in Hlen; lia].
  - apply NoDup_cons in Hnd as [Hnot Hnd].
    destruct (divide_linear cs r) as (qs & Hl & Hq).
    assert (Hcr : peval cs r = 0) by (apply Hr, list_elem_of_here).
    rewrite (Hq x), Hcr, (IH qs); [ring | done | simpl in Hlen; lia |].
    intros r' Hr'. assert (peval cs r' = 0) as H0 by (apply Hr; by apply list_elem_of_further).
    rewrite Hq, Hcr in H0.
    assert ((r' - r) * peval qs r' = 0) as [H|H]%mul_zero_iff by (rewrite <-H0; ring).
    + apply sub_zero_iff in H as ->. done.
    + done.
Qed.

(** ** Polynomial functions *)

Definition poly_fun (n : nat) (f : Scalar → Scalar) : Prop :=
  ∃ cs, length cs = n ∧ ∀ x, f x = peval cs x.

Lemma peval_scale k cs x : peval ((λ c, c * k) <$> cs) x = peval cs x * k.
Proof. induction cs as [|c cs IH]; cbn; [ring |]. rewrite IH. ring. Qed.

Lemma peval_replicate_zero n x : peval (replicate n 0) x = 0.
Proof. induction n as [|n IH]; cbn; [done |]. rewrite IH. ring. Qed.

Lemma peval_pad cs n x : peval (cs ++ replicate n 0) x = peval cs x.
Proof. induction cs as [|c cs IH]; cbn; [apply peval_replicate_zero | by rewrite IH]. Qed.

Lemma poly_fun_zero n : poly_fun n (λ _, 0).
Proof.
  exists (replicate n 0). split; [apply length_replicate |].
  intros x. by rewrite peval_replicate_zero.
Qed.

Lemma poly_fun_add n f h : poly_fun n f → poly_fun n h → poly_fun n (λ x, f x + h x).
Proof.
  intros (cs & Hc & Hf) (ds & Hd & Hh). exists (zip_with s_Add cs ds).
  split; [rewrite length_zip_with; lia |].
  intros x. rewrite peval_zip_add, Hf, Hh by congruence. done.
Qed.

Lemma poly_fun_scale n f k : poly_fun n f → poly_fun n (λ x, f x * k).
Proof.
  intros (cs & Hc & Hf). exists ((λ c, c * k) <$> cs).
  split; [by rewrite length_fmap |]. intros x. by rewrite peval_scale, Hf.
Qed.

Lemma poly_fun_linear n f a : poly_fun n f → poly_fun (S n) (λ x, (x - a) * f x).
Proof.
  intros (cs & Hc & Hf).
  exists (zip_with s_Add (0 :: cs) (((λ c, c * - a) <$> cs) ++ [0])).
  split; [rewrite length_zip_with, length_app, length_fmap; cbn [length]; lia |].
  intros x. rewrite peval_zip_add by (rewrite length_app, length_fmap; cbn [length]; lia).
  rewrite (peval_pad _ 1), peval_scale, Hf. cbn. ring.
Qed.

(** ** Lagrange interpolation *)

(** [prod_{x_j <> x_i} (x - x_j)] *)
Fixpoint lag_num (xs : list Scalar) (xi x : Scalar) : Scalar :=
  match xs with
  | [] => 1
  | xj :: xs' => if decide (xj = xi) then lag_num xs' xi x
                 else (x - xj) * lag_num xs' xi x
  end.

(** The Lagrange basis polynomial of [xi] evaluated at [x]. *)
Definition lag (xs : list Scalar) (xi x : Scalar) : Scalar :=
  lag_num xs xi x * sc_inverse (lag_num xs xi xi).

Lemma lag_num_root xs xi xk : xk ∈ xs → xk ≠ xi → lag_num xs xi xk = 0.
Proof.
  induction xs as [|xj xs IH]; [by intros ?%not_elem_of_nil |].
  intros [->|Hk]%elem_of_cons Hne; cbn; case_decide; try done.
  - ring.
  - by apply IH.
  - rewrite IH by done. ring.
Qed.

Lemma lag_num_nonzero xs xi : lag_num xs xi xi ≠ 0.
Proof.
  induction xs as [|xj xs IH]; cbn; [apply one_neq_zero |].
  case_decide; [done |]. apply mul_nonzero; [| done]. apply sub_nonzero. congruence.
Qed.

Lemma lag_num_notin xs xi : xi ∉ xs → poly_fun (S (length xs)) (lag_num xs xi).
Proof.
  induction xs as [|xj xs IH]; cbn; intros Hni.
  - exists [1]. split; [done |]. intros x. cbn. ring.
  - apply not_elem_of_cons in Hni as [Hne Hni].
    destruct (decide (xj = xi)) as [->|]; [done |]. by apply poly_fun_linear, IH.
Qed.

Lemma lag_num_poly xs xi : NoDup xs → xi ∈ xs → poly_fun (length xs) (lag_num xs xi).
Proof.
  induction xs as [|xj xs IH]; [by intros _ ?%not_elem_of_nil |].
  intros [Hj Hnd]%NoDup_cons Hi. cbn.
  destruct (decide (xj = xi)) as [->|Hne].
  - by apply lag_num_notin.
  - apply elem_of_cons in Hi as [->|Hi]; [done |]. by apply poly_fun_linear, IH.
Qed.

Lemma lag_self xs xi : lag xs xi xi = 1.
Proof.
  unfold lag. rewrite <-(inverse_l (lag_num xs xi xi)) by apply lag_num_nonzero. ring.
Qed.

Lemma lag_other xs xi xk : xk ∈ xs → xk ≠ xi → lag xs xi xk = 0.
Proof. intros. unfold lag. rewrite lag_num_root by done. ring. Qed.

Definition interpolate (xs : list Scalar) (f : Scalar → Scalar) (x : Scalar) : Scalar :=
  ssum ((λ xi, f xi * lag xs xi x) <$> xs).

Lemma interpolate_poly xs f : NoDup xs → poly_fun (length xs) (interpolate xs f).
Proof.
  intros Hnd. unfold interpolate.
  assert (∀ ys, ys ⊆ xs →
    poly_fun (length xs) (λ x, ssum ((λ xi, f xi * lag xs xi x) <$> ys))) as H.
  { induction ys as [|y ys IH]; intros Hsub; [apply poly_fun_zero |].
    assert (poly_fun (length xs)
      (λ x, lag_num xs y x * (sc_inverse (lag_num xs y y) * f y)
            + ssum ((λ xi, f xi * lag xs xi x) <$> ys))) as (cs & Hl & Hcs).
    { apply poly_fun_add.
      - apply poly_fun_scale, lag_num_poly; [done |]. apply Hsub, list_elem_of_here.
      - apply IH. intros z Hz. apply Hsub. by apply list_elem_of_further. }
    exists cs. split; [done |]. intros x. rewrite <-Hcs. cbn.
    unfold lag at 1. ring. }
  by apply H.
Qed.

Lemma interpolate_point xs f xk : NoDup xs → xk ∈ xs → interpolate xs f xk = f xk.
Proof.
  intros Hnd Hk. unfold interpolate.
  rewrite (ssum_single (λ xi, f xi * lag xs xi xk) xs xk); [| done | done |].
  - rewrite lag_self. ring.
  - intros xi Hi Hne. rewrite lag_other; [ring | done | congruence].
Qed.

(** A polynomial with no more coefficients than nodes is its interpolation. *)
Theorem lagrange_interpolation xs cs x :
  NoDup xs → length cs ≤ length xs → interpolate xs (peval cs) x = peval cs x.
Proof.
  intros Hnd Hlen.
  assert (poly_fun (length xs) (peval cs)) as Hp.
  { exists (cs ++ replicate (length xs - length cs) 0).
    split; [rewrite length_app, length_replicate; lia |].
    intros y. by rewrite peval_pad. }
  destruct (poly_fun_add _ _ _ (interpolate_poly xs (peval cs) Hnd)
              (poly_fun_scale _ _ (s_Negate (sc 1)) Hp)) as (ds & Hl & Hds).
  assert (peval ds x = 0) as H0.
  { apply (too_many_roots xs); [done | lia |].
    intros r Hr. rewrite <-Hds, interpolate_point by done. ring. }
  rewrite <-Hds in H0.
  replace (interpolate xs (peval cs) x)
    with ((interpolate xs (peval cs) x + peval cs x * s_Negate 1) + peval cs x) by ring.
  rewrite H0. ring.
Qed.
End Poly.
