(* ===== verification/Helpers.v ===== *)
(** * Protocol helpers: [pkg/frost/helpers]

    Commitment-list encoding and validation (encoding.go), polynomials and
    Lagrange coefficients (polynomial.go), binding factors (binding.go), the
    group commitment (commitment.go), the challenge (challenge.go) and nonce
    generation (nonce.go), one Module per Go type. *)

From S2P Require Export Poly.
From S2P Require Export Types.

(** A call whose error the code discards: the nil result it leaves is
    dereferenced by the next operation. *)
Definition must {A} (m : Res A) : Res A :=
  match m with Ok a => Ok a | _ => Panic end.

(** ** encoding.go *)

(** The block that writes a [uint32] identifier into a fresh buffer of
    [ScalarLength] bytes in the group's byte order; it occurs verbatim in
    [Encode], [bindingFactorComputer.Compute], [IdentifierToScalar] and
    [dkg.computeChallenge].  The big-endian branch indexes from the end and
    panics on a buffer shorter than four bytes; the little-endian loop is
    guarded by [j < len]. *)
Definition put_identifier {G : Group} (id : Z) : Res bytes :=
  let n := ScalarLength in
  let buf := zero_bytes n in
  match ByteOrder with
  | BigEndian =>
      if n <? 4 then Panic
      else Ok (<[n - 4 := byte.of_Z (Z.shiftr id 24)]>
              (<[n - 3 := byte.of_Z (Z.shiftr id 16)]>
              (<[n - 2 := byte.of_Z (Z.shiftr id 8)]>
              (<[n - 1 := byte.of_Z id]> buf))))
  | LittleEndian =>
      Ok (foldl (λ b j, if j <? length b
                        then <[j := byte.of_Z (Z.shiftr id (8 * Z.of_nat j))]> b
                        else b) buf (seq 0 4))
  end.

(** The encoding of 1 in the group's byte order, used by [scalarOne] and by the
    copies of [evaluateCommitmentPolynomial]. *)
Definition one_bytes {G : Group} : Res bytes :=
  let n := ScalarLength in
  if n =? 0 then Panic
  else match ByteOrder with
       | BigEndian => Ok (<[n - 1 := byte.of_Z 1]> (zero_bytes n))
       | LittleEndian => Ok (<[0 := byte.of_Z 1]> (zero_bytes n))
       end.

Definition IdentifierToScalar {G : Group} (id : Z) : Res Scalar :=
  idBytes ← put_identifier id;
  DeserializeScalar idBytes.

Module commitmentListEncoder.
Section Defs.
Context {G : Group}.

Definition Encode (commitmentList : CommitmentList) : Res bytes :=
  range_loop (λ result commitment,
    identifierBytes ← put_identifier (cm_Identifier commitment);
    hiding ← deref (HidingNonceCommitment commitment);
    binding ← deref (BindingNonceCommitment commitment);
    Ok (result ++ identifierBytes ++ e_Bytes hiding ++ e_Bytes binding))
  commitmentList [].

Definition GetParticipants (commitmentList : CommitmentList) : list Z :=
  cm_Identifier <$> commitmentList.

(** The loop of [ValidateCommitmentList] from the element before. *)
Fixpoint check_sorted (prev : Z) (l : list Z) : Res unit :=
  match l with
  | [] => Ok ()
  | id :: l' =>
      if (id <=? prev)%Z then
        if (id =? prev)%Z then Fail (Sentinel ErrDuplicateParticipant)
        else Fail (Sentinel ErrUnsortedCommitments)
      else check_sorted id l'
  end.

Definition ValidateCommitmentList (commitmentList : CommitmentList) : Res unit :=
  match commitmentList with
  | [] => Fail (Sentinel ErrEmptyCommitmentList)
  | c :: l => check_sorted (cm_Identifier c) (cm_Identifier <$> l)
  end.
End Defs.
End commitmentListEncoder.

(** ** polynomial.go *)

Module polynomialHelper.
Section Defs.
Context {G : Group}.

(** Horner's rule from the highest coefficient down. *)
Definition Evaluate (poly : Polynomial) (x : Scalar) : Scalar :=
  match reverse (Coefficients poly) with
  | [] => NewScalar
  | c :: rest => foldl (λ result ci, s_Add (s_Mul result x) ci) (s_Copy c) rest
  end.

Definition scalarOne : Res Scalar := b ← one_bytes; must (DeserializeScalar b).

(** The double loop over [i < j]. *)
Fixpoint has_duplicates (xs : list Scalar) : bool :=
  match xs with
  | [] => false
  | x :: xs' => existsb (s_Equal x) xs' || has_duplicates xs'
  end.

Definition DeriveInterpolatingValue (xCoords : list Scalar) (xi : option Scalar)
  : Res Scalar :=
  _ ← fail_if (bool_decide (length xCoords = 0))
        (NewParameterError "xCoords" "cannot be empty" (Sentinel ErrInvalidParameters));
  match xi with
  | None => Fail (NewParameterError "xi" "cannot be nil" (Sentinel ErrInvalidParameters))
  | Some xi =>
      _ ← fail_if (negb (existsb (λ x, s_Equal x xi) xCoords))
            (NewParameterError "xi" "not found in x-coordinates"
               (Sentinel ErrInvalidParameters));
      _ ← fail_if (has_duplicates xCoords)
            (NewParameterError "xCoords" "contains duplicate coordinates"
               (Sentinel ErrInvalidParameters));
      if length xCoords =? 1 then scalarOne
      else
        one ← scalarOne;
        let '(numerator, denominator) :=
          foldl (λ '(num, den) xj,
                   if s_Equal xj xi then (num, den)
                   else (s_Mul num xj, s_Mul den (s_Sub xj xi)))
                (one, one) xCoords in
        denominatorInv ← wrap (NewParameterError "denominator"
                                 "cannot invert (division by zero)")
                              (s_Inv denominator);
        Ok (s_Mul numerator denominatorInv)
  end.

(** [make([]group.Scalar, degree+1)] with a wrapping [uint32] sum: at
    [degree = 2^32 - 1] the slice is empty and [coefficients[0]] panics. *)
Definition Generate (constantTerm : option Scalar) (degree : Z) : Rand Polynomial :=
  match constantTerm with
  | None => lift (Fail (NewParameterError "constantTerm" "cannot be nil"
                          (Sentinel ErrInvalidParameters)))
  | Some c =>
      if ((degree + 1) mod 2 ^ 32 =? 0)%Z then lift Panic
      else
        cs ← rand_repeat (Z.to_nat degree)
               (rand_wrap (NewParameterError "coefficients"
                             "failed to generate random scalar") RandomScalar);
        mret {| Coefficients := s_Copy c :: cs |}
  end.
End Defs.
End polynomialHelper.

(** ** binding.go *)

Module bindingFactorComputer.
Section Defs.
Context {G : Group} {CS : Ciphersuite G}.

Definition Compute (groupPublicKey : option Element) (commitmentList : CommitmentList)
    (msg : bytes) : Res BindingFactorList :=
  match groupPublicKey with
  | None => Fail (NewParameterError "groupPublicKey" "cannot be nil"
                    (Sentinel ErrInvalidParameters))
  | Some pk =>
      _ ← fail_if (bool_decide (length commitmentList = 0)) (Sentinel ErrEmptyCommitmentList);
      encodedCommitmentList ←
        wrap (NewParameterError "commitmentList" "failed to encode")
             (commitmentListEncoder.Encode commitmentList);
      let encodedCommitmentHash := H5 encodedCommitmentList in
      let rhoInputPrefix := e_Bytes pk ++ H4 msg ++ encodedCommitmentHash in
      range_map (λ commitment,
        identifierBytes ← put_identifier (cm_Identifier commitment);
        Ok {| bf_Identifier := cm_Identifier commitment;
              bf_value := H1 (rhoInputPrefix ++ identifierBytes) |})
      commitmentList
  end.

Definition GetBindingFactor (bindingFactors : BindingFactorList) (identifier : Z)
  : Res Scalar :=
  match find_by bf_Identifier identifier bindingFactors with
  | Some bf => Ok (bf_value bf)
  | None => Fail (NewParticipantError identifier "binding factor not found"
                    (Sentinel ErrInvalidParticipant))
  end.
End Defs.
End bindingFactorComputer.

(** ** commitment.go *)

Module groupCommitmentComputer.
Section Defs.
Context {G : Group}.

(** [c == nil || c.IsIdentity()] *)
Definition nil_or_identity (o : option Element) : bool :=
  match o with None => true | Some P => e_IsIdentity P end.

Definition Compute (commitmentList : CommitmentList) (bindingFactors : BindingFactorList)
  : Res Element :=
  _ ← fail_if (bool_decide (length commitmentList = 0)) (Sentinel ErrEmptyCommitmentList);
  _ ← fail_if (bool_decide (length bindingFactors = 0))
        (NewParameterError "bindingFactors" "cannot be empty" (Sentinel ErrInvalidParameters));
  range_loop (λ groupCommitment commitment,
    let id := cm_Identifier commitment in
    _ ← fail_if (nil_or_identity (HidingNonceCommitment commitment))
          (NewParticipantError id "hiding nonce commitment is identity element"
             (Sentinel ErrIdentityElement));
    _ ← fail_if (nil_or_identity (BindingNonceCommitment commitment))
          (NewParticipantError id "binding nonce commitment is identity element"
             (Sentinel ErrIdentityElement));
    match find_by bf_Identifier id bindingFactors with
    | None => Fail (NewParticipantError id "binding factor not found"
                      (Sentinel ErrInvalidBindingFactor))
    | Some bf =>
        hiding ← deref (HidingNonceCommitment commitment);
        binding ← deref (BindingNonceCommitment commitment);
        let bindingNonce := ScalarMult binding (bf_value bf) in
        let participantCommitment := e_Add hiding bindingNonce in
        Ok (e_Add groupCommitment participantCommitment)
    end)
  commitmentList Identity.
End Defs.
End groupCommitmentComputer.

(** ** challenge.go *)

Module challengeComputer.
Section Defs.
Context {G : Group} {CS : Ciphersuite G}.

Definition Compute (groupCommitment groupPublicKey : option Element) (msg : bytes)
  : Res Scalar :=
  match groupCommitment, groupPublicKey with
  | None, _ => Fail (NewParameterError "groupCommitment" "cannot be nil"
                       (Sentinel ErrInvalidParameters))
  | _, None => Fail (NewParameterError "groupPublicKey" "cannot be nil"
                       (Sentinel ErrInvalidParameters))
  | Some R, Some pk =>
      let challenge := H2 (e_Bytes R ++ e_Bytes pk ++ msg) in
      _ ← fail_if (s_IsZero challenge)
            (NewVerificationError "challenge"
               "computed challenge is zero - possible hash collision"
               (Sentinel ErrInvalidChallenge));
      Ok challenge
  end.
End Defs.
End challengeComputer.

(** ** nonce.go *)

Module nonceGenerator.
Section Defs.
Context {G : Group} {CS : Ciphersuite G}.

Definition RandomBytesSize : nat := 32.

Definition Generate (secret : option Scalar) : Rand Scalar :=
  match secret with
  | None => lift (Fail (NewParameterError "secret" "cannot be nil"
                          (Sentinel ErrInvalidParameters)))
  | Some secret =>
      randomBytes ← rand_wrap (NewParameterError "randomness"
                                 "failed to generate random bytes")
                              (rand_Read RandomBytesSize);
      let nonce := H3 (randomBytes ++ s_Bytes secret) in
      _ ← lift (fail_if (s_IsZero nonce)
            (NewParameterError "nonce" "generated zero nonce" (Sentinel ErrInvalidNonce)));
      mret nonce
  end.
End Defs.
End nonceGenerator.

(** ** Identifiers as scalars *)

Section IdentifierFacts.
Context {G : Group} {L : GroupLaws G}.

(** The bytes [put_identifier] writes. *)
Definition identifier_bytes (id : Z) : bytes :=
  match ByteOrder with
  | BigEndian => zero_bytes (ScalarLength - 4) ++ Serialize id
  | LittleEndian => reverse (Serialize id) ++ zero_bytes (ScalarLength - 4)
  end.

Lemma zero_bytes_app n k : zero_bytes (n + k) = zero_bytes n ++ zero_bytes k.
Proof. apply replicate_add. Qed.

(** The guard of the little-endian loop never fires on a long enough buffer. *)
Lemma guarded_inserts (f : nat → Init.Byte.byte) js (b : bytes) :
  (∀ j, j ∈ js → j < length b) →
  foldl (λ b j, if j <? length b then <[j := f j]> b else b) b js
  = foldl (λ b j, <[j := f j]> b) b js.
Proof.
  revert b. induction js as [|j js IH]; intros b H; [done |]. cbn [foldl].
  rewrite (proj2 (Nat.ltb_lt _ _)) by (apply H, list_elem_of_here).
  apply IH. intros i Hi. rewrite length_insert. apply H. by apply list_elem_of_further.
Qed.

Lemma put_identifier_Ok id : put_identifier id = Ok (identifier_bytes id).
Proof.
  pose proof law_ScalarLength as Hn. unfold put_identifier, identifier_bytes.
  assert (Hlz : ∀ k, length (zero_bytes k) = k) by (intros; apply length_replicate).
  destruct ByteOrder.
  - replace (zero_bytes ScalarLength) with (zero_bytes 4 ++ zero_bytes (ScalarLength - 4))
      by (rewrite <-zero_bytes_app; f_equal; lia).
    rewrite guarded_inserts.
    + cbn [seq foldl]. rewrite !insert_app_l by (rewrite ?length_insert, Hlz; lia). done.
    + intros j Hj%elem_of_seq. rewrite length_app, !Hlz. lia.
  - rewrite (proj2 (Nat.ltb_ge _ _)) by lia.
    replace (zero_bytes ScalarLength) with (zero_bytes (ScalarLength - 4) ++ zero_bytes 4)
      by (rewrite <-zero_bytes_app; f_equal; lia).
    do 4 (rewrite insert_app_r_alt by (rewrite Hlz; lia)). rewrite !Hlz.
    replace (ScalarLength - 1 - (ScalarLength - 4)) with 3 by lia.
    replace (ScalarLength - 2 - (ScalarLength - 4)) with 2 by lia.
    replace (ScalarLength - 3 - (ScalarLength - 4)) with 1 by lia.
    replace (ScalarLength - 4 - (ScalarLength - 4)) with 0 by lia. done.
Qed.

Lemma identifier_bytes_length id : length (identifier_bytes id) = ScalarLength.
Proof.
  pose proof law_ScalarLength. unfold identifier_bytes, zero_bytes.
  destruct ByteOrder; rewrite length_app, length_replicate; simpl; lia.
Qed.

Lemma identifier_bytes_decode id :
  is_uint32 id → decode_int ByteOrder (identifier_bytes id) = id.
Proof.
  intros Hid. unfold is_uint32, uint32_max in Hid. unfold identifier_bytes, decode_int.
  destruct ByteOrder; unfold be_combine.
  - rewrite le_combine_zeros. fold (be_combine (Serialize id)).
    rewrite be_combine_Serialize. apply Z.mod_small. lia.
  - rewrite reverse_app, reverse_zero_bytes, le_combine_zeros.
    fold (be_combine (Serialize id)). rewrite be_combine_Serialize.
    apply Z.mod_small. lia.
Qed.

Lemma identifier_bytes_inj id1 id2 :
  is_uint32 id1 → is_uint32 id2 → identifier_bytes id1 = identifier_bytes id2 → id1 = id2.
Proof.
  intros H1 H2 H. rewrite <-(identifier_bytes_decode id1), <-(identifier_bytes_decode id2)
    by done. by rewrite H.
Qed.

Lemma uint32_lt_order id : is_uint32 id → (id < order)%Z.
Proof. pose proof law_order. unfold is_uint32, uint32_max. lia. Qed.

Lemma IdentifierToScalar_Ok id : is_uint32 id → IdentifierToScalar id = Ok (sc id).
Proof.
  intros Hid. unfold IdentifierToScalar. rewrite put_identifier_Ok. simpl.
  rewrite law_DeserializeScalar; rewrite ?identifier_bytes_decode; auto using
    identifier_bytes_length, uint32_lt_order.
Qed.

Lemma one_bytes_decode :
  ∃ bs, one_bytes = Ok bs ∧ length bs = ScalarLength ∧ decode_int ByteOrder bs = 1%Z.
Proof.
  pose proof law_ScalarLength as Hn. unfold one_bytes.
  rewrite (proj2 (Nat.eqb_neq _ _)) by lia.
  assert (Hlz : ∀ k, length (zero_bytes k) = k) by (intros; apply length_replicate).
  destruct ByteOrder; eexists; (split; [done |]); rewrite length_insert, Hlz;
    (split; [done |]); unfold decode_int, be_combine.
  - replace ScalarLength with (1 + (ScalarLength - 1)) by lia. rewrite zero_bytes_app.
    rewrite insert_app_l, le_combine_zeros by (rewrite Hlz; lia). done.
  - replace (zero_bytes ScalarLength) with (zero_bytes (ScalarLength - 1) ++ zero_bytes 1)
      by (rewrite <-zero_bytes_app; f_equal; lia).
    rewrite insert_app_r_alt, reverse_app, reverse_zero_bytes, le_combine_zeros
      by (rewrite Hlz; lia).
    by rewrite Hlz, Nat.sub_diag.
Qed.

Lemma scalarOne_Ok : polynomialHelper.scalarOne = Ok (sc 1).
Proof.
  unfold polynomialHelper.scalarOne. destruct one_bytes_decode as (bs & -> & Hl & Hd). simpl.
  rewrite law_DeserializeScalar; rewrite ?Hd; try done. pose proof law_order. lia.
Qed.
End IdentifierFacts.

(** ** Polynomials and Lagrange coefficients *)

Section PolynomialFacts.
Context {G : Group} {L : GroupLaws G}.
Add Field scalar_field : law_field.
Implicit Types (x : Scalar) (xs : list Scalar).
Local Open Scope scalar_scope.

Lemma peval_fold_top (cs : list Scalar) a b x :
  peval (cs ++ [a * x + b]) x = peval (cs ++ [b; a]) x.
Proof. induction cs as [|c cs IH]; cbn; [ring | by rewrite IH]. Qed.

Lemma horner (l : list Scalar) a x :
  foldl (λ result ci, result * x + ci) a l = peval (reverse l ++ [a]) x.
Proof.
  revert a. induction l as [|d l IH]; intros a; [cbn; ring |]. cbn [foldl].
  by rewrite IH, peval_fold_top, reverse_cons, <-app_assoc.
Qed.

(** The Horner loop of [Evaluate] computes the polynomial
    [c_0 + c_1 x + ... + c_n x^n], for every coefficient slice. *)
Lemma Evaluate_peval (p : Polynomial) x :
  polynomialHelper.Evaluate p x = peval (Coefficients p) x.
Proof.
  unfold polynomialHelper.Evaluate. destruct (reverse (Coefficients p)) as [|c rest] eqn:E.
  - apply (f_equal reverse) in E. rewrite reverse_involutive in E. rewrite E. cbn.
    apply law_NewScalar.
  - rewrite law_s_Copy, horner, <-reverse_cons, <-E, reverse_involutive. done.
Qed.

Lemma s_Equal_in xs xi : existsb (λ x, s_Equal x xi) xs = bool_decide (xi ∈ xs).
Proof.
  apply Bool.eq_iff_eq_true. rewrite existsb_exists, bool_decide_eq_true. split.
  - intros (x & Hx & He). apply law_s_Equal in He as <-. by apply list_elem_of_In.
  - intros Hx. exists xi. split; [by apply list_elem_of_In | apply s_Equal_refl].
Qed.

Lemma has_duplicates_spec xs : polynomialHelper.has_duplicates xs = negb (bool_decide (NoDup xs)).
Proof.
  induction xs as [|x xs IH]; cbn [polynomialHelper.has_duplicates]; [done |].
  assert (existsb (s_Equal x) xs = bool_decide (x ∈ xs)) as ->.
  { rewrite <-s_Equal_in. apply Bool.eq_iff_eq_true. rewrite !existsb_exists.
    split; intros (y & Hy & He%law_s_Equal); exists y; (split; [done |]); by apply law_s_Equal. }
  rewrite IH. apply Bool.eq_iff_eq_true.
  rewrite orb_true_iff, !negb_true_iff, bool_decide_eq_true, !bool_decide_eq_false, NoDup_cons.
  destruct (decide (x ∈ xs)), (decide (NoDup xs)); tauto.
Qed.

(** The two running products of [DeriveInterpolatingValue] are, up to a common
    sign, the numerator and denominator of the Lagrange basis polynomial. *)
Lemma lagrange_products xs xi a b :
  ∃ s N D, s ≠ 0 ∧
    foldl (λ '(num, den) xj,
             if s_Equal xj xi then (num, den) else (num * xj, den * (xj - xi))) (a, b) xs
      = (a * N, b * D) ∧
    lag_num xs xi 0 = s * N ∧ lag_num xs xi xi = s * D.
Proof.
  revert a b. induction xs as [|xj xs IH]; intros a b.
  - exists 1, 1, 1. split; [apply one_neq_zero |]. cbn. split; [f_equal; ring |]. split; ring.
  - cbn [foldl lag_num]. rewrite s_Equal_decide. destruct (decide (xj = xi)) as [->|Hne].
    + rewrite bool_decide_eq_true_2 by done. apply IH.
    + rewrite bool_decide_eq_false_2 by done.
      destruct (IH (a * xj) (b * (xj - xi))) as (s & N & D & Hs & Hf & HN & HD).
      exists (- s), (xj * N), ((xj - xi) * D). split.
      { intros H. apply Hs. replace s with (- - s) by ring. rewrite H. ring. }
      rewrite Hf, HN, HD. split; [f_equal; ring |]. split; ring.
Qed.

Lemma lag_singleton x : lag [x] x 0 = 1.
Proof.
  unfold lag. cbn [lag_num]. rewrite !decide_True by done.
  transitivity (sc_inverse 1 * 1); [ring | apply inverse_l, one_neq_zero].
Qed.

Lemma inverse_mul x y : x ≠ 0 → y ≠ 0 → sc_inverse (x * y) = sc_inverse x * sc_inverse y.
Proof. intros Hx Hy. field. auto. Qed.

Lemma DeriveInterpolatingValue_Ok xs xi :
  NoDup xs → xi ∈ xs →
  polynomialHelper.DeriveInterpolatingValue xs (Some xi) = Ok (lag xs xi 0).
Proof.
  intros Hnd Hin. unfold polynomialHelper.DeriveInterpolatingValue.
  rewrite s_Equal_in, has_duplicates_spec.
  rewrite (bool_decide_eq_true_2 _ Hin), (bool_decide_eq_true_2 _ Hnd).
  destruct xs as [|x0 xs0] eqn:Exs; [by apply not_elem_of_nil in Hin |].
  rewrite bool_decide_eq_false_2 by done. rewrite <-Exs in *. simpl.
  destruct (Nat.eqb_spec (length xs) 1) as [H1|_].
  - rewrite scalarOne_Ok. subst xs. destruct xs0; [| done].
    apply list_elem_of_singleton in Hin as ->. by rewrite lag_singleton.
  - rewrite scalarOne_Ok. simpl.
    destruct (lagrange_products xs xi 1 1) as (s & N & D & Hs & -> & HN & HD).
    assert (D ≠ 0).
    { intros ->. apply (lag_num_nonzero xs xi). rewrite HD. ring. }
    assert (1 * D ≠ 0) by (apply mul_nonzero; auto using one_neq_zero).
    rewrite law_s_Inv by done. simpl. f_equal. unfold lag. rewrite HN, HD.
    rewrite !inverse_mul by auto using one_neq_zero. field.
    split_and!; [done | done | apply one_neq_zero].
Qed.

Lemma DeriveInterpolatingValue_Fail xs xi :
  ¬ (NoDup xs ∧ xi ∈ xs) →
  ∃ e, polynomialHelper.DeriveInterpolatingValue xs (Some xi) = Fail e ∧
       errors_Is e ErrInvalidParameters = true ∧ GetCulprits e = [].
Proof.
  intros Hn. unfold polynomialHelper.DeriveInterpolatingValue.
  rewrite s_Equal_in, has_duplicates_spec.
  destruct (bool_decide (length xs = 0%nat)); simpl; [fails_with |].
  destruct (decide (xi ∈ xs)) as [Hin|Hnin].
  - rewrite (bool_decide_eq_true_2 _ Hin). simpl.
    rewrite bool_decide_eq_false_2 by tauto. fails_with.
  - rewrite (bool_decide_eq_false_2 _ Hnin). fails_with.
Qed.

(** [DeriveInterpolatingValue] succeeds exactly when the coordinate is
    one of a duplicate-free list, and then returns the Lagrange basis
    polynomial of that coordinate at zero; every other input is rejected as
    invalid parameters, and no input makes it panic. *)
Theorem DeriveInterpolatingValue_spec xs xi :
  (∀ v, polynomialHelper.DeriveInterpolatingValue xs xi = Ok v ↔
        ∃ x, xi = Some x ∧ NoDup xs ∧ x ∈ xs ∧ v = lag xs x 0) ∧
  polynomialHelper.DeriveInterpolatingValue xs xi ≠ Panic ∧
  (∀ e, polynomialHelper.DeriveInterpolatingValue xs xi = Fail e →
        errors_Is e ErrInvalidParameters = true ∧ GetCulprits e = []).
Proof.
  destruct xi as [x|]; [destruct (decide (NoDup xs ∧ x ∈ xs)) as [[Hnd Hx]|Hn] |].
  - rewrite DeriveInterpolatingValue_Ok by done. split; [| done].
    intros v. split; [intros [= <-]; eauto | by intros (? & [= <-] & _ & _ & ->)].
  - destruct (DeriveInterpolatingValue_Fail xs x Hn) as (e & -> & He).
    split; [| naive_solver]. intros v. split; [done |]. intros (? & [= <-] & ? & ? & _). tauto.
  - unfold polynomialHelper.DeriveInterpolatingValue.
    destruct (bool_decide (length xs = 0%nat)); simpl; (split; [naive_solver |]; split;
      [done | intros e [= <-]; done]).
Qed.
End PolynomialFacts.

(** ** Commitment lists *)

Section CommitmentListFacts.
Context {G : Group}.
Implicit Types (l : CommitmentList).

Local Abbreviation ids l := (cm_Identifier <$> l).

Lemma check_sorted_Ok prev ids :
  commitmentListEncoder.check_sorted prev ids = Ok () ↔ StronglySorted Z.lt (prev :: ids).
Proof.
  revert prev. induction ids as [|id ids IH]; intros prev; cbn.
  - split; [intros _; repeat constructor | done].
  - destruct (Z.leb_spec id prev) as [Hle|Hlt].
    + split; [by destruct (id =? prev)%Z |]. intros H. exfalso.
      apply StronglySorted_inv in H as [_ H]. apply Forall_cons in H as [H _]. lia.
    + rewrite IH. split; intros H.
      * constructor; [done |]. constructor; [done |].
        apply StronglySorted_inv in H as [_ H].
        eapply Forall_impl; [exact H |]. simpl. lia.
      * by apply StronglySorted_inv in H as [H _].
Qed.

Lemma check_sorted_Fail prev ids e :
  commitmentListEncoder.check_sorted prev ids = Fail e →
  ∃ pre x y suf, prev :: ids = pre ++ x :: y :: suf ∧ StronglySorted Z.lt (pre ++ [x]) ∧
    (e = Sentinel ErrDuplicateParticipant ∧ y = x ∨ e = Sentinel ErrUnsortedCommitments ∧ (y < x)%Z).
Proof.
  revert prev. induction ids as [|id ids IH]; intros prev; cbn; [done |].
  destruct (Z.leb_spec id prev) as [Hle|Hlt].
  - intros H. exists [], prev, id, ids. split; [done |]. split; [repeat constructor |].
    destruct (Z.eqb_spec id prev); simplify_eq; [left | right]; (split; [done | lia]).
  - intros (pre & x & y & suf & Heq & Hs & He)%IH.
    exists (prev :: pre), x, y, suf. rewrite Heq. split; [done |]. split; [| done].
    simpl. constructor; [done |].
    assert (∃ t, pre ++ [x] = id :: t) as [t Ht].
    { destruct pre; simpl in *; simplify_eq; eauto. }
    rewrite Ht in *. apply StronglySorted_inv in Hs as [_ Hs].
    constructor; [done |]. eapply Forall_impl; [exact Hs |]. simpl. lia.
Qed.

Lemma ValidateCommitmentList_Ok l :
  commitmentListEncoder.ValidateCommitmentList l = Ok () ↔
  l ≠ [] ∧ StronglySorted Z.lt (ids l).
Proof.
  destruct l as [|c l]; cbn; [split; [done | by intros []] |].
  rewrite check_sorted_Ok. split; [done | by intros []].
Qed.

Lemma check_sorted_no_panic p zs : commitmentListEncoder.check_sorted p zs ≠ Panic.
Proof.
  revert p. induction zs as [|id zs IH]; intros p; [done |].
  cbn. by destruct (id <=? p)%Z, (id =? p)%Z.
Qed.

Lemma ValidateCommitmentList_no_panic l :
  commitmentListEncoder.ValidateCommitmentList l ≠ Panic.
Proof. destruct l; [done | apply check_sorted_no_panic]. Qed.

(** [ValidateCommitmentList] accepts exactly the non-empty lists whose
    identifiers strictly increase; otherwise its error says which rule is
    broken at the first offending pair. *)
Theorem ValidateCommitmentList_spec l :
  (commitmentListEncoder.ValidateCommitmentList l = Ok () ↔
     l ≠ [] ∧ StronglySorted Z.lt (ids l)) ∧
  commitmentListEncoder.ValidateCommitmentList l ≠ Panic ∧
  ∀ e, commitmentListEncoder.ValidateCommitmentList l = Fail e →
    l = [] ∧ e = Sentinel ErrEmptyCommitmentList ∨
    ∃ pre x y suf, ids l = pre ++ x :: y :: suf ∧ StronglySorted Z.lt (pre ++ [x]) ∧
      (e = Sentinel ErrDuplicateParticipant ∧ y = x ∨
       e = Sentinel ErrUnsortedCommitments ∧ (y < x)%Z).
Proof.
  split; [apply ValidateCommitmentList_Ok |]. split; [apply ValidateCommitmentList_no_panic |].
  destruct l as [|c l]; cbn; intros e; [intros [= <-]; by left |].
  intros He. right. by apply check_sorted_Fail.
Qed.

Lemma StronglySorted_lt_NoDup (zs : list Z) : StronglySorted Z.lt zs → NoDup zs.
Proof.
  induction 1 as [|z zs _ IH Hz]; constructor; [| done].
  intros Hin. rewrite Forall_forall in Hz. specialize (Hz z Hin). lia.
Qed.

Lemma GetParticipants_ids l : commitmentListEncoder.GetParticipants l = ids l.
Proof. done. Qed.
End CommitmentListFacts.

(** ** The encoding of a commitment list *)

Section EncodeFacts.
Context {G : Group} {L : GroupLaws G}.

Definition nonce_elements (c : SigningCommitments) : option (Element * Element) :=
  match HidingNonceCommitment c, BindingNonceCommitment c with
  | Some D, Some E => Some (D, E)
  | _, _ => None
  end.

(** A commitment as the protocol produces it. *)
Definition commitment_wf (c : SigningCommitments) : Prop :=
  is_uint32 (cm_Identifier c) ∧
  ∃ D E, nonce_elements c = Some (D, E) ∧ D ≠ Identity ∧ E ≠ Identity.

Definition encode_one (c : SigningCommitments) : bytes :=
  match nonce_elements c with
  | Some (D, E) => identifier_bytes (cm_Identifier c) ++ e_Bytes D ++ e_Bytes E
  | None => []
  end.

Lemma Encode_Ok (l : CommitmentList) :
  (∀ c, c ∈ l → is_Some (nonce_elements c)) →
  commitmentListEncoder.Encode l = Ok (concat (encode_one <$> l)).
Proof.
  intros Hl. unfold commitmentListEncoder.Encode.
  rewrite (range_loop_total _ (λ acc c, acc ++ encode_one c)), foldl_app_concat; [done |].
  intros acc c Hc. rewrite put_identifier_Ok. unfold encode_one.
  destruct (Hl c Hc) as [[D E] He]. rewrite He. unfold nonce_elements in He.
  destruct (HidingNonceCommitment c), (BindingNonceCommitment c); by simplify_eq/=.
Qed.

Lemma commitment_wf_elements c : commitment_wf c → is_Some (nonce_elements c).
Proof. intros (_ & D & E & He & _). by exists (D, E). Qed.

Lemma Forall_wf_elements (l : CommitmentList) c :
  Forall commitment_wf l → c ∈ l → is_Some (nonce_elements c).
Proof. rewrite Forall_forall. auto using commitment_wf_elements. Qed.

Lemma encode_one_length c :
  commitment_wf c → length (encode_one c) = ScalarLength + (ElementLength + ElementLength).
Proof.
  intros (Hid & D & E & He & HD & HE). unfold encode_one. rewrite He.
  by rewrite !length_app, identifier_bytes_length, !law_e_Bytes_length by done.
Qed.

Lemma encode_one_inj c1 c2 :
  commitment_wf c1 → commitment_wf c2 → encode_one c1 = encode_one c2 → c1 = c2.
Proof.
  intros (Hid1 & D1 & E1 & He1 & HD1 & HE1) (Hid2 & D2 & E2 & He2 & HD2 & HE2).
  unfold encode_one. rewrite He1, He2. intros H.
  apply app_inj_1 in H as [Hi H]; [| by rewrite !identifier_bytes_length].
  apply app_inj_1 in H as [HDe HEe]; [| by rewrite !law_e_Bytes_length].
  apply law_e_Bytes_inj in HDe, HEe. apply identifier_bytes_inj in Hi; [| done | done].
  unfold nonce_elements in He1, He2.
  destruct c1 as [i1 [|] [|]], c2 as [i2 [|] [|]]; by simplify_eq/=.
Qed.

(** The encoding of a commitment list that is hashed into every binding
    factor determines the list: two lists of well-formed commitments with the
    same encoding are the same list, so no two signing sessions that differ in
    a participant, a commitment or the order share binding-factor inputs. *)
Theorem Encode_injective (l1 l2 : CommitmentList) enc :
  Forall commitment_wf l1 → Forall commitment_wf l2 →
  commitmentListEncoder.Encode l1 = Ok enc → commitmentListEncoder.Encode l2 = Ok enc →
  l1 = l2.
Proof.
  intros H1 H2 He1 He2. rewrite Encode_Ok in He1, He2 by eauto using Forall_wf_elements.
  injection He1 as <-. injection He2 as Heq. pose proof law_ScalarLength.
  apply (concat_chunks_inj commitment_wf encode_one
           (ScalarLength + (ElementLength + ElementLength)));
    [lia | apply encode_one_length | apply encode_one_inj | done | done | done].
Qed.
End EncodeFacts.

(** ** Binding factors, group commitment, challenge, nonces *)

Section ComputationFacts.
Context {G : Group} {L : GroupLaws G} {CS : Ciphersuite G}.
Local Open Scope element_scope.

(** The binding factor of participant [id]:
    [H1(PK || H4(msg) || H5(encoded list) || id)]. *)
Definition rho (pk : Element) (l : CommitmentList) (msg : bytes) (id : Z) : Scalar :=
  H1 ((e_Bytes pk ++ H4 msg ++ H5 (concat (encode_one <$> l))) ++ identifier_bytes id).

Definition binding_factors (pk : Element) (l : CommitmentList) (msg : bytes)
  : BindingFactorList :=
  (λ c, {| bf_Identifier := cm_Identifier c; bf_value := rho pk l msg (cm_Identifier c) |}) <$> l.

Lemma binding_factors_length pk l msg : length (binding_factors pk l msg) = length l.
Proof. apply length_fmap. Qed.

Lemma binding_Compute_Ok pk l msg :
  l ≠ [] → (∀ c, c ∈ l → is_Some (nonce_elements c)) →
  bindingFactorComputer.Compute (Some pk) l msg = Ok (binding_factors pk l msg).
Proof.
  intros Hne Hl. unfold bindingFactorComputer.Compute.
  rewrite bool_decide_eq_false_2 by (by destruct l). simpl.
  rewrite Encode_Ok by done. simpl. unfold binding_factors.
  apply range_map_total. intros c Hc. by rewrite put_identifier_Ok.
Qed.

Lemma find_binding_factor pk l msg id :
  id ∈ cm_Identifier <$> l →
  find_by bf_Identifier id (binding_factors pk l msg) =
    Some {| bf_Identifier := id; bf_value := rho pk l msg id |}.
Proof.
  unfold binding_factors. generalize (rho pk l msg) as r. intros r.
  induction l as [|c l IH]; [by intros ?%not_elem_of_nil |].
  rewrite !fmap_cons. cbn [find_by bf_Identifier].
  destruct (Z.eqb_spec (cm_Identifier c) id) as [->|Hne]; [done |].
  intros [Hc|Hc]%elem_of_cons; [congruence | by apply IH].
Qed.

Lemma GetBindingFactor_Ok pk l msg id :
  id ∈ cm_Identifier <$> l →
  bindingFactorComputer.GetBindingFactor (binding_factors pk l msg) id = Ok (rho pk l msg id).
Proof.
  intros Hid. unfold bindingFactorComputer.GetBindingFactor. by rewrite find_binding_factor.
Qed.

(** The contribution [D_i + rho_i E_i] of one participant. *)
Definition commitment_point (r : Z → Scalar) (c : SigningCommitments) : Element :=
  match nonce_elements c with
  | Some (D, E) => D ⊞ E ⊡ r (cm_Identifier c)
  | None => Identity
  end.

Definition commitment_ok (c : SigningCommitments) : Prop :=
  ∃ D E, nonce_elements c = Some (D, E) ∧ D ≠ Identity ∧ E ≠ Identity.

Lemma commitment_wf_ok c : commitment_wf c → commitment_ok c.
Proof. by intros [_ H]. Qed.

Lemma group_commitment_Ok pk l msg :
  l ≠ [] → Forall commitment_ok l →
  groupCommitmentComputer.Compute l (binding_factors pk l msg) =
    Ok (esum (commitment_point (rho pk l msg) <$> l)).
Proof.
  intros Hne Hl. unfold groupCommitmentComputer.Compute.
  rewrite binding_factors_length, bool_decide_eq_false_2 by (by destruct l).
  cbn [fail_if mbind outcome_mbind outcome_bind].
  rewrite (range_loop_total _ (λ acc c, acc ⊞ commitment_point (rho pk l msg) c)).
  - f_equal. rewrite <-(e_id_l (esum _)), <-foldl_e_Add.
    generalize (@Identity G) as P. generalize (commitment_point (rho pk l msg)) as f. clear.
    intros f. induction l as [|c l IH]; intros P; cbn; [done | apply IH].
  - intros acc c Hc. rewrite find_binding_factor by (apply list_elem_of_fmap; eauto).
    unfold commitment_point. rewrite Forall_forall in Hl.
    destruct (Hl c Hc) as (D & E & He & HD & HE). rewrite He. unfold nonce_elements in He.
    destruct (HidingNonceCommitment c) as [D'|], (BindingNonceCommitment c) as [E'|];
      simplify_eq/=. rewrite !e_IsIdentity_decide.
    by rewrite !bool_decide_eq_false_2 by done.
Qed.

(** The group commitment names the first participant whose commitment is nil
    or the identity. *)
Lemma group_commitment_Fail pk l msg pre c suf :
  l = pre ++ c :: suf → Forall commitment_ok pre →
  groupCommitmentComputer.nil_or_identity (HidingNonceCommitment c) ||
  groupCommitmentComputer.nil_or_identity (BindingNonceCommitment c) = true →
  ∃ e, groupCommitmentComputer.Compute l (binding_factors pk l msg) = Fail e ∧
       errors_Is e ErrIdentityElement = true ∧ GetCulprits e = [cm_Identifier c].
Proof.
  intros -> Hpre Hbad. unfold groupCommitmentComputer.Compute.
  rewrite binding_factors_length, bool_decide_eq_false_2 by (rewrite length_app; simpl; lia).
  cbn [fail_if mbind outcome_mbind outcome_bind].
  set (bfs := binding_factors pk (pre ++ c :: suf) msg).
  assert (Hbfs : ∀ c', c' ∈ pre → is_Some (find_by bf_Identifier (cm_Identifier c') bfs)).
  { intros c' Hc'. unfold bfs. rewrite find_binding_factor; [eauto |].
    apply list_elem_of_fmap. exists c'. split; [done |]. apply elem_of_app. by left. }
  clearbody bfs. generalize (@Identity G) as acc.
  induction Hpre as [|c' pre (D & E & He & HD & HE) Hpre IH]; intros acc; cbn [range_loop app].
  - destruct (groupCommitmentComputer.nil_or_identity (HidingNonceCommitment c)); simpl;
      [fails_with |]. simpl in Hbad. rewrite Hbad. fails_with.
  - unfold nonce_elements in He.
    destruct (HidingNonceCommitment c') as [D'|] eqn:HD', (BindingNonceCommitment c') as [E'|]
      eqn:HE'; simplify_eq/=. rewrite !e_IsIdentity_decide.
    rewrite !bool_decide_eq_false_2 by done. simpl.
    destruct (Hbfs c') as [bf ->]; [apply list_elem_of_here |]. simpl.
    apply IH. intros c'' Hc''. apply Hbfs. by apply list_elem_of_further.
Qed.

Lemma not_commitment_ok c :
  ¬ commitment_ok c →
  groupCommitmentComputer.nil_or_identity (HidingNonceCommitment c) ||
  groupCommitmentComputer.nil_or_identity (BindingNonceCommitment c) = true.
Proof.
  unfold commitment_ok, nonce_elements. intros H.
  destruct (HidingNonceCommitment c) as [D|]; [| done].
  destruct (BindingNonceCommitment c) as [E|]; [| apply orb_true_r]. simpl.
  rewrite !e_IsIdentity_decide. do 2 (case_bool_decide; [auto using orb_true_r |]).
  exfalso. apply H. eauto.
Qed.

(** With the binding factors of its own list, the group commitment is the
    sum over the participants of [D_i + rho_i E_i] when every commitment is a
    non-identity element, and otherwise an error that names the first
    participant whose commitment is nil or the identity. *)
Theorem group_commitment_spec pk l msg :
  (l = [] → groupCommitmentComputer.Compute l (binding_factors pk l msg)
            = Fail (Sentinel ErrEmptyCommitmentList)) ∧
  (l ≠ [] → Forall commitment_ok l →
   groupCommitmentComputer.Compute l (binding_factors pk l msg)
   = Ok (esum (commitment_point (rho pk l msg) <$> l))) ∧
  (∀ pre c suf, l = pre ++ c :: suf → Forall commitment_ok pre → ¬ commitment_ok c →
   ∃ e, groupCommitmentComputer.Compute l (binding_factors pk l msg) = Fail e ∧
        errors_Is e ErrIdentityElement = true ∧ GetCulprits e = [cm_Identifier c]).
Proof.
  split; [by intros -> |]. split; [apply group_commitment_Ok |].
  intros pre c suf Hl Hpre Hc. eapply group_commitment_Fail; eauto using not_commitment_ok.
Qed.

(** The challenge [H2(R || PK || msg)]. *)
Definition chal (R pk : Element) (msg : bytes) : Scalar := H2 (e_Bytes R ++ e_Bytes pk ++ msg).

Lemma challenge_Compute R pk msg :
  challengeComputer.Compute (Some R) (Some pk) msg =
    if decide (chal R pk msg = sc 0)
    then Fail (NewVerificationError "challenge"
                 "computed challenge is zero - possible hash collision"
                 (Sentinel ErrInvalidChallenge))
    else Ok (chal R pk msg).
Proof.
  unfold challengeComputer.Compute. fold (chal R pk msg). rewrite s_IsZero_decide.
  by destruct (decide _); [rewrite bool_decide_eq_true_2 | rewrite bool_decide_eq_false_2].
Qed.

Lemma challenge_Compute_Ok R pk msg :
  chal R pk msg ≠ sc 0 →
  challengeComputer.Compute (Some R) (Some pk) msg = Ok (chal R pk msg).
Proof. intros H. rewrite challenge_Compute. by rewrite decide_False. Qed.

(** A generated nonce is the hash of 32 fresh random bytes and the secret, and
    is never zero. *)
Lemma nonce_Generate_Ok secret r k r' :
  nonceGenerator.Generate (Some secret) r = (Ok k, r') →
  k ≠ sc 0 ∧ ∃ bs, rng_read r (rng_calls r) nonceGenerator.RandomBytesSize = Some bs ∧
               k = H3 (bs ++ s_Bytes secret).
Proof.
  unfold nonceGenerator.Generate. intros H. rand_inv. unfold rand_Read in Hx.
  destruct (rng_read r (rng_calls r) nonceGenerator.RandomBytesSize) as [bs|] eqn:Hr;
    [| done]. injection Hx as <- <-.
  rewrite s_IsZero_decide in Hl. ok_inv. apply bool_decide_eq_false in Hl. eauto.
Qed.
End ComputationFacts.

(** ** Interpolation at participant identifiers *)

Section InterpolationFacts.
Context {G : Group} {L : GroupLaws G}.
Local Open Scope scalar_scope.

Lemma sc_NoDup ids : NoDup ids → Forall is_uint32 ids → NoDup (sc <$> ids).
Proof.
  induction 1 as [|id ids Hid Hnd IH]; intros Hu; [constructor |].
  apply Forall_cons in Hu as [Hu1 Hu]. rewrite fmap_cons. constructor; [| by apply IH].
  intros (id' & He & Hin)%list_elem_of_fmap. rewrite Forall_forall in Hu.
  apply sc_inj_small in He as ->; auto.
Qed.

(** A property of the participants' own identifier list. *)
Definition ids_ok (ids : list Z) : Prop := NoDup ids ∧ Forall is_uint32 ids.

Lemma ids_ok_NoDup ids : ids_ok ids → NoDup (sc <$> ids).
Proof. intros []. by apply sc_NoDup. Qed.

Lemma id_scalars_Ok {A} (key : A → Z) (f : error → error) l :
  Forall is_uint32 (key <$> l) →
  range_map (λ a, wrap f (IdentifierToScalar (key a))) l = Ok (sc <$> (key <$> l)).
Proof.
  rewrite Forall_forall. intros Hu. rewrite (range_map_total _ (λ a, sc (key a))).
  - by rewrite <-list_fmap_compose.
  - intros a Ha. rewrite IdentifierToScalar_Ok; [done |].
    apply Hu, list_elem_of_fmap. eauto.
Qed.

Lemma zip_fmap_r {A B} (h : A → B) (l : list A) : zip l (h <$> l) = (λ a, (a, h a)) <$> l.
Proof. induction l as [|a l IH]; [done |]. cbn. by f_equal. Qed.

Lemma range_loop_fmap {Err A B C} (h : A → B) (body : C → B → Outcome Err C) l acc :
  range_loop body (h <$> l) acc = range_loop (λ c a, body c (h a)) l acc.
Proof.
  revert acc. induction l as [|a l IH]; intros acc; [done |]. cbn.
  by destruct (body acc (h a)).
Qed.

(** The Lagrange combination at zero of a value per participant. *)
Definition lagrange_sum {A} (key : A → Z) (v : A → Scalar) (l : list A) : Scalar :=
  ssum ((λ a, v a * lag (sc <$> (key <$> l)) (sc (key a)) 0) <$> l).

Lemma foldl_sum {A} (h : A → Scalar) l : foldl (λ acc a, acc + h a) 0 l = ssum (h <$> l).
Proof.
  transitivity (foldl s_Add 0 (h <$> l)).
  - generalize (0 : Scalar) as s. induction l as [|a l IH]; intros s; [done | apply IH].
  - rewrite foldl_s_Add. apply (Radd_0_l (F_R law_field)).
Qed.

(** The shape of every "sum of share times coefficient" loop. *)
Lemma lagrange_loop {A} (key : A → Z) (v : A → Scalar) l
    (body : Scalar → A * Scalar → Res Scalar) acc0 :
  ids_ok (key <$> l) → acc0 = 0 →
  (∀ acc a, a ∈ l →
     polynomialHelper.DeriveInterpolatingValue (sc <$> (key <$> l)) (Some (sc (key a)))
       = Ok (lag (sc <$> (key <$> l)) (sc (key a)) 0) →
     body acc (a, sc (key a)) = Ok (acc + v a * lag (sc <$> (key <$> l)) (sc (key a)) 0)) →
  range_loop body (zip l (sc <$> (key <$> l))) acc0 = Ok (lagrange_sum key v l).
Proof.
  intros Hids -> Hbody. set (xs := sc <$> (key <$> l)) in *.
  assert (xs = (λ a, sc (key a)) <$> l) as Hxs by (unfold xs; by rewrite <-list_fmap_compose).
  rewrite Hxs at 1. rewrite zip_fmap_r, range_loop_fmap.
  rewrite (range_loop_total _ (λ acc a, acc + v a * lag xs (sc (key a)) 0)).
  - f_equal. apply (foldl_sum (λ a, v a * lag xs (sc (key a)) 0)).
  - intros acc a Ha. apply Hbody; [done |]. apply DeriveInterpolatingValue_Ok.
    + by apply ids_ok_NoDup.
    + rewrite Hxs. apply list_elem_of_fmap. eauto.
Qed.

(** A combination of at least as many points as coefficients is the value at
    zero of the polynomial through them. *)
Lemma lagrange_sum_secret {A} (key : A → Z) (v : A → Scalar) l cs :
  ids_ok (key <$> l) → length cs ≤ length l →
  (∀ a, a ∈ l → v a = peval cs (sc (key a))) →
  lagrange_sum key v l = peval cs 0.
Proof.
  intros Hids Hlen Hv. pose proof (ids_ok_NoDup _ Hids) as Hnd.
  rewrite <-(lagrange_interpolation (sc <$> (key <$> l)) cs) by
    (done || by rewrite !length_fmap).
  unfold lagrange_sum, interpolate. f_equal.
  set (xs := sc <$> (key <$> l)) in *.
  assert (xs = (λ a, sc (key a)) <$> l) as Hxs by (unfold xs; by rewrite <-list_fmap_compose).
  transitivity ((λ xi, peval cs xi * lag xs xi 0) <$> ((λ a, sc (key a)) <$> l));
    [| by rewrite <-Hxs].
  rewrite <-list_fmap_compose. apply list_fmap_ext. intros i a Ha. simpl. f_equal. apply Hv.
  by eapply list_elem_of_lookup_2.
Qed.

(** The combination does not depend on the order of the participants. *)
Lemma lag_Permutation xs ys xi x : xs ≡ₚ ys → lag xs xi x = lag ys xi x.
Proof.
  intros H. assert (∀ y, lag_num xs xi y = lag_num ys xi y) as Hn.
  { intros y. induction H as [|z l1 l2 _ IH|z1 z2 l|l1 l2 l3 _ IH1 _ IH2]; cbn; [done | | |].
    - by rewrite IH.
    - destruct (decide (z1 = xi)), (decide (z2 = xi)); try done.
      rewrite !(Rmul_assoc (F_R law_field)). f_equal. apply (Rmul_comm (F_R law_field)).
    - by rewrite IH1. }
  unfold lag. by rewrite !Hn.
Qed.

Lemma lagrange_sum_Permutation {A} (key : A → Z) (v : A → Scalar) l l' :
  l ≡ₚ l' → lagrange_sum key v l = lagrange_sum key v l'.
Proof.
  intros H. unfold lagrange_sum.
  transitivity (ssum ((λ a, v a * lag (sc <$> (key <$> l')) (sc (key a)) 0) <$> l)).
  - f_equal. apply list_fmap_ext. intros i a _. f_equal. apply lag_Permutation. by rewrite H.
  - by rewrite H.
Qed.
End InterpolationFacts.
