(* ===== verification/Keygen.v ===== *)
(** * Key generation by a trusted dealer: [pkg/frost/keygen]

    Verifiable secret sharing (vss.go), the dealer (dealer.go), the public
    [TrustedDealerKeygen] (keygen.go) and secret reconstruction
    (reconstruct.go).  The theorems: shares are evaluations of one polynomial,
    a share verifies exactly when it lies on the committed polynomial, and any
    threshold of shares gives the secret back, in any order. *)

From S2P Require Export Helpers.

(** ** vss.go *)

Module vss.
Section Defs.
Context {G : Group}.

Definition CreateCommitments (polynomial : Polynomial) : Res (list VerificationShare) :=
  _ ← fail_if (bool_decide (length (Coefficients polynomial) = 0))
        (NewParameterError "polynomial" "cannot be empty" (Sentinel ErrInvalidPolynomial));
  Ok (imap (λ i coefficient,
             {| vs_Identifier := Z.of_nat i mod 2 ^ 32;
                VerificationKey := Some (ScalarBaseMult coefficient) |})
           (Coefficients polynomial)).

(** The loop over [commitments]; the power is updated on every iteration but
    the last. *)
Fixpoint eval_commitments (idScalar : Scalar) (commitments : list VerificationShare)
    (idPower : Scalar) (right : Element) : Res Element :=
  match commitments with
  | [] => Ok right
  | c :: rest =>
      key ← deref (VerificationKey c);
      let term := ScalarMult key idPower in
      let right := e_Add right term in
      eval_commitments idScalar rest
        (if bool_decide (rest = []) then idPower else s_Mul idPower idScalar) right
  end.

Definition VerifyShare (identifier : Z) (share : option Scalar)
    (commitments : list VerificationShare) : Res unit :=
  _ ← fail_if (identifier =? 0)%Z
        (NewParameterError "identifier" "cannot be zero" (Sentinel ErrInvalidParticipant));
  _ ← fail_if (bool_decide (length commitments = 0))
        (NewParameterError "commitments" "cannot be empty" (Sentinel ErrInvalidParameters));
  share ← deref share;
  let left := ScalarBaseMult share in
  let right := Identity in
  idScalar ← wrap (NewParameterError "identifier" "failed to convert to scalar")
                  (IdentifierToScalar identifier);
  idPower ← must (IdentifierToScalar 1);
  right ← eval_commitments idScalar commitments idPower right;
  fail_if (negb (e_Equal left right))
    (NewVerificationError "share" "share verification failed" (Sentinel ErrInvalidKeyShare)).

Definition CombineShares (shares : option (list Scalar)) : Res Scalar :=
  match shares with
  | None => Fail (NewParameterError "shares" "cannot be nil" (Sentinel ErrInvalidParameters))
  | Some [] => Fail (NewParameterError "shares" "cannot be empty"
                       (Sentinel ErrInvalidParameters))
  | Some shares => Ok (foldl s_Add NewScalar shares)
  end.
End Defs.
End vss.

(** ** dealer.go *)

Module dealer.
Section Defs.
Context {G : Group}.

(** The duplicate-and-zero check over [participantIDs]. *)
Definition check_ids (participantIDs : list Z) : Res (gset Z) :=
  range_loop (λ seen id,
    _ ← fail_if (id =? 0)%Z
          (NewParameterError "participantIDs" "cannot contain zero"
             (Sentinel ErrInvalidParticipant));
    _ ← fail_if (bool_decide (id ∈ seen))
          (NewParameterError "participantIDs" "contains duplicate"
             (Sentinel ErrDuplicateParticipant));
    Ok ({[id]} ∪ seen))
  participantIDs ∅.

Definition GenerateShares (secret : option Scalar) (minSigners maxSigners : Z)
    (participantIDs : list Z) : Rand (list KeyPackage * Element) :=
  _ ← lift (fail_if (minSigners <? 2)%Z
        (NewParameterError "minSigners" "must be at least 2" (Sentinel ErrInvalidThreshold)));
  _ ← lift (fail_if (maxSigners <? minSigners)%Z
        (NewParameterError "minSigners" "cannot exceed maxSigners"
           (Sentinel ErrInvalidThreshold)));
  _ ← lift (fail_if (negb (Z.of_nat (length participantIDs) =? maxSigners)%Z)
        (NewParameterError "participantIDs" "length must equal maxSigners"
           (Sentinel ErrInvalidParameters)));
  _ ← lift (check_ids participantIDs);
  secret ← match secret with
           | Some s => mret s
           | None => rand_wrap (NewParameterError "secret" "failed to generate random secret")
                               RandomScalar
           end;
  polynomial ← polynomialHelper.Generate (Some secret) (minSigners - 1);
  verificationShares ← lift (vss.CreateCommitments polynomial);
  let groupPublicKey := ScalarBaseMult secret in
  keyPackages ← lift (range_map (λ participantID,
    idScalar ← wrap (NewParameterError "participantID" "failed to convert to scalar")
                    (IdentifierToScalar participantID);
    let secretShare := polynomialHelper.Evaluate polynomial idScalar in
    Ok {| kp_Identifier := participantID;
          SecretShare := Some secretShare;
          GroupPublicKey := Some groupPublicKey;
          VerificationShares := verificationShares;
          MinSigners := minSigners;
          MaxSigners := maxSigners |}) participantIDs);
  mret (keyPackages, groupPublicKey).

Definition VerifyShare := vss.VerifyShare.

(** [shares] is a Go map: [order] is the order in which the range over it
    yields the keys. *)
Definition RecoverSecret (shares : option (gmap Z (option Scalar))) (order : list Z)
  : Res Scalar :=
  match shares with
  | None => Fail (NewParameterError "shares" "cannot be nil" (Sentinel ErrInvalidParameters))
  | Some shares =>
      _ ← fail_if (bool_decide (size shares = 0))
            (NewParameterError "shares" "cannot be empty"
               (Sentinel ErrInsufficientParticipants));
      xCoords ← range_map (λ id,
        wrap (NewParameterError "identifier" "failed to convert to scalar")
             (IdentifierToScalar id)) order;
      range_loop (λ secret '(id, x),
        lambda ← polynomialHelper.DeriveInterpolatingValue xCoords (Some x);
        share ← deref (mjoin (shares !! id));
        let term := s_Mul share lambda in
        Ok (s_Add secret term)) (zip order xCoords) NewScalar
  end.
End Defs.
End dealer.

(** ** keygen.go *)

Section KeygenDefs.
Context {G : Group}.

Record PublicKeyPackage := {
  pkp_GroupPublicKey : option Element;
  pkp_VerificationShares : list VerificationShare;
}.

Record ShareInput := {
  si_Identifier : Z;
  si_Share : option Scalar;
}.

Definition set_VerificationShares (vs : list VerificationShare) (kp : KeyPackage) : KeyPackage :=
  {| kp_Identifier := kp_Identifier kp;
     SecretShare := SecretShare kp;
     GroupPublicKey := GroupPublicKey kp;
     VerificationShares := vs;
     MinSigners := MinSigners kp;
     MaxSigners := MaxSigners kp |}.

Definition TrustedDealerKeygen (maxSigners minSigners : Z) (identifiers : list Z)
  : Rand (list KeyPackage * PublicKeyPackage) :=
  '(keyPackageValues, groupPublicKey) ←
    dealer.GenerateShares None minSigners maxSigners identifiers;
  verificationShares ← lift (range_map (λ kp,
    secretShare ← deref (SecretShare kp);
    let verificationKey := ScalarBaseMult secretShare in
    Ok {| vs_Identifier := kp_Identifier kp; VerificationKey := Some verificationKey |})
    keyPackageValues);
  let keyPackages := set_VerificationShares verificationShares <$> keyPackageValues in
  mret (keyPackages,
        {| pkp_GroupPublicKey := Some groupPublicKey;
           pkp_VerificationShares := verificationShares |}).

(** ** reconstruct.go *)

(** The loop that rejects nil shares and duplicate identifiers. *)
Definition check_shares (shares : list ShareInput) : Res (gset Z) :=
  range_loop (λ seen s,
    _ ← fail_if (bool_decide (si_Share s = None))
          (NewParameterError "shares" "contains nil share" (Sentinel ErrInvalidParameters));
    _ ← fail_if (bool_decide (si_Identifier s ∈ seen))
          (NewParameterError "shares" "contains duplicate identifiers"
             (Sentinel ErrDuplicateParticipant));
    Ok ({[si_Identifier s]} ∪ seen))
  shares ∅.

Definition Reconstruct (shares : list ShareInput) : Res Scalar :=
  _ ← fail_if (bool_decide (length shares = 0))
        (NewParameterError "shares" "cannot be empty" (Sentinel ErrInvalidParameters));
  _ ← check_shares shares;
  xCoords ← range_map (λ s,
    wrap (NewParameterError "identifier" "failed to convert to scalar")
         (IdentifierToScalar (si_Identifier s))) shares;
  range_loop (λ secret '(s, x),
    lambda ← wrap (NewParticipantError (si_Identifier s)
                     "failed to compute Lagrange coefficient")
                  (polynomialHelper.DeriveInterpolatingValue xCoords (Some x));
    share ← deref (si_Share s);
    let term := s_Mul share lambda in
    Ok (s_Add secret term)) (zip shares xCoords) NewScalar.

Definition VerifyReconstruction (secret : option Scalar) (groupPublicKey : option Element)
  : Res unit :=
  match secret, groupPublicKey with
  | None, _ => Fail (NewParameterError "secret" "cannot be nil" (Sentinel ErrInvalidParameters))
  | _, None => Fail (NewParameterError "groupPublicKey" "cannot be nil"
                       (Sentinel ErrInvalidParameters))
  | Some secret, Some groupPublicKey =>
      let computedPublicKey := ScalarBaseMult secret in
      fail_if (negb (e_Equal computedPublicKey groupPublicKey))
        (NewVerificationError "secret" "reconstructed secret doesn't match group public key"
           (Sentinel ErrInvalidKeyShare))
  end.
End KeygenDefs.

(** ** Verifiable secret sharing *)

Section VssFacts.
Context {G : Group} {L : GroupLaws G}.
Add Field scalar_field : law_field.
Local Open Scope scalar_scope.
Local Open Scope element_scope.

(** The coefficient commitments of a polynomial. *)
Definition commitments_of (cs : list Scalar) : list VerificationShare :=
  imap (λ i c, {| vs_Identifier := Z.of_nat i mod 2 ^ 32; VerificationKey := Some (g^c) |}) cs.

Lemma CreateCommitments_Ok p :
  Coefficients p ≠ [] → vss.CreateCommitments p = Ok (commitments_of (Coefficients p)).
Proof.
  intros Hp. unfold vss.CreateCommitments.
  rewrite bool_decide_eq_false_2 by (by destruct (Coefficients p)). done.
Qed.

Lemma commitments_of_keys cs :
  VerificationKey <$> commitments_of cs = Some <$> ((λ c, g^c) <$> cs).
Proof.
  unfold commitments_of. generalize 0%nat as k. intros _.
  apply list_eq. intros i. rewrite !list_lookup_fmap, list_lookup_imap.
  by destruct (cs !! i).
Qed.

Lemma eval_commitments_Ok x vs Cs p acc :
  VerificationKey <$> vs = Some <$> Cs →
  vss.eval_commitments x vs p acc = Ok (acc ⊞ ceval Cs x ⊡ p).
Proof.
  revert Cs p acc. induction vs as [|v vs IH]; intros [|C Cs] p acc Hk; try done.
  - cbn. by rewrite mult_identity, law_e_id.
  - rewrite !fmap_cons in Hk. injection Hk as Hv Hk. cbn. rewrite Hv. cbn.
    destruct vs as [|v' vs'] eqn:Evs.
    + destruct Cs; [| done]. cbn. by rewrite mult_identity, law_e_id.
    + rewrite bool_decide_eq_false_2 by done. rewrite <-Evs in *.
      rewrite (IH _ _ _ Hk), <-law_e_assoc. do 2 f_equal.
      rewrite law_mult_e_add, <-!law_mult_mul. do 2 f_equal. ring.
Qed.

Lemma VerifyShare_Cs id s vs Cs :
  is_uint32 id → id ≠ 0%Z → Cs ≠ [] → VerificationKey <$> vs = Some <$> Cs →
  vss.VerifyShare id (Some s) vs =
    fail_if (negb (bool_decide (g^s = ceval Cs (sc id))))
      (NewVerificationError "share" "share verification failed" (Sentinel ErrInvalidKeyShare)).
Proof.
  intros Hid Hid0 Hne Hk. unfold vss.VerifyShare.
  rewrite (proj2 (Z.eqb_neq _ _) Hid0).
  assert (length vs ≠ 0%nat) as Hl.
  { apply (f_equal length) in Hk. rewrite !length_fmap in Hk. rewrite Hk. by destruct Cs. }
  rewrite bool_decide_eq_false_2 by done. cbn.
  rewrite !IdentifierToScalar_Ok by (done || (unfold is_uint32, uint32_max; lia)). cbn.
  rewrite (eval_commitments_Ok _ _ _ _ _ Hk). cbn.
  by rewrite law_mult_one, e_id_l, e_Equal_decide.
Qed.

Lemma fmap_cons_ne {A B} (f : A → B) (l : list A) : l ≠ [] → f <$> l ≠ [].
Proof. by destruct l. Qed.

(** Share verification is sound and complete: against the commitments of a
    polynomial, a share of participant [id] verifies exactly when it is the
    value of that polynomial at [id]. *)
Theorem VerifyShare_correct p vs id s :
  is_uint32 id → id ≠ 0%Z → Coefficients p ≠ [] → vss.CreateCommitments p = Ok vs →
  (vss.VerifyShare id (Some s) vs = Ok () ↔ s = polynomialHelper.Evaluate p (sc id)) ∧
  (s ≠ polynomialHelper.Evaluate p (sc id) →
   vss.VerifyShare id (Some s) vs =
     Fail (NewVerificationError "share" "share verification failed"
             (Sentinel ErrInvalidKeyShare))).
Proof.
  intros Hid Hid0 Hp Hvs. rewrite CreateCommitments_Ok in Hvs by done. injection Hvs as <-.
  rewrite (VerifyShare_Cs _ s _ _ Hid Hid0 (fmap_cons_ne _ _ Hp) (commitments_of_keys _)).
  rewrite ceval_base, Evaluate_peval. split.
  - case_bool_decide as Hs; cbn.
    + split; [intros _; by apply base_inj | done].
    + split; [done |]. by intros ->.
  - intros Hne. rewrite bool_decide_eq_false_2; [done |]. by intros ?%base_inj.
Qed.

Lemma CombineShares_Ok shares :
  shares ≠ [] → vss.CombineShares (Some shares) = Ok (ssum shares).
Proof.
  intros Hne. destruct shares as [|s l]; [done |]. unfold vss.CombineShares.
  rewrite law_NewScalar, foldl_s_Add. f_equal. ring.
Qed.
End VssFacts.

(** ** The dealer *)

Section DealerFacts.
Context {G : Group} {L : GroupLaws G}.
Add Field scalar_field : law_field.
Local Open Scope scalar_scope.
Local Open Scope element_scope.

(** The key package of participant [id] for the polynomial [cs]. *)
Definition dealt_package (cs : list Scalar) (vs : list VerificationShare) (t n id : Z)
  : KeyPackage :=
  {| kp_Identifier := id;
     SecretShare := Some (peval cs (sc id));
     GroupPublicKey := Some (g^(peval cs 0));
     VerificationShares := vs;
     MinSigners := t;
     MaxSigners := n |}.

Definition dealer_params_ok (t n : Z) (ids : list Z) : Prop :=
  (2 ≤ t ≤ n)%Z ∧ Z.of_nat (length ids) = n ∧ NoDup ids ∧ 0%Z ∉ ids.

Lemma check_ids_Ok ids seen :
  dealer.check_ids ids = Ok seen → NoDup ids ∧ 0%Z ∉ ids.
Proof.
  intros H. apply (seen_loop_Ok (λ id, id)) in H as (Hf & Hnd & _ & _).
  rewrite list_fmap_id in Hnd. split; [done |]. intros H0.
  rewrite Forall_forall in Hf. by specialize (Hf 0%Z H0).
Qed.

Lemma check_ids_total ids : NoDup ids → 0%Z ∉ ids → ∃ seen, dealer.check_ids ids = Ok seen.
Proof.
  intros Hnd H0. eexists. apply (seen_loop_Ok (λ id, id)). rewrite list_fmap_id.
  split_and!; [| done | set_solver | done]. apply Forall_forall. intros id Hid.
  destruct (Z.eqb_spec id 0) as [->|]; done.
Qed.

Lemma Generate_Ok s d r p r' :
  polynomialHelper.Generate (Some s) d r = (Ok p, r') →
  ∃ cs, Coefficients p = s :: cs ∧ length cs = Z.to_nat d.
Proof.
  unfold polynomialHelper.Generate. case_match; intros H'; [by rand_inv |].
  rand_inv. apply rand_repeat_length in Hx. exists x. by rewrite law_s_Copy.
Qed.

Lemma Generate_total s d :
  samples RandomScalar → (0 ≤ d < 2 ^ 32 - 1)%Z →
  samples (polynomialHelper.Generate (Some s) d).
Proof.
  intros Hs Hd r Hr. unfold polynomialHelper.Generate.
  rewrite Z.mod_small, (proj2 (Z.eqb_neq _ _)) by lia.
  destruct (rand_repeat_total (Z.to_nat d) (rand_wrap (NewParameterError "coefficients"
    "failed to generate random scalar") RandomScalar)) with r as (xs & r1 & H & Hr1); [| done |].
  { intros r0 Hr0. destruct (Hs r0 Hr0) as (a & r1 & Ha & Hr1). exists a, r1.
    split; [by apply rand_wrap_Ok | done]. }
  eexists _, r1. split; [| done]. apply rand_bind_Ok. exists xs, r1. split; [done | reflexivity].
Qed.

Lemma dealt_packages cs s t n ids vs p :
  Forall is_uint32 ids → Coefficients p = cs → peval cs 0 = s →
  range_map (λ participantID,
      idScalar ← wrap (NewParameterError "participantID" "failed to convert to scalar")
                      (IdentifierToScalar participantID);
      let secretShare := polynomialHelper.Evaluate p idScalar in
      Ok {| kp_Identifier := participantID;
            SecretShare := Some secretShare;
            GroupPublicKey := Some (g^s);
            VerificationShares := vs;
            MinSigners := t;
            MaxSigners := n |}) ids = Ok (dealt_package cs vs t n <$> ids).
Proof.
  rewrite Forall_forall. intros Hu Hp Hhd. apply range_map_total. intros id Hid.
  rewrite IdentifierToScalar_Ok by auto. cbn.
  unfold dealt_package. by rewrite Evaluate_peval, Hp, Hhd.
Qed.

(** What a successful dealer run produced. *)
Lemma GenerateShares_inv secret t n ids r kps pk r' :
  Forall is_uint32 ids →
  dealer.GenerateShares secret t n ids r = (Ok (kps, pk), r') →
  dealer_params_ok t n ids ∧
  ∃ cs, length cs = Z.to_nat t ∧ pk = g^(peval cs 0) ∧
    (∀ s, secret = Some s → peval cs 0 = s) ∧
    kps = dealt_package cs (commitments_of cs) t n <$> ids.
Proof.
  intros Hu H. unfold dealer.GenerateShares in H.
  rand_inv.
  rename select (dealer.check_ids _ = _) into Hids.
  rename select (polynomialHelper.Generate _ _ _ = _) into Hgen.
  rename select (vss.CreateCommitments _ = _) into Hvs.
  rename select (range_map _ _ = _) into Hkps.
  rename select ((t <? 2)%Z = _) into Ht. rename select ((n <? t)%Z = _) into Hn.
  rename select (negb _ = _) into Hlen.
  apply check_ids_Ok in Hids as [Hnd H0].
  apply Z.ltb_ge in Ht, Hn. apply negb_false_iff, Z.eqb_eq in Hlen.
  destruct (Generate_Ok _ _ _ _ _ Hgen) as (cs' & Hcs & Hcl).
  rewrite CreateCommitments_Ok in Hvs by (by rewrite Hcs). injection Hvs as <-.
  split; [by split_and! |]. rewrite Hcs in Hkps.
  match type of Hcs with _ = ?s :: _ => set (cs := s :: cs') in *; rename s into s0 end.
  assert (Hhd : peval cs 0 = s0) by apply peval_zero.
  exists cs. split; [cbn; lia |]. rewrite Hhd. split; [done |]. split.
  - intros s ->. by rand_inv.
  - rewrite (dealt_packages cs) in Hkps; [| done | done | done].
    by injection Hkps as <-.
Qed.

(** The dealer accepts exactly the parameters [2 <= t <= n] with [n]
    pairwise distinct non-zero identifiers: on those it always produces key
    packages (given a working random source), on all others it returns an
    error. *)
Theorem GenerateShares_accepts secret t n ids r :
  samples RandomScalar → rng_works r →
  Forall is_uint32 ids → is_uint32 n →
  (∃ kps pk r', dealer.GenerateShares secret t n ids r = (Ok (kps, pk), r')) ↔
  dealer_params_ok t n ids.
Proof.
  intros Hsam Hr Hu Hn. split.
  { intros (kps & pk & r' & H). by apply GenerateShares_inv in H as [? _]. }
  intros (Ht & Hlen & Hnd & H0). unfold is_uint32, uint32_max in Hn.
  destruct (check_ids_total ids Hnd H0) as [seen Hseen].
  assert (∃ s r1, match secret with
    | Some s => mret s
    | None => rand_wrap (NewParameterError "secret" "failed to generate random secret")
                        RandomScalar end r = (Ok s, r1) ∧ rng_works r1)
    as (s & r1 & Hs & Hr1).
  { destruct secret as [s|]; [by exists s, r |]. destruct (Hsam r Hr) as (s & r1 & Hs & Hr1).
    exists s, r1. split; [| done]. by apply rand_wrap_Ok. }
  destruct (Generate_total s (t - 1) Hsam ltac:(lia) r1 Hr1) as (p & r2 & Hp & _).
  destruct (Generate_Ok _ _ _ _ _ Hp) as (cs & Hcs & Hcl).
  unfold dealer.GenerateShares.
  rewrite (proj2 (Z.ltb_ge _ _)), (proj2 (Z.ltb_ge _ _)), Hlen, Z.eqb_refl, Hseen by lia.
  eexists _, _, r2. do 4 (apply rand_bind_Ok; eexists _, _; split; [reflexivity |]).
  apply rand_bind_Ok. exists s, r1. split; [exact Hs |].
  apply rand_bind_Ok. exists p, r2. split; [exact Hp |].
  apply rand_bind_Ok. eexists _, _. split.
  { apply lift_Ok. split; [| done]. apply CreateCommitments_Ok. by rewrite Hcs. }
  apply rand_bind_Ok. eexists _, _. split; [| reflexivity]. apply lift_Ok. split; [| done].
  apply (dealt_packages (s :: cs)); [done | done | apply peval_zero].
Qed.

(** ** Reconstruction *)

Definition share_of (s : ShareInput) : Scalar := default 0 (si_Share s).

Lemma Reconstruct_Ok shares :
  shares ≠ [] → ids_ok (si_Identifier <$> shares) →
  (∀ s, s ∈ shares → is_Some (si_Share s)) →
  Reconstruct shares = Ok (lagrange_sum si_Identifier share_of shares).
Proof.
  intros Hne Hids Hs. unfold Reconstruct.
  rewrite bool_decide_eq_false_2 by (by destruct shares). cbn [fail_if mbind outcome_mbind outcome_bind].
  assert (check_shares shares = Ok (list_to_set (si_Identifier <$> shares) ∪ ∅)) as ->.
  { apply (seen_loop_Ok si_Identifier). split_and!; [| by destruct Hids | set_solver | done].
    apply Forall_forall. intros s Hin. destruct (Hs s Hin) as [v ->]. done. }
  cbn [mbind outcome_mbind outcome_bind].
  rewrite (id_scalars_Ok si_Identifier) by (by destruct Hids).
  cbn [mbind outcome_mbind outcome_bind].
  apply (lagrange_loop si_Identifier share_of); [done | apply law_NewScalar |].
  intros acc s Hin ->. destruct (Hs s Hin) as [v Hv]. unfold share_of. by rewrite Hv.
Qed.

Definition share_inputs (kps : list KeyPackage) : list ShareInput :=
  (λ kp, {| si_Identifier := kp_Identifier kp; si_Share := SecretShare kp |}) <$> kps.

(** Reconstruction from packages that hold values of one polynomial. *)
Lemma Reconstruct_packages cs kps :
  kps ≠ [] → ids_ok (kp_Identifier <$> kps) → length cs ≤ length kps →
  (∀ kp, kp ∈ kps → SecretShare kp = Some (peval cs (sc (kp_Identifier kp)))) →
  Reconstruct (share_inputs kps) = Ok (peval cs 0).
Proof.
  intros Hne Hids Hlen Hs.
  assert (Hkey : si_Identifier <$> share_inputs kps = kp_Identifier <$> kps)
    by (unfold share_inputs; by rewrite <-list_fmap_compose).
  assert (Hin : ∀ s, s ∈ share_inputs kps → si_Share s = Some (peval cs (sc (si_Identifier s)))).
  { intros s (kp & -> & Hkp)%list_elem_of_fmap. by apply Hs. }
  rewrite Reconstruct_Ok.
  - f_equal. apply lagrange_sum_secret.
    + by rewrite Hkey.
    + unfold share_inputs. by rewrite length_fmap.
    + intros s Hsi. unfold share_of. by rewrite (Hin s Hsi).
  - by destruct kps.
  - by rewrite Hkey.
  - intros s Hsi. rewrite (Hin s Hsi). eauto.
Qed.

Lemma VerifyReconstruction_spec s pk :
  VerifyReconstruction (Some s) (Some pk) = Ok () ↔ pk = g^s.
Proof.
  unfold VerifyReconstruction. rewrite e_Equal_decide.
  case_bool_decide; cbn; split; congruence.
Qed.

(** C35: any [t] or more of the dealt key packages, in any order, reconstruct
    the secret: the reconstructed value passes [VerifyReconstruction] against
    the group public key, and is the dealer's own secret when one was given. *)
Theorem threshold_reconstruction secret t n ids r kps pk r' sub :
  Forall is_uint32 ids →
  dealer.GenerateShares secret t n ids r = (Ok (kps, pk), r') →
  sub ⊆ kps → NoDup (kp_Identifier <$> sub) → (t ≤ Z.of_nat (length sub))%Z →
  ∃ s, Reconstruct (share_inputs sub) = Ok s ∧
       VerifyReconstruction (Some s) (Some pk) = Ok () ∧
       (∀ s0, secret = Some s0 → s = s0).
Proof.
  intros Hu H Hsub Hnd Hlen. apply GenerateShares_inv in H as (Hp & cs & Hcs & -> & Hs & ->);
    [| done]. destruct Hp as (Ht & Hn & _ & _).
  assert (Hkp : ∀ kp, kp ∈ sub → kp_Identifier kp ∈ ids ∧
                  SecretShare kp = Some (peval cs (sc (kp_Identifier kp)))).
  { intros kp Hkp. apply Hsub, list_elem_of_fmap in Hkp as (id & -> & Hid). done. }
  exists (peval cs 0). split; [| split; [by apply VerifyReconstruction_spec | done]].
  apply Reconstruct_packages.
  - intros ->. cbn in Hlen. lia.
  - split; [done |]. apply Forall_forall. intros id (kp & -> & Hin)%list_elem_of_fmap.
    rewrite Forall_forall in Hu. apply Hu. by apply Hkp.
  - lia.
  - intros kp Hin. by apply Hkp.
Qed.

(** *** [RecoverSecret] over a Go map *)

Definition map_share_inputs (shares : gmap Z (option Scalar)) : list ShareInput :=
  (λ '(id, s), {| si_Identifier := id; si_Share := s |}) <$> map_to_list shares.

Lemma map_share_ids shares :
  si_Identifier <$> map_share_inputs shares = (map_to_list shares).*1.
Proof.
  unfold map_share_inputs. rewrite <-list_fmap_compose. apply list_fmap_ext. by intros i [].
Qed.

(** Recovering the secret from a map of shares gives the same value
    whatever order the range over the map takes, namely what [Reconstruct]
    gives on the map's entries. *)
Theorem RecoverSecret_order (shares : gmap Z (option Scalar)) order :
  order ≡ₚ (map_to_list shares).*1 → shares ≠ ∅ →
  map_Forall (λ id s, is_uint32 id ∧ is_Some s) shares →
  ∃ s, dealer.RecoverSecret (Some shares) order = Ok s ∧
       Reconstruct (map_share_inputs shares) = Ok s.
Proof.
  intros Hord Hne Hall.
  assert (Hids : ids_ok ((map_to_list shares).*1)).
  { split; [apply NoDup_fst_map_to_list |]. apply Forall_forall.
    intros id ([id' s] & -> & Hin%elem_of_map_to_list)%list_elem_of_fmap. by apply Hall in Hin as []. }
  assert (Hids' : ids_ok ((λ id, id) <$> order)).
  { rewrite list_fmap_id. destruct Hids. split; by rewrite Hord. }
  set (v := λ id, default 0 (mjoin (shares !! id))).
  exists (lagrange_sum (λ id, id) v order). split.
  - unfold dealer.RecoverSecret. rewrite bool_decide_eq_false_2 by (by apply map_size_non_empty_iff).
    cbn [fail_if mbind outcome_mbind outcome_bind].
    rewrite (id_scalars_Ok (λ id, id)) by (by destruct Hids').
    cbn [mbind outcome_mbind outcome_bind].
    apply (lagrange_loop (λ id, id) v); [done | apply law_NewScalar |].
    intros acc id Hid ->. cbn. rewrite Hord in Hid.
    apply list_elem_of_fmap in Hid as ([id' s] & -> & Hin%elem_of_map_to_list). cbn.
    destruct (Hall _ _ Hin) as [_ [x ->]]. unfold v. by rewrite Hin.
  - rewrite Reconstruct_Ok; [| | by rewrite map_share_ids |].
    + f_equal. rewrite (lagrange_sum_Permutation _ _ _ _ Hord).
      unfold lagrange_sum. rewrite map_share_ids.
      replace ((λ id, id) <$> (map_to_list shares).*1) with ((map_to_list shares).*1)
        by (symmetry; apply list_fmap_id).
      generalize (sc <$> (map_to_list shares).*1) as xs. intros xs.
      unfold map_share_inputs. rewrite <-!list_fmap_compose. f_equal.
      apply list_fmap_ext. intros i [id s] Hin%list_elem_of_lookup_2%elem_of_map_to_list.
      cbn. unfold share_of, v. cbn. by rewrite Hin.
    + unfold map_share_inputs. intros He%fmap_nil_inv. by apply map_to_list_empty_iff in He.
    + intros s ([id s'] & -> & Hin%elem_of_map_to_list)%list_elem_of_fmap. by apply Hall in Hin as [].
Qed.
End DealerFacts.

(** ** Secrecy below the threshold, and [TrustedDealerKeygen] *)

Section TrustedDealerFacts.
Context {G : Group} {L : GroupLaws G}.
Add Field scalar_field : law_field.
Local Open Scope scalar_scope.
Local Open Scope element_scope.

(** C36: fewer than [t] shares say nothing about the secret: for any sharing
    polynomial with [t] coefficients, any [t - 1] participants and any
    candidate secret, another polynomial with [t] coefficients gives those
    participants the same shares and has that candidate as its secret. *)
Theorem shares_hide_secret p t ids s' :
  length (Coefficients p) = t → length ids < t → ids_ok ids → 0%Z ∉ ids →
  ∃ p', length (Coefficients p') = t ∧ polynomialHelper.Evaluate p' 0 = s' ∧
    ∀ id, id ∈ ids →
      polynomialHelper.Evaluate p' (sc id) = polynomialHelper.Evaluate p (sc id).
Proof.
  intros Hp Hlen [Hnd Hu] H0.
  set (xs := sc <$> (0%Z :: ids)).
  assert (Hxs : NoDup xs).
  { apply sc_NoDup; [by constructor |]. constructor; [| done]. unfold is_uint32, uint32_max. lia. }
  set (f := λ x, if decide (x = 0) then s' else peval (Coefficients p) x).
  destruct (interpolate_poly xs f Hxs) as (cs & Hcs & Hev).
  exists {| Coefficients := cs ++ replicate (t - length xs) 0 |}.
  assert (length xs = S (length ids)) as Hxl by (unfold xs; by rewrite length_fmap).
  cbn [Coefficients]. split; [rewrite length_app, length_replicate; lia |].
  rewrite !Evaluate_peval. cbn [Coefficients]. rewrite peval_pad, <-Hev. split.
  - rewrite interpolate_point; [| done | by apply list_elem_of_here].
    unfold f. by rewrite decide_True.
  - intros id Hid. rewrite !Evaluate_peval. cbn [Coefficients]. rewrite peval_pad, <-Hev.
    rewrite interpolate_point; [| done | apply list_elem_of_further, list_elem_of_fmap; eauto].
    unfold f. rewrite decide_False; [done |]. intros He.
    rewrite Forall_forall in Hu. apply sc_inj_small in He; [by subst | by apply Hu |].
    unfold is_uint32, uint32_max. lia.
Qed.

(** The per-participant verification keys [g^s_i]. *)
Definition public_shares (cs : list Scalar) (ids : list Z) : list VerificationShare :=
  (λ id, {| vs_Identifier := id; VerificationKey := Some (g^(peval cs (sc id))) |}) <$> ids.

Lemma TrustedDealerKeygen_inv n t ids r kps pkp r' :
  Forall is_uint32 ids →
  TrustedDealerKeygen n t ids r = (Ok (kps, pkp), r') →
  dealer_params_ok t n ids ∧
  ∃ cs, length cs = Z.to_nat t ∧
    pkp = {| pkp_GroupPublicKey := Some (g^(peval cs 0));
             pkp_VerificationShares := public_shares cs ids |} ∧
    kps = dealt_package cs (public_shares cs ids) t n <$> ids.
Proof.
  intros Hu H. unfold TrustedDealerKeygen in H.
  apply rand_bind_Ok in H as ([kps0 pk] & r1 & Hg & H).
  apply GenerateShares_inv in Hg as (Hp & cs & Hcs & -> & _ & ->); [| done].
  split; [done |]. exists cs. split; [done |].
  apply rand_bind_Ok in H as (vs & r2 & Hvs & H). apply lift_Ok in Hvs as [Hvs ->].
  assert (vs = public_shares cs ids) as ->.
  { rewrite (range_map_total _ (λ kp, {| vs_Identifier := kp_Identifier kp;
      VerificationKey := Some (g^(default 0 (SecretShare kp))) |})) in Hvs.
    - injection Hvs as <-. unfold public_shares. by rewrite <-list_fmap_compose.
    - by intros kp (id & -> & _)%list_elem_of_fmap. }
  rand_inv. split; [done |]. by rewrite <-list_fmap_compose.
Qed.

Lemma public_shares_find cs ids id :
  id ∈ ids →
  find_by vs_Identifier id (public_shares cs ids)
  = Some {| vs_Identifier := id; VerificationKey := Some (g^(peval cs (sc id))) |}.
Proof.
  unfold public_shares. induction ids as [|i ids IH]; [by intros ?%not_elem_of_nil |].
  rewrite fmap_cons. cbn [find_by vs_Identifier]. destruct (Z.eqb_spec i id) as [->|Hne]; [done |].
  intros [->|Hid]%elem_of_cons; [done | by apply IH].
Qed.

(** Every key package [TrustedDealerKeygen] hands out is consistent with
    the public package: same group key, same verification shares, and the
    participant's own verification key is [g] to its secret share. *)
Theorem TrustedDealerKeygen_consistent n t ids r kps pkp r' :
  Forall is_uint32 ids →
  TrustedDealerKeygen n t ids r = (Ok (kps, pkp), r') →
  kp_Identifier <$> kps = ids ∧
  ∀ kp, kp ∈ kps →
    GroupPublicKey kp = pkp_GroupPublicKey pkp ∧
    VerificationShares kp = pkp_VerificationShares pkp ∧
    MinSigners kp = t ∧ MaxSigners kp = n ∧
    ∃ s, SecretShare kp = Some s ∧
      find_by vs_Identifier (kp_Identifier kp) (VerificationShares kp)
      = Some {| vs_Identifier := kp_Identifier kp; VerificationKey := Some (g^s) |}.
Proof.
  intros Hu H. apply TrustedDealerKeygen_inv in H as (_ & cs & _ & -> & ->); [| done]. split.
  - rewrite <-list_fmap_compose. apply list_fmap_id.
  - intros kp (id & -> & Hid)%list_elem_of_fmap. split_and!; try done.
    eexists. split; [done |]. by apply public_shares_find.
Qed.
End TrustedDealerFacts.
