(* ===== verification/Participant.v ===== *)
(** * The signing participant: [pkg/frost/signing/participant.go]

    Round one (nonces and commitments), round two (the signature share) and the
    verification of another participant's share.  The theorems: an honest
    participant's share has the RFC 9591 value and satisfies the share
    equation; every rejected input is an error that says why. *)

From S2P Require Export Keygen.

Module participant.
Section Defs.
Context {G : Group} {CS : Ciphersuite G}.

Definition RoundOne (keyPackage : KeyPackage) : Rand (SigningNonces * SigningCommitments) :=
  hidingRandomBytes ← rand_wrap (NewParameterError "randomBytes" "failed to generate")
                                (rand_Read 32);
  secretShare ← lift (deref (SecretShare keyPackage));
  let hidingSecretBytes := s_Bytes secretShare in
  let hidingNonce := H3 (hidingRandomBytes ++ hidingSecretBytes) in
  bindingRandomBytes ← rand_wrap (NewParameterError "randomBytes" "failed to generate")
                                 (rand_Read 32);
  let bindingSecretBytes := s_Bytes secretShare in
  let bindingNonce := H3 (bindingRandomBytes ++ bindingSecretBytes) in
  _ ← lift (fail_if (s_IsZero hidingNonce)
        (NewParameterError "hidingNonce" "generated zero nonce" (Sentinel ErrInvalidNonce)));
  _ ← lift (fail_if (s_IsZero bindingNonce)
        (NewParameterError "bindingNonce" "generated zero nonce" (Sentinel ErrInvalidNonce)));
  let hidingNonceCommitment := ScalarBaseMult hidingNonce in
  let bindingNonceCommitment := ScalarBaseMult bindingNonce in
  _ ← lift (fail_if (e_IsIdentity hidingNonceCommitment)
        (NewParameterError "hidingNonceCommitment" "commitment is identity element"
           (Sentinel ErrIdentityElement)));
  _ ← lift (fail_if (e_IsIdentity bindingNonceCommitment)
        (NewParameterError "bindingNonceCommitment" "commitment is identity element"
           (Sentinel ErrIdentityElement)));
  let commitments := {| cm_Identifier := kp_Identifier keyPackage;
                        HidingNonceCommitment := Some hidingNonceCommitment;
                        BindingNonceCommitment := Some bindingNonceCommitment |} in
  let nonces := {| HidingNonce := Some hidingNonce;
                   BindingNonce := Some bindingNonce;
                   Commitments := commitments |} in
  mret (nonces, commitments).

(** The identifiers of the commitment list as scalars. *)
Definition participant_scalars (commitmentList : CommitmentList) : Res (list Scalar) :=
  range_map (λ id, wrap (NewParameterError "participantScalar" "failed to create")
                        (IdentifierToScalar id))
    (commitmentListEncoder.GetParticipants commitmentList).

Definition RoundTwo (keyPackage : KeyPackage) (nonces : SigningNonces) (msg : bytes)
    (commitmentList : CommitmentList) : Res SignatureShare :=
  _ ← commitmentListEncoder.ValidateCommitmentList commitmentList;
  _ ← fail_if ((0 <? MinSigners keyPackage)%Z &&
               (Z.of_nat (length commitmentList) <? MinSigners keyPackage)%Z)
        (NewParameterError "commitmentList" "insufficient participants for threshold signing"
           (Sentinel ErrInsufficientParticipants));
  bindingFactors ← wrap (NewParameterError "bindingFactors" "failed to compute")
    (bindingFactorComputer.Compute (GroupPublicKey keyPackage) commitmentList msg);
  groupCommitment ← wrap (NewParameterError "groupCommitment" "failed to compute")
    (groupCommitmentComputer.Compute commitmentList bindingFactors);
  participantScalars ← participant_scalars commitmentList;
  myIDScalar ← wrap (NewParameterError "myIDScalar" "failed to create")
    (IdentifierToScalar (kp_Identifier keyPackage));
  lambda ← wrap (NewParameterError "lambda" "failed to compute interpolating value")
    (polynomialHelper.DeriveInterpolatingValue participantScalars (Some myIDScalar));
  challenge ← wrap (NewParameterError "challenge" "failed to compute")
    (challengeComputer.Compute (Some groupCommitment) (GroupPublicKey keyPackage) msg);
  bindingFactor ← wrap (NewParticipantError (kp_Identifier keyPackage)
                          "binding factor not found")
    (bindingFactorComputer.GetBindingFactor bindingFactors (kp_Identifier keyPackage));
  hidingNonce ← deref (HidingNonce nonces);
  let sigShare := s_Copy hidingNonce in
  bindingNonce ← deref (BindingNonce nonces);
  let bindingPart := s_Mul bindingNonce bindingFactor in
  let sigShare := s_Add sigShare bindingPart in
  secretShare ← deref (SecretShare keyPackage);
  let secretPart := s_Mul (s_Mul lambda secretShare) challenge in
  let sigShare := s_Add sigShare secretPart in
  Ok {| share_Identifier := kp_Identifier keyPackage; share_value := Some sigShare |}.

Definition VerifySignatureShare (keyPackage : KeyPackage) (share : SignatureShare)
    (msg : bytes) (commitmentList : CommitmentList) : Res unit :=
  let id := share_Identifier share in
  _ ← commitmentListEncoder.ValidateCommitmentList commitmentList;
  bindingFactors ← wrap (NewParameterError "bindingFactors" "failed to compute")
    (bindingFactorComputer.Compute (GroupPublicKey keyPackage) commitmentList msg);
  groupCommitment ← wrap (NewParameterError "groupCommitment" "failed to compute")
    (groupCommitmentComputer.Compute commitmentList bindingFactors);
  participantScalars ← participant_scalars commitmentList;
  shareIDScalar ← wrap (NewParameterError "shareIDScalar" "failed to create")
    (IdentifierToScalar id);
  lambda ← wrap (NewParameterError "lambda" "failed to compute interpolating value")
    (polynomialHelper.DeriveInterpolatingValue participantScalars (Some shareIDScalar));
  challenge ← wrap (NewParameterError "challenge" "failed to compute")
    (challengeComputer.Compute (Some groupCommitment) (GroupPublicKey keyPackage) msg);
  bindingFactor ← wrap (NewParticipantError id "binding factor not found")
    (bindingFactorComputer.GetBindingFactor bindingFactors id);
  match find_by cm_Identifier id commitmentList with
  | None => Fail (NewParticipantError id "commitment not found in list"
                    (Sentinel ErrInvalidCommitment))
  | Some participantCommitment =>
      polyIDScalar ← wrap (NewParameterError "polyIDScalar" "failed to create")
        (IdentifierToScalar id);
      idPower ← must (IdentifierToScalar 1);
      verificationKey ← vss.eval_commitments polyIDScalar (VerificationShares keyPackage)
                          idPower Identity;
      sig ← deref (share_value share);
      let leftSide := ScalarBaseMult sig in
      hiding ← deref (HidingNonceCommitment participantCommitment);
      let rightSide := e_Copy hiding in
      binding ← deref (BindingNonceCommitment participantCommitment);
      let bindingPart := ScalarMult binding bindingFactor in
      let rightSide := e_Add rightSide bindingPart in
      let verificationPart := ScalarMult verificationKey challenge in
      let verificationPart := ScalarMult verificationPart lambda in
      let rightSide := e_Add rightSide verificationPart in
      fail_if (negb (e_Equal leftSide rightSide))
        (NewVerificationError "signature share" "verification equation failed"
           (Sentinel ErrInvalidSignatureShare))
  end.
End Defs.
End participant.

(** ** A signing session *)

Section SessionFacts.
Context {G : Group} {L : GroupLaws G} {CS : Ciphersuite G}.
Add Field scalar_field : law_field.
Local Open Scope scalar_scope.
Local Open Scope element_scope.
Implicit Types (pk : Element) (l : CommitmentList) (msg : bytes).

Local Abbreviation ids l := (cm_Identifier <$> l).

(** What a coordinator hands to the signers: a validated list of well-formed
    commitments. *)
Definition session_ok l : Prop :=
  l ≠ [] ∧ StronglySorted Z.lt (ids l) ∧ Forall commitment_wf l.

(** The group commitment, the Lagrange coefficient and the challenge of a
    session. *)
Definition group_commitment pk l msg : Element :=
  esum (commitment_point (rho pk l msg) <$> l).
Definition lambda l id : Scalar := lag (sc <$> ids l) (sc id) 0.
Definition session_chal pk l msg : Scalar := chal (group_commitment pk l msg) pk msg.

(** The RFC 9591 signature share
    [d + e * rho_i + lambda_i * s_i * c]. *)
Definition share_formula pk l msg id d e s : Scalar :=
  d + e * rho pk l msg id + lambda l id * s * session_chal pk l msg.

(** The share equation against the commitments [(D, E)] and the verification
    key [Y]. *)
Definition share_rhs pk l msg id D E Y : Element :=
  D ⊞ E ⊡ rho pk l msg id ⊞ Y ⊡ session_chal pk l msg ⊡ lambda l id.

Lemma session_ids_ok l : session_ok l → ids_ok (ids l).
Proof.
  intros (_ & Hs & Hwf). split; [by apply StronglySorted_lt_NoDup |].
  apply Forall_fmap. eapply Forall_impl; [exact Hwf |]. by intros c [? _].
Qed.

Lemma session_validate l :
  session_ok l → commitmentListEncoder.ValidateCommitmentList l = Ok ().
Proof. intros (Hne & Hs & _). by apply ValidateCommitmentList_Ok. Qed.

Lemma session_binding pk l msg :
  session_ok l →
  bindingFactorComputer.Compute (Some pk) l msg = Ok (binding_factors pk l msg).
Proof.
  intros (Hne & _ & Hwf). apply binding_Compute_Ok; [done |].
  intros c. by apply Forall_wf_elements.
Qed.

Lemma session_commitment pk l msg :
  session_ok l →
  groupCommitmentComputer.Compute l (binding_factors pk l msg) = Ok (group_commitment pk l msg).
Proof.
  intros (Hne & _ & Hwf). apply group_commitment_Ok; [done |].
  eapply Forall_impl; [exact Hwf | apply commitment_wf_ok].
Qed.

Lemma session_scalars l :
  session_ok l → participant.participant_scalars l = Ok (sc <$> ids l).
Proof.
  intros Hl. apply session_ids_ok in Hl as [_ Hu]. unfold participant.participant_scalars.
  rewrite (id_scalars_Ok (λ id, id)); [by rewrite list_fmap_id |].
  by rewrite list_fmap_id.
Qed.

Lemma session_lambda l id :
  session_ok l → id ∈ ids l →
  polynomialHelper.DeriveInterpolatingValue (sc <$> ids l) (Some (sc id)) = Ok (lambda l id).
Proof.
  intros Hl Hid. apply DeriveInterpolatingValue_Ok; [by apply ids_ok_NoDup, session_ids_ok |].
  apply list_elem_of_fmap. eauto.
Qed.

Lemma session_lambda_Fail l id :
  session_ok l → is_uint32 id → id ∉ ids l →
  ∃ e, polynomialHelper.DeriveInterpolatingValue (sc <$> ids l) (Some (sc id)) = Fail e ∧
       errors_Is e ErrInvalidParameters = true ∧ GetCulprits e = [].
Proof.
  intros Hl Hu Hid. apply DeriveInterpolatingValue_Fail. intros [_ Hin]. apply Hid.
  apply list_elem_of_fmap in Hin as (id' & He & Hin).
  apply session_ids_ok in Hl as [_ Hul]. rewrite Forall_forall in Hul.
  apply sc_inj_small in He as ->; auto.
Qed.

Lemma session_uint32 l id : session_ok l → id ∈ ids l → is_uint32 id.
Proof. intros [_ Hu]%session_ids_ok. rewrite Forall_forall in Hu. apply Hu. Qed.

Lemma session_find l c : session_ok l → c ∈ l → find_by cm_Identifier (cm_Identifier c) l = Some c.
Proof. intros [Hnd _]%session_ids_ok. by apply find_by_NoDup. Qed.

Lemma session_elements l c :
  session_ok l → c ∈ l → ∃ D E, HidingNonceCommitment c = Some D ∧ BindingNonceCommitment c = Some E.
Proof.
  intros (_ & _ & Hwf) Hc. rewrite Forall_forall in Hwf.
  destruct (Hwf c Hc) as (_ & D & E & He & _). unfold nonce_elements in He.
  destruct (HidingNonceCommitment c), (BindingNonceCommitment c); naive_solver.
Qed.

(** *** The share equation *)

Lemma share_formula_rhs pk l msg id d e s :
  g^(share_formula pk l msg id d e s) = share_rhs pk l msg id (g^d) (g^e) (g^s).
Proof.
  unfold share_formula, share_rhs. rewrite !base_mul, <-!base_add. f_equal. ring.
Qed.

Lemma shares_sum_points (r lam y : Z → Scalar) chl l zs :
  Forall2 (λ c z, ∃ D E, HidingNonceCommitment c = Some D ∧ BindingNonceCommitment c = Some E ∧
             g^z = D ⊞ E ⊡ r (cm_Identifier c) ⊞
                   g^(y (cm_Identifier c)) ⊡ chl ⊡ lam (cm_Identifier c)) l zs →
  g^(ssum zs) = esum ((λ c, commitment_point r c ⊞
                g^(y (cm_Identifier c) * lam (cm_Identifier c) * chl)) <$> l).
Proof.
  rewrite base_ssum. induction 1 as [|c z l zs (D & E & HD & HE & Hz) _ IH]; [done |].
  rewrite !fmap_cons. cbn [esum]. rewrite IH, Hz. f_equal.
  unfold commitment_point, nonce_elements. rewrite HD, HE, !base_mul. do 2 f_equal. ring.
Qed.

(** Shares that satisfy their equations sum to a response that satisfies the
    Schnorr equation, when the verification keys interpolate the group key. *)
Lemma shares_sum_valid pk l msg cs zs :
  session_ok l → length cs ≤ length l → pk = g^(peval cs 0) →
  Forall2 (λ c z, ∃ D E, HidingNonceCommitment c = Some D ∧ BindingNonceCommitment c = Some E ∧
             g^z = share_rhs pk l msg (cm_Identifier c) D E
                     (g^(peval cs (sc (cm_Identifier c))))) l zs →
  g^(ssum zs) = group_commitment pk l msg ⊞ pk ⊡ session_chal pk l msg.
Proof.
  intros Hl Hlen Hpk Hzs. set (chl := session_chal pk l msg).
  rewrite (shares_sum_points (rho pk l msg) (lambda l) (λ id, peval cs (sc id)) chl l zs Hzs).
  rewrite esum_fmap_add. f_equal.
  transitivity (esum ((λ x, g^x) <$> ((λ c, peval cs (sc (cm_Identifier c)) *
                  lambda l (cm_Identifier c) * chl) <$> l))).
  { by rewrite <-list_fmap_compose. }
  rewrite <-base_ssum, ssum_fmap_mul, Hpk, base_mul. do 2 f_equal.
  apply (lagrange_sum_secret cm_Identifier); [by apply session_ids_ok | done | done].
Qed.
End SessionFacts.

(** ** Round one and round two *)

Section RoundFacts.
Context {G : Group} {L : GroupLaws G} {CS : Ciphersuite G}.
Local Open Scope scalar_scope.
Local Open Scope element_scope.

Local Abbreviation ids l := (cm_Identifier <$> l).

(** The commitments and nonces a participant derives from two nonces. *)
Definition round_one_commitments (id : Z) (d e : Scalar) : SigningCommitments :=
  {| cm_Identifier := id;
     HidingNonceCommitment := Some (g^d); BindingNonceCommitment := Some (g^e) |}.

Definition round_one_nonces (id : Z) (d e : Scalar) : SigningNonces :=
  {| HidingNonce := Some d; BindingNonce := Some e;
     Commitments := round_one_commitments id d e |}.

Lemma round_one_wf id d e :
  is_uint32 id → d ≠ 0 → e ≠ 0 → commitment_wf (round_one_commitments id d e).
Proof.
  intros Hid Hd He. split; [done |]. exists (g^d), (g^e).
  by rewrite !base_identity_iff.
Qed.

Lemma RoundOne_inv kp r nonces comm r' :
  participant.RoundOne kp r = (Ok (nonces, comm), r') →
  ∃ d e, d ≠ 0 ∧ e ≠ 0 ∧ nonces = round_one_nonces (kp_Identifier kp) d e ∧
         comm = round_one_commitments (kp_Identifier kp) d e.
Proof.
  unfold participant.RoundOne. intros H. rand_inv.
  repeat match goal with H : s_IsZero ?x = false |- _ =>
    rewrite s_IsZero_decide in H; apply bool_decide_eq_false in H end.
  eexists _, _. split; [| split; [| split; [reflexivity | reflexivity]]]; done.
Qed.

(** Round one either fails or yields two non-zero nonces, derived from two
    separate 32-byte reads of the random source hashed with the secret share,
    together with exactly their public commitments; with a key package that
    holds a secret share it never panics. *)
Theorem RoundOne_spec kp s r :
  SecretShare kp = Some s →
  fst (participant.RoundOne kp r) ≠ Panic ∧
  ∀ nonces comm r', participant.RoundOne kp r = (Ok (nonces, comm), r') →
    ∃ bs1 bs2,
      rng_read r (rng_calls r) 32 = Some bs1 ∧ rng_read r (S (rng_calls r)) 32 = Some bs2 ∧
      let d := H3 (bs1 ++ s_Bytes s) in
      let e := H3 (bs2 ++ s_Bytes s) in
      d ≠ 0 ∧ e ≠ 0 ∧
      nonces = round_one_nonces (kp_Identifier kp) d e ∧
      comm = round_one_commitments (kp_Identifier kp) d e.
Proof.
  intros Hs. unfold participant.RoundOne, rand_wrap, rand_Read, lift.
  unfold mbind, rand_mbind. destruct (rng_read r (rng_calls r) 32) as [bs1|]; [| cbn; split; [done | by intros]].
  rewrite Hs. cbn [deref wrap rng_calls rng_read].
  destruct (rng_read r (S (rng_calls r)) 32) as [bs2|]; [| cbn; split; [done | by intros]]. cbn [wrap].
  rewrite !s_IsZero_decide, !e_IsIdentity_decide.
  repeat (case_bool_decide; cbn [fail_if]; [cbn; split; [done | by intros] |]).
  split; [done |]. intros nonces comm r' H'. rand_inv. by exists bs1, bs2.
Qed.

Lemma RoundTwo_cases kp nonces msg l pk d e s share :
  Forall commitment_wf l → is_uint32 (kp_Identifier kp) → GroupPublicKey kp = Some pk →
  SecretShare kp = Some s → HidingNonce nonces = Some d → BindingNonce nonces = Some e →
  (participant.RoundTwo kp nonces msg l = Ok share ↔
     session_ok l ∧ (0 < MinSigners kp → MinSigners kp ≤ Z.of_nat (length l))%Z ∧
     kp_Identifier kp ∈ ids l ∧ session_chal pk l msg ≠ 0 ∧
     share = {| share_Identifier := kp_Identifier kp;
                share_value := Some (share_formula pk l msg (kp_Identifier kp) d e s) |}) ∧
  participant.RoundTwo kp nonces msg l ≠ Panic.
Proof.
  intros Hwf Hid Hpk Hs Hd He. unfold participant.RoundTwo. rewrite Hpk, Hs, Hd, He.
  pose proof (ValidateCommitmentList_Ok l) as Hv.
  pose proof (ValidateCommitmentList_no_panic l) as Hnp.
  destruct (commitmentListEncoder.ValidateCommitmentList l) as [[]|err|]; [| | done].
  2: { split; [| done]. split; [done |]. intros ((Hne & Hss & _) & _).
       assert (Fail err = Ok ()) by (by apply Hv). done. }
  assert (Hl : session_ok l) by (destruct (proj1 Hv eq_refl); by split_and!).
  step. destruct ((0 <? MinSigners kp)%Z && _) eqn:Hmin.
  { apply andb_prop in Hmin as [?%Z.ltb_lt ?%Z.ltb_lt]. split; [| done].
    split; [done |]. intros (_ & Hm & _). lia. }
  rewrite (session_binding _ _ _ Hl). step. rewrite (session_commitment _ _ _ Hl). step.
  rewrite (session_scalars _ Hl). step. rewrite (IdentifierToScalar_Ok _ Hid). step.
  destruct (decide (kp_Identifier kp ∈ ids l)) as [Hin|Hnin].
  2: { destruct (session_lambda_Fail _ _ Hl Hid Hnin) as (err & -> & _). step.
       split; [| done]. split; [done |]. tauto. }
  rewrite (session_lambda _ _ Hl Hin). step. rewrite challenge_Compute.
  fold (session_chal pk l msg). case_decide as Hc; step.
  { split; [| done]. split; [done |]. tauto. }
  rewrite (GetBindingFactor_Ok _ _ _ _ Hin). step. rewrite law_s_Copy. split; [| done].
  unfold share_formula. split.
  - intros [= <-]. split_and!; try done. intros H0.
    apply andb_false_iff in Hmin as [?%Z.ltb_ge|?%Z.ltb_ge]; lia.
  - by intros (_ & _ & _ & _ & ->).
Qed.

(** Round two produces a share exactly when the commitment list is valid,
    large enough for the participant's threshold, contains the participant and
    the challenge is non-zero, and the share then has the RFC 9591 value
    [d + e * rho + lambda * s * c]; otherwise it returns an error. *)
Theorem RoundTwo_spec kp nonces msg l pk d e s share :
  Forall commitment_wf l → is_uint32 (kp_Identifier kp) → GroupPublicKey kp = Some pk →
  SecretShare kp = Some s → HidingNonce nonces = Some d → BindingNonce nonces = Some e →
  (participant.RoundTwo kp nonces msg l = Ok share ↔
     session_ok l ∧ (0 < MinSigners kp → MinSigners kp ≤ Z.of_nat (length l))%Z ∧
     kp_Identifier kp ∈ ids l ∧ session_chal pk l msg ≠ 0 ∧
     share = {| share_Identifier := kp_Identifier kp;
                share_value := Some (share_formula pk l msg (kp_Identifier kp) d e s) |}) ∧
  participant.RoundTwo kp nonces msg l ≠ Panic.
Proof. apply RoundTwo_cases. Qed.
End RoundFacts.
