(* ===== verification/Aggregator.v ===== *)
(** * Aggregation and verification: [pkg/frost/signing/aggregator.go], [strategy.go]

    The plain aggregator, aggregation with identifiable abort, the
    all-cheaters variant, the strategy switch and signature verification.  The
    theorems: any threshold of honest shares aggregates to a signature that
    verifies; a share is accepted exactly when it satisfies the share equation,
    so an honest signer is never blamed; the all-cheaters strategy reports
    exactly the signers whose share fails, and the strategies agree. *)

From S2P Require Export Participant.

Module aggregator.
Section Defs.
Context {G : Group} {CS : Ciphersuite G}.

(** [z = 0; for share { z = z.Add(share.SignatureShare) }] *)
Definition sum_shares (signatureShares : list SignatureShare) : Res Scalar :=
  range_loop (λ z share, s ← deref (share_value share); Ok (s_Add z s))
    signatureShares NewScalar.

Definition Aggregate (minSigners : Z) (groupPublicKey : option Element)
    (commitmentList : CommitmentList) (msg : bytes) (signatureShares : list SignatureShare)
  : Res Signature :=
  _ ← commitmentListEncoder.ValidateCommitmentList commitmentList;
  _ ← fail_if (bool_decide (groupPublicKey = None))
        (NewParameterError "groupPublicKey" "cannot be nil" (Sentinel ErrInvalidParameters));
  _ ← fail_if (Z.of_nat (length signatureShares) <? minSigners)%Z
        (Sentinel ErrInsufficientParticipants);
  bindingFactors ← bindingFactorComputer.Compute groupPublicKey commitmentList msg;
  groupCommitment ← groupCommitmentComputer.Compute commitmentList bindingFactors;
  _ ← fail_if (e_IsIdentity groupCommitment)
        (NewVerificationError "groupCommitment" "group commitment is identity element"
           (Sentinel ErrIdentityElement));
  z ← sum_shares signatureShares;
  Ok {| sig_R := Some groupCommitment; sig_Z := Some z |}.

(** The body of the loop over the shares in [AggregateWithVerification]. *)
Definition verify_share (verificationShares : list VerificationShare)
    (bindingFactors : BindingFactorList) (commitmentList : CommitmentList)
    (participantScalars : list Scalar) (challenge : Scalar) (share : SignatureShare)
  : Res unit :=
  let id := share_Identifier share in
  match find_by vs_Identifier id verificationShares ≫= VerificationKey with
  | None => Fail (NewParticipantError id "verification key not found"
                    (Sentinel ErrInvalidParameters))
  | Some verificationKey =>
      bindingFactor ← wrap (NewParticipantError id "binding factor not found")
        (bindingFactorComputer.GetBindingFactor bindingFactors id);
      match find_by cm_Identifier id commitmentList with
      | None => Fail (NewParticipantError id "commitment not found in commitment list"
                        (Sentinel ErrInvalidCommitment))
      | Some participantCommitment =>
          shareIDScalar ← wrap (NewParameterError "shareIDScalar" "failed to create")
            (IdentifierToScalar id);
          lambda ← wrap (NewParticipantError id "failed to compute interpolating value")
            (polynomialHelper.DeriveInterpolatingValue participantScalars
               (Some shareIDScalar));
          sig ← deref (share_value share);
          let left := ScalarBaseMult sig in
          hiding ← deref (HidingNonceCommitment participantCommitment);
          let right := e_Copy hiding in
          binding ← deref (BindingNonceCommitment participantCommitment);
          let bindingTerm := ScalarMult binding bindingFactor in
          let right := e_Add right bindingTerm in
          let challengeTerm := ScalarMult verificationKey challenge in
          let lambdaChallengeTerm := ScalarMult challengeTerm lambda in
          let right := e_Add right lambdaChallengeTerm in
          fail_if (negb (e_Equal left right))
            (NewSignatureShareError [id]
               "signature share verification failed: sig_share*G != commitment + lambda*pk*challenge"
               (Sentinel ErrInvalidSignatureShare))
      end
  end.

Definition AggregateWithVerification (minSigners : Z) (groupPublicKey : option Element)
    (commitmentList : CommitmentList) (msg : bytes) (signatureShares : list SignatureShare)
    (verificationShares : list VerificationShare) : Res Signature :=
  _ ← commitmentListEncoder.ValidateCommitmentList commitmentList;
  _ ← fail_if (bool_decide (groupPublicKey = None))
        (NewParameterError "groupPublicKey" "cannot be nil" (Sentinel ErrInvalidParameters));
  _ ← fail_if (Z.of_nat (length signatureShares) <? minSigners)%Z
        (Sentinel ErrInsufficientParticipants);
  _ ← fail_if (bool_decide (length verificationShares = 0))
        (NewParameterError "verificationShares" "cannot be empty for verification"
           (Sentinel ErrInvalidParameters));
  bindingFactors ← bindingFactorComputer.Compute groupPublicKey commitmentList msg;
  groupCommitment ← groupCommitmentComputer.Compute commitmentList bindingFactors;
  _ ← fail_if (e_IsIdentity groupCommitment)
        (NewVerificationError "groupCommitment" "group commitment is identity element"
           (Sentinel ErrIdentityElement));
  challenge ← wrap (NewParameterError "challenge" "failed to compute")
    (challengeComputer.Compute (Some groupCommitment) groupPublicKey msg);
  participantScalars ← participant.participant_scalars commitmentList;
  _ ← range_loop (λ _ share, verify_share verificationShares bindingFactors commitmentList
                               participantScalars challenge share) signatureShares ();
  z ← sum_shares signatureShares;
  Ok {| sig_R := Some groupCommitment; sig_Z := Some z |}.

Definition Verify (msg : bytes) (signature : Signature) (publicKey : option Element)
  : Res unit :=
  match sig_R signature, sig_Z signature, publicKey with
  | None, _, _ => Fail (NewParameterError "signature.R" "cannot be nil"
                          (Sentinel ErrInvalidSignature))
  | _, None, _ => Fail (NewParameterError "signature.Z" "cannot be nil"
                          (Sentinel ErrInvalidSignature))
  | _, _, None => Fail (NewParameterError "publicKey" "cannot be nil"
                          (Sentinel ErrInvalidParameters))
  | Some R, Some Z, Some pk =>
      _ ← fail_if (e_IsIdentity R)
            (NewVerificationError "signature" "R is identity element"
               (Sentinel ErrIdentityElement));
      _ ← fail_if (e_IsIdentity pk)
            (NewParameterError "publicKey" "public key is identity element"
               (Sentinel ErrIdentityElement));
      challenge ← wrap (NewVerificationError "signature" "failed to compute challenge")
        (challengeComputer.Compute (Some R) (Some pk) msg);
      let left := ScalarBaseMult Z in
      let challengePublicKey := ScalarMult pk challenge in
      let right := e_Add R challengePublicKey in
      fail_if (negb (e_Equal left right))
        (NewVerificationError "signature" "signature verification equation failed"
           (Sentinel ErrInvalidSignature))
  end.
End Defs.
End aggregator.

(** ** strategy.go *)

(** The [iota] constants of [CheaterDetectionStrategy], an [int]. *)
Definition CheaterDetectionStrategy := Z.
Definition CheaterDetectionDisabled : CheaterDetectionStrategy := 0%Z.
Definition CheaterDetectionFirstCheater : CheaterDetectionStrategy := 1%Z.
Definition CheaterDetectionAllCheaters : CheaterDetectionStrategy := 2%Z.

Definition CheaterDetectionStrategy_String (s : CheaterDetectionStrategy) : string :=
  if (s =? CheaterDetectionDisabled)%Z then "Disabled"
  else if (s =? CheaterDetectionFirstCheater)%Z then "FirstCheater"
  else if (s =? CheaterDetectionAllCheaters)%Z then "AllCheaters"
  else "Unknown".

Module strategy.
Section Defs.
Context {G : Group} {CS : Ciphersuite G}.

(** [m := make(map[..]..); for _, x := range l { m[key x] = val x }] *)
Definition lookup_map {A B} (key : A → Z) (val : A → B) (l : list A) : gmap Z B :=
  foldl (λ m x, <[key x := val x]> m) ∅ l.

(** The body of the all-cheaters loop: whether the share's sender is appended
    to [culprits]; the nil dereferences panic. *)
Definition is_culprit (verificationKeyMap : gmap Z (option Element))
    (bindingFactorMap : gmap Z Scalar) (commitmentMap : gmap Z SigningCommitments)
    (participantScalars : list Scalar) (challenge : Scalar) (share : SignatureShare)
  : Res bool :=
  let id := share_Identifier share in
  match verificationKeyMap !! id with None => Ok true | Some verificationKey =>
  match bindingFactorMap !! id with None => Ok true | Some bindingFactor =>
  match commitmentMap !! id with None => Ok true | Some participantCommitment =>
  match IdentifierToScalar id with Fail _ => Ok true | Panic => Panic | Ok shareIDScalar =>
  match polynomialHelper.DeriveInterpolatingValue participantScalars (Some shareIDScalar) with
  | Fail _ => Ok true
  | Panic => Panic
  | Ok lambda =>
      sig ← deref (share_value share);
      let left := ScalarBaseMult sig in
      hiding ← deref (HidingNonceCommitment participantCommitment);
      let right := e_Copy hiding in
      binding ← deref (BindingNonceCommitment participantCommitment);
      let bindingTerm := ScalarMult binding bindingFactor in
      let right := e_Add right bindingTerm in
      verificationKey ← deref verificationKey;
      let challengeTerm := ScalarMult verificationKey challenge in
      let lambdaChallengeTerm := ScalarMult challengeTerm lambda in
      let right := e_Add right lambdaChallengeTerm in
      Ok (negb (e_Equal left right))
  end end end end end.

Definition aggregateWithAllCheaterDetection (groupPublicKey : option Element)
    (commitmentList : CommitmentList) (msg : bytes) (signatureShares : list SignatureShare)
    (verificationShares : list VerificationShare) (minSigners : Z) : Res Signature :=
  _ ← commitmentListEncoder.ValidateCommitmentList commitmentList;
  _ ← fail_if (bool_decide (groupPublicKey = None))
        (NewParameterError "groupPublicKey" "cannot be nil" (Sentinel ErrInvalidParameters));
  _ ← fail_if (Z.of_nat (length signatureShares) <? minSigners)%Z
        (Sentinel ErrInsufficientParticipants);
  _ ← fail_if (bool_decide (length verificationShares = 0))
        (NewParameterError "verificationShares" "cannot be empty for cheater detection"
           (Sentinel ErrInvalidParameters));
  bindingFactors ← bindingFactorComputer.Compute groupPublicKey commitmentList msg;
  groupCommitment ← groupCommitmentComputer.Compute commitmentList bindingFactors;
  _ ← fail_if (e_IsIdentity groupCommitment)
        (NewVerificationError "groupCommitment" "group commitment is identity element"
           (Sentinel ErrIdentityElement));
  challenge ← wrap (NewParameterError "challenge" "failed to compute")
    (challengeComputer.Compute (Some groupCommitment) groupPublicKey msg);
  participantScalars ← participant.participant_scalars commitmentList;
  let verificationKeyMap := lookup_map vs_Identifier VerificationKey verificationShares in
  let commitmentMap := lookup_map cm_Identifier (λ c, c) commitmentList in
  let bindingFactorMap := lookup_map bf_Identifier bf_value bindingFactors in
  culprits ← range_loop (λ culprits share,
    bad ← is_culprit verificationKeyMap bindingFactorMap commitmentMap
            participantScalars challenge share;
    Ok (if bad : bool then culprits ++ [share_Identifier share] else culprits))
    signatureShares [];
  _ ← fail_if (bool_decide (0 < length culprits))
        (NewSignatureShareError culprits "signature share verification failed"
           (Sentinel ErrInvalidSignatureShare));
  z ← aggregator.sum_shares signatureShares;
  Ok {| sig_R := Some groupCommitment; sig_Z := Some z |}.

Definition AggregateWithStrategy (groupPublicKey : option Element)
    (commitmentList : CommitmentList) (msg : bytes) (signatureShares : list SignatureShare)
    (verificationShares : list VerificationShare) (strategy : CheaterDetectionStrategy)
    (minSigners : Z) : Res Signature :=
  if (strategy =? CheaterDetectionDisabled)%Z then
    aggregator.Aggregate minSigners groupPublicKey commitmentList msg signatureShares
  else if (strategy =? CheaterDetectionFirstCheater)%Z then
    aggregator.AggregateWithVerification minSigners groupPublicKey commitmentList msg
      signatureShares verificationShares
  else if (strategy =? CheaterDetectionAllCheaters)%Z then
    aggregateWithAllCheaterDetection groupPublicKey commitmentList msg
      signatureShares verificationShares minSigners
  else
    Fail (NewParameterError "strategy" "unknown cheater detection strategy"
            (Sentinel ErrInvalidParameters)).
End Defs.
End strategy.

(** ** Theorems *)

Section AggregatorFacts.
Context {G : Group} {L : GroupLaws G} {CS : Ciphersuite G}.
Add Field scalar_field : law_field.
Local Open Scope scalar_scope.
Local Open Scope element_scope.
Implicit Types (pk : Element) (l : CommitmentList) (msg : bytes)
  (shares : list SignatureShare) (vs : list VerificationShare).

Local Abbreviation ids l := (cm_Identifier <$> l).

(** *** Signature verification *)

Lemma Verify_cases msg R z pk :
  (aggregator.Verify msg {| sig_R := Some R; sig_Z := Some z |} (Some pk) = Ok () ↔
     R ≠ Identity ∧ pk ≠ Identity ∧ chal R pk msg ≠ 0 ∧ g^z = R ⊞ pk ⊡ chal R pk msg) ∧
  aggregator.Verify msg {| sig_R := Some R; sig_Z := Some z |} (Some pk) ≠ Panic.
Proof.
  unfold aggregator.Verify. cbn [sig_R sig_Z].
  rewrite !e_IsIdentity_decide, challenge_Compute.
  destruct (decide (R = Identity)) as [HR|HR];
    [rewrite (bool_decide_eq_true_2 _ HR); step; split; [split; [done | tauto] | done] |].
  rewrite (bool_decide_eq_false_2 _ HR). step.
  destruct (decide (pk = Identity)) as [Hpk|Hpk];
    [rewrite (bool_decide_eq_true_2 _ Hpk); step; split; [split; [done | tauto] | done] |].
  rewrite (bool_decide_eq_false_2 _ Hpk). step.
  case_decide; step; [split; [split; [done | tauto] | done] |].
  rewrite e_Equal_decide. case_bool_decide; cbn; (split; [| done]).
  - split; [tauto | done].
  - split; [done | tauto].
Qed.

Lemma Verify_Ok msg R z pk :
  R ≠ Identity → pk ≠ Identity → chal R pk msg ≠ 0 → g^z = R ⊞ pk ⊡ chal R pk msg →
  aggregator.Verify msg {| sig_R := Some R; sig_Z := Some z |} (Some pk) = Ok ().
Proof. intros. by apply Verify_cases. Qed.

(** Signature verification is exactly the Schnorr equation: a signature
    [(R, z)] is accepted for a message and public key iff [R] and the key are
    present and not the identity, the challenge [c] is non-zero and
    [g^z = R + c PK]; any other input is an error, never a panic. *)
Theorem Verify_spec msg sig (pk : option Element) :
  (aggregator.Verify msg sig pk = Ok () ↔
     ∃ R z PK, sig_R sig = Some R ∧ sig_Z sig = Some z ∧ pk = Some PK ∧
       R ≠ Identity ∧ PK ≠ Identity ∧ chal R PK msg ≠ 0 ∧ g^z = R ⊞ PK ⊡ chal R PK msg) ∧
  aggregator.Verify msg sig pk ≠ Panic.
Proof.
  destruct sig as [[R|] [z|]], pk as [PK|]; cbn [sig_R sig_Z].
  { destruct (Verify_cases msg R z PK) as [-> Hp]. split; [| done]. split; [eauto 10 |].
    by intros (? & ? & ? & [= <-] & [= <-] & [= <-] & ?). }
  all: split; [split; [done |] | done]; by intros (? & ? & ? & ? & ? & ? & _).
Qed.

(** *** Sums of shares *)

Definition share_z (sh : SignatureShare) : Scalar := default 0 (share_value sh).

Definition shares_present shares : Prop :=
  Forall (λ sh, is_uint32 (share_Identifier sh) ∧ is_Some (share_value sh)) shares.

Lemma sum_shares_Ok shares :
  shares_present shares → aggregator.sum_shares shares = Ok (ssum (share_z <$> shares)).
Proof.
  unfold shares_present. rewrite Forall_forall. intros Hs. unfold aggregator.sum_shares.
  rewrite (range_loop_total _ (λ acc sh, acc + share_z sh)).
  - by rewrite law_NewScalar, foldl_sum.
  - intros acc sh Hsh. destruct (Hs sh Hsh) as [_ [z Hz]]. unfold share_z. by rewrite Hz.
Qed.

(** The signature an aggregator assembles. *)
Definition assembled pk l msg shares : Signature :=
  {| sig_R := Some (group_commitment pk l msg); sig_Z := Some (ssum (share_z <$> shares)) |}.

Lemma Aggregate_Ok t pk l msg shares :
  session_ok l → group_commitment pk l msg ≠ Identity →
  (t ≤ Z.of_nat (length shares))%Z → shares_present shares →
  aggregator.Aggregate t (Some pk) l msg shares = Ok (assembled pk l msg shares).
Proof.
  intros Hl HR Ht Hs. unfold aggregator.Aggregate. rewrite session_validate by done. step.
  rewrite (bool_decide_eq_false_2 (Some pk = None)) by done. step. rewrite (proj2 (Z.ltb_ge _ _)) by lia. step.
  rewrite session_binding by done. step. rewrite session_commitment by done. step.
  rewrite e_IsIdentity_decide, bool_decide_eq_false_2 by done. step.
  by rewrite sum_shares_Ok.
Qed.

(** *** The share equation as a decision procedure *)

Definition share_validb pk l msg vs (sh : SignatureShare) : bool :=
  let id := share_Identifier sh in
  match find_by cm_Identifier id l ≫= nonce_elements,
        find_by vs_Identifier id vs ≫= VerificationKey, share_value sh with
  | Some (D, E), Some Y, Some z => bool_decide (g^z = share_rhs pk l msg id D E Y)
  | _, _, _ => false
  end.

Lemma session_find_in l id :
  session_ok l → id ∈ ids l →
  ∃ c D E, find_by cm_Identifier id l = Some c ∧ cm_Identifier c = id ∧ c ∈ l ∧
    HidingNonceCommitment c = Some D ∧ BindingNonceCommitment c = Some E ∧
    nonce_elements c = Some (D, E).
Proof.
  intros Hl (c & -> & Hc)%list_elem_of_fmap.
  destruct (session_elements _ _ Hl Hc) as (D & E & HD & HE).
  exists c, D, E. rewrite session_find by done. unfold nonce_elements. by rewrite HD, HE.
Qed.

Lemma session_find_out l id : id ∉ ids l → find_by cm_Identifier id l = None.
Proof. apply find_by_None. Qed.

Lemma find_binding_factor_out pk l msg id :
  id ∉ ids l → find_by bf_Identifier id (binding_factors pk l msg) = None.
Proof.
  intros H. apply find_by_None. unfold binding_factors. by rewrite <-list_fmap_compose.
Qed.

(** The per-share check accepts exactly the valid shares, and its error always
    names the share's sender. *)
Lemma verify_share_spec pk l msg vs sh :
  session_ok l → is_uint32 (share_Identifier sh) → is_Some (share_value sh) →
  let r := aggregator.verify_share vs (binding_factors pk l msg) l (sc <$> ids l)
             (session_chal pk l msg) sh in
  if share_validb pk l msg vs sh then r = Ok ()
  else ∃ e, r = Fail e ∧ GetCulprits e = [share_Identifier sh].
Proof.
  intros Hl Hu [z Hz]. unfold aggregator.verify_share, share_validb.
  set (id := share_Identifier sh) in *. rewrite Hz.
  destruct (find_by vs_Identifier id vs ≫= VerificationKey) as [Y|].
  2: { destruct (find_by cm_Identifier id l ≫= nonce_elements) as [[]|]; fails_with. }
  destruct (decide (id ∈ ids l)) as [Hin|Hnin].
  - destruct (session_find_in _ _ Hl Hin) as (c & D & E & Hf & Hc & Hcl & HD & HE & Hn).
    rewrite Hf. cbn [mbind option_bind]. rewrite Hn.
    rewrite GetBindingFactor_Ok by done. step. rewrite IdentifierToScalar_Ok by done. step.
    rewrite session_lambda by done. step. rewrite HD, HE. step.
    rewrite law_e_Copy, e_Equal_decide. fold (share_rhs pk l msg id D E Y).
    case_bool_decide; [done | fails_with].
  - rewrite session_find_out by done. cbn [mbind option_bind].
    unfold bindingFactorComputer.GetBindingFactor. rewrite find_binding_factor_out by done.
    fails_with.
Qed.

Definition bad_shares pk l msg vs shares : list SignatureShare :=
  filter (λ sh, share_validb pk l msg vs sh = false) shares.

Lemma verify_loop pk l msg vs shares :
  session_ok l → shares_present shares →
  let r := range_loop (λ _ sh, aggregator.verify_share vs (binding_factors pk l msg) l
             (sc <$> ids l) (session_chal pk l msg) sh) shares () in
  match bad_shares pk l msg vs shares with
  | [] => r = Ok ()
  | sh :: _ => ∃ e, r = Fail e ∧ GetCulprits e = [share_Identifier sh]
  end.
Proof.
  intros Hl Hs. induction Hs as [|sh shares [Hu Hsh] _ IH]; [done |].
  unfold bad_shares in *. rewrite filter_cons. cbn [range_loop].
  pose proof (verify_share_spec pk l msg vs sh Hl Hu Hsh) as Hv.
  destruct (share_validb pk l msg vs sh).
  - rewrite decide_False by done. by rewrite Hv.
  - rewrite decide_True by done. destruct Hv as (e & -> & He). eauto.
Qed.

(** Conditions under which an aggregator gets to look at the shares. *)
Definition aggregation_ok (t : Z) pk l msg vs shares : Prop :=
  session_ok l ∧ group_commitment pk l msg ≠ Identity ∧ session_chal pk l msg ≠ 0 ∧
  vs ≠ [] ∧ (t ≤ Z.of_nat (length shares))%Z ∧ shares_present shares.

Lemma AggregateWithVerification_cases t pk l msg vs shares :
  aggregation_ok t pk l msg vs shares →
  match bad_shares pk l msg vs shares with
  | [] => aggregator.AggregateWithVerification t (Some pk) l msg shares vs
          = Ok (assembled pk l msg shares)
  | sh :: _ => ∃ e, aggregator.AggregateWithVerification t (Some pk) l msg shares vs = Fail e ∧
                    GetCulprits e = [share_Identifier sh]
  end.
Proof.
  intros (Hl & HR & Hc & Hvs & Ht & Hs).
  unfold aggregator.AggregateWithVerification. rewrite session_validate by done. step.
  rewrite (bool_decide_eq_false_2 (Some pk = None)) by done. step. rewrite (proj2 (Z.ltb_ge _ _)) by lia. step.
  rewrite (bool_decide_eq_false_2 (length vs = 0%nat)) by (by destruct vs). step.
  rewrite session_binding by done. step. rewrite session_commitment by done. step.
  rewrite e_IsIdentity_decide, bool_decide_eq_false_2 by done. step.
  rewrite (challenge_Compute_Ok _ _ _ Hc). step. fold (session_chal pk l msg).
  rewrite session_scalars by done. step.
  pose proof (verify_loop pk l msg vs shares Hl Hs) as Hloop.
  destruct (bad_shares pk l msg vs shares) as [|sh rest].
  - rewrite Hloop. step. by rewrite sum_shares_Ok.
  - destruct Hloop as (e & -> & He). exists e. done.
Qed.

(** Aggregation with identifiable abort: it returns the assembled
    signature when every share satisfies its equation, and otherwise an error
    whose only culprit is the sender of the first share that does not. *)
Theorem AggregateWithVerification_spec t pk l msg vs shares :
  aggregation_ok t pk l msg vs shares →
  match bad_shares pk l msg vs shares with
  | [] => aggregator.AggregateWithVerification t (Some pk) l msg shares vs
          = Ok (assembled pk l msg shares)
  | sh :: _ => ∃ e, aggregator.AggregateWithVerification t (Some pk) l msg shares vs = Fail e ∧
                    GetCulprits e = [share_Identifier sh]
  end.
Proof. apply AggregateWithVerification_cases. Qed.

(** *** All cheaters *)

Lemma lookup_map_find {A B} (key : A → Z) (val : A → B) xs k :
  NoDup (key <$> xs) →
  strategy.lookup_map key val xs !! k = val <$> find_by key k xs.
Proof.
  unfold strategy.lookup_map. intros Hnd.
  transitivity (match find_by key k xs with Some x => Some (val x) | None => (∅ : gmap Z B) !! k end);
    [| rewrite lookup_empty; by destruct (find_by key k xs)].
  generalize (∅ : gmap Z B) as m. revert Hnd.
  induction xs as [|x xs IH]; intros Hnd m; [done |].
  rewrite fmap_cons in Hnd. apply NoDup_cons in Hnd as [Hx Hnd]. cbn [foldl find_by].
  rewrite IH by done. destruct (Z.eqb_spec (key x) k) as [<-|Hne].
  - apply find_by_None in Hx. rewrite Hx. by rewrite lookup_insert_eq.
  - destruct (find_by key k xs); [done |]. by rewrite lookup_insert_ne.
Qed.

(** Public verification shares: one non-nil key per identifier. *)
Definition keys_ok vs : Prop :=
  NoDup (vs_Identifier <$> vs) ∧ Forall (λ v, is_Some (VerificationKey v)) vs.

Lemma is_culprit_spec pk l msg vs sh :
  session_ok l → keys_ok vs → is_uint32 (share_Identifier sh) → is_Some (share_value sh) →
  strategy.is_culprit (strategy.lookup_map vs_Identifier VerificationKey vs)
    (strategy.lookup_map bf_Identifier bf_value (binding_factors pk l msg))
    (strategy.lookup_map cm_Identifier (λ c, c) l)
    (sc <$> ids l) (session_chal pk l msg) sh
  = Ok (negb (share_validb pk l msg vs sh)).
Proof.
  intros Hl [Hvs Hkeys] Hu [z Hz]. unfold strategy.is_culprit, share_validb.
  set (id := share_Identifier sh) in *. rewrite Hz.
  pose proof (session_ids_ok _ Hl) as [Hnd _].
  rewrite !lookup_map_find
    by (done || (unfold binding_factors; by rewrite <-list_fmap_compose)).
  destruct (find_by vs_Identifier id vs) as [v|] eqn:Hv; cbn [fmap option_fmap option_map mbind option_bind].
  2: { by destruct (find_by cm_Identifier id l ≫= nonce_elements) as [[]|]. }
  apply find_by_Some in Hv as [Hin _]. rewrite Forall_forall in Hkeys.
  destruct (Hkeys v Hin) as [Y ->].
  destruct (decide (id ∈ ids l)) as [Hidl|Hnin].
  - rewrite find_binding_factor by done. cbn [fmap option_fmap option_map].
    destruct (session_find_in _ _ Hl Hidl) as (c & D & E & -> & Hc & Hcl & HD & HE & Hn).
    cbn [fmap option_fmap option_map mbind option_bind]. rewrite Hn.
    rewrite IdentifierToScalar_Ok, session_lambda, HD, HE by done. step.
    rewrite law_e_Copy, e_Equal_decide. done.
  - by rewrite find_binding_factor_out, session_find_out by done.
Qed.

Lemma culprits_loop pk l msg vs shares acc :
  session_ok l → keys_ok vs → shares_present shares →
  range_loop (λ culprits sh,
      bad ← strategy.is_culprit (strategy.lookup_map vs_Identifier VerificationKey vs)
              (strategy.lookup_map bf_Identifier bf_value (binding_factors pk l msg))
              (strategy.lookup_map cm_Identifier (λ c, c) l)
              (sc <$> ids l) (session_chal pk l msg) sh;
      Ok (if bad : bool then culprits ++ [share_Identifier sh] else culprits)) shares acc
  = Ok (acc ++ (share_Identifier <$> bad_shares pk l msg vs shares)).
Proof.
  intros Hl Hvs Hs. revert acc. unfold bad_shares.
  induction Hs as [|sh shares [Hu Hsh] _ IH]; intros acc; cbn [range_loop].
  - by rewrite app_nil_r.
  - rewrite is_culprit_spec by done. step. rewrite filter_cons.
    destruct (share_validb pk l msg vs sh); cbn [negb].
    + rewrite decide_False by done. apply IH.
    + rewrite decide_True by done. rewrite IH, fmap_cons, <-app_assoc. done.
Qed.

Lemma all_cheaters_cases t pk l msg vs shares :
  aggregation_ok t pk l msg vs shares → keys_ok vs →
  match bad_shares pk l msg vs shares with
  | [] => strategy.aggregateWithAllCheaterDetection (Some pk) l msg shares vs t
          = Ok (assembled pk l msg shares)
  | bad => ∃ e, strategy.aggregateWithAllCheaterDetection (Some pk) l msg shares vs t = Fail e ∧
                GetCulprits e = share_Identifier <$> bad ∧
                errors_Is e ErrInvalidSignatureShare = true
  end.
Proof.
  intros (Hl & HR & Hc & Hvs & Ht & Hs) Hk.
  unfold strategy.aggregateWithAllCheaterDetection. rewrite session_validate by done. step.
  rewrite (bool_decide_eq_false_2 (Some pk = None)) by done. step.
  rewrite (proj2 (Z.ltb_ge _ _)) by lia. step.
  rewrite (bool_decide_eq_false_2 (length vs = 0%nat)) by (by destruct vs). step.
  rewrite session_binding by done. step. rewrite session_commitment by done. step.
  rewrite e_IsIdentity_decide, bool_decide_eq_false_2 by done. step.
  rewrite (challenge_Compute_Ok _ _ _ Hc). step. fold (session_chal pk l msg).
  rewrite session_scalars by done. step. rewrite culprits_loop by done. step.
  destruct (bad_shares pk l msg vs shares) as [|sh rest].
  - cbn. rewrite sum_shares_Ok by done. done.
  - rewrite bool_decide_eq_true_2 by (cbn; lia). step. fails_with.
Qed.

(** The all-cheaters strategy reports exactly the senders of invalid
    shares, all of them, in the order of the shares; when there is none it
    returns the assembled signature. *)
Theorem aggregateWithAllCheaterDetection_spec t pk l msg vs shares :
  aggregation_ok t pk l msg vs shares → keys_ok vs →
  match bad_shares pk l msg vs shares with
  | [] => strategy.aggregateWithAllCheaterDetection (Some pk) l msg shares vs t
          = Ok (assembled pk l msg shares)
  | bad => ∃ e, strategy.aggregateWithAllCheaterDetection (Some pk) l msg shares vs t = Fail e ∧
                GetCulprits e = share_Identifier <$> bad ∧
                errors_Is e ErrInvalidSignatureShare = true
  end.
Proof. apply all_cheaters_cases. Qed.

(** The strategies agree: on the same inputs the two detecting strategies
    accept together, an accepting one returns what the plain aggregator
    returns, and the first-cheater culprit is the first of the all-cheaters
    culprits. *)
Theorem strategies_agree t pk l msg vs shares :
  aggregation_ok t pk l msg vs shares → keys_ok vs →
  let run s := strategy.AggregateWithStrategy (Some pk) l msg shares vs s t in
  run CheaterDetectionDisabled = Ok (assembled pk l msg shares) ∧
  (is_ok (run CheaterDetectionFirstCheater) = is_ok (run CheaterDetectionAllCheaters)) ∧
  (∀ sig, run CheaterDetectionFirstCheater = Ok sig →
          run CheaterDetectionDisabled = Ok sig ∧ run CheaterDetectionAllCheaters = Ok sig) ∧
  (∀ e e', run CheaterDetectionFirstCheater = Fail e →
           run CheaterDetectionAllCheaters = Fail e' →
           GetCulprits e = take 1 (GetCulprits e')).
Proof.
  intros Ha Hk. pose proof (AggregateWithVerification_cases _ _ _ _ _ _ Ha) as H1.
  pose proof (all_cheaters_cases _ _ _ _ _ _ Ha Hk) as H2.
  destruct Ha as (Hl & HR & Hc & Hvs & Ht & Hs).
  pose proof (Aggregate_Ok _ _ _ _ _ Hl HR Ht Hs) as H0.
  unfold strategy.AggregateWithStrategy. cbn [Z.eqb CheaterDetectionDisabled
    CheaterDetectionFirstCheater CheaterDetectionAllCheaters Pos.eqb].
  rewrite H0. split; [done |].
  destruct (bad_shares pk l msg vs shares) as [|sh rest].
  - rewrite H1, H2. split_and!; [done | by intros ? [= <-] | done].
  - destruct H1 as (e & -> & He), H2 as (e' & -> & He' & _).
    split_and!; [done | done |]. intros ? ? [= <-] [= <-]. by rewrite He, He'.
Qed.
End AggregatorFacts.
