(* ===== verification/Protocol.v ===== *)
(** * The signing protocol end to end

    Theorems that cross components: key generation, both rounds, aggregation
    and verification composed the way a caller composes them. *)

From S2P Require Export Aggregator.

Section ProtocolFacts.
Context {G : Group} {L : GroupLaws G} {CS : Ciphersuite G}.
Add Field scalar_field : law_field.
Local Open Scope scalar_scope.
Local Open Scope element_scope.
Implicit Types (cs : list Scalar) (pk : Element) (l : CommitmentList) (msg : bytes)
  (shares : list SignatureShare) (vs : list VerificationShare).

Local Abbreviation ids l := (cm_Identifier <$> l).

(** The verification shares of the sharing polynomial [cs] for the signers. *)
Definition keys_of (cs : list Scalar) (signers : list Z) vs : Prop :=
  ∀ id, id ∈ signers →
    (find_by vs_Identifier id vs ≫= VerificationKey) = Some (g^(peval cs (sc id))).

Lemma public_shares_keys cs all signers :
  signers ⊆ all → keys_of cs signers (public_shares cs all).
Proof. intros Hsub id Hid. rewrite public_shares_find by auto. done. Qed.

Lemma valid_share_at pk l msg cs vs c sh :
  session_ok l → keys_of cs (ids l) vs → c ∈ l → share_Identifier sh = cm_Identifier c →
  share_validb pk l msg vs sh = true →
  ∃ D E, HidingNonceCommitment c = Some D ∧ BindingNonceCommitment c = Some E ∧
    g^(share_z sh) = share_rhs pk l msg (cm_Identifier c) D E
                       (g^(peval cs (sc (cm_Identifier c)))).
Proof.
  intros Hl Hkeys Hc Hid Hv. destruct (session_elements _ _ Hl Hc) as (D & E & HD & HE).
  exists D, E. split; [done |]. split; [done |].
  unfold share_validb in Hv. rewrite Hid, (session_find _ _ Hl Hc) in Hv.
  cbn [mbind option_bind] in Hv. unfold nonce_elements in Hv. rewrite HD, HE in Hv.
  rewrite (Hkeys (cm_Identifier c)) in Hv by (apply list_elem_of_fmap; eauto).
  unfold share_z. destruct (share_value sh) as [z|]; [| done].
  by apply bool_decide_eq_true in Hv.
Qed.

(** One valid share per signer. *)
Lemma valid_shares_equation pk l msg cs vs shares :
  session_ok l → length cs ≤ length l → pk = g^(peval cs 0) → keys_of cs (ids l) vs →
  (share_Identifier <$> shares) ≡ₚ ids l → bad_shares pk l msg vs shares = [] →
  g^(ssum (share_z <$> shares)) = group_commitment pk l msg ⊞ pk ⊡ session_chal pk l msg.
Proof.
  intros Hl Hlen Hpk Hkeys Hperm Hbad.
  symmetry in Hperm. apply Permutation_map_inv in Hperm as (shares' & Heq & Hperm).
  assert (Hvalid : Forall (λ sh, share_validb pk l msg vs sh = true) shares').
  { rewrite <-Hperm. apply Forall_forall. intros sh Hsh.
    destruct (share_validb pk l msg vs sh) eqn:E; [done |]. exfalso.
    apply (not_elem_of_nil sh). rewrite <-Hbad. by apply list_elem_of_filter. }
  rewrite Hperm. apply (shares_sum_valid pk l msg cs); [done | done | done |].
  clear Hperm Hbad shares.
  assert (Hfor : ∀ l0, l0 ⊆ l → ids l0 = map share_Identifier shares' →
    Forall2 (λ c z, ∃ D E, HidingNonceCommitment c = Some D ∧ BindingNonceCommitment c = Some E ∧
      g^z = share_rhs pk l msg (cm_Identifier c) D E (g^(peval cs (sc (cm_Identifier c)))))
      l0 (share_z <$> shares')); [clear Heq | by apply Hfor].
  induction Hvalid as [|sh shares' Hsh Hv IH]; intros [|c l0] Hsub Hids; try done.
  rewrite fmap_cons in Hids. cbn [map] in Hids. injection Hids as Hid Hids.
  rewrite fmap_cons. constructor; [| apply IH; [| done];
    intros c' Hc'; apply Hsub; by apply list_elem_of_further].
  assert (Hc : c ∈ l) by (apply Hsub, list_elem_of_here).
  by eapply valid_share_at.
Qed.

(** C33: identifiable abort is sound: whatever the signers sent, when
    aggregation with verification returns a signature for one share per signer,
    that signature verifies under the group key. *)
Theorem verified_aggregate_verifies t pk l msg cs vs shares sig :
  aggregation_ok t pk l msg vs shares →
  length cs ≤ length l → pk = g^(peval cs 0) → pk ≠ Identity → keys_of cs (ids l) vs →
  (share_Identifier <$> shares) ≡ₚ ids l →
  aggregator.AggregateWithVerification t (Some pk) l msg shares vs = Ok sig →
  aggregator.Verify msg sig (Some pk) = Ok ().
Proof.
  intros Ha Hlen Hpk Hid Hkeys Hperm Hagg.
  pose proof (AggregateWithVerification_cases _ _ _ _ _ _ Ha) as Hcases.
  destruct (bad_shares pk l msg vs shares) eqn:Hbad.
  2: { destruct Hcases as (e & He & _). congruence. }
  rewrite Hcases in Hagg. injection Hagg as <-.
  destruct Ha as (Hl & HR & Hc & _). apply Verify_Ok; [done | done | done |].
  by eapply valid_shares_equation.
Qed.

(** *** Honest signers *)

(** A participant with its share of [cs] and two non-zero nonces. *)
Record signer := { s_kp : KeyPackage; s_d : Scalar; s_e : Scalar }.

Definition signer_id (p : signer) : Z := kp_Identifier (s_kp p).
Definition signer_commitment (p : signer) : SigningCommitments :=
  round_one_commitments (signer_id p) (s_d p) (s_e p).

Definition signer_ok cs pk (t : Z) (p : signer) : Prop :=
  is_uint32 (signer_id p) ∧ GroupPublicKey (s_kp p) = Some pk ∧ MinSigners (s_kp p) = t ∧
  SecretShare (s_kp p) = Some (peval cs (sc (signer_id p))) ∧ s_d p ≠ 0 ∧ s_e p ≠ 0.

Definition signer_share cs pk l msg (p : signer) : SignatureShare :=
  {| share_Identifier := signer_id p;
     share_value := Some (share_formula pk l msg (signer_id p) (s_d p) (s_e p)
                            (peval cs (sc (signer_id p)))) |}.

Lemma formula_share_valid pk l msg vs id d e s :
  session_ok l → round_one_commitments id d e ∈ l →
  (find_by vs_Identifier id vs ≫= VerificationKey) = Some (g^s) →
  share_validb pk l msg vs
    {| share_Identifier := id; share_value := Some (share_formula pk l msg id d e s) |} = true.
Proof.
  intros Hl Hc Hkey. unfold share_validb. cbn [share_Identifier share_value].
  pose proof (session_find _ _ Hl Hc) as Hf. cbn [cm_Identifier round_one_commitments] in Hf.
  rewrite Hf, Hkey. cbn [mbind option_bind nonce_elements].
  apply bool_decide_eq_true. apply share_formula_rhs.
Qed.

Lemma honest_share_valid cs pk l msg vs p :
  session_ok l → keys_of cs (ids l) vs → signer_commitment p ∈ l →
  share_validb pk l msg vs (signer_share cs pk l msg p) = true.
Proof.
  intros Hl Hkeys Hp. apply formula_share_valid; [done | done |].
  apply Hkeys, list_elem_of_fmap. by exists (signer_commitment p).
Qed.

(** C34: an honest signer is never blamed: if a participant committed in round
    one, answered round two, and that answer is the only share under its
    identifier, then no strategy's error lists it as a culprit, whatever the
    other participants sent. *)
Theorem honest_never_blamed t pk l msg vs shares kp nonces comm d e s sh strategy err :
  aggregation_ok t pk l msg vs shares → keys_ok vs →
  nonces = round_one_nonces (kp_Identifier kp) d e → comm = Commitments nonces → comm ∈ l →
  GroupPublicKey kp = Some pk → SecretShare kp = Some s →
  (find_by vs_Identifier (kp_Identifier kp) vs ≫= VerificationKey) = Some (g^s) →
  participant.RoundTwo kp nonces msg l = Ok sh →
  (∀ sh', sh' ∈ shares → share_Identifier sh' = kp_Identifier kp → sh' = sh) →
  strategy.AggregateWithStrategy (Some pk) l msg shares vs strategy t = Fail err →
  kp_Identifier kp ∉ GetCulprits err.
Proof.
  intros Ha Hk -> -> Hc Hpk Hs Hkey Hr2 Honly Herr Hin. pose proof Ha as (Hl & HR & _ & _ & Ht & Hpres).
  cbn [Commitments round_one_nonces] in Hc. pose proof Hl as (_ & _ & Hwf).
  assert (Hid : is_uint32 (kp_Identifier kp)).
  { rewrite Forall_forall in Hwf. by apply Hwf in Hc as []. }
  destruct (RoundTwo_cases kp (round_one_nonces (kp_Identifier kp) d e) msg l pk d e s sh
    Hwf Hid Hpk Hs eq_refl eq_refl) as [Hiff _].
  apply Hiff in Hr2 as (_ & _ & _ & _ & Hsh).
  assert (Hgood : ∀ sh', sh' ∈ bad_shares pk l msg vs shares →
                         share_Identifier sh' ≠ kp_Identifier kp).
  { intros sh' [Hbad Hin']%list_elem_of_filter Heq. rewrite (Honly _ Hin' Heq), Hsh in Hbad.
    by rewrite formula_share_valid in Hbad. }
  pose proof (AggregateWithVerification_cases _ _ _ _ _ _ Ha) as H1.
  pose proof (all_cheaters_cases _ _ _ _ _ _ Ha Hk) as H2.
  unfold strategy.AggregateWithStrategy in Herr.
  destruct (strategy =? CheaterDetectionDisabled)%Z; [by rewrite Aggregate_Ok in Herr |].
  destruct (strategy =? CheaterDetectionFirstCheater)%Z;
    [| destruct (strategy =? CheaterDetectionAllCheaters)%Z].
  - destruct (bad_shares pk l msg vs shares) as [|b bad]; [congruence |].
    destruct H1 as (e1 & He1 & Hc1). rewrite He1 in Herr. injection Herr as <-.
    rewrite Hc1 in Hin. apply list_elem_of_singleton in Hin.
    by apply (Hgood b (list_elem_of_here _ _)).
  - destruct (bad_shares pk l msg vs shares) as [|b bad]; [congruence |].
    destruct H2 as (e1 & He1 & Hc1 & _). rewrite He1 in Herr. injection Herr as <-.
    rewrite Hc1 in Hin. apply list_elem_of_fmap in Hin as (b' & Heq & Hb').
    by apply (Hgood b' Hb').
  - injection Herr as <-. by apply not_elem_of_nil in Hin.
Qed.

Lemma honest_session cs pk t ps :
  ps ≠ [] → StronglySorted Z.lt (signer_id <$> ps) → Forall (signer_ok cs pk t) ps →
  session_ok (signer_commitment <$> ps).
Proof.
  intros Hne Hs Hok. split; [by destruct ps |]. split.
  - by rewrite <-list_fmap_compose.
  - apply Forall_fmap. eapply Forall_impl; [exact Hok |].
    intros p (Hid & _ & _ & _ & Hd & He). by apply round_one_wf.
Qed.

Lemma honest_round_two cs pk t l msg p :
  session_ok l → signer_ok cs pk t p → signer_commitment p ∈ l →
  (t ≤ Z.of_nat (length l))%Z → session_chal pk l msg ≠ 0 →
  participant.RoundTwo (s_kp p) (round_one_nonces (signer_id p) (s_d p) (s_e p)) msg l
  = Ok (signer_share cs pk l msg p).
Proof.
  intros Hl (Hid & Hpk & Ht & Hs & _ & _) Hp Hlen Hc. pose proof Hl as (_ & _ & Hwf).
  destruct (RoundTwo_cases (s_kp p) (round_one_nonces (signer_id p) (s_d p) (s_e p)) msg l pk
    (s_d p) (s_e p) _ (signer_share cs pk l msg p) Hwf Hid Hpk Hs eq_refl eq_refl) as [Hiff _].
  apply Hiff. split; [done |]. split; [lia |]. split; [| done].
  apply list_elem_of_fmap. exists (signer_commitment p). done.
Qed.

(** Honest shares pass every check. *)
Lemma honest_no_bad cs pk msg vs ps :
  let l := signer_commitment <$> ps in
  session_ok l → keys_of cs (ids l) vs →
  bad_shares pk l msg vs (signer_share cs pk l msg <$> ps) = [].
Proof.
  intros l Hl Hkeys. unfold bad_shares. destruct (filter _ _) as [|sh rest] eqn:Hf; [done |].
  exfalso. assert (Hsh : sh ∈ sh :: rest) by apply list_elem_of_here.
  rewrite <-Hf in Hsh. apply list_elem_of_filter in Hsh as [Hbad Hin].
  apply list_elem_of_fmap in Hin as (p & -> & Hp).
  rewrite (honest_share_valid cs pk l msg vs p) in Hbad; [done | done | done |].
  apply list_elem_of_fmap. eauto.
Qed.

Lemma honest_aggregation cs pk t msg vs ps :
  let l := signer_commitment <$> ps in
  ps ≠ [] → StronglySorted Z.lt (signer_id <$> ps) → Forall (signer_ok cs pk t) ps →
  (t ≤ Z.of_nat (length ps))%Z → vs ≠ [] →
  group_commitment pk l msg ≠ Identity → session_chal pk l msg ≠ 0 →
  aggregation_ok t pk l msg vs (signer_share cs pk l msg <$> ps).
Proof.
  intros l Hne Hsort Hok Ht Hvs HR Hc.
  split_and!; [by eapply honest_session | done | done | done | by rewrite length_fmap |].
  unfold shares_present. apply Forall_fmap. eapply Forall_impl; [exact Hok |].
  intros p (Hid & _). cbn. eauto.
Qed.

(** Every strategy assembles the honest shares, and the result verifies. *)
Lemma honest_signature cs pk t msg vs ps strategy :
  let l := signer_commitment <$> ps in
  let shares := signer_share cs pk l msg <$> ps in
  ps ≠ [] → StronglySorted Z.lt (signer_id <$> ps) → Forall (signer_ok cs pk t) ps →
  (t ≤ Z.of_nat (length ps))%Z → length cs ≤ length ps →
  pk = g^(peval cs 0) → pk ≠ Identity → keys_ok vs → keys_of cs (ids l) vs →
  group_commitment pk l msg ≠ Identity → session_chal pk l msg ≠ 0 →
  (0 ≤ strategy ≤ 2)%Z →
  strategy.AggregateWithStrategy (Some pk) l msg shares vs strategy t
    = Ok (assembled pk l msg shares) ∧
  aggregator.Verify msg (assembled pk l msg shares) (Some pk) = Ok ().
Proof.
  intros l shares Hne Hsort Hok Ht Hlen Hpk Hid Hvs Hkeys HR Hc Hstr.
  assert (Hvne : vs ≠ []).
  { intros ->. destruct ps as [|p ps]; [done |].
    specialize (Hkeys (signer_id p)). cbn in Hkeys.
    by specialize (Hkeys (list_elem_of_here _ _)). }
  pose proof (honest_aggregation cs pk t msg vs ps Hne Hsort Hok Ht Hvne HR Hc) as Ha.
  fold l in Ha. fold shares in Ha.
  assert (Hl : session_ok l) by apply Ha.
  assert (Hbad : bad_shares pk l msg vs shares = []) by (by apply honest_no_bad).
  split.
  - pose proof (AggregateWithVerification_cases _ _ _ _ _ _ Ha) as H1.
    pose proof (all_cheaters_cases _ _ _ _ _ _ Ha Hvs) as H2. rewrite Hbad in H1, H2.
    assert (strategy = 0 ∨ strategy = 1 ∨ strategy = 2)%Z as [->|[->| ->]] by lia; [| done | done].
    apply Aggregate_Ok; [done | done | apply Ha | apply Ha].
  - apply Verify_Ok; [done | done | done |].
    eapply valid_shares_equation; [done | | done | done | | done].
    + unfold l. by rewrite length_fmap.
    + unfold shares, l. by rewrite <-!list_fmap_compose.
Qed.

(** The signers behind a run of round one. *)
Lemma RoundOne_signers kps r rounds r' :
  rand_map participant.RoundOne kps r = (Ok rounds, r') →
  ∃ ps, s_kp <$> ps = kps ∧ Forall (λ p, s_d p ≠ 0 ∧ s_e p ≠ 0) ps ∧
    rounds = (λ p, (round_one_nonces (signer_id p) (s_d p) (s_e p), signer_commitment p)) <$> ps.
Proof.
  intros H. apply (rand_map_Forall2 (λ kp y, ∃ d e, d ≠ 0 ∧ e ≠ 0 ∧
    y = (round_one_nonces (kp_Identifier kp) d e, round_one_commitments (kp_Identifier kp) d e))) in H.
  - induction H as [|kp y kps ys (d & e & Hd & He & ->) _ (ps & <- & Hps & ->)].
    + by exists [].
    + exists ({| s_kp := kp; s_d := d; s_e := e |} :: ps). split; [done |].
      split; [by constructor | done].
  - intros kp r0 [nonces comm] r1 _ (d & e & Hd & He & -> & ->)%RoundOne_inv. eauto 10.
Qed.

Lemma public_shares_keys_ok cs all : NoDup all → keys_ok (public_shares cs all).
Proof.
  intros Hnd. unfold public_shares. split.
  - rewrite <-list_fmap_compose. by rewrite list_fmap_id.
  - apply Forall_fmap, Forall_true. intros id. cbn. eauto.
Qed.

Lemma dealt_signer_ok cs vs t n all ps :
  Forall is_uint32 all →
  s_kp <$> ps ⊆ dealt_package cs vs t n <$> all →
  Forall (λ p, s_d p ≠ 0 ∧ s_e p ≠ 0) ps →
  Forall (signer_ok cs (g^(peval cs 0)) t) ps ∧ signer_id <$> ps ⊆ all.
Proof.
  intros Hu Hsub Hnz. rewrite Forall_forall in Hu.
  assert (Hdealt : ∀ p, p ∈ ps → ∃ id, id ∈ all ∧
    s_kp p = dealt_package cs vs t n id).
  { intros p Hp. specialize (Hsub (s_kp p)).
    apply list_elem_of_fmap in Hsub as (id & Heq & Hid); [eauto |].
    apply list_elem_of_fmap. eauto. }
  split.
  - apply Forall_forall. intros p Hp. destruct (Hdealt p Hp) as (id & Hid & Heq).
    rewrite Forall_forall in Hnz. specialize (Hnz p Hp) as [Hd He].
    unfold signer_ok, signer_id. rewrite Heq. split_and!; try done. by apply Hu.
  - intros x (p & -> & Hp)%list_elem_of_fmap. destruct (Hdealt p Hp) as (id & Hid & Heq).
    unfold signer_id. by rewrite Heq.
Qed.

(** The nonces of every participant are found under its identifier. *)
Lemma nonces_lookup (ps : list signer) p :
  NoDup (signer_id <$> ps) → p ∈ ps →
  foldl (λ m '(k, v), <[k := v]> m) (∅ : gmap Z SigningNonces)
    ((λ p, (signer_id p, round_one_nonces (signer_id p) (s_d p) (s_e p))) <$> ps) !! signer_id p
  = Some (round_one_nonces (signer_id p) (s_d p) (s_e p)).
Proof.
  intros Hnd Hp. rewrite foldl_insert_lookup by (by rewrite <-list_fmap_compose).
  erewrite (elem_of_list_to_map_1 (M := gmap Z) _ (signer_id p)); [done | |].
  - by rewrite <-list_fmap_compose.
  - apply list_elem_of_fmap. by exists p.
Qed.

(** ** Signers that answer in any order

    A driver of the protocol collects the commitments in the order of its calls
    and sorts them; the shares come in call order again. *)
Section Run.
Context (cs : list Scalar) (vs : list VerificationShare) (t n : Z) (all : list Z)
  (ps : list signer) (msg : bytes).

Definition run_rounds : list (SigningNonces * SigningCommitments) :=
  (λ p, (round_one_nonces (signer_id p) (s_d p) (s_e p), signer_commitment p)) <$> ps.
Definition run_list : CommitmentList := sort_Slice cm_Identifier run_rounds.*2.

Local Abbreviation pk := (g^(peval cs 0)).
Local Abbreviation l := run_list.
Local Abbreviation qs := (sort_Slice signer_id ps).
Local Abbreviation shares := (signer_share cs pk l msg <$> ps).

(** The signers hold dealt packages of [t]-of-[n] key generation, are at least
    [t] and distinct, and the session is free of collisions. *)
Record honest_run : Prop := {
  run_u32 : Forall is_uint32 all;
  run_length : (2 ≤ t ≤ Z.of_nat (length ps))%Z;
  run_degree : length cs ≤ length ps;
  run_packages : s_kp <$> ps ⊆ dealt_package cs vs t n <$> all;
  run_distinct : NoDup (signer_id <$> ps);
  run_nonces : Forall (λ p, s_d p ≠ 0 ∧ s_e p ≠ 0) ps;
  run_commitment : group_commitment pk l msg ≠ Identity;
  run_challenge : session_chal pk l msg ≠ 0;
}.

Context (H : honest_run).

Lemma run_ok : Forall (signer_ok cs pk t) ps.
Proof. destruct H. by edestruct dealt_signer_ok. Qed.

Lemma run_ids : signer_id <$> ps ⊆ all.
Proof. destruct H. by edestruct dealt_signer_ok. Qed.

Lemma run_list_sorted : l = signer_commitment <$> qs.
Proof.
  unfold run_list, run_rounds. rewrite <-list_fmap_compose.
  apply sort_Slice_fmap; [done | apply (run_distinct H)].
Qed.

Lemma run_sorted_ne : qs ≠ [].
Proof.
  intros He. apply (f_equal length) in He. rewrite sort_Slice_perm in He. cbn in He.
  pose proof (run_length H). lia.
Qed.

Lemma run_session : session_ok l.
Proof.
  rewrite run_list_sorted. eapply honest_session.
  - apply run_sorted_ne.
  - apply sort_Slice_lt, (run_distinct H).
  - rewrite sort_Slice_perm. apply run_ok.
Qed.

(** Any of the signers answers round two on its own nonces. *)
Lemma run_answer p :
  p ∈ ps →
  participant.RoundTwo (s_kp p) (round_one_nonces (signer_id p) (s_d p) (s_e p)) msg l
  = Ok (signer_share cs pk l msg p).
Proof.
  intros Hp. pose proof run_ok as Hok. rewrite Forall_forall in Hok.
  eapply honest_round_two; [apply run_session | by apply Hok | | | apply H].
  - rewrite run_list_sorted. apply list_elem_of_fmap_2. by rewrite sort_Slice_perm.
  - rewrite run_list_sorted, length_fmap, sort_Slice_perm. apply H.
Qed.

(** The sum of the shares does not depend on the order they came in. *)
Lemma run_aggregates qs' :
  qs' ≡ₚ ps →
  aggregator.Aggregate t (Some pk) l msg (signer_share cs pk l msg <$> qs')
  = Ok (assembled pk l msg shares).
Proof.
  intros Hp. rewrite Aggregate_Ok.
  - f_equal. unfold assembled. by rewrite Hp.
  - apply run_session.
  - apply H.
  - rewrite length_fmap, Hp. apply H.
  - unfold shares_present. rewrite Hp. apply Forall_fmap.
    eapply Forall_impl; [apply run_ok |]. intros p (Hid & _). cbn. eauto.
Qed.

Lemma run_verifies : pk ≠ Identity → aggregator.Verify msg (assembled pk l msg shares) (Some pk) = Ok ().
Proof.
  intros Hpk. assert (Hsum : assembled pk l msg shares
                 = assembled pk l msg (signer_share cs pk l msg <$> qs)).
  { unfold assembled. by rewrite sort_Slice_perm. }
  rewrite Hsum. pose proof (run_commitment H) as HR. pose proof (run_challenge H) as Hc.
  rewrite run_list_sorted in HR, Hc |- *.
  assert (Hids : ids (signer_commitment <$> qs) ⊆ all).
  { rewrite <-list_fmap_compose. intros x Hx. apply run_ids. by rewrite sort_Slice_perm in Hx. }
  eapply (honest_signature cs pk t msg (public_shares cs (remove_dups all)) qs 0%Z); try done.
  - apply run_sorted_ne.
  - apply sort_Slice_lt, (run_distinct H).
  - rewrite sort_Slice_perm. apply run_ok.
  - rewrite sort_Slice_perm. apply H.
  - rewrite sort_Slice_perm. apply H.
  - apply public_shares_keys_ok, NoDup_remove_dups.
  - apply public_shares_keys. intros x Hx. by apply elem_of_remove_dups, Hids.
Qed.
End Run.

(** C1: threshold signing works end to end: for keys dealt by
    [TrustedDealerKeygen], any quorum of [t] or more participants that run
    round one and round two on any message produce shares that every
    aggregation strategy combines into one and the same signature, and that
    signature verifies under the group public key.  The three inequations
    exclude the hash and nonce collisions that the code itself reports as
    errors. *)
Theorem threshold_signing n t all r kps pkp r1 quorum msg rounds r2 pk :
  Forall is_uint32 all →
  TrustedDealerKeygen n t all r = (Ok (kps, pkp), r1) →
  pkp_GroupPublicKey pkp = Some pk →
  quorum ⊆ kps → StronglySorted Z.lt (kp_Identifier <$> quorum) →
  (t ≤ Z.of_nat (length quorum))%Z →
  rand_map participant.RoundOne quorum r1 = (Ok rounds, r2) →
  pk ≠ Identity → group_commitment pk rounds.*2 msg ≠ Identity →
  session_chal pk rounds.*2 msg ≠ 0 →
  ∃ shares sig,
    range_map (λ '(kp, nonces), participant.RoundTwo kp nonces msg rounds.*2)
      (zip quorum rounds.*1) = Ok shares ∧
    (∀ s, (0 ≤ s ≤ 2)%Z →
      strategy.AggregateWithStrategy (pkp_GroupPublicKey pkp) rounds.*2 msg shares
        (pkp_VerificationShares pkp) s t = Ok sig) ∧
    aggregator.Verify msg sig (pkp_GroupPublicKey pkp) = Ok ().
Proof.
  intros Hu Hgen Hpk Hsub Hsort Hlen Hr1 Hid.
  apply TrustedDealerKeygen_inv in Hgen as ((Ht & Hn & Hnd & _) & cs & Hcs & -> & ->); [| done].
  cbn [pkp_GroupPublicKey pkp_VerificationShares] in *. injection Hpk as <-.
  apply RoundOne_signers in Hr1 as (ps & <- & Hnz & ->).
  destruct (dealt_signer_ok _ _ _ _ _ _ Hu Hsub Hnz) as [Hok Hids].
  rewrite length_fmap in Hlen. rewrite <-list_fmap_compose in Hsort.
  assert (Hl : ((λ p, (round_one_nonces (signer_id p) (s_d p) (s_e p), signer_commitment p))
                  <$> ps).*2 = signer_commitment <$> ps) by (by rewrite <-list_fmap_compose).
  rewrite Hl. intros HR Hc. set (l := signer_commitment <$> ps) in *.
  assert (Hne : ps ≠ []) by (intros ->; cbn in Hlen; lia).
  assert (Hsession : session_ok l) by (by eapply honest_session).
  exists (signer_share cs (g^(peval cs 0)) l msg <$> ps),
    (assembled (g^(peval cs 0)) l msg (signer_share cs (g^(peval cs 0)) l msg <$> ps)).
  split.
  - rewrite <-list_fmap_compose, zip_fmap_both, range_map_fmap.
    apply range_map_total. intros p Hp. cbn. rewrite Forall_forall in Hok.
    eapply honest_round_two; [done | by apply Hok | | | done].
    + apply list_elem_of_fmap. eauto.
    + unfold l. by rewrite length_fmap.
  - assert (Hids' : ids l ⊆ all) by (unfold l; by rewrite <-list_fmap_compose).
    assert (Hsig : ∀ s, (0 ≤ s ≤ 2)%Z → _) by (intros s; eapply (honest_signature cs
      (g^(peval cs 0)) t msg (public_shares cs all) ps s); eauto using public_shares_keys_ok,
      public_shares_keys; lia).
    split; [intros s Hs; by apply Hsig | by apply (Hsig 0%Z)].
Qed.
End ProtocolFacts.
