(* ===== verification/SuiteLaws.v ===== *)
(** * The deployed ciphersuites

    The suites of [Suites], with the libraries they stand on, fulfil the
    contracts of the protocol: [Deployed] lists the five, [deployed_contract]
    gives the group contract on the valid values, [restrict_suite] the suite on
    them, and [suite_accepts] relates [VerifySignature] to the protocol's own
    verifier, so that what the protocol signs is accepted by the suites. *)

From S2P Require Export Protocol.
From S2P Require Export Suites.

(** ** A suite on the valid values of its adapter *)

Class SuiteValid {G : Group} (CS : Ciphersuite G) (L : AdapterLaws G) : Prop := {
  sv_H1 d : valid_scalar (H1 d) = true;
  sv_H2 d : valid_scalar (H2 d) = true;
  sv_H3 d : valid_scalar (H3 d) = true;
  sv_HDKG d : valid_scalar (HDKG d) = true;
  sv_HID d : valid_scalar (HID d) = true;
}.

Definition restrict_suite {G : Group} (CS : Ciphersuite G) (L : AdapterLaws G)
    (SV : SuiteValid CS L) : Ciphersuite (restrict G) := {|
  ID := ID;
  H1 d := (exist _ (H1 d) (sv_H1 d) : @Scalar (restrict G));
  H2 d := (exist _ (H2 d) (sv_H2 d) : @Scalar (restrict G));
  H3 d := (exist _ (H3 d) (sv_H3 d) : @Scalar (restrict G));
  H4 := H4;
  H5 := H5;
  HDKG d := (exist _ (HDKG d) (sv_HDKG d) : @Scalar (restrict G));
  HID d := (exist _ (HID d) (sv_HID d) : @Scalar (restrict G));
  HashToCurve d := keep valid_element (HashToCurve d);
  Hash := Hash;
  VerifySignature m s P := VerifySignature m s (proj1_sig P);
  ContextString := ContextString;
|}.

(** How a suite verifies: the plain equation, or the one multiplied by a
    cofactor that is not zero. *)
Inductive verifies_with {G : Group} (CS : Ciphersuite G) (L : AdapterLaws G) : Prop :=
| verifies_plain :
    (∀ m s P, VerifySignature m s P = plain_verify G H2 ElementLength ScalarLength m s (Some P)) →
    verifies_with CS L
| verifies_cofactored :
    (∀ m s P,
       VerifySignature m s P = cofactored_verify G H2 ElementLength ScalarLength m s (Some P)) →
    sval Cofactor ≠ 0%Z → verifies_with CS L.

Class SuiteLaws {G : Group} (CS : Ciphersuite G) (L : AdapterLaws G) : Prop := {
  su_valid :: SuiteValid CS L;
  su_verifies : verifies_with CS L;
}.

(** The raw signature format of [VerifySignature]. *)
Definition signature_bytes {G : Group} (R : Element) (z : Scalar) : bytes :=
  e_Bytes R ++ SerializeScalar z.

Section Accepts.
Context {G : Group} {CS : Ciphersuite G} {L : AdapterLaws G} {SL : SuiteLaws CS L}.

Local Abbreviation VG := (restrict G).

#[local] Instance valid_suite : Ciphersuite VG := restrict_suite CS L su_valid.

Implicit Types (R PK : @Element VG) (z : @Scalar VG).

Lemma e_IsIdentity_valid PK : PK ≠ Identity → e_IsIdentity (proj1_sig PK) = false.
Proof.
  intros HPK. apply not_true_iff_false. rewrite (al_IsIdentity _ (p_valid G PK)).
  by apply v_not_identity.
Qed.

Lemma al_DeserializeScalar_Bytes z :
  DeserializeScalar (SerializeScalar (proj1_sig z)) = Ok (proj1_sig z)
  ∧ length (SerializeScalar (proj1_sig z)) = @ScalarLength G.
Proof.
  split; [| apply (law_SerializeScalar_length (G := VG) z)].
  pose proof (law_SerializeScalar (G := VG) z) as H. cbn in H. unfold keep in H.
  destruct (DeserializeScalar _) as [x|e|]; [| done..].
  destruct (bool_dec _ _); [| done]. injection H as H. by rewrite <-H.
Qed.

Lemma parse_valid m R z PK :
  R ≠ Identity → PK ≠ Identity →
  parse_signature G H2 ElementLength ScalarLength m (signature_bytes R z) (Some (proj1_sig PK))
  = Ok (proj1_sig R, proj1_sig z, proj1_sig (chal R PK m), proj1_sig PK).
Proof.
  intros HR HPK.
  pose proof (al_DeserializeElement _ (p_valid G R) (v_not_identity G R HR)) as HdR.
  pose proof (al_e_Bytes_length _ (p_valid G R) (v_not_identity G R HR)) as HlR.
  destruct (al_DeserializeScalar_Bytes z) as [Hdz Hlz].
  unfold parse_signature, signature_bytes. cbn [e_Bytes SerializeScalar restrict].
  rewrite (e_IsIdentity_valid PK HPK), length_app, HlR, Hlz, Nat.eqb_refl.
  rewrite take_app_length', drop_app_length' by done. by rewrite HdR, Hdz.
Qed.

(** The suite accepts a signature exactly when the Schnorr equation holds. *)
Lemma suite_accepts m R z PK :
  R ≠ Identity → PK ≠ Identity →
  VerifySignature m (signature_bytes R z) (proj1_sig PK) = Ok ()
  ↔ ScalarBaseMult z = e_Add R (ScalarMult PK (chal R PK m)).
Proof.
  intros HR HPK. pose proof (parse_valid m R z PK HR HPK) as Hp.
  destruct (su_verifies (CS := CS) (L := L)) as [HV|HV Hc]; rewrite HV.
  - unfold plain_verify. rewrite Hp.
    etrans; [apply (fail_if_Ok (negb (@e_Equal VG (ScalarBaseMult z)
      (e_Add R (ScalarMult PK (chal R PK m)))))) |].
    rewrite negb_false_iff. apply (law_e_Equal (G := VG)).
  - unfold cofactored_verify. rewrite Hp.
    etrans; [apply (fail_if_Ok (negb (@e_Equal VG (ScalarMult (ScalarBaseMult z) Cofactor)
      (ScalarMult (e_Add R (ScalarMult PK (chal R PK m))) Cofactor)))) |].
    rewrite negb_false_iff, (law_e_Equal (G := VG)).
    split; [| by intros ->]. apply mult_cancel.
    intros Hz. apply Hc. exact (proj1 (v_zero_iff G _) Hz).
Qed.
End Accepts.

(** ** The five suites *)

(** [Deployed CS L n]: the suite [CS] over an adapter with the laws [L], on
    libraries that behave as documented for a group of order [n].  The two
    bounds of rejection sampling are arbitrary. *)
Inductive Deployed : ∀ {G : Group}, Ciphersuite G → AdapterLaws G → Z → Prop :=
| deployed_p256 (S256 : SHA256) (B : BigmodLib) (C : EllipticLib) (n : Z) (fuel : nat)
    (LB : BigmodLaws B n) (LC : EllipticLaws C n) :
    SHA256Laws S256 → Deployed (p256_sha256.New fuel) (p256.laws fuel) n
| deployed_secp256k1 (S256 : SHA256) (V : SecpLib) (n : Z) (fuel : nat) (LV : SecpLaws V n) :
    SHA256Laws S256 → Deployed (secp256k1_sha256.New fuel) (secp256k1.laws fuel) n
| deployed_ristretto255 (S512 : SHA512) (V : RistrettoLib) (n : Z) (LV : RistrettoLaws V n) :
    SHA512Laws S512 → Deployed ristretto255_sha512.New ristretto255.laws n
| deployed_ed25519 (S512 : SHA512) (V : Edwards25519Lib) (n : Z) (LV : Edwards25519Laws V n) :
    SHA512Laws S512 → Deployed ed25519_sha512.New ed25519.laws n
| deployed_ed448 (K : SHAKE256) (V : GoldilocksLib) (n : Z) (LV : GoldilocksLaws V n)
    (order : bytes) (Ho : ed448.groupOrder order = n) (Hl : length order = 57) :
    SHAKE256Laws K → Deployed (ed448_shake256.New order) (ed448.laws order Ho Hl) n.

Lemma ed25519_cofactor (V : Edwards25519Lib) n (LV : Edwards25519Laws V n) :
  lval (ed25519.Group_Cofactor (V := V)) = 8%Z.
Proof.
  unfold ed25519.Group_Cofactor. pose proof (ll_order (S := edwards_Scalar)).
  destruct (canonical_in_range (byte.of_Z 8 :: zero_bytes 31)) as (x & -> & Hx).
  - done.
  - change (8 < n)%Z. lia.
  - exact Hx.
Qed.

Lemma deployed_laws {G} (CS : Ciphersuite G) L n : Deployed CS L n → SuiteLaws CS L.
Proof.
  intros [].
  - split; [split; intros; reflexivity | by apply verifies_plain].
  - split; [split; intros; reflexivity | by apply verifies_plain].
  - split; [split; intros; reflexivity | by apply verifies_plain].
  - split; [split; intros; reflexivity |]. apply verifies_cofactored; [done |].
    assert (8 ≠ 0)%Z as H8 by done.
    exact (eq_ind_r (λ v, v ≠ 0%Z) H8 (ed25519_cofactor V _ LV)).
  - split; [split; intros d; by eapply ed448.residue_reduced, gl_FromBytes |].
    apply verifies_cofactored; [done |].
    by change (le_combine ed448.Group_Cofactor ≠ 0)%Z.
Qed.

Lemma deployed_order {G} (CS : Ciphersuite G) L n : Deployed CS L n → adapter_order = n.
Proof. by intros []. Qed.

(** ** Hashing to scalars *)

Lemma expand_defined `{SHA256} msg dst L :
  L ≤ 255 * 32 → length dst ≤ 255 → ∃ out, expand_message_xmd msg dst L = Some out.
Proof.
  intros HL Hd. unfold expand_message_xmd.
  pose proof (Nat.div_mod_eq (L + 31) 32). pose proof (Nat.mod_upper_bound (L + 31) 32 ltac:(done)).
  set (d := (L + 31) / 32) in *. clearbody d.
  rewrite (proj2 (Nat.leb_le d 255)), (proj2 (Z.leb_le _ _)), (proj2 (Nat.leb_le _ _)) by lia.
  by eexists.
Qed.

Lemma dst_length c d : c ∈ contexts → d ∈ domains →
  length (string_bytes c ++ string_bytes d) ≤ 255.
Proof.
  assert (Forall (λ c, Forall (λ d, length (string_bytes c ++ string_bytes d) ≤ 255) domains)
            contexts) as H by (apply (bool_decide_unpack _); by vm_compute).
  intros Hc Hd. rewrite Forall_forall in H. specialize (H c Hc). rewrite Forall_forall in H. auto.
Qed.

(** The uniform bytes of a domain: 48 bytes of the expansion. *)
Lemma expand_domain `{SHA256} c d data : c ∈ contexts → d ∈ domains →
  ∃ out, expand_message_xmd data (string_bytes c ++ string_bytes d) 48 = Some out
         ∧ expandMessageXMD data (string_bytes c ++ string_bytes d) 48 = Ok out.
Proof.
  intros Hc Hd. destruct (expand_defined data (string_bytes c ++ string_bytes d) 48) as [out Ho].
  - lia.
  - by apply dst_length.
  - exists out. by rewrite expandMessageXMD_rfc, Ho.
Qed.

Lemma p256_Order {B : BigmodLib} {C : EllipticLib} {n} (LB : BigmodLaws B n)
    (LC : EllipticLaws C n) :
  be_combine p256.Group_Order = n.
Proof.
  pose proof (proj1 bl_order). unfold p256.Group_Order. rewrite el_N.
  destruct (_ <? _); [rewrite be_combine_zeros |]; apply decode_big_Bytes; lia.
Qed.

(** Hashing to a scalar never panics: it is the RFC's expansion to 48 bytes
    reduced modulo the order. *)
Lemma p256_hashToScalar {S256 : SHA256} {B : BigmodLib} {C : EllipticLib} {n}
    (LB : BigmodLaws B n) (LC : EllipticLaws C n) fuel d data :
  d ∈ domains →
  ∃ out x, expand_message_xmd data (string_bytes p256_sha256.contextString ++ string_bytes d) 48
           = Some out
           ∧ p256_sha256.hashToScalar fuel d data = Ok x ∧ nval x = (be_combine out mod n)%Z.
Proof.
  intros Hd. destruct (expand_domain p256_sha256.contextString d data) as (out & Ho & He).
  - apply list_elem_of_here.
  - done.
  - exists out. unfold p256_sha256.hashToScalar. rewrite He. cbn -[p256.NewScalarFromBigInt].
    rewrite (p256_Order LB LC). pose proof (proj1 bl_order).
    destruct (p256.NewScalarFromBigInt_reduced (be_combine out mod n)%Z) as (x & Hx & Hv).
    + apply Z.mod_pos_bound. lia.
    + by exists x.
Qed.

Lemma secp256k1_hashToScalar {S256 : SHA256} {V : SecpLib} {n} (LV : SecpLaws V n) fuel d data :
  d ∈ domains →
  ∃ out x, expand_message_xmd data
             (string_bytes secp256k1_sha256.contextString ++ string_bytes d) 48 = Some out
           ∧ secp256k1_sha256.hashToScalar fuel d data = Ok x
           ∧ lval x = ((be_combine out mod secp256k1_sha256.groupOrder) mod n)%Z.
Proof.
  intros Hd. destruct (expand_domain secp256k1_sha256.contextString d data) as (out & Ho & He).
  - apply list_elem_of_further, list_elem_of_here.
  - done.
  - exists out. unfold secp256k1_sha256.hashToScalar, secp256k1_sha256.expandMessageXMD. rewrite He.
    set (v := (be_combine out mod secp256k1_sha256.groupOrder)%Z).
    assert (0 ≤ v < 2 ^ (8 * Z.of_nat 32))%Z as Hv.
    { pose proof (Z.mod_pos_bound (be_combine out) secp256k1_sha256.groupOrder).
      assert (0 < secp256k1_sha256.groupOrder ≤ 2 ^ 256)%Z by (by vm_compute). cbn. lia. }
    cbn [mbind outcome_mbind outcome_bind].
    pose proof (length_big_Bytes v 32 Hv). rewrite (proj2 (Nat.ltb_ge _ _)) by done.
    eexists. split_and!; [done.. |].
    rewrite pad_big_Bytes by done. rewrite secp_law_NewScalarFromBytes by apply length_encode_int.
    exact (f_equal (λ a, a mod n)%Z (decode_encode_int BigEndian 32 v Hv)).
Qed.

Lemma ristretto255_hashToScalar {S512 : SHA512} {V : RistrettoLib} {n} (LV : RistrettoLaws V n)
    `{!SHA512Laws S512} d data :
  ∃ x, ristretto255_sha512.hashToScalar d data = Ok x
       ∧ lval x = (le_combine (sha512 (domainSeparate ristretto255_sha512.contextString d data))
                   mod n)%Z.
Proof.
  unfold ristretto255_sha512.hashToScalar, ristretto255_sha512.Hash, ristretto255_sha512.domainSeparate.
  rewrite law_sha512_length. cbn [Nat.eqb negb].
  destruct (uniform_64 (sha512 (domainSeparate ristretto255_sha512.contextString d data)))
    as (x & -> & Hx); [apply law_sha512_length | by exists x].
Qed.

Lemma ed25519_reduce {S512 : SHA512} {V : Edwards25519Lib} {n} (LV : Edwards25519Laws V n) hash :
  length hash = 64 →
  ∃ x, ed25519_sha512.reduce hash = Ok x ∧ lval x = (le_combine hash mod n)%Z.
Proof.
  intros Hl. unfold ed25519_sha512.reduce. rewrite Hl. cbn [Nat.eqb negb].
  destruct (uniform_64 hash Hl) as (x & -> & Hx). by exists x.
Qed.

(** ** What the protocol gets *)

(** Where the decoded points are valid: every suite without cofactor. *)
Lemma deployed_decoding {G} (CS : Ciphersuite G) (L : AdapterLaws G) n : Deployed CS L n →
  (sval Cofactor = 1%Z ∧ ∀ bs P, DeserializeElement bs = Ok P → valid_element P = true)
  ∨ sval Cofactor = 4%Z ∨ sval Cofactor = 8%Z.
Proof.
  intros [? ? ? m|? ? m|? ? m|? ? m|? ? m].
  - left. pose proof (proj1 bl_order). split.
    + destruct (bl_SetBytes (zero_bytes 31 ++ [byte.of_Z 1])) as [x Hx]; [cbn; lia | change (1 < m)%Z; lia |].
      pose proof (bl_SetBytes_value _ _ Hx) as Hv. cbn. unfold p256.Group_Cofactor. by rewrite Hx.
    + intros bs P. cbn. unfold p256.Group_DeserializeElement. intros HP. ok_inv.
      destruct (c_UnmarshalCompressed bs) as [[x y]|]; [| done]. ok_inv. cbn.
      rename select (negb (c_IsOnCurve _ _) = false) into Hc. simplify_eq. by apply negb_false_iff in Hc.
  - left. split; [| done]. pose proof (ll_order (S := secp_Scalar)).
    destruct (canonical_in_range (zero_bytes 31 ++ [byte.of_Z 1])) as (x & Hx & Hv);
      [done | change (1 < m)%Z; lia |]. cbn. unfold secp256k1.Group_Cofactor. by rewrite Hx.
  - left. split; [| done]. pose proof (ll_order (S := ristretto_Scalar)).
    destruct (canonical_in_range (byte.of_Z 1 :: zero_bytes 31)) as (x & Hx & Hv);
      [done | change (1 < m)%Z; lia |]. cbn. unfold ristretto255.Group_Cofactor. by rewrite Hx.
  - right. right. exact (ed25519_cofactor V _ LV).
  - right. by left.
Qed.

(** C12: every deployed group adapter keeps to its valid values and fulfils the
    contract of the group interface on them.  Valid are all scalars and points
    of secp256k1 and ristretto255, the points on the curve of P-256, the points
    of the prime-order subgroup of the two Edwards curves and the reduced
    arrays among the scalars of Ed448.  The adapter's own operations
    lead from valid values to valid values, decoding of scalars and random
    scalars included, and so does the decoding of points in the suites without
    a cofactor; a suite with a cofactor, 4 or 8, may decode other points
    ([subgroup_checks]).  The adapter on its valid values, whose decoder refuses
    those points and decodes all others as the code does, has the documented
    order, fulfils [GroupLaws] and compares scalars as integers. *)
Theorem deployed_contract {G} (CS : Ciphersuite G) (L : AdapterLaws G) n :
  Deployed CS L n →
  closed_operations G ∧
  ((sval Cofactor = 1%Z ∧ ∀ bs P, @DeserializeElement G bs = Ok P → valid_element P = true)
   ∨ sval Cofactor = 4%Z ∨ sval Cofactor = 8%Z) ∧
  ∃ GL : GroupLaws (restrict G),
    @order _ GL = n ∧
    (∀ x y : @Scalar (restrict G),
       s_Compare x y = big_Cmp (sval (proj1_sig x)) (sval (proj1_sig y))) ∧
    ∀ bs (P : @Element (restrict G)),
      DeserializeElement bs = Ok P ↔ @DeserializeElement G bs = Ok (proj1_sig P).
Proof.
  intros HD. split; [apply adapter_closed |]. split; [by eapply deployed_decoding |].
  exists (restrict_laws G). split; [by apply deployed_order in HD |]. split.
  - intros x y. apply (al_Compare _ _ (v_valid G x) (v_valid G y)).
  - intros bs P. apply keep_Ok_iff.
Qed.

(** C14: in every deployed suite [VerifySignature] on the encodings of [R] and
    [z] and the protocol's own [Verify] agree, except that [Verify] also
    refuses a challenge that is zero: multiplying the equation by the cofactor
    makes no difference on valid values. *)
Theorem verifiers_agree {G} (CS : Ciphersuite G) (L : AdapterLaws G) n (HD : Deployed CS L n)
    msg (R PK : @Element (restrict G)) (z : @Scalar (restrict G)) :
  let VCS := restrict_suite CS L (su_valid (SuiteLaws := deployed_laws CS L n HD)) in
  R ≠ Identity → PK ≠ Identity →
  @aggregator.Verify (restrict G) VCS msg {| sig_R := Some R; sig_Z := Some z |} (Some PK) = Ok ()
  ↔ VerifySignature msg (signature_bytes (proj1_sig R) (proj1_sig z)) (proj1_sig PK) = Ok ()
    ∧ @chal _ VCS R PK msg ≠ sc 0.
Proof.
  intros VCS HR HPK.
  pose proof (suite_accepts (SL := deployed_laws CS L n HD) msg R z PK HR HPK) as Ha.
  destruct (@Verify_cases (restrict G) _ VCS msg R z PK) as [Hv _].
  etrans; [exact Hv |]. rewrite Ha. split; [intros (_ & _ & Hc & He); by split | by intros [He Hc]].
Qed.

(** C3: threshold signing in every deployed suite, end to end: signers that
    hold dealt packages, are at least [t] and distinct, and run both rounds
    over the suite's group obtain a signature whose encoding the suite's
    [VerifySignature] accepts under the group key. *)
Theorem deployed_signing {G} (CS : Ciphersuite G) (L : AdapterLaws G) n0 (HD : Deployed CS L n0)
    cs vs t n all ps msg :
  let VCS := restrict_suite CS L (su_valid (SuiteLaws := deployed_laws CS L n0 HD)) in
  let pk := ScalarBaseMult (peval cs (sc 0)) in
  let l := run_list ps in
  @honest_run (restrict G) _ VCS cs vs t n all ps msg → pk ≠ Identity →
  ∃ shares R z,
    range_map (λ p, @participant.RoundTwo _ VCS (s_kp p)
                 (round_one_nonces (signer_id p) (s_d p) (s_e p)) msg l) ps = Ok shares ∧
    @aggregator.Aggregate _ VCS t (Some pk) l msg shares
    = Ok {| sig_R := Some R; sig_Z := Some z |} ∧
    VerifySignature msg (signature_bytes (proj1_sig R) (proj1_sig z)) (proj1_sig pk) = Ok ().
Proof.
  intros VCS pk l H Hpk. set (share := @signer_share _ _ VCS cs pk l msg).
  pose proof (@run_verifies _ _ VCS _ _ _ _ _ _ _ H Hpk) as Hver.
  pose proof (@Verify_cases _ _ VCS msg (group_commitment pk l msg)
    (ssum (share_z <$> (share <$> ps))) pk) as [Hv _].
  apply (proj1 Hv) in Hver as (HR & _ & Hc & He).
  exists (share <$> ps), (group_commitment pk l msg),
    (ssum (share_z <$> (share <$> ps))).
  split_and!.
  - apply range_map_Ok, Forall2_fmap_r, Forall_Forall2_diag, Forall_forall. intros p Hp.
    by apply (@run_answer _ _ VCS _ _ _ _ _ _ _ H).
  - by apply (@run_aggregates _ _ VCS _ _ _ _ _ _ _ H).
  - by apply (suite_accepts (SL := deployed_laws CS L n0 HD)).
Qed.

(** C15: hashing to a scalar of P-256 and secp256k1 never panics; it is RFC
    9380's [hash_to_field]: the 48 bytes that [expand_message_xmd] makes of the
    data and the suite's context and domain, as a big-endian integer modulo
    the order.  Two inputs of a suite that expand to the same 48 bytes are equal,
    or the two computations collide: at the same place, the input of [b_0] or
    that of [b_1], they hash different strings to the same value. *)
Theorem hash_to_field {S256 : SHA256} `{!SHA256Laws S256} {B : BigmodLib} {C : EllipticLib} {n}
    (LB : BigmodLaws B n) (LC : EllipticLaws C n) {V : SecpLib} {m} (LV : SecpLaws V m)
    fuel d data :
  d ∈ domains →
  (∃ out x,
     expand_message_xmd data (string_bytes p256_sha256.contextString ++ string_bytes d) 48 = Some out
     ∧ p256_sha256.hashToScalar fuel d data = Ok x ∧ nval x = (be_combine out mod n)%Z) ∧
  (∃ out x,
     expand_message_xmd data (string_bytes secp256k1_sha256.contextString ++ string_bytes d) 48
     = Some out
     ∧ secp256k1_sha256.hashToScalar fuel d data = Ok x
     ∧ lval x = ((be_combine out mod secp256k1_sha256.groupOrder) mod m)%Z) ∧
  (∀ c d' data' out, c ∈ contexts → d' ∈ domains →
     let dst := string_bytes c ++ string_bytes d in
     let dst' := string_bytes c ++ string_bytes d' in
     expandMessageXMD data dst 48 = Ok out → expandMessageXMD data' dst' 48 = Ok out →
     data = data' ∧ d = d' ∨ collide (xmd_queries data dst 48) (xmd_queries data' dst' 48)).
Proof.
  intros Hd. split_and!.
  - by apply p256_hashToScalar.
  - by apply secp256k1_hashToScalar.
  - intros c d' data' out Hc Hd' dst dst' H H'. rewrite expandMessageXMD_rfc in H, H'.
    destruct (expand_message_xmd data dst 48) as [o|] eqn:E; [| done].
    destruct (expand_message_xmd data' dst' 48) as [o'|] eqn:E'; [| done].
    injection H as ->. injection H' as ->.
    destruct (expand_collision_free _ _ _ _ 48 out ltac:(lia) E E') as [[-> Hl]|]; [| by right].
    left. split; [done |]. by apply label_inj in Hl as [_ ->].
Qed.

(** The first [k] reads of a source bring 32 bytes that are no integer in
    [[1, n-1]]; [buf] is what the next read brings. *)
Definition rejects_until (r : Rng) (n : Z) (k : nat) (buf : option bytes) : Prop :=
  (∀ j, j < k → ∃ b, rng_read r (rng_calls r + j) 32 = Some b ∧ ¬ (0 < be_combine b < n)%Z) ∧
  rng_read r (rng_calls r + k) 32 = buf.

(** C17: the unbounded sampling loops of P-256 and secp256k1 return: if the
    first integer in [[1, n-1]] comes after [k] reads, the call returns that
    scalar after [k + 1] reads, and any allowance of more than [k] reads gives
    this result; if the source fails there, the call returns its error. *)
Theorem random_scalar_returns {B : BigmodLib} {n} (LB : BigmodLaws B n)
    {V : SecpLib} {m} (LV : SecpLaws V m) r k fuel :
  k < fuel →
  (∀ buf, rejects_until r n k (Some buf) → length buf = 32 → (0 < be_combine buf < n)%Z →
     ∃ x, nval x = be_combine buf ∧ p256.randomScalar fuel r = Some (Ok x, advance (S k) r)) ∧
  (∀ buf, rejects_until r m k (Some buf) → length buf = 32 → (0 < be_combine buf < m)%Z →
     ∃ x, lval x = be_combine buf
          ∧ secp256k1.randomScalar fuel r = Some (Ok x, advance (S k) r)) ∧
  (rejects_until r n k None → ∃ e, p256.randomScalar fuel r = Some (Fail e, advance (S k) r)) ∧
  (rejects_until r m k None → ∃ e, secp256k1.randomScalar fuel r = Some (Fail e, advance (S k) r)).
Proof.
  intros Hf. split_and!.
  - intros buf [Hr Hb] Hl Hv.
    destruct (p256.p256_randomScalar_returns r k buf Hr Hb Hl Hv) as (x & Hx & H). eauto.
  - intros buf [Hr Hb] Hl Hv.
    destruct (secp256k1.secp_randomScalar_returns r k buf Hr Hb Hl Hv) as (x & Hx & H). eauto.
  - intros [Hr Hb]. eapply reject_loop_fails; [| done..]. intros j Hj.
    destruct (Hr j Hj) as (b & Hb' & Hn). exists b. split; [done |].
    by apply p256.accept_None.
  - intros [Hr Hb]. eapply reject_loop_fails; [| done..]. intros j Hj.
    destruct (Hr j Hj) as (b & Hb' & Hn). exists b. split; [done |].
    apply (nonzero_None (o := BigEndian) secp_IsZero secp_law_IsZero). cbn. tauto.
Qed.

(** Only Ed448 checks the subgroup.  Ed25519 decodes the encoding of every
    point but the identity, also outside the prime-order subgroup, although a
    comment says that the library validates it.  Ed448 decodes the encodings
    of its subgroup and, when the library's [ScalarMult] returns [kP] for all
    points as documented, nothing else; but it ignores the last byte of a
    scalar, so that scalars have other encodings than the canonical ones. *)
Theorem subgroup_checks {V : Edwards25519Lib} {n} (LV : Edwards25519Laws V n)
    {W : GoldilocksLib} {m} (LW : GoldilocksLaws W m) order
    (Ho : ed448.groupOrder order = m) (Hl : length order = 57) :
  (∀ X, X ≠ p_Identity → ed25519.Group_DeserializeElement (p_Bytes X) = Ok X) ∧
  (∀ X, ed448.prime_order (n := m) X = true → X ≠ g_Identity →
     ed448.Group_DeserializeElement order (g_MarshalBinary X) = Ok X) ∧
  ((∀ s Y, length s = 56 → g_ScalarMult s Y = nmul g_Add g_Identity (le_combine s) Y) →
     ∀ bs X, ed448.Group_DeserializeElement order bs = Ok X → ed448.prime_order (n := m) X = true) ∧
  (∀ s b b', length s = 56 →
     ed448.Group_DeserializeScalar order (s ++ [b]) = ed448.Group_DeserializeScalar order (s ++ [b'])).
Proof.
  split_and!.
  - intros X. exact (ed25519.DeserializeElement_any (L := LV) X).
  - intros X HX HX0. exact (ed448.DeserializeElement_subgroup order Ho Hl X HX HX0).
  - intros HM bs X. by apply ed448.DeserializeElement_valid.
  - intros s b b' Hs. by apply ed448.DeserializeScalar_ignores_last.
Qed.
