(* ===== verification/Oracles.v ===== *)
(** * What the ciphersuites hash

    RFC 9591 gives every suite seven hash functions.  [hash_input] is the
    string that each of them hands to SHA-256, SHA-512 or SHAKE256 first, with
    the context and the tag of the RFC; the suites of [Suites.v] are shown to compute
    their functions from these strings, and no two functions, of the same suite
    or of two suites, ever hash the same string, but for the challenge of
    Ed25519. *)

From S2P Require Export SuiteLaws.

(** ** The RFC's table *)

Inductive rfc_suite := sP256 | sSecp256k1 | sRistretto255 | sEd25519 | sEd448.
Inductive oracle := oRho | oChal | oNonce | oMsg | oCom | oDkg | oId.

Definition suite_context (s : rfc_suite) : string :=
  match s with
  | sP256 => "FROST-P256-SHA256-v1"
  | sSecp256k1 => "FROST-secp256k1-SHA256-v1"
  | sRistretto255 => "FROST-RISTRETTO255-SHA512-v1"
  | sEd25519 => "FROST-ED25519-SHA512-v1"
  | sEd448 => "FROST-ED448-SHAKE256-v1"
  end.

Definition tag (o : oracle) : string :=
  match o with
  | oRho => "rho" | oChal => "chal" | oNonce => "nonce" | oMsg => "msg" | oCom => "com"
  | oDkg => "dkg" | oId => "id"
  end.

Definition separated_input (s : rfc_suite) (o : oracle) (data : bytes) : bytes :=
  string_bytes (suite_context s) ++ string_bytes (tag o) ++ data.

(** The domain separation tag of RFC 9380. *)
Definition dst_of (s : rfc_suite) (o : oracle) : bytes :=
  string_bytes (suite_context s) ++ string_bytes (tag o).

(** The first string hashed: P-256 and secp256k1 expand the inputs of their
    scalars, the challenge of Ed25519 has no prefix and that of Ed448 the one of
    RFC 8032. *)
Definition hash_input (s : rfc_suite) (o : oracle) (data : bytes) : bytes :=
  match s, o with
  | (sP256 | sSecp256k1), (oMsg | oCom) => separated_input s o data
  | (sP256 | sSecp256k1), _ => msg_prime data (dst_of s o) 48
  | sEd25519, oChal => data
  | sEd448, oChal => string_bytes "SigEd448" ++ [byte.of_Z 0; byte.of_Z 0] ++ data
  | _, _ => separated_input s o data
  end.

(** A suite's hash functions: five give scalars, two bytes. *)
Definition ask {G : Group} (CS : Ciphersuite G) (o : oracle) (data : bytes) : Scalar + bytes :=
  match o with
  | oRho => inl (H1 data) | oChal => inl (H2 data) | oNonce => inl (H3 data)
  | oMsg => inr (H4 data) | oCom => inr (H5 data)
  | oDkg => inl (HDKG data) | oId => inl (HID data)
  end.

(** The 48 bytes that RFC 9380 makes of [b_0]. *)
Definition uniform_48 `{SHA256} (b0 dst : bytes) : bytes :=
  let b1 := sha256 (b0 ++ I2OSP 1 1 ++ DST_prime dst) in
  let b2 := sha256 (strxor b0 b1 ++ I2OSP 2 1 ++ DST_prime dst) in
  take 48 (b1 ++ b2).

(** An answer is a number made of [uniform] modulo [n], or the hash itself. *)
Definition answers {A} (val : A → Z) (n : Z) (uniform : Z) (hash : bytes) (a : A + bytes) : Prop :=
  match a with inl x => val x = (uniform mod n)%Z | inr h => h = hash end.

(** ** The suites compute it *)

Lemma tag_domain o : tag o ∈ domains.
Proof. destruct o; apply (bool_decide_unpack _); by vm_compute. Qed.

Lemma suite_context_in s : suite_context s ∈ contexts.
Proof. destruct s; apply (bool_decide_unpack _); by vm_compute. Qed.

Lemma expand_48 `{SHA256} msg dst out :
  expand_message_xmd msg dst 48 = Some out → out = uniform_48 (sha256 (msg_prime msg dst 48)) dst.
Proof.
  unfold expand_message_xmd. destruct (_ && _); [| done]. intros [= <-].
  unfold uniform_48. cbn [Nat.div Nat.divmod fst Nat.add seq fmap list_fmap concat].
  by rewrite app_nil_r.
Qed.

Section Suites.
Context {S256 : SHA256} {S512 : SHA512} {K : SHAKE256}.

Lemma p256_oracles {B : BigmodLib} {C : EllipticLib} {n} (LB : BigmodLaws B n)
    (LC : EllipticLaws C n) fuel o data :
  let b0 := sha256 (hash_input sP256 o data) in
  answers nval n (be_combine (uniform_48 b0 (dst_of sP256 o))) b0 (ask (p256_sha256.New fuel) o data).
Proof.
  intros b0. destruct (p256_hashToScalar LB LC fuel (tag o) data (tag_domain o)) as (out & x & Ho & Hx & Hv).
  apply expand_48 in Ho as ->.
  destruct o; try reflexivity; refine (eq_trans (f_equal (λ r, nval (scalar_of _ r)) (Hx : _ = _)) Hv).
Qed.

Lemma secp256k1_oracles {V : SecpLib} {n} (LV : SecpLaws V n) fuel o data :
  let b0 := sha256 (hash_input sSecp256k1 o data) in
  answers lval n (be_combine (uniform_48 b0 (dst_of sSecp256k1 o)) mod secp256k1_sha256.groupOrder)
    b0 (ask (secp256k1_sha256.New fuel) o data).
Proof.
  intros b0. destruct (secp256k1_hashToScalar LV fuel (tag o) data (tag_domain o))
    as (out & x & Ho & Hx & Hv).
  apply expand_48 in Ho as ->.
  destruct o; try reflexivity; refine (eq_trans (f_equal (λ r, lval (scalar_of _ r)) (Hx : _ = _)) Hv).
Qed.

Lemma ristretto255_oracles `{!SHA512Laws S512} {V : RistrettoLib} {n} (LV : RistrettoLaws V n) o data :
  let h := sha512 (hash_input sRistretto255 o data) in
  answers lval n (le_combine h) h (ask ristretto255_sha512.New o data).
Proof.
  intros h. destruct (ristretto255_hashToScalar LV (tag o) data) as (x & Hx & Hv).
  destruct o; try reflexivity; refine (eq_trans (f_equal (λ r, lval (scalar_of _ r)) (Hx : _ = _)) Hv).
Qed.

Lemma ed25519_oracles `{!SHA512Laws S512} {V : Edwards25519Lib} {n} (LV : Edwards25519Laws V n) o data :
  let h := sha512 (hash_input sEd25519 o data) in
  answers lval n (le_combine h) h (ask ed25519_sha512.New o data).
Proof.
  intros h. destruct (ed25519_reduce LV h (law_sha512_length _)) as (x & Hx & Hv).
  destruct o; try reflexivity;
    refine (eq_trans (f_equal (λ r, lval (scalar_of _ r)) (Hx : _ = _)) Hv).
Qed.

Lemma ed448_oracles {V : GoldilocksLib} {n} (LV : GoldilocksLaws V n) order o data :
  let h := shake256 114 (hash_input sEd448 o data) in
  answers le_combine n (le_combine h) h (ask (ed448_shake256.New order) o data).
Proof.
  intros h. pose proof (proj2 (gl_FromBytes (n := n) h)) as Hv. by destruct o.
Qed.
End Suites.

(** ** The strings are apart *)

Lemma suite_context_inj s s' : suite_context s = suite_context s' → s = s'.
Proof. by destruct s, s'. Qed.

Lemma tag_inj o o' : tag o = tag o' → o = o'.
Proof. by destruct o, o'. Qed.

Lemma separated_input_inj s o d s' o' d' :
  separated_input s o d = separated_input s' o' d' → s = s' ∧ o = o' ∧ d = d'.
Proof.
  intros H.
  destruct (domainSeparate_inj (suite_context s) (tag o) d (suite_context s') (tag o') d'
    (suite_context_in s) (tag_domain o) (suite_context_in s') (tag_domain o')) as [Hi _].
  by destruct (Hi H) as (?%suite_context_inj & ?%tag_inj & ?).
Qed.

Lemma dst_of_inj s o s' o' : dst_of s o = dst_of s' o' → s = s' ∧ o = o'.
Proof.
  intros [?%suite_context_inj ?%tag_inj]%label_inj;
    [done | apply suite_context_in || apply tag_domain ..].
Qed.

Lemma dst_lengths s o s' o' :
  I2OSP (Z.of_nat (length (dst_of s o))) 1 = I2OSP (Z.of_nat (length (dst_of s' o'))) 1 →
  length (dst_of s o) = length (dst_of s' o').
Proof. destruct s, o, s', o'; vm_compute; congruence. Qed.

Lemma msg_prime_inj d s o d' s' o' L :
  msg_prime d (dst_of s o) L = msg_prime d' (dst_of s' o') L → d = d' ∧ s = s' ∧ o = o'.
Proof.
  unfold msg_prime, DST_prime. intros H%app_inv_head. rewrite !app_assoc in H.
  apply app_inj_2 in H as [H Hl%dst_lengths]; [| done].
  apply app_inj_2 in H as [H [-> ->]%dst_of_inj]; [| done].
  by apply app_inv_tail in H; apply app_inv_tail in H.
Qed.

(** Every function but the challenge of Ed25519. *)
Definition separated (s : rfc_suite) (o : oracle) : Prop := ¬ (s = sEd25519 ∧ o = oChal).

(** The forms of the strings. *)
Inductive form : rfc_suite → oracle → bytes → bytes → Prop :=
| form_plain s o d : form s o d (separated_input s o d)
| form_expand s o d : form s o d (msg_prime d (dst_of s o) 48)
| form_sig d : form sEd448 oChal d (string_bytes "SigEd448" ++ [byte.of_Z 0; byte.of_Z 0] ++ d).

Lemma hash_input_form s o d : separated s o → form s o d (hash_input s o d).
Proof.
  intros Hs. destruct s, o; first [apply form_plain | apply form_expand | apply form_sig | by destruct Hs].
Qed.

(** The first byte tells the expanded strings from the others. *)
Lemma plain_not_expand s o d d' dst : separated_input s o d ≠ msg_prime d' dst 48.
Proof. destruct s; intros H%(f_equal head); vm_compute in H; discriminate H. Qed.

Lemma sig_not_expand d d' dst :
  string_bytes "SigEd448" ++ [byte.of_Z 0; byte.of_Z 0] ++ d ≠ msg_prime d' dst 48.
Proof. intros H%(f_equal head). vm_compute in H. discriminate H. Qed.

Lemma plain_not_sig s o d d' :
  separated_input s o d ≠ string_bytes "SigEd448" ++ [byte.of_Z 0; byte.of_Z 0] ++ d'.
Proof.
  apply (domainSeparate_inj (suite_context s) (tag o) d (suite_context s) (tag o) d');
    apply suite_context_in || apply tag_domain.
Qed.

Lemma form_inj s o d s' o' d' x x' :
  form s o d x → form s' o' d' x' → x = x' → s = s' ∧ o = o' ∧ d = d'.
Proof.
  intros H H' E. destruct H, H'.
  - by apply separated_input_inj in E.
  - by apply plain_not_expand in E.
  - by apply plain_not_sig in E.
  - by apply eq_sym, plain_not_expand in E.
  - by apply msg_prime_inj in E as (-> & -> & ->).
  - by apply eq_sym, sig_not_expand in E.
  - by apply eq_sym, plain_not_sig in E.
  - by apply sig_not_expand in E.
  - by apply app_inv_head, app_inv_head in E as ->.
Qed.

(** C16: the hash functions of the suites are those of RFC 9591 and are separated.
    Each of the seven functions of each suite answers with the hash of
    [hash_input], the RFC's context and tag in front of the data, as a number
    modulo the group's order or as it is; P-256 and secp256k1 expand it to 48
    bytes first.  And two functions, of one suite or of two, have the same
    [hash_input] only when suite, function and data are the same, except for the
    challenge of Ed25519, which hashes its data bare. *)
Theorem suite_oracles {S256 : SHA256} {S512 : SHA512} {K : SHAKE256} `{!SHA512Laws S512}
    {B : BigmodLib} {C : EllipticLib} {n1} (LB : BigmodLaws B n1) (LC : EllipticLaws C n1)
    {V2 : SecpLib} {n2} (L2 : SecpLaws V2 n2) {V3 : RistrettoLib} {n3} (L3 : RistrettoLaws V3 n3)
    {V4 : Edwards25519Lib} {n4} (L4 : Edwards25519Laws V4 n4)
    {V5 : GoldilocksLib} {n5} (L5 : GoldilocksLaws V5 n5) fuel order :
  (∀ o data,
     (let b0 := sha256 (hash_input sP256 o data) in
      answers nval n1 (be_combine (uniform_48 b0 (dst_of sP256 o))) b0
        (ask (p256_sha256.New fuel) o data)) ∧
     (let b0 := sha256 (hash_input sSecp256k1 o data) in
      answers lval n2
        (be_combine (uniform_48 b0 (dst_of sSecp256k1 o)) mod secp256k1_sha256.groupOrder) b0
        (ask (secp256k1_sha256.New fuel) o data)) ∧
     (let h := sha512 (hash_input sRistretto255 o data) in
      answers lval n3 (le_combine h) h (ask ristretto255_sha512.New o data)) ∧
     (let h := sha512 (hash_input sEd25519 o data) in
      answers lval n4 (le_combine h) h (ask ed25519_sha512.New o data)) ∧
     (let h := shake256 114 (hash_input sEd448 o data) in
      answers le_combine n5 (le_combine h) h (ask (ed448_shake256.New order) o data))) ∧
  (∀ s o d s' o' d', separated s o → separated s' o' →
     hash_input s o d = hash_input s' o' d' → s = s' ∧ o = o' ∧ d = d').
Proof.
  split.
  - intros o data. split_and!.
    + by apply p256_oracles.
    + by apply secp256k1_oracles.
    + by apply ristretto255_oracles.
    + by apply ed25519_oracles.
    + by apply ed448_oracles.
  - intros s o d s' o' d' Hs Hs'. apply form_inj; by apply hash_input_form.
Qed.
