(* ===== verification/Registry.v ===== *)
(** * The ciphersuites by name: the rest of [ciphersuite/interface.go]

    The identifiers of the five ciphersuites, their display names and the
    customization points ([Hooks]).  The theorems: the deployed suites carry
    these identifiers, which are different from each other also in the 32 bits
    of the wire format, so that no suite reads what another has written.  The
    registry is an interface without an implementation, and no code of the
    repository calls a hook. *)

From S2P Require Export SuiteLaws.
From S2P Require Export Serialization.

Module ciphersuite.

(** ** CiphersuiteID *)

Definition Ed25519SHA512 : string := "FROST-ED25519-SHA512-v1".
Definition Ristretto255SHA512 : string := "FROST-RISTRETTO255-SHA512-v1".
Definition Ed448SHAKE256 : string := "FROST-ED448-SHAKE256-v1".
Definition P256SHA256 : string := "FROST-P256-SHA256-v1".
Definition Secp256k1SHA256 : string := "FROST-secp256k1-SHA256-v1".

Definition CiphersuiteIDs : list string :=
  [Ed25519SHA512; Ristretto255SHA512; Ed448SHAKE256; P256SHA256; Secp256k1SHA256].

(** ** Hooks *)

Section Hooks.
Context {G : Group}.

Record Hooks := {
  PreSign : bytes → Res bytes;
  PreAggregate : bytes → Element → Res (bytes * Element);
  PreVerify : bytes → Element → Scalar → Element → Res (bytes * Element * Scalar * Element);
  PostDKG : Scalar → Element → Res (Scalar * Element);
  PostGenerate : Scalar → Element → Res (Scalar * Element);
}.

Definition DefaultHooks : Hooks := {|
  PreSign msg := Ok msg;
  PreAggregate msg groupCommitment := Ok (msg, groupCommitment);
  PreVerify msg r z publicKey := Ok (msg, r, z, publicKey);
  PostDKG secretShare groupPublicKey := Ok (secretShare, groupPublicKey);
  PostGenerate secretShare groupPublicKey := Ok (secretShare, groupPublicKey);
|}.

(** The suite's own hooks, if its type has the methods. *)
Definition GetHooks (suite_Hooks : option Hooks) : Hooks := default DefaultHooks suite_Hooks.
End Hooks.
End ciphersuite.

(** ** Identifiers of the deployed suites *)

Section Wire.
Import ciphersuite serialization.

Lemma deployed_identifier {G} (CS : Ciphersuite G) (L : AdapterLaws G) n :
  Deployed CS L n → @ID _ CS ∈ CiphersuiteIDs ∧ @ContextString _ CS = @ID _ CS.
Proof.
  intros []; (split; [apply list_elem_of_lookup | reflexivity]).
  - by exists 3.
  - by exists 4.
  - by exists 1.
  - by exists 0.
  - by exists 2.
Qed.

Lemma identifiers_distinct : NoDup (CiphersuiteIDFromString <$> CiphersuiteIDs).
Proof.
  let l := eval lazy in (CiphersuiteIDFromString <$> CiphersuiteIDs) in
    change (NoDup l).
  repeat (apply NoDup_cons_2; [rewrite ?elem_of_cons, elem_of_nil; lia |]). apply NoDup_nil_2.
Qed.

Lemma wire_identifier_inj s s' :
  s ∈ CiphersuiteIDs → s' ∈ CiphersuiteIDs →
  CiphersuiteIDFromString s = CiphersuiteIDFromString s' → s = s'.
Proof.
  intros (i & Hi)%list_elem_of_lookup (j & Hj)%list_elem_of_lookup Heq.
  assert (i = j) as ->; [| congruence].
  apply (NoDup_lookup _ _ _ (CiphersuiteIDFromString s) identifiers_distinct);
    rewrite list_lookup_fmap; [by rewrite Hi | by rewrite Hj, Heq].
Qed.

(** What is written under one of the deployed suites is refused by every reader
    of the others as a ciphersuite mismatch, whatever value it is and whatever
    kind is asked for; nothing else identifies the suite, and other names may
    share the 32 bits. *)
Theorem deployed_wires_apart {G} (CS : Ciphersuite G) (L : AdapterLaws G) n
    {G'} (CS' : Ciphersuite G') (L' : AdapterLaws G') n' (v : @wire_value G) k data :
  Deployed CS L n → Deployed CS' L' n' → @ID _ CS ≠ @ID _ CS' →
  serialize (@NewSerializer G CS) v = Ok data →
  deserialize (@NewSerializer G' CS') k data = Fail ErrCiphersuiteMismatch.
Proof.
  intros HD HD' Hne H.
  apply deployed_identifier in HD as [HID _], HD' as [HID' _].
  destruct (serialize_header _ _ _ H) as [payload ->].
  apply deserialize_header_Fail. rewrite read_header_written.
  - apply decide_False. intros Heq. apply Hne.
    exact (wire_identifier_inj _ _ HID HID' Heq).
  - apply CiphersuiteIDFromString_uint32.
  - apply data_type_byte.
Qed.

Lemma names_collide : CiphersuiteIDFromString "FROST-Aa" = CiphersuiteIDFromString "FROST-BB".
Proof. reflexivity. Qed.
End Wire.
