(* ===== verification/Mock.v ===== *)
(** * The mock group and ciphersuite: [helpers/testutil]

    The group that the repository's own tests run on: the integers modulo the
    order of Ed25519, with the name of a group that decides the byte order of
    its scalars.  It stands on [math/big] and [crypto/rand] alone, so that its
    contract, which needs the order to be prime, is proved without an
    assumption about a library: the order has a certificate.  The ciphersuite
    hashes with SHA-512, a parameter. *)

From coqutil Require Import Z.PushPullMod.
From S2P Require Import Primality.
From S2P Require Export Libraries.
From S2P Require Export Hashing.
From S2P Require Export SuiteLaws.

Local Open Scope Z_scope.

(** ** crypto/rand *)

(** The reads of [rand.Int(rand.Reader, max)]: as many bytes as [max - 1] has;
    bits above its length are cleared in the first byte, and candidates from
    [max] on are rejected. *)
Definition bit_length (n : Z) : Z := if n =? 0 then 0 else Z.log2 n + 1.

Definition rand_candidate (max : Z) (buf : bytes) : option Z :=
  let bitLen := bit_length (max - 1) in
  let b := if bitLen mod 8 =? 0 then 8 else bitLen mod 8 in
  let bs := match buf with
            | [] => []
            | x :: buf => byte.of_Z (Z.land (byte.unsigned x) (2 ^ b - 1)) :: buf
            end in
  let n := be_combine bs in
  if n <? max then Some n else None.

Definition rand_Int (max : Z) (fuel : nat) (r : Rng) : option (Res Z * Rng) :=
  if max <=? 0 then Some (Panic, r)
  else
    let bitLen := bit_length (max - 1) in
    if bitLen =? 0 then Some (Ok 0, r)
    else reject_loop (Z.to_nat ((bitLen + 7) / 8)) (rand_candidate max) (λ err, err) fuel r.

(** ** testutil/mock_group.go *)

Module testutil.

Definition groupNameP256 : string := "p256".
Definition groupNameSecp256k1 : string := "secp256k1".

Record MockGroup := { mg_order : Z; mg_name : string }.
Record MockElement := { me_value : Z; me_group : MockGroup }.
Record MockScalar := { ms_value : Z; ms_order : Z; ms_groupName : string }.

Definition mock_order : Z :=
  7237005577332262213973186563042994240857116359379907606001950938285454250989.

Definition NewMockGroup : MockGroup := {| mg_order := mock_order; mg_name := "MockGroup" |}.
Definition NewMockGroupWithName (name : string) : MockGroup :=
  {| mg_order := mock_order; mg_name := name |}.

(** [name == groupNameP256 || name == groupNameSecp256k1] *)
Definition big_endian (name : string) : bool :=
  bool_decide (name = groupNameP256) || bool_decide (name = groupNameSecp256k1).

(** *** Elements *)

Definition MockElement_Add (e o : MockElement) : MockElement :=
  let result := me_value e + me_value o in
  {| me_value := result mod mg_order (me_group e); me_group := me_group e |}.

Definition MockElement_Negate (e : MockElement) : MockElement :=
  {| me_value := (- me_value e) mod mg_order (me_group e); me_group := me_group e |}.

Definition MockElement_IsIdentity (e : MockElement) : bool := big_Cmp (me_value e) 0 =? 0.

Definition MockElement_Equal (e o : MockElement) : bool :=
  big_Cmp (me_value e) (me_value o) =? 0.

Definition MockElement_Bytes (e : MockElement) : bytes :=
  let bs := big_Bytes (me_value e) in
  if (length bs <? 32)%nat then zero_bytes (32 - length bs) ++ bs else bs.

Definition MockElement_Copy (e : MockElement) : MockElement :=
  {| me_value := me_value e; me_group := me_group e |}.

(** *** Scalars *)

Definition with_value (s : MockScalar) (result : Z) : MockScalar :=
  {| ms_value := result mod ms_order s; ms_order := ms_order s; ms_groupName := ms_groupName s |}.

Definition MockScalar_Add (s o : MockScalar) : MockScalar := with_value s (ms_value s + ms_value o).
Definition MockScalar_Sub (s o : MockScalar) : MockScalar := with_value s (ms_value s - ms_value o).
Definition MockScalar_Mul (s o : MockScalar) : MockScalar := with_value s (ms_value s * ms_value o).
Definition MockScalar_Negate (s : MockScalar) : MockScalar := with_value s (- ms_value s).

Definition MockScalar_IsZero (s : MockScalar) : bool := big_Cmp (ms_value s) 0 =? 0.

Definition MockScalar_Inv (s : MockScalar) : Res MockScalar :=
  if MockScalar_IsZero s then Fail (FreshError "cannot invert zero scalar")
  else
    match big_ModInverse (ms_value s) (ms_order s) with
    | None => Fail (FreshError "inverse does not exist")
    | Some result =>
        Ok {| ms_value := result; ms_order := ms_order s; ms_groupName := ms_groupName s |}
    end.

Definition MockScalar_Equal (s o : MockScalar) : bool := big_Cmp (ms_value s) (ms_value o) =? 0.

(** The sixteen swaps reverse the thirty-two bytes. *)
Definition swap (l : bytes) (i : nat) : bytes :=
  match l !! i, l !! (31 - i)%nat with
  | Some x, Some y => <[(31 - i)%nat := x]> (<[i := y]> l)
  | _, _ => l
  end.

Definition MockScalar_Bytes (s : MockScalar) : bytes :=
  let bs := big_Bytes (ms_value s) in
  let padded := if (length bs <? 32)%nat then zero_bytes (32 - length bs) ++ bs else take 32 bs in
  if big_endian (ms_groupName s) then padded else foldl swap padded (seq 0 16).

Definition MockScalar_Copy (s : MockScalar) : MockScalar :=
  {| ms_value := ms_value s; ms_order := ms_order s; ms_groupName := ms_groupName s |}.

Definition MockScalar_Compare (s o : MockScalar) : Z := big_Cmp (ms_value s) (ms_value o).

Definition MockScalar_Zeroize (s : MockScalar) : MockScalar :=
  {| ms_value := 0; ms_order := ms_order s; ms_groupName := ms_groupName s |}.

Definition MockScalar_SetBytes (s : MockScalar) (data : bytes) : MockScalar :=
  with_value s (be_combine (reverseBytes data)).

(** *** The group *)

Section Methods.
Context (m : MockGroup) (fuel : nat).

Definition scalar (v : Z) : MockScalar :=
  {| ms_value := v; ms_order := mg_order m; ms_groupName := mg_name m |}.
Definition element (v : Z) : MockElement := {| me_value := v; me_group := m |}.

Definition MockGroup_Order : bytes := big_Bytes (mg_order m).
Definition MockGroup_Cofactor : MockScalar := scalar 1.
Definition MockGroup_Identity : MockElement := element 0.
Definition MockGroup_Generator : MockElement := element 1.
Definition MockGroup_NewScalar : MockScalar := scalar 0.
Definition MockGroup_NewElement : MockElement := element 0.

Definition MockGroup_RandomScalar (r : Rng) : option (Res MockScalar * Rng) :=
  match rand_Int (mg_order m) fuel r with
  | Some (Ok val, r') => Some (Ok (scalar val), r')
  | Some (Fail err, r') => Some (Fail err, r')
  | Some (Panic, r') => Some (Panic, r')
  | None => None
  end.

Definition MockGroup_ScalarMult (elem : MockElement) (scal : MockScalar) : MockElement :=
  element ((me_value elem * ms_value scal) mod mg_order m).

Definition MockGroup_ScalarBaseMult (scal : MockScalar) : MockElement :=
  MockGroup_ScalarMult MockGroup_Generator scal.

Definition MockGroup_SerializeElement (elem : MockElement) : Res bytes :=
  if MockElement_IsIdentity elem then Fail (FreshError "cannot serialize identity element")
  else Ok (MockElement_Bytes elem).

Definition MockGroup_DeserializeElement (data : bytes) : Res MockElement :=
  let value := be_combine data in
  if big_Cmp value 0 =? 0 then Fail (FreshError "cannot deserialize identity element")
  else Ok (element value).

Definition MockGroup_SerializeScalar (s : MockScalar) : bytes := MockScalar_Bytes s.

Definition MockGroup_DeserializeScalar (data : bytes) : Res MockScalar :=
  let value := if big_endian (mg_name m) then be_combine data
               else be_combine (reverseBytes data) in
  Ok (scalar (value mod mg_order m)).

Definition MockGroup_ElementLength : nat := 32.
Definition MockGroup_ScalarLength : nat := 32.
Definition MockGroup_Name : string := mg_name m.
Definition MockGroup_ByteOrder : ByteOrder_t :=
  if big_endian (mg_name m) then BigEndian else LittleEndian.

Definition Mock : Group := {|
  Element := MockElement;
  Scalar := MockScalar;
  e_Add := MockElement_Add;
  e_Negate := MockElement_Negate;
  e_IsIdentity := MockElement_IsIdentity;
  e_Equal := MockElement_Equal;
  e_Bytes := MockElement_Bytes;
  e_Copy := MockElement_Copy;
  s_Add := MockScalar_Add;
  s_Sub := MockScalar_Sub;
  s_Mul := MockScalar_Mul;
  s_Inv := MockScalar_Inv;
  s_Negate := MockScalar_Negate;
  s_IsZero := MockScalar_IsZero;
  s_Equal := MockScalar_Equal;
  s_Bytes := MockScalar_Bytes;
  s_Copy := MockScalar_Copy;
  s_Compare := MockScalar_Compare;
  Order := MockGroup_Order;
  Cofactor := MockGroup_Cofactor;
  Identity := MockGroup_Identity;
  Generator := MockGroup_Generator;
  NewScalar := MockGroup_NewScalar;
  NewElement := MockGroup_NewElement;
  RandomScalar := λ r, default (Panic, r) (MockGroup_RandomScalar r);
  ScalarMult := MockGroup_ScalarMult;
  ScalarBaseMult := MockGroup_ScalarBaseMult;
  SerializeElement := MockGroup_SerializeElement;
  DeserializeElement := MockGroup_DeserializeElement;
  SerializeScalar := MockGroup_SerializeScalar;
  DeserializeScalar := MockGroup_DeserializeScalar;
  ElementLength := MockGroup_ElementLength;
  ScalarLength := MockGroup_ScalarLength;
  Name := MockGroup_Name;
  ByteOrder := MockGroup_ByteOrder;
|}.
End Methods.

(** ** testutil/mock_ciphersuite.go *)

Definition MockVerificationError (reason : string) : error :=
  OpaqueError ("signature verification failed: " +:+ reason).

Section Suite.
Context {S512 : SHA512} (fuel : nat).

Record MockCiphersuite := { mc_group : MockGroup }.
Definition NewMockCiphersuite : MockCiphersuite := {| mc_group := NewMockGroup |}.

Definition domain_input (domain : string) (data : bytes) : bytes :=
  string_bytes domain ++ [byte.of_Z 0] ++ data.

Definition domainSeparatedHash (domain : string) (data : bytes) : bytes :=
  sha512 (domain_input domain data).

Context (mc : MockCiphersuite).
Local Abbreviation m := (mc_group mc).

Definition hashToScalar (domain : string) (data : bytes) : MockScalar :=
  let hash := sha512 (domain_input domain data) in
  let scalar := MockGroup_NewScalar m in
  MockScalar_SetBytes scalar hash.

Definition mock_H1 : bytes → MockScalar := hashToScalar "FROST-MOCK-SHA512-v1-H1".
Definition mock_H2 : bytes → MockScalar := hashToScalar "FROST-MOCK-SHA512-v1-H2".
Definition mock_H3 : bytes → MockScalar := hashToScalar "FROST-MOCK-SHA512-v1-H3".
Definition mock_H4 : bytes → bytes := domainSeparatedHash "FROST-MOCK-SHA512-v1-H4".
Definition mock_H5 : bytes → bytes := domainSeparatedHash "FROST-MOCK-SHA512-v1-H5".
Definition mock_HDKG : bytes → MockScalar := hashToScalar "FROST-MOCK-SHA512-v1-HDKG".
Definition mock_HID : bytes → MockScalar := hashToScalar "FROST-MOCK-SHA512-v1-HID".

Definition mock_HashToCurve (data : bytes) : Res MockElement :=
  let scalar := hashToScalar "FROST-MOCK-SHA512-v1-H2C" data in
  Ok (MockGroup_ScalarBaseMult m scalar).

Definition mock_Hash (data : bytes) : bytes := sha512 data.

Definition mock_VerifySignature (signature : bytes) : Res unit :=
  if (length signature <? 64)%nat then Fail (MockVerificationError "signature too short") else Ok ().

Definition mock_ID : string := "FROST-MOCK-SHA512-v1".
Definition mock_ContextString : string := "FROST-MOCK-SHA512-v1".

Definition MockSuite : Ciphersuite (Mock m fuel) := {|
  ID := mock_ID;
  H1 := mock_H1 : bytes → @Scalar (Mock m fuel);
  H2 := mock_H2 : bytes → @Scalar (Mock m fuel);
  H3 := mock_H3 : bytes → @Scalar (Mock m fuel);
  H4 := mock_H4;
  H5 := mock_H5;
  HDKG := mock_HDKG : bytes → @Scalar (Mock m fuel);
  HID := mock_HID : bytes → @Scalar (Mock m fuel);
  HashToCurve := mock_HashToCurve : bytes → Res (@Element (Mock m fuel));
  Hash := mock_Hash;
  VerifySignature _ signature _ := mock_VerifySignature signature;
  ContextString := mock_ContextString;
|}.
End Suite.
End testutil.

(** ** The contract *)

Section MockLaws.
Import testutil.
Context (m : MockGroup) (fuel : nat).
Local Abbreviation p := (mg_order m).
Context (Hprime : Z.prime p) (Hsize : 2 ^ 32 < p ≤ 2 ^ 256).
Local Abbreviation G := (Mock m fuel).

Definition reduced_scalar (x : MockScalar) : bool :=
  bool_decide (ms_order x = p) && bool_decide (ms_groupName x = mg_name m)
  && (0 <=? ms_value x) && (ms_value x <? p).

#[local] Instance MockGroup_eq_dec : EqDecision MockGroup.
Proof. solve_decision. Defined.

Definition reduced_element (X : MockElement) : bool :=
  bool_decide (me_group X = m) && (0 <=? me_value X) && (me_value X <? p).

Lemma reduced_scalar_true x :
  reduced_scalar x = true ↔ ∃ v, 0 ≤ v < p ∧ x = scalar m v.
Proof.
  unfold reduced_scalar, scalar. rewrite !andb_true_iff, !bool_decide_eq_true, Z.leb_le, Z.ltb_lt.
  split.
  - intros [[[Ho Hn] H0] H1]. exists (ms_value x). split; [done |]. destruct x. cbn in *. congruence.
  - intros (v & [H0 H1] & ->). by cbn.
Qed.

Lemma reduced_element_true X :
  reduced_element X = true ↔ ∃ v, 0 ≤ v < p ∧ X = element m v.
Proof.
  unfold reduced_element, element. rewrite !andb_true_iff, !bool_decide_eq_true, Z.leb_le, Z.ltb_lt.
  split.
  - intros [[Hg H0] H1]. exists (me_value X). split; [done |]. destruct X. cbn in *. congruence.
  - intros (v & [H0 H1] & ->). by cbn.
Qed.

Lemma mod_reduced v : 0 ≤ v mod p < p.
Proof. apply Z.mod_pos_bound. lia. Qed.

Lemma scalar_reduced v : reduced_scalar (scalar m (v mod p)) = true.
Proof. apply reduced_scalar_true. eauto using mod_reduced. Qed.

Lemma element_reduced v : reduced_element (element m (v mod p)) = true.
Proof. apply reduced_element_true. eauto using mod_reduced. Qed.

Lemma small_reduced v : 0 ≤ v < p → reduced_scalar (scalar m v) = true.
Proof. intros Hv. apply reduced_scalar_true. eauto. Qed.

Lemma big_Cmp_eq a b : (big_Cmp a b =? 0) = (a =? b).
Proof.
  unfold big_Cmp. by destruct (Z.compare_spec a b), (Z.eqb_spec a b); try lia.
Qed.

(** *** Encodings *)

Lemma swap_reverses l : length l = 32%nat → foldl swap l (seq 0 16) = reverse l.
Proof. intros Hl. do 33 (destruct l as [|? l]; try done). Qed.

Lemma padded_bytes v : 0 ≤ v < p →
  (if (length (big_Bytes v) <? 32)%nat then zero_bytes (32 - length (big_Bytes v)) ++ big_Bytes v
   else big_Bytes v) = encode_int BigEndian 32 v.
Proof.
  intros Hv. assert (0 ≤ v < 2 ^ (8 * Z.of_nat 32)) as Hb by (cbn; lia).
  rewrite <-(pad_big_Bytes v 32 Hb). pose proof (length_big_Bytes v 32 Hb).
  destruct (Nat.ltb_spec (length (big_Bytes v)) 32); [done |].
  by replace (32 - length (big_Bytes v))%nat with 0%nat by lia.
Qed.

Lemma Mock_Bytes v : 0 ≤ v < p →
  MockScalar_Bytes (scalar m v) = encode_int (MockGroup_ByteOrder m) 32 v.
Proof.
  intros Hv. pose proof (padded_bytes v Hv) as Hp.
  assert (0 ≤ v < 2 ^ (8 * Z.of_nat 32)) as Hb by (cbn; lia).
  pose proof (length_big_Bytes v 32 Hb) as Hl.
  unfold MockScalar_Bytes, MockGroup_ByteOrder. cbn [ms_value ms_groupName scalar].
  rewrite (take_ge (big_Bytes v) 32) by done. rewrite Hp.
  destruct (big_endian (mg_name m)); [done |].
  rewrite swap_reverses by apply length_encode_int. apply reverse_involutive.
Qed.

Lemma Mock_element_Bytes v : 0 ≤ v < p →
  MockElement_Bytes (element m v) = encode_int BigEndian 32 v.
Proof. apply padded_bytes. Qed.

Lemma Mock_decode bs :
  MockGroup_DeserializeScalar m bs = Ok (scalar m (decode_int (MockGroup_ByteOrder m) bs mod p)).
Proof.
  unfold MockGroup_DeserializeScalar, MockGroup_ByteOrder.
  destruct (big_endian (mg_name m)); [done |]. by rewrite be_combine_reverseBytes.
Qed.

(** *** Elements *)

Lemma Mock_abelian :
  AbelianOn (λ X, reduced_element X = true) MockElement_Add (MockGroup_Identity m) MockElement_Negate.
Proof.
  split; setoid_rewrite reduced_element_true.
  - intros ? ? (u & Hu & ->) (v & Hv & ->). eexists. split; [apply mod_reduced | done].
  - exists 0. split; [lia | done].
  - intros ? (u & Hu & ->). eexists. split; [apply mod_reduced | done].
  - intros ? ? ? (u & Hu & ->) (v & Hv & ->) (w & Hw & ->). unfold MockElement_Add, element. cbn.
    f_equal. Z.push_pull_mod. f_equal. ring.
  - intros ? ? (u & Hu & ->) (v & Hv & ->). unfold MockElement_Add, element. cbn. by rewrite Z.add_comm.
  - intros ? (u & Hu & ->). unfold MockElement_Add, MockGroup_Identity, element. cbn.
    by rewrite Z.add_0_r, Z.mod_small.
  - intros ? (u & Hu & ->). unfold MockElement_Add, MockElement_Negate, MockGroup_Identity, element.
    cbn. f_equal. Z.push_pull_mod. rewrite Z.add_opp_diag_r. by apply Z.mod_0_l; lia.
Qed.

Lemma Mock_nmul k v : 0 ≤ k →
  nmul MockElement_Add (MockGroup_Identity m) k (element m v) = element m ((v * k) mod p).
Proof.
  intros Hk. unfold nmul. rewrite <-(Z2Nat.id k Hk). rewrite Nat2Z.id.
  induction (Z.to_nat k) as [|n IH]; [cbn; by rewrite Z.mul_0_r |].
  rewrite Nat.iter_succ, IH, Nat2Z.inj_succ. unfold MockElement_Add, element. cbn.
  f_equal. Z.push_pull_mod. f_equal. ring.
Qed.

Lemma Mock_IsIdentity v : MockElement_IsIdentity (element m v) = (v =? 0).
Proof. apply big_Cmp_eq. Qed.

Lemma Mock_Equal u v : MockElement_Equal (element m u) (element m v) = (u =? v).
Proof. apply big_Cmp_eq. Qed.

Lemma Mock_DeserializeElement v : 0 < v < p →
  MockGroup_DeserializeElement m (encode_int BigEndian 32 v) = Ok (element m v).
Proof.
  intros Hv. unfold MockGroup_DeserializeElement.
  change (be_combine ?b) with (decode_int BigEndian b). rewrite decode_encode_int by (cbn; lia).
  rewrite big_Cmp_eq. by destruct (Z.eqb_spec v 0); [lia |].
Qed.

Lemma Mock_RandomScalar r x r' :
  default (Panic, r) (MockGroup_RandomScalar m fuel r) = (Ok x, r') → reduced_scalar x = true.
Proof.
  unfold MockGroup_RandomScalar, rand_Int. rewrite (proj2 (Z.leb_gt p 0)) by lia.
  destruct (bit_length (p - 1) =? 0) eqn:E.
  - intros [= <- _]. apply small_reduced. lia.
  - destruct (reject_loop _ _ _ _ _) as [[[v|e|] r1]|] eqn:Hr; try done. intros [= <- _].
    apply reject_loop_Ok in Hr as (buf & Hb). unfold rand_candidate in Hb.
    cbv zeta in Hb.
    match type of Hb with (if be_combine ?b <? _ then _ else _) = _ => set (bs := b) in Hb end.
    pose proof (decode_int_bound BigEndian bs) as Hbd. cbn [decode_int] in Hbd.
    destruct (Z.ltb_spec (be_combine bs) p); [| done]. injection Hb as <-.
    apply small_reduced. lia.
Qed.

Lemma element_inj u v : element m u = element m v → u = v.
Proof. apply (f_equal me_value). Qed.

Lemma element_nonzero v : 0 ≤ v < p → element m v ≠ MockGroup_Identity m → 0 < v < p.
Proof. intros Hv Hne. destruct (decide (v = 0)) as [->|]; [done | lia]. Qed.

Lemma Mock_Inv v : 0 ≤ v < p → v ≠ 0 →
  ∃ y, MockScalar_Inv (scalar m v) = Ok y ∧ reduced_scalar y = true ∧ (ms_value y * v) mod p = 1.
Proof.
  intros Hv Hv0. destruct (ModInverse_prime v p Hprime) as (y & Hy & Hr & Hm); [lia |].
  exists (scalar m y). split_and!; [| by apply small_reduced | done].
  unfold MockScalar_Inv, MockScalar_IsZero. cbn [ms_value ms_order scalar].
  rewrite big_Cmp_eq, Hy. by destruct (Z.eqb_spec v 0).
Qed.

Lemma Mock_element_Bytes_inj u v : 0 ≤ u < p → 0 ≤ v < p →
  MockElement_Bytes (element m u) = MockElement_Bytes (element m v) → u = v.
Proof.
  intros Hu Hv. rewrite !Mock_element_Bytes by done. intros H%(f_equal (decode_int BigEndian)).
  rewrite !decode_encode_int in H by (cbn; lia). done.
Qed.

(** Valid values as residues. *)
Local Ltac reduced :=
  repeat match goal with
  | H : reduced_scalar _ = true |- _ => apply reduced_scalar_true in H as (? & ? & ->)
  | H : reduced_element _ = true |- _ => apply reduced_element_true in H as (? & ? & ->)
  end; cbn [ms_value me_value scalar element] in *.

#[export] Instance mock_laws : AdapterLaws G.
Proof.
  refine {| adapter_order := p; valid_scalar := (reduced_scalar : @Group.Scalar G → bool);
            valid_element := (reduced_element : @Group.Element G → bool);
            sval := (ms_value : @Group.Scalar G → Z) |}; cbn;
    try (intros; reduced); try done; try (split; [apply scalar_reduced | done]);
    try apply big_Cmp_eq.
  - lia.
  - by f_equal.
  - split; [apply small_reduced; lia | done].
  - by apply Mock_Inv.
  - subst. by eexists.
  - apply small_reduced. lia.
  - by eapply Mock_RandomScalar.
  - split; [unfold MockGroup_ScalarLength; lia | change (p ≤ 2 ^ 256); lia].
  - by apply Mock_Bytes.
  - rewrite Mock_decode. eexists. split_and!; [done | apply scalar_reduced |]. cbn.
    apply Z.mod_small. split; [apply decode_int_bound | done].
  - match goal with H : _ = Ok _ |- _ => rewrite Mock_decode in H; injection H as <- end.
    apply scalar_reduced.
  - apply Mock_abelian.
  - apply reduced_element_true. exists 1. split; [lia | done].
  - rewrite Mock_IsIdentity, Z.eqb_eq. split; [by intros -> | apply element_inj].
  - rewrite Mock_Equal, Z.eqb_eq. split; [by intros -> | apply element_inj].
  - rewrite Mock_nmul by lia. done.
  - rewrite Mock_nmul, Z_mod_mult by lia. done.
  - rewrite (Mock_nmul _ 1), Z.mul_1_l, Z.mod_small by lia. intros He%element_inj. lia.
  - rewrite Mock_element_Bytes by done. apply length_encode_int.
  - f_equal. by apply Mock_element_Bytes_inj.
  - unfold MockGroup_SerializeElement. rewrite Mock_IsIdentity.
    by destruct (Z.eqb_spec x 0) as [->|].
  - by eexists.
  - rewrite Mock_element_Bytes by done. apply Mock_DeserializeElement. by apply element_nonzero.
Defined.
End MockLaws.

(** ** The mocks of the tests *)

Section Mocks.
Import testutil.

Lemma mock_order_ed25519 : mock_order = ed25519_order.
Proof. reflexivity. Qed.

Lemma mock_order_prime : Z.prime mock_order.
Proof. exact ed25519_order_prime. Qed.

Lemma mock_order_size : 2 ^ 32 < mock_order ≤ 2 ^ 256.
Proof. done. Qed.

#[export] Instance named_mock_laws name fuel : AdapterLaws (Mock (NewMockGroupWithName name) fuel) :=
  mock_laws (NewMockGroupWithName name) fuel mock_order_prime mock_order_size.

(** C13: the mock group fulfils the contract of the group interface whatever its
    name is, with no assumption about a library: its order, which is the one
    of Ed25519, is prime.  Outside its valid values it does not: the decoder
    does not reduce an element, so that the encoding of the order is another
    zero, which is not the identity for [IsIdentity]. *)
Theorem mock_contract name fuel :
  let m := NewMockGroupWithName name in
  let G := Mock m fuel in
  (∃ GL : GroupLaws (restrict G), @order _ GL = mock_order) ∧
  Z.prime mock_order ∧ mock_order = 2 ^ 252 + 27742317777372353535851937790883648493 ∧
  @ByteOrder G = (if big_endian name then BigEndian else LittleEndian) ∧
  ∃ W : @Element G, DeserializeElement (encode_int BigEndian 32 mock_order) = Ok W ∧
    e_IsIdentity W = false ∧
    ∀ P : @Element G, valid_element P = true → e_Add P W = P.
Proof.
  intros m G. split_and!; [| apply mock_order_prime | done..|].
  - by exists (restrict_laws G).
  - exists (element m mock_order). split_and!; [by vm_compute | done |].
    intros P HP. apply reduced_element_true in HP as (v & Hv & ->).
    cbn. unfold MockElement_Add, element. cbn. f_equal.
    rewrite <-(Z.mul_1_l mock_order) at 1. by rewrite Z_mod_plus_full, Z.mod_small.
Qed.

Context {S512 : SHA512} (fuel : nat) (name : string).
Local Abbreviation mc := {| mc_group := NewMockGroupWithName name |}.
Local Abbreviation G := (Mock (NewMockGroupWithName name) fuel).

Lemma mock_suite_valid : SuiteValid (MockSuite fuel mc) (named_mock_laws name fuel).
Proof. split; intros d; apply (scalar_reduced (NewMockGroupWithName name) mock_order_size). Qed.

(** Signing over the mocks produces a signature that the protocol's verifier
    accepts; the mock's own [VerifySignature] accepts it too, but it accepts
    every string of at least 64 bytes, for every message and key. *)
Theorem mock_signing cs vs t n all ps msg :
  let VCS := restrict_suite (MockSuite fuel mc) _ mock_suite_valid in
  let pk := ScalarBaseMult (peval cs (sc 0)) in
  let l := run_list ps in
  @honest_run (restrict G) _ VCS cs vs t n all ps msg → pk ≠ Identity →
  (∃ shares sig,
    range_map (λ p, @participant.RoundTwo _ VCS (s_kp p)
                 (round_one_nonces (signer_id p) (s_d p) (s_e p)) msg l) ps = Ok shares ∧
    @aggregator.Aggregate _ VCS t (Some pk) l msg shares = Ok sig ∧
    @aggregator.Verify _ VCS msg sig (Some pk) = Ok ()) ∧
  ∀ m' s P, (64 ≤ length s)%nat → @VerifySignature _ (MockSuite fuel mc) m' s P = Ok ().
Proof.
  intros VCS pk l H Hpk. split.
  - exists (@signer_share _ _ VCS cs pk l msg <$> ps). eexists. split_and!.
    + apply range_map_Ok, Forall2_fmap_r, Forall_Forall2_diag, Forall_forall. intros p Hp.
      by apply (@run_answer _ _ VCS _ _ _ _ _ _ _ H).
    + by apply (@run_aggregates _ _ VCS _ _ _ _ _ _ _ H).
    + by apply (@run_verifies _ _ VCS _ _ _ _ _ _ _ H).
  - intros m' s P Hs. cbn. unfold mock_VerifySignature. by rewrite (proj2 (Nat.ltb_ge _ _)).
Qed.
End Mocks.
