(* ===== verification/Signing.v ===== *)
(** * Signing packages and the convenience API: [signing.go], [package.go], [preprocess.go]

    The map-based [Sign] and [Aggregate] with their exchange sort, the signing
    package and its builder with its insertion sort, and preprocessed nonces.
    The theorems: both sorts return the sorted permutation of their input, so
    the results do not depend on Go's map iteration order; the builder accepts
    exactly the duplicate-free lists; preprocessed nonces are handed out once
    each, in order. *)

From S2P Require Export Protocol.

(** ** signing.go *)

Module signing.
Section Defs.
Context {G : Group} {CS : Ciphersuite G}.

Record NoncePackage := {
  np_Nonces : SigningNonces;
  np_Commitments : SigningCommitments;
}.

Definition GenerateNonces (identifier : Z) (secretShare : option Scalar)
  : Rand NoncePackage :=
  let keyPackage := {| kp_Identifier := identifier; SecretShare := secretShare;
                       GroupPublicKey := None; VerificationShares := [];
                       MinSigners := 0; MaxSigners := 0 |} in
  '(nonces, commitments) ← participant.RoundOne keyPackage;
  mret {| np_Nonces := nonces; np_Commitments := commitments |}.

(** [if list[i].Identifier > list[j].Identifier { swap }] *)
Definition swap_step (i : nat) (l : CommitmentList) (j : nat) : CommitmentList :=
  match l !! i, l !! j with
  | Some a, Some b =>
      if (cm_Identifier b <? cm_Identifier a)%Z then <[j := a]> (<[i := b]> l) else l
  | _, _ => l
  end.

Definition sortCommitmentList (l : CommitmentList) : CommitmentList :=
  foldl (λ l i, foldl (swap_step i) l (seq (S i) (length l - S i))) l (seq 0 (length l)).

(** The pointers a Go map holds, in the order its range yields them; the
    code dereferences each and ignores the map key. *)
Definition Sign (message : bytes) (keyPackage : KeyPackage) (noncePackage : NoncePackage)
    (allCommitments : list (option SigningCommitments)) : Res SignatureShare :=
  commitmentList ← range_map deref allCommitments;
  let commitmentList := sortCommitmentList commitmentList in
  participant.RoundTwo keyPackage (np_Nonces noncePackage) message commitmentList.

Definition Aggregate (message : bytes) (commitments : list (option SigningCommitments))
    (signatureShares : list (option SignatureShare))
    (verificationShares : list VerificationShare) (groupPublicKey : option Element)
  : Res Signature :=
  commitmentList ← range_map deref commitments;
  let commitmentList := sortCommitmentList commitmentList in
  shareSlice ← range_map deref signatureShares;
  aggregator.AggregateWithVerification
    (Z.of_nat (length signatureShares) mod 2 ^ 32)
    groupPublicKey commitmentList message shareSlice verificationShares.

Definition VerifySignature (message : bytes) (signature : Signature)
    (groupPublicKey : option Element) : Res unit :=
  aggregator.Verify message signature groupPublicKey.
End Defs.
End signing.

(** ** package.go *)

Module signingPackage.
Section Defs.
Context {G : Group}.

Record SigningPackage := {
  Message : bytes;
  sp_CommitmentList : CommitmentList;
  sp_GroupPublicKey : option Element;
}.

(** The loop from index 1 that compares each identifier with the one before. *)
Fixpoint increasing (prev : Z) (l : list Z) : bool :=
  match l with
  | [] => true
  | id :: l' => if (id <=? prev)%Z then false else increasing id l'
  end.

Definition NewSigningPackage (message : bytes) (commitmentList : CommitmentList)
    (groupPublicKey : option Element) : Res SigningPackage :=
  match commitmentList with
  | [] => Fail (Sentinel ErrEmptyCommitmentList)
  | c :: rest =>
      _ ← fail_if (negb (increasing (cm_Identifier c) (cm_Identifier <$> rest)))
            (Sentinel ErrUnsortedCommitments);
      Ok {| Message := message; sp_CommitmentList := commitmentList;
            sp_GroupPublicKey := groupPublicKey |}
  end.

Definition GetCommitment (sp : SigningPackage) (identifier : Z) : option SigningCommitments :=
  find_by cm_Identifier identifier (sp_CommitmentList sp).

Definition GetParticipants (sp : SigningPackage) : list Z :=
  cm_Identifier <$> sp_CommitmentList sp.

Definition ContainsParticipant (sp : SigningPackage) (identifier : Z) : bool :=
  bool_decide (GetCommitment sp identifier ≠ None).

Definition Len (sp : SigningPackage) : nat := length (sp_CommitmentList sp).

Record SigningPackageBuilder := {
  b_message : bytes;
  b_commitments : CommitmentList;
  b_groupPublicKey : option Element;
}.

Definition NewSigningPackageBuilder : SigningPackageBuilder :=
  {| b_message := []; b_commitments := []; b_groupPublicKey := None |}.

Definition WithMessage (message : bytes) (b : SigningPackageBuilder) :=
  {| b_message := message; b_commitments := b_commitments b;
     b_groupPublicKey := b_groupPublicKey b |}.
Definition WithGroupPublicKey (publicKey : option Element) (b : SigningPackageBuilder) :=
  {| b_message := b_message b; b_commitments := b_commitments b;
     b_groupPublicKey := publicKey |}.
Definition AddCommitment (commitment : SigningCommitments) (b : SigningPackageBuilder) :=
  {| b_message := b_message b; b_commitments := b_commitments b ++ [commitment];
     b_groupPublicKey := b_groupPublicKey b |}.
Definition AddCommitments (commitments : CommitmentList) (b : SigningPackageBuilder) :=
  {| b_message := b_message b; b_commitments := b_commitments b ++ commitments;
     b_groupPublicKey := b_groupPublicKey b |}.

(** The inner loop of the insertion sort on the sorted prefix: [key] is
    compared with the prefix from its right end, so it lands behind the last
    element whose identifier is not greater. *)
Fixpoint insert_left (key : SigningCommitments) (prefix_rev : CommitmentList)
  : CommitmentList :=
  match prefix_rev with
  | [] => [key]
  | c :: rest => if (cm_Identifier key <? cm_Identifier c)%Z then c :: insert_left key rest
                 else key :: c :: rest
  end.

(** The outer loop; the sorted prefix is kept right end first. *)
Definition insertion_sort (l : CommitmentList) : CommitmentList :=
  reverse (foldl (λ prefix_rev key, insert_left key prefix_rev) [] l).

(** The loop from index 1 that looks for equal neighbours. *)
Fixpoint adjacent_equal (prev : Z) (l : list Z) : bool :=
  match l with
  | [] => false
  | id :: l' => (id =? prev)%Z || adjacent_equal id l'
  end.

Definition Build (b : SigningPackageBuilder) : Res SigningPackage :=
  _ ← fail_if (bool_decide (length (b_commitments b) = 0)) (Sentinel ErrEmptyCommitmentList);
  let sortedCommitments := insertion_sort (b_commitments b) in
  _ ← fail_if (match cm_Identifier <$> sortedCommitments with
               | [] => false
               | id :: ids => adjacent_equal id ids
               end) (Sentinel ErrDuplicateParticipant);
  Ok {| Message := b_message b; sp_CommitmentList := sortedCommitments;
        sp_GroupPublicKey := b_groupPublicKey b |}.
End Defs.
End signingPackage.

(** ** The sorts *)

Section SortFacts.
Context {G : Group}.
Implicit Types (l : CommitmentList) (c : SigningCommitments).

Local Abbreviation c_le := (key_le cm_Identifier).

Lemma StronglySorted_snoc l c :
  StronglySorted c_le l → (∀ a, a ∈ l → c_le a c) → StronglySorted c_le (l ++ [c]).
Proof.
  induction 1 as [|x l Hs IH Hx]; intros Hc; cbn; [repeat constructor |].
  constructor.
  - apply IH. intros a Ha. apply Hc. by apply list_elem_of_further.
  - apply Forall_app. split; [done |]. constructor; [| done]. apply Hc, list_elem_of_here.
Qed.

Lemma insert_middle {A} n (u v : list A) (x y : A) :
  n = length u → <[n := y]> (u ++ x :: v) = u ++ y :: v.
Proof. intros ->. induction u; f_equal/=; auto. Qed.

Lemma swap_step_at pre x mid y rest :
  signing.swap_step (length pre) (pre ++ x :: mid ++ y :: rest) (S (length pre) + length mid)
  = if (cm_Identifier y <? cm_Identifier x)%Z then pre ++ y :: mid ++ x :: rest
    else pre ++ x :: mid ++ y :: rest.
Proof.
  unfold signing.swap_step. rewrite list_lookup_middle by done.
  assert (Hy : (pre ++ x :: mid ++ y :: rest) !! (S (length pre) + length mid) = Some y).
  { rewrite lookup_app_r by lia.
    replace (S (length pre) + length mid - length pre) with (S (length mid)) by lia.
    cbn. by apply list_lookup_middle. }
  rewrite Hy. case_match; [| done].
  rewrite (insert_middle (length pre)) by done.
  replace (pre ++ y :: mid ++ y :: rest) with ((pre ++ y :: mid) ++ y :: rest)
    by (by rewrite <-app_assoc).
  rewrite insert_middle by (rewrite length_app; cbn; lia). by rewrite <-app_assoc.
Qed.

(** One inner pass moves a minimum of the suffix to its front. *)
Lemma inner_pass pre rest x mid :
  ∃ m r, foldl (signing.swap_step (length pre)) (pre ++ x :: mid ++ rest)
           (seq (S (length pre) + length mid) (length rest)) = pre ++ m :: r ∧
         m :: r ≡ₚ x :: mid ++ rest ∧ c_le m x ∧ ∀ z, z ∈ rest → c_le m z.
Proof.
  revert x mid. induction rest as [|y rest IH]; intros x mid.
  - exists x, mid. cbn. rewrite app_nil_r. split_and!; [done | done | unfold key_le; lia |].
    by intros z ?%not_elem_of_nil.
  - cbn [length seq foldl]. rewrite swap_step_at.
    destruct (Z.ltb_spec (cm_Identifier y) (cm_Identifier x)) as [Hlt|Hge].
    + destruct (IH y (mid ++ [x])) as (m & r & Heq & Hp & Hm & Hz).
      exists m, r. rewrite <-app_assoc, length_app in Heq. cbn [length app] in Heq.
      replace (S (length pre) + (length mid + 1)) with (S (S (length pre) + length mid))
        in Heq by lia.
      split_and!; [done | | unfold key_le in *; lia |].
      * rewrite Hp, <-app_assoc. cbn [app]. rewrite <-!Permutation_middle. apply Permutation_swap.
      * intros z [->|Hin]%elem_of_cons; [done | by apply Hz].
    + destruct (IH x (mid ++ [y])) as (m & r & Heq & Hp & Hm & Hz).
      exists m, r. rewrite <-app_assoc, length_app in Heq. cbn [length app] in Heq.
      replace (S (length pre) + (length mid + 1)) with (S (S (length pre) + length mid))
        in Heq by lia.
      split_and!; [done | by rewrite Hp, <-app_assoc | done |].
      intros z [->|Hin]%elem_of_cons; [unfold key_le in *; lia | by apply Hz].
Qed.

Lemma outer_pass suf pre :
  StronglySorted c_le pre → (∀ a b, a ∈ pre → b ∈ suf → c_le a b) →
  let out := foldl (λ l i, foldl (signing.swap_step i) l (seq (S i) (length l - S i)))
               (pre ++ suf) (seq (length pre) (length suf)) in
  out ≡ₚ pre ++ suf ∧ StronglySorted c_le out.
Proof.
  remember (length suf) as n eqn:Hn. revert pre suf Hn.
  induction n as [|n IH]; intros pre suf Hn Hs Hle; cbn [seq foldl].
  - destruct suf; [| done]. by rewrite app_nil_r.
  - destruct suf as [|x rest]; [done |]. injection Hn as Hn.
    destruct (inner_pass pre rest x []) as (m & r & Heq & Hp & Hm & Hz).
    cbn [app length] in Heq, Hp. rewrite Nat.add_0_r in Heq.
    replace (length (pre ++ x :: rest) - S (length pre)) with (length rest)
      by (rewrite length_app; cbn; lia).
    rewrite Heq. replace (pre ++ m :: r) with ((pre ++ [m]) ++ r) by (by rewrite <-app_assoc).
    assert (Hmin : ∀ z, z ∈ x :: rest → c_le m z).
    { intros z [->|Hin]%elem_of_cons; [done | by apply Hz]. }
    assert (Hmem : ∀ z, z ∈ m :: r → z ∈ x :: rest) by (intros z; by rewrite Hp).
    specialize (IH (pre ++ [m]) r).
    replace (length (pre ++ [m])) with (S (length pre)) in IH by (rewrite length_app; cbn; lia).
    destruct IH as [HP HS].
    + apply Permutation_length in Hp. cbn in Hp. lia.
    + apply StronglySorted_snoc; [done |]. intros a Ha. apply Hle; [done |].
      apply Hmem, list_elem_of_here.
    + intros a b [Ha| ->%list_elem_of_singleton]%elem_of_app Hb.
      * apply Hle; [done |]. by apply Hmem, list_elem_of_further.
      * by apply Hmin, Hmem, list_elem_of_further.
    + split; [| done]. rewrite HP, <-app_assoc. cbn [app]. by rewrite Hp.
Qed.

(** The exchange sort returns the sorted permutation of its input. *)
Lemma sortCommitmentList_spec l :
  signing.sortCommitmentList l ≡ₚ l ∧ StronglySorted c_le (signing.sortCommitmentList l).
Proof.
  apply (outer_pass l []); [constructor | by intros a b ?%not_elem_of_nil].
Qed.

(** The insertion sort of the builder does too. *)
Lemma insert_left_perm c l : signingPackage.insert_left c l ≡ₚ c :: l.
Proof.
  induction l as [|x l IH]; cbn; [done |]. case_match; [| done].
  rewrite IH. apply Permutation_swap.
Qed.

Lemma insert_left_sorted c l :
  StronglySorted (flip c_le) l → StronglySorted (flip c_le) (signingPackage.insert_left c l).
Proof.
  induction 1 as [|x l Hs IH Hx]; cbn; [repeat constructor |].
  destruct (Z.ltb_spec (cm_Identifier c) (cm_Identifier x)).
  - constructor; [done |]. rewrite insert_left_perm. constructor; [| done].
    unfold flip, key_le. lia.
  - constructor; [by constructor |]. constructor; [unfold flip, key_le; lia |].
    eapply Forall_impl; [exact Hx |]. unfold flip, key_le. lia.
Qed.

Lemma StronglySorted_reverse l :
  StronglySorted (flip c_le) l → StronglySorted c_le (reverse l).
Proof.
  induction 1 as [|x l Hs IH Hx]; [constructor |]. rewrite reverse_cons.
  apply StronglySorted_snoc; [done |]. intros a Ha. rewrite Forall_forall in Hx.
  apply (Hx a). by apply elem_of_reverse.
Qed.

Lemma insertion_sort_spec l :
  signingPackage.insertion_sort l ≡ₚ l ∧ StronglySorted c_le (signingPackage.insertion_sort l).
Proof.
  unfold signingPackage.insertion_sort.
  assert (H : ∀ acc, StronglySorted (flip c_le) acc →
    let out := foldl (λ p k, signingPackage.insert_left k p) acc l in
    out ≡ₚ acc ++ l ∧ StronglySorted (flip c_le) out).
  { induction l as [|c l IH]; intros acc Hacc; cbn [foldl]; [by rewrite app_nil_r |].
    destruct (IH (signingPackage.insert_left c acc)) as [Hp Hs];
      [by apply insert_left_sorted |].
    split; [| done]. rewrite Hp, insert_left_perm. apply Permutation_middle. }
  destruct (H []) as [Hp Hs]; [constructor |]. cbn [app] in Hp. split.
  - by rewrite reverse_Permutation.
  - by apply StronglySorted_reverse.
Qed.
End SortFacts.

(** ** Independence of map iteration order; the builder *)

Section SigningFacts.
Context {G : Group}.
Implicit Types (l : CommitmentList).

Local Abbreviation ids l := (cm_Identifier <$> l).
Local Abbreviation c_le := (key_le cm_Identifier).

Lemma sort_NoDup l :
  NoDup (ids l) → StronglySorted Z.lt (ids (signing.sortCommitmentList l)).
Proof.
  intros Hnd. destruct (sortCommitmentList_spec l) as [Hp Hs].
  apply StronglySorted_key_lt; [done | by rewrite Hp].
Qed.

Lemma sort_Permutation l l' :
  l ≡ₚ l' → NoDup (ids l) → signing.sortCommitmentList l = signing.sortCommitmentList l'.
Proof.
  intros Hp Hnd. apply (sorted_unique cm_Identifier).
  - rewrite !(proj1 (sortCommitmentList_spec _)). done.
  - by apply sort_NoDup.
  - apply sort_NoDup. by rewrite <-Hp.
Qed.

Lemma check_sorted_le p zs :
  StronglySorted Z.le (p :: zs) → ¬ NoDup (p :: zs) →
  commitmentListEncoder.check_sorted p zs = Fail (Sentinel ErrDuplicateParticipant).
Proof.
  revert p. induction zs as [|z zs IH]; intros p Hs Hnd.
  - exfalso. apply Hnd. apply NoDup_singleton.
  - cbn. pose proof Hs as [Hs' Hp]%StronglySorted_inv.
    assert (p ≤ z)%Z by (apply Forall_cons in Hp as [? _]; lia).
    destruct (Z.leb_spec z p).
    + by rewrite (proj2 (Z.eqb_eq z p)) by lia.
    + apply IH; [done |]. intros Hz. apply Hnd. constructor; [| done].
      intros [->|Hin]%elem_of_cons; [lia |].
      apply StronglySorted_inv in Hs' as [_ Hz']. rewrite Forall_forall in Hz'.
      specialize (Hz' p Hin). lia.
Qed.

Lemma sorted_le_ids l : StronglySorted c_le l → StronglySorted Z.le (ids l).
Proof.
  induction 1 as [|c l Hs IH Hc]; [constructor |]. rewrite fmap_cons.
  constructor; [done |]. by apply Forall_fmap.
Qed.

(** Sorting brings duplicates together, where validation finds them. *)
Lemma validate_sorted_duplicates l :
  ¬ NoDup (ids l) →
  commitmentListEncoder.ValidateCommitmentList (signing.sortCommitmentList l)
  = Fail (Sentinel ErrDuplicateParticipant).
Proof.
  intros Hnd. destruct (sortCommitmentList_spec l) as [Hp Hs].
  destruct (signing.sortCommitmentList l) as [|c l'] eqn:E.
  - apply Permutation_nil in Hp as ->. exfalso. apply Hnd. constructor.
  - cbn. apply (check_sorted_le _ (ids l')).
    + by apply (sorted_le_ids (c :: l')).
    + change (¬ NoDup (ids (c :: l'))). by rewrite Hp.
Qed.

Lemma range_map_deref {A} (m : list (option A)) :
  (∃ xs, m = Some <$> xs ∧ range_map deref m = (Ok xs : Res (list A))) ∨
  (None ∈ m ∧ range_map deref m = (Panic : Res (list A))).
Proof.
  induction m as [|[x|] m IH]; [left; by exists [] | |].
  - destruct IH as [(xs & -> & H)|(Hin & H)]; cbn; rewrite H.
    + left. by exists (x :: xs).
    + right. split; [by apply list_elem_of_further | done].
  - right. split; [apply list_elem_of_here | done].
Qed.

Lemma range_map_deref_Some {A} (xs : list A) :
  range_map deref (Some <$> xs) = (Ok xs : Res (list A)).
Proof. induction xs as [|x xs IH]; [done |]. cbn. cbn in IH. by rewrite IH. Qed.

Lemma Permutation_fmap_Some {A} (xs : list A) m :
  m ≡ₚ Some <$> xs → ∃ ys, m = Some <$> ys ∧ ys ≡ₚ xs.
Proof.
  intros H. apply Permutation_map_inv in H as (ys & -> & H). by exists ys.
Qed.

Context {CS : Ciphersuite G}.

(** The share [Sign] produces does not depend on the order in which Go
    iterates over the commitment map, and neither does any error or panic. *)
Theorem Sign_order_independent msg kp np m1 m2 :
  m1 ≡ₚ m2 → signing.Sign msg kp np m1 = signing.Sign msg kp np m2.
Proof.
  intros Hp. unfold signing.Sign.
  destruct (range_map_deref m1) as [(l1 & -> & H1)|(Hin & H1)].
  - symmetry in Hp. apply Permutation_fmap_Some in Hp as (l2 & -> & Hp).
    rewrite !range_map_deref_Some. step.
    destruct (decide (NoDup (ids l1))) as [Hnd|Hnd]; [by rewrite (sort_Permutation l1 l2) |].
    unfold participant.RoundTwo.
    rewrite !validate_sorted_duplicates; [done | by rewrite Hp | done].
  - destruct (range_map_deref m2) as [(l2 & -> & _)|(_ & H2)]; [| by rewrite H1, H2].
    rewrite Hp in Hin. by apply list_elem_of_fmap in Hin as (x & ? & _).
Qed.

(** *** The builder *)

Lemma adjacent_equal_sorted p zs :
  StronglySorted Z.le (p :: zs) →
  signingPackage.adjacent_equal p zs = negb (bool_decide (NoDup (p :: zs))).
Proof.
  revert p. induction zs as [|z zs IH]; intros p Hs.
  - by rewrite bool_decide_eq_true_2 by apply NoDup_singleton.
  - pose proof Hs as [Hs' Hp]%StronglySorted_inv. cbn. rewrite (IH z Hs').
    destruct (Z.eqb_spec z p) as [->|Hne]; cbn.
    + rewrite bool_decide_eq_false_2; [done |]. intros [Hn _]%NoDup_cons.
      apply Hn, list_elem_of_here.
    + f_equal. apply bool_decide_ext. rewrite (NoDup_cons p).
      assert (p ∉ z :: zs); [| tauto]. intros [->|Hin]%elem_of_cons; [done |].
      apply Forall_cons in Hp as [Hz _]. apply StronglySorted_inv in Hs' as [_ Hall].
      rewrite Forall_forall in Hall. specialize (Hall p Hin). lia.
Qed.

Lemma increasing_spec p zs :
  signingPackage.increasing p zs = bool_decide (StronglySorted Z.lt (p :: zs)).
Proof.
  destruct (signingPackage.increasing p zs) eqn:E; symmetry.
  - apply bool_decide_eq_true, check_sorted_Ok. revert p E.
    induction zs as [|z zs IH]; intros p; cbn; [done |].
    case_match; [done |]. apply IH.
  - apply bool_decide_eq_false. intros H%check_sorted_Ok. revert p E H.
    induction zs as [|z zs IH]; intros p; cbn; [done |].
    case_match; [by destruct (z =? p)%Z |]. apply IH.
Qed.

(** The package builder rejects an empty and a duplicate-bearing set of
    commitments with the matching error, and otherwise builds the package whose
    list is the strictly sorted permutation of what was added: a list that
    round two's validation and [NewSigningPackage] both accept. *)
Theorem Build_spec (b : signingPackage.SigningPackageBuilder) :
  let cs := signingPackage.b_commitments b in
  (cs = [] → signingPackage.Build b = Fail (Sentinel ErrEmptyCommitmentList)) ∧
  (¬ NoDup (ids cs) → signingPackage.Build b = Fail (Sentinel ErrDuplicateParticipant)) ∧
  (cs ≠ [] → NoDup (ids cs) →
   ∃ sp, signingPackage.Build b = Ok sp ∧
     signingPackage.sp_CommitmentList sp ≡ₚ cs ∧
     commitmentListEncoder.ValidateCommitmentList (signingPackage.sp_CommitmentList sp) = Ok () ∧
     signingPackage.NewSigningPackage (signingPackage.b_message b)
       (signingPackage.sp_CommitmentList sp) (signingPackage.b_groupPublicKey b) = Ok sp).
Proof.
  intros cs. unfold signingPackage.Build. fold cs.
  destruct (insertion_sort_spec cs) as [Hp Hs].
  split; [by intros -> |].
  assert (Hne : cs ≠ [] → ∃ c l, signingPackage.insertion_sort cs = c :: l).
  { intros Hcs. destruct (signingPackage.insertion_sort cs); [| eauto].
    by apply Permutation_nil in Hp. }
  assert (Hadj : ∀ c l, signingPackage.insertion_sort cs = c :: l →
    signingPackage.adjacent_equal (cm_Identifier c) (ids l) = negb (bool_decide (NoDup (ids cs)))).
  { intros c l E. rewrite adjacent_equal_sorted.
    - f_equal. apply bool_decide_ext. change (NoDup (ids (c :: l)) ↔ NoDup (ids cs)).
      by rewrite <-E, Hp.
    - apply (sorted_le_ids (c :: l)). by rewrite <-E. }
  split.
  - intros Hnd. assert (Hcs : cs ≠ []) by (intros ->; apply Hnd; constructor).
    destruct (Hne Hcs) as (c & l & E). rewrite bool_decide_eq_false_2 by (by destruct cs). step.
    rewrite E, fmap_cons, (Hadj _ _ E), bool_decide_eq_false_2 by done. done.
  - intros Hcs Hnd. destruct (Hne Hcs) as (c & l & E).
    rewrite bool_decide_eq_false_2 by (by destruct cs). step.
    rewrite E, fmap_cons, (Hadj _ _ E), bool_decide_eq_true_2 by done. step.
    assert (Hlt : StronglySorted Z.lt (ids (c :: l))).
    { apply StronglySorted_key_lt; rewrite <-E; [done | by rewrite Hp]. }
    eexists. split; [reflexivity |]. cbn [signingPackage.sp_CommitmentList].
    rewrite <-E at 1. split; [done |]. split; [by apply ValidateCommitmentList_Ok |].
    cbn [signingPackage.NewSigningPackage]. rewrite increasing_spec.
    by rewrite bool_decide_eq_true_2.
Qed.
End SigningFacts.
