(* ===== verification/Preprocess.v ===== *)
(** * Preprocessed nonces: [pkg/frost/signing/preprocess.go]

    Batches of nonces made before the message is known, from the random source
    or from a seed, and the queue that hands them out.  The theorems: every
    generated pair is a valid round-one result, the queue gives out each pair
    exactly once and in order, and the deterministic derivation feeds the hash
    pairwise different inputs. *)

From S2P Require Export Signing.

Module preprocess.
Section Defs.
Context {G : Group} {CS : Ciphersuite G}.

Record PreprocessedNonces := {
  Nonces : list SigningNonces;
  pn_Commitments : list SigningCommitments;
}.

Definition Zeroize (p : PreprocessedNonces) : PreprocessedNonces :=
  {| Nonces := SigningNonces_Zeroize <$> Nonces p; pn_Commitments := pn_Commitments p |}.

Definition Len (p : PreprocessedNonces) : nat := length (Nonces p).

(** [None] stands for the zero structs and [false]. *)
Definition Next (p : PreprocessedNonces)
  : Res (option (SigningNonces * SigningCommitments) * PreprocessedNonces) :=
  match Nonces p with
  | [] => Ok (None, p)
  | nonces :: nonces' =>
      commitments ← index (pn_Commitments p) 0;
      Ok (Some (nonces, commitments),
          {| Nonces := nonces'; pn_Commitments := drop 1 (pn_Commitments p) |})
  end.

(** The parameter checks shared by both generators. *)
Definition check_params (count identifier : Z) : Res unit :=
  _ ← fail_if (count <=? 0)%Z
        (NewParameterError "count" "must be positive" (Sentinel ErrInvalidParameters));
  fail_if (identifier =? 0)%Z
    (NewParameterError "identifier" "cannot be zero" (Sentinel ErrInvalidParticipant)).

(** The tail of either loop body: commitments, identity checks, packing. *)
Definition commit_pair (identifier : Z) (hidingNonce bindingNonce : Scalar)
  : Res (SigningNonces * SigningCommitments) :=
  let hidingCommitment := ScalarBaseMult hidingNonce in
  let bindingCommitment := ScalarBaseMult bindingNonce in
  _ ← fail_if (e_IsIdentity hidingCommitment)
        (NewParameterError "hidingCommitment" "commitment is identity"
           (Sentinel ErrIdentityElement));
  _ ← fail_if (e_IsIdentity bindingCommitment)
        (NewParameterError "bindingCommitment" "commitment is identity"
           (Sentinel ErrIdentityElement));
  let commitments := {| cm_Identifier := identifier;
                        HidingNonceCommitment := Some hidingCommitment;
                        BindingNonceCommitment := Some bindingCommitment |} in
  Ok ({| HidingNonce := Some hidingNonce; BindingNonce := Some bindingNonce;
         Commitments := commitments |}, commitments).

Definition Preprocess (count identifier : Z) (secretShare : option Scalar)
  : Rand PreprocessedNonces :=
  _ ← lift (check_params count identifier);
  _ ← lift (fail_if (bool_decide (secretShare = None))
        (NewParameterError "secretShare" "cannot be nil" (Sentinel ErrInvalidParameters)));
  pairs ← rand_repeat (Z.to_nat count)
    (hidingNonce ← rand_wrap (NewParameterError "hidingNonce" "failed to generate")
                     RandomScalar;
     bindingNonce ← rand_wrap (NewParameterError "bindingNonce" "failed to generate")
                      RandomScalar;
     lift (commit_pair identifier hidingNonce bindingNonce));
  mret {| Nonces := pairs.*1; pn_Commitments := pairs.*2 |}.

(** [make([]byte, len(seed)+8+n)] with the seed, the low 32 bits of the
    index in little-endian order and the label; four bytes stay zero. *)
Definition derive_input (seed : bytes) (i : Z) (label : string) : bytes :=
  seed ++ [byte.of_Z i; byte.of_Z (Z.shiftr i 8); byte.of_Z (Z.shiftr i 16);
           byte.of_Z (Z.shiftr i 24)] ++ string_bytes label ++ zero_bytes 4.

Definition PreprocessDeterministic (count identifier : Z) (seed : bytes)
  : Res PreprocessedNonces :=
  _ ← check_params count identifier;
  _ ← fail_if (bool_decide (seed = []))
        (NewParameterError "seed" "cannot be empty" (Sentinel ErrInvalidParameters));
  pairs ← range_map (λ i,
    let hidingNonce := H3 (derive_input seed (Z.of_nat i) "hiding") in
    let bindingNonce := H3 (derive_input seed (Z.of_nat i) "binding") in
    commit_pair identifier hidingNonce bindingNonce) (seq 0 (Z.to_nat count));
  Ok {| Nonces := pairs.*1; pn_Commitments := pairs.*2 |}.
End Defs.
End preprocess.

(** ** Theorems *)

Section PreprocessFacts.
Context {G : Group} {L : GroupLaws G} {CS : Ciphersuite G}.
Local Open Scope scalar_scope.

(** [k] calls of [Next]. *)
Fixpoint take_nonces (k : nat) (p : preprocess.PreprocessedNonces)
  : Res (list (option (SigningNonces * SigningCommitments)) * preprocess.PreprocessedNonces) :=
  match k with
  | O => Ok ([], p)
  | S k' => '(o, p') ← preprocess.Next p;
            '(os, p'') ← take_nonces k' p';
            Ok (o :: os, p'')
  end.

Lemma take_nonces_Ok k p :
  length (preprocess.Nonces p) = length (preprocess.pn_Commitments p) →
  take_nonces k p = Ok
    ((Some <$> take k (zip (preprocess.Nonces p) (preprocess.pn_Commitments p))) ++
     replicate (k - length (preprocess.Nonces p))%nat None,
     {| preprocess.Nonces := drop k (preprocess.Nonces p);
        preprocess.pn_Commitments := drop k (preprocess.pn_Commitments p) |}).
Proof.
  revert p. induction k as [|k IH]; intros [ns cs] Hlen; [done |]. cbn in Hlen.
  cbn [take_nonces]. unfold preprocess.Next. cbn [preprocess.Nonces preprocess.pn_Commitments].
  destruct ns as [|n ns], cs as [|c cs]; try done.
  - step. rewrite IH by done. cbn. by rewrite !take_nil, !drop_nil, Nat.sub_0_r.
  - cbn. injection Hlen as Hlen. rewrite IH by done. cbn. by rewrite drop_0.
Qed.

(** The nonce queue hands out the stored pairs in order, each exactly once,
    and then only "none left"; what it has handed out is gone from the queue. *)
Theorem Next_hands_out_once k p :
  length (preprocess.Nonces p) = length (preprocess.pn_Commitments p) →
  ∃ out p', take_nonces k p = Ok (out, p') ∧
    out = (Some <$> take k (zip (preprocess.Nonces p) (preprocess.pn_Commitments p))) ++
          replicate (k - preprocess.Len p)%nat None ∧
    preprocess.Len p' = (preprocess.Len p - k)%nat ∧
    preprocess.Nonces p = take k (preprocess.Nonces p) ++ preprocess.Nonces p'.
Proof.
  intros Hlen. rewrite take_nonces_Ok by done. eexists _, _. split; [done |].
  split; [done |]. unfold preprocess.Len. cbn [preprocess.Nonces].
  rewrite length_drop, take_drop. done.
Qed.

Definition pair_ok (id : Z) (y : SigningNonces * SigningCommitments) : Prop :=
  ∃ d e, d ≠ 0 ∧ e ≠ 0 ∧ y = (round_one_nonces id d e, round_one_commitments id d e).

Lemma commit_pair_inv id d e y : preprocess.commit_pair id d e = Ok y → pair_ok id y.
Proof.
  unfold preprocess.commit_pair. rewrite !e_IsIdentity_decide. intros H. ok_inv. subst y.
  repeat match goal with H : bool_decide _ = false |- _ =>
    apply bool_decide_eq_false in H end.
  exists d, e. rewrite <-!base_identity_iff. done.
Qed.

(** What a generator returned: [count] well-formed round-one results, stored in
    step. *)
Definition preprocessed_ok (count id : Z) (p : preprocess.PreprocessedNonces) : Prop :=
  ∃ pairs, Z.of_nat (length pairs) = count ∧ Forall (pair_ok id) pairs ∧
    p = {| preprocess.Nonces := pairs.*1; preprocess.pn_Commitments := pairs.*2 |}.

(** Random preprocessing that succeeds yields [count] pairs, each of which
    is a valid round-one result of the given participant (non-zero nonces and
    their own commitments), and it only succeeds for a positive count, a
    non-zero identifier and a present secret share. *)
Theorem Preprocess_valid count id share r p r' :
  preprocess.Preprocess count id share r = (Ok p, r') →
  (0 < count)%Z ∧ id ≠ 0%Z ∧ is_Some share ∧ preprocessed_ok count id p.
Proof.
  intros H. unfold preprocess.Preprocess, preprocess.check_params in H. rand_inv.
  rename select (rand_repeat _ _ _ = _) into Hrep.
  repeat match goal with H : bool_decide _ = false |- _ =>
    apply bool_decide_eq_false in H end.
  rename select ((_ <=? _)%Z = false) into Hc. rename select ((_ =? _)%Z = false) into Hi.
  apply Z.leb_gt in Hc. apply Z.eqb_neq in Hi.
  split; [done |]. split; [done |]. split; [destruct share; [eauto | done] |].
  eexists. split; [| split; [| reflexivity]].
  - apply rand_repeat_length in Hrep. lia.
  - eapply rand_repeat_Forall; [| exact Hrep]. intros r1 y r2 Hy. rand_inv.
    by eapply commit_pair_inv.
Qed.

Lemma PreprocessDeterministic_valid count id seed p :
  preprocess.PreprocessDeterministic count id seed = Ok p →
  (0 < count)%Z ∧ id ≠ 0%Z ∧ seed ≠ [] ∧ preprocessed_ok count id p.
Proof.
  unfold preprocess.PreprocessDeterministic, preprocess.check_params. intros H. ok_inv.
  rename select (range_map _ _ = _) into Hmap.
  rename select ((_ <=? _)%Z = false) into Hc. rename select ((_ =? _)%Z = false) into Hi.
  rename select (bool_decide _ = false) into Hs.
  apply Z.leb_gt in Hc. apply Z.eqb_neq in Hi. apply bool_decide_eq_false in Hs.
  split; [done |]. split; [done |]. split; [done |].
  apply range_map_Ok in Hmap. eexists. split; [| split; [| by symmetry]].
  - apply Forall2_length in Hmap. rewrite length_seq in Hmap. lia.
  - clear H. induction Hmap as [|i y js ys Hy _ IH]; [constructor |].
    constructor; [by eapply commit_pair_inv | done].
Qed.

(** Deterministic preprocessing never feeds the nonce hash the same input
    twice for indices below [2^32]: the inputs of two draws agree only for the
    same index and the same label. *)
Theorem derive_input_injective seed i j a b :
  is_uint32 i → is_uint32 j → a ∈ ["hiding"%string; "binding"%string] →
  b ∈ ["hiding"%string; "binding"%string] →
  preprocess.derive_input seed i a = preprocess.derive_input seed j b → i = j ∧ a = b.
Proof.
  unfold preprocess.derive_input. intros Hi Hj Ha Hb H. rewrite !le_split_4 in H.
  apply app_inv_head in H. apply app_inj_1 in H as [Hij H]; [| by rewrite !length_le_split].
  split.
  - by apply le_split_4_inj.
  - repeat (apply elem_of_cons in Ha as [->|Ha]; [| try by apply not_elem_of_nil in Ha]);
    repeat (apply elem_of_cons in Hb as [->|Hb]; [| try by apply not_elem_of_nil in Hb]);
    done.
Qed.
End PreprocessFacts.
