(* ===== verification/Batch.v ===== *)
(** * Batch verification: [pkg/frost/signing/batch.go]

    The accumulating verifier and the random linear combination.  The theorems:
    a batch of valid signatures always verifies, whatever the blinds; a batch
    with exactly one invalid signature verifies only if that signature's blind
    is zero; and for a batch of at most one item the check is exact. *)

From S2P Require Export Signing.

Module batch.
Section Defs.
Context {G : Group} {CS : Ciphersuite G}.

Record BatchItem := {
  VerifyingKey : option Element;
  bi_Signature : Signature;
  Challenge : Scalar;
}.

Record BatchVerifier := { items : list BatchItem }.

Definition NewBatchVerifier : BatchVerifier := {| items := [] |}.

Definition Add (bv : BatchVerifier) (verifyingKey : option Element) (signature : Signature)
    (message : bytes) : Res BatchVerifier :=
  match verifyingKey with
  | None => Fail (NewParameterError "verifyingKey" "cannot be nil"
                    (Sentinel ErrInvalidParameters))
  | Some vk =>
      _ ← fail_if (e_IsIdentity vk)
            (NewParameterError "verifyingKey" "cannot be identity"
               (Sentinel ErrIdentityElement));
      match sig_R signature, sig_Z signature with
      | Some R, Some _ =>
          _ ← fail_if (e_IsIdentity R)
                (NewParameterError "signature.R" "R is identity element"
                   (Sentinel ErrIdentityElement));
          let challenge := H2 (e_Bytes R ++ e_Bytes vk ++ message) in
          Ok {| items := items bv ++
                  [{| VerifyingKey := verifyingKey; bi_Signature := signature;
                      Challenge := challenge |}] |}
      | _, _ => Fail (NewParameterError "signature" "invalid signature components"
                        (Sentinel ErrInvalidSignature))
      end
  end.

Definition verifySingle (item : BatchItem) : Res unit :=
  z ← deref (sig_Z (bi_Signature item));
  let left := ScalarBaseMult z in
  vk ← deref (VerifyingKey item);
  let cVK := ScalarMult vk (Challenge item) in
  R ← deref (sig_R (bi_Signature item));
  let right := e_Add R cVK in
  fail_if (negb (e_Equal left right))
    (NewVerificationError "signature" "signature verification failed"
       (Sentinel ErrInvalidSignature)).

(** One iteration over the items: the accumulators are
    [(gCoeff, accumR, accumVK)]. *)
Definition accumulate (acc : Scalar * Element * Element) (item : BatchItem)
  : Rand (Scalar * Element * Element) :=
  let '(gCoeff, accumR, accumVK) := acc in
  blind ← rand_wrap (NewParameterError "blind" "failed to generate random blind")
                    RandomScalar;
  z ← lift (deref (sig_Z (bi_Signature item)));
  let blindZ := s_Mul blind z in
  let gCoeff := s_Sub gCoeff blindZ in
  R ← lift (deref (sig_R (bi_Signature item)));
  let blindR := ScalarMult R blind in
  let accumR := e_Add accumR blindR in
  let blindC := s_Mul blind (Challenge item) in
  vk ← lift (deref (VerifyingKey item));
  let blindCVK := ScalarMult vk blindC in
  let accumVK := e_Add accumVK blindCVK in
  mret (gCoeff, accumR, accumVK).

Definition Verify (bv : BatchVerifier) : Rand unit :=
  match items bv with
  | [] => lift (Fail (NewParameterError "items" "batch is empty"
                        (Sentinel ErrInvalidParameters)))
  | [item] => lift (verifySingle item)
  | _ =>
      '(gCoeff, accumR, accumVK) ← rand_loop accumulate (items bv)
                                     (NewScalar, Identity, Identity);
      let gTerm := ScalarBaseMult gCoeff in
      let check := e_Add (e_Add gTerm accumR) accumVK in
      lift (fail_if (negb (e_IsIdentity check))
              (NewVerificationError "batch" "batch verification failed"
                 (Sentinel ErrInvalidSignature)))
  end.

Definition Size (bv : BatchVerifier) : nat := length (items bv).
Definition Clear (bv : BatchVerifier) : BatchVerifier := {| items := [] |}.

Definition VerifyAll (verifyingKeys : list (option Element)) (signatures : list Signature)
    (messages : list bytes) : Rand unit :=
  _ ← lift (fail_if (negb (length verifyingKeys =? length signatures) ||
                     negb (length signatures =? length messages))
        (NewParameterError "inputs" "mismatched input lengths"
           (Sentinel ErrInvalidParameters)));
  _ ← lift (fail_if (bool_decide (length signatures = 0))
        (NewParameterError "signatures" "no signatures to verify"
           (Sentinel ErrInvalidParameters)));
  bv ← lift (range_loop (λ bv '(vk, (sig, msg)), Add bv vk sig msg)
               (zip verifyingKeys (zip signatures messages)) NewBatchVerifier);
  Verify bv.
End Defs.
End batch.

(** ** Theorems *)

Section BatchFacts.
Context {G : Group} {L : GroupLaws G} {CS : Ciphersuite G}.
Add Field scalar_field : law_field.
Local Open Scope scalar_scope.
Local Open Scope element_scope.

(** An item as [Add] builds it. *)
Record item_view := { iv_vk : Element; iv_R : Element; iv_z : Scalar; iv_c : Scalar }.

Definition to_item (v : item_view) : batch.BatchItem :=
  {| batch.VerifyingKey := Some (iv_vk v);
     batch.bi_Signature := {| sig_R := Some (iv_R v); sig_Z := Some (iv_z v) |};
     batch.Challenge := iv_c v |}.

(** [R + c VK - z G]: the identity exactly for a valid item. *)
Definition defect (v : item_view) : Element :=
  iv_R v ⊞ iv_vk v ⊡ iv_c v ⊞ e_Negate (g^(iv_z v)).

Lemma defect_zero v : defect v = Identity ↔ g^(iv_z v) = iv_R v ⊞ iv_vk v ⊡ iv_c v.
Proof.
  unfold defect. split.
  - intros H. apply (e_add_cancel_l (e_Negate (g^(iv_z v)))).
    rewrite (law_e_comm _ (iv_R v ⊞ _)), H, law_e_comm. apply law_e_neg.
  - intros <-. apply law_e_neg.
Qed.

(** One iteration draws one blind. *)
Lemma accumulate_run g0 R0 V0 v r b r1 :
  RandomScalar r = (Ok b, r1) →
  batch.accumulate (g0, R0, V0) (to_item v) r =
    (Ok (g0 - b * iv_z v, R0 ⊞ iv_R v ⊡ b, V0 ⊞ iv_vk v ⊡ (b * iv_c v)), r1).
Proof.
  intros Hb. unfold batch.accumulate, rand_wrap, mbind, rand_mbind. rewrite Hb. done.
Qed.

Lemma neg_mult P x : e_Negate P ⊡ x = e_Negate (P ⊡ x).
Proof.
  apply (e_add_cancel_l (P ⊡ x)).
  by rewrite <-law_mult_e_add, !law_e_neg, mult_identity.
Qed.

Lemma base_neg x : g^(- x) = e_Negate (g^x).
Proof. by rewrite !law_base, mult_neg. Qed.

(** The accumulated check is the blinded sum of the defects. *)
Lemma accumulate_check g0 R0 V0 v b :
  (g^(g0 - b * iv_z v) ⊞ (R0 ⊞ iv_R v ⊡ b)) ⊞ (V0 ⊞ iv_vk v ⊡ (b * iv_c v))
  = ((g^g0 ⊞ R0) ⊞ V0) ⊞ defect v ⊡ b.
Proof.
  unfold defect. rewrite !law_mult_e_add, neg_mult, base_mul.
  replace (g0 - b * iv_z v) with (g0 + - (iv_z v * b)) by ring.
  rewrite base_add, base_neg, law_mult_mul, (mult_comm _ b).
  rewrite (e_add_swap (g^g0)), (e_add_swap (g^g0 ⊞ R0)). f_equal.
  rewrite <-law_e_assoc. apply law_e_comm.
Qed.

Lemma accumulate_loop vs g0 R0 V0 r bs r' :
  rand_repeat (length vs) RandomScalar r = (Ok bs, r') →
  ∃ g1 R1 V1, rand_loop batch.accumulate (to_item <$> vs) (g0, R0, V0) r
              = (Ok (g1, R1, V1), r') ∧
    (g^g1 ⊞ R1) ⊞ V1 = ((g^g0 ⊞ R0) ⊞ V0) ⊞ esum (zip_with (λ v b, defect v ⊡ b) vs bs).
Proof.
  revert g0 R0 V0 r bs. induction vs as [|v vs IH]; intros g0 R0 V0 r bs H.
  - cbn in H. rand_inv. exists g0, R0, V0. split; [done |]. cbn. by rewrite law_e_id.
  - cbn [length rand_repeat] in H. apply rand_bind_Ok in H as (b & r1 & Hb & H).
    apply rand_bind_Ok in H as (bs' & r2 & Hbs & H). rand_inv.
    destruct (IH (g0 - b * iv_z v) (R0 ⊞ iv_R v ⊡ b) (V0 ⊞ iv_vk v ⊡ (b * iv_c v)) _ _ Hbs)
      as (g1 & R1 & V1 & Hl & Hs).
    exists g1, R1, V1. split.
    + rewrite fmap_cons. cbn [rand_loop]. apply rand_bind_Ok. eexists _, r1.
      split; [by apply accumulate_run | done].
    + cbn [zip_with esum]. rewrite Hs, accumulate_check. by rewrite law_e_assoc.
Qed.

Lemma Verify_unfold xs :
  2 ≤ length xs →
  batch.Verify {| batch.items := xs |} =
    ('(gCoeff, accumR, accumVK) ← rand_loop batch.accumulate xs (NewScalar, Identity, Identity);
     lift (fail_if (negb (e_IsIdentity (e_Add (e_Add (ScalarBaseMult gCoeff) accumR) accumVK)))
             (NewVerificationError "batch" "batch verification failed"
                (Sentinel ErrInvalidSignature)))).
Proof. destruct xs as [|x1 [|x2 xs]]; [cbn; lia | cbn; lia | done]. Qed.

Lemma Verify_many vs r bs r' :
  2 ≤ length vs → rand_repeat (length vs) RandomScalar r = (Ok bs, r') →
  (fst (batch.Verify {| batch.items := to_item <$> vs |} r) = Ok () ↔
   esum (zip_with (λ v b, defect v ⊡ b) vs bs) = Identity).
Proof.
  intros Hlen Hbs.
  destruct (accumulate_loop vs NewScalar Identity Identity r bs r' Hbs)
    as (g1 & R1 & V1 & Hl & Hs).
  rewrite Verify_unfold by (by rewrite length_fmap).
  unfold mbind, rand_mbind. rewrite Hl. unfold lift. cbn [fst].
  rewrite law_NewScalar, base_zero, !law_e_id, e_id_l in Hs.
  rewrite Hs, e_IsIdentity_decide. case_bool_decide; cbn; split; done.
Qed.

Definition item_valid (v : item_view) : Prop := g^(iv_z v) = iv_R v ⊞ iv_vk v ⊡ iv_c v.

Lemma Verify_single v r :
  fst (batch.Verify {| batch.items := [to_item v] |} r) = Ok () ↔ item_valid v.
Proof.
  cbn. unfold item_valid. rewrite e_Equal_decide. case_bool_decide; cbn; split; done.
Qed.

Lemma valid_sum vs bs :
  Forall item_valid vs → esum (zip_with (λ v b, defect v ⊡ b) vs bs) = Identity.
Proof.
  intros H. revert bs. induction H as [|v vs Hv _ IH]; intros [|b bs]; try done.
  cbn [zip_with esum]. apply defect_zero in Hv. rewrite Hv, mult_identity, IH. apply law_e_id.
Qed.

(** Batch verification is complete: a non-empty batch of valid signatures
    verifies, whatever blinds a working random source yields. *)
Theorem batch_complete vs r :
  samples RandomScalar → rng_works r → vs ≠ [] → Forall item_valid vs →
  fst (batch.Verify {| batch.items := to_item <$> vs |} r) = Ok ().
Proof.
  intros Hs Hr Hne Hv. destruct vs as [|v1 [|v2 vs]]; [done | |].
  - apply Verify_single. by apply Forall_inv in Hv.
  - destruct (rand_repeat_total (length (v1 :: v2 :: vs)) _ Hs r Hr) as (bs & r' & Hbs & _).
    apply (Verify_many (v1 :: v2 :: vs) r bs r'); [cbn; lia | done | by apply valid_sum].
Qed.

Lemma defect_sum_split pre v post bs1 b bs2 :
  length bs1 = length pre →
  esum (zip_with (λ v b, defect v ⊡ b) (pre ++ v :: post) (bs1 ++ b :: bs2)) =
  defect v ⊡ b ⊞ esum (zip_with (λ v b, defect v ⊡ b) (pre ++ post) (bs1 ++ bs2)).
Proof.
  intros Hl. rewrite !zip_with_app by done. cbn [zip_with]. rewrite !esum_app. cbn [esum].
  rewrite !law_e_assoc. f_equal. apply law_e_comm.
Qed.

Lemma mult_inj P x y : P ≠ Identity → P ⊡ x = P ⊡ y → x = y.
Proof.
  intros HP H. destruct (decide (x = y)) as [|Hne]; [done | exfalso]. apply HP.
  assert (P ⊡ (x - y) = Identity) as H0.
  { replace (x - y) with (x + - y) by ring. rewrite law_mult_add, mult_neg, H. apply law_e_neg. }
  assert (Hd : x - y ≠ 0) by (by apply sub_nonzero).
  rewrite <-(law_mult_one P). replace (1 : Scalar) with ((x - y) * sc_inverse (x - y)).
  - by rewrite law_mult_mul, H0, mult_identity.
  - rewrite <-(inverse_l (x - y)) by done. ring.
Qed.

(** C40: batch verification is sound: if a batch contains an invalid signature,
    then for any choice of the other blinds at most one value of that
    signature's own blind lets the batch verify: two accepting runs whose
    blinds agree everywhere else agree on it too. *)
Theorem batch_sound pre v post bs1 bs2 b b' r1 r1' r2 r2' :
  ¬ item_valid v → pre ++ post ≠ [] → length bs1 = length pre →
  let vs := pre ++ v :: post in
  rand_repeat (length vs) RandomScalar r1 = (Ok (bs1 ++ b :: bs2), r1') →
  rand_repeat (length vs) RandomScalar r2 = (Ok (bs1 ++ b' :: bs2), r2') →
  fst (batch.Verify {| batch.items := to_item <$> vs |} r1) = Ok () →
  fst (batch.Verify {| batch.items := to_item <$> vs |} r2) = Ok () →
  b = b'.
Proof.
  intros Hbad Hne Hl vs Hb1 Hb2 Hv1 Hv2.
  assert (Hlen : 2 ≤ length vs).
  { unfold vs. clear -Hne. rewrite length_app. destruct pre, post; [done | | |]; cbn; lia. } 
  apply (Verify_many _ _ _ _ Hlen Hb1) in Hv1. apply (Verify_many _ _ _ _ Hlen Hb2) in Hv2.
  unfold vs in Hv1, Hv2. rewrite defect_sum_split in Hv1, Hv2 by done.
  apply (mult_inj (defect v)); [by rewrite defect_zero |].
  set (S := esum (zip_with (λ v b, defect v ⊡ b) (pre ++ post) (bs1 ++ bs2))) in *.
  apply (e_add_cancel_l S). by rewrite !(law_e_comm S), Hv1, Hv2.
Qed.
End BatchFacts.
