(* ===== verification/Rerandomized.v ===== *)
(** * Rerandomized signing: [pkg/frost/signing/rerandomized.go]

    Randomized parameters, randomized key packages and the wrappers around the
    participant and the aggregator.  The theorems: the randomized packages are a
    sharing of the secret plus the randomizer, and rerandomized signatures
    verify under the randomized group key. *)

From S2P Require Export Signing.

Module rerandomized.
Section Defs.
Context {G : Group} {CS : Ciphersuite G}.

Record RandomizedParams := {
  Randomizer : Scalar;
  RandomizerElement : Element;
  RandomizedVerifyingKey : Element;
}.

Definition NewRandomizedParams (randomizer : option Scalar) (groupPublicKey : option Element)
  : Res RandomizedParams :=
  match groupPublicKey, randomizer with
  | None, _ => Fail (NewParameterError "groupPublicKey" "cannot be nil"
                       (Sentinel ErrInvalidParameters))
  | _, None => Fail (NewParameterError "randomizer" "cannot be nil"
                       (Sentinel ErrInvalidParameters))
  | Some groupPublicKey, Some randomizer =>
      let randomizerElement := ScalarBaseMult randomizer in
      let randomizedPK := e_Add groupPublicKey randomizerElement in
      _ ← fail_if (e_IsIdentity randomizedPK)
            (NewParameterError "randomizedPublicKey"
               "randomized public key is identity element" (Sentinel ErrIdentityElement));
      Ok {| Randomizer := randomizer;
            RandomizerElement := randomizerElement;
            RandomizedVerifyingKey := randomizedPK |}
  end.

Definition ComputeRandomizer (msg : bytes) (commitmentList : CommitmentList)
    (randomness : option Scalar) (groupPublicKey : option Element) : Res RandomizedParams :=
  _ ← fail_if (bool_decide (groupPublicKey = None))
        (NewParameterError "groupPublicKey" "cannot be nil" (Sentinel ErrInvalidParameters));
  randomness ← deref randomness;
  input ← range_loop (λ input c,
    hiding ← deref (HidingNonceCommitment c);
    binding ← deref (BindingNonceCommitment c);
    Ok (input ++ Serialize (cm_Identifier c) ++ e_Bytes hiding ++ e_Bytes binding))
    commitmentList (s_Bytes randomness);
  let input := input ++ msg in
  NewRandomizedParams (Some (H3 input)) groupPublicKey.

(** [Y_i' = Y_i + randomizer * G], for every entry. *)
Definition randomize_shares (params : RandomizedParams) (vs : list VerificationShare)
  : Res (list VerificationShare) :=
  range_map (λ v,
    key ← deref (VerificationKey v);
    Ok {| vs_Identifier := vs_Identifier v;
          VerificationKey := Some (e_Add key (RandomizerElement params)) |}) vs.

Definition RandomizeKeyPackage (keyPackage : KeyPackage) (params : RandomizedParams)
  : Res KeyPackage :=
  secretShare ← deref (SecretShare keyPackage);
  let randomizedSecretShare := s_Add secretShare (Randomizer params) in
  randomizedVerificationShares ← randomize_shares params (VerificationShares keyPackage);
  Ok {| kp_Identifier := kp_Identifier keyPackage;
        SecretShare := Some randomizedSecretShare;
        GroupPublicKey := Some (RandomizedVerifyingKey params);
        VerificationShares := randomizedVerificationShares;
        MinSigners := MinSigners keyPackage;
        MaxSigners := MaxSigners keyPackage |}.

Definition RerandomizedSign (msg : bytes) (keyPackage : KeyPackage)
    (noncePkg : signing.NoncePackage) (commitments : list (option SigningCommitments))
    (params : RandomizedParams) : Res SignatureShare :=
  randomizedKeyPackage ← RandomizeKeyPackage keyPackage params;
  signing.Sign msg randomizedKeyPackage noncePkg commitments.

(** [verificationShares] lists the map's values in the order in which
    [Aggregate] ranges over the randomized map. *)
Definition RerandomizedAggregate (msg : bytes)
    (commitments : list (option SigningCommitments))
    (signatureShares : list (option SignatureShare))
    (verificationShares : list VerificationShare) (params : RandomizedParams)
  : Res Signature :=
  randomizedVerificationShares ← randomize_shares params verificationShares;
  signing.Aggregate msg commitments signatureShares randomizedVerificationShares
    (Some (RandomizedVerifyingKey params)).

Definition RerandomizedVerify (msg : bytes) (signature : Signature)
    (params : RandomizedParams) : Res unit :=
  signing.VerifySignature msg signature (Some (RandomizedVerifyingKey params)).

(** [RerandomizedParticipant]: a key package and the parameters it is signed
    under; every call randomizes the package anew. *)
Record RerandomizedParticipant := {
  rp_keyPackage : KeyPackage;
  rp_params : RandomizedParams;
}.
Definition NewRerandomizedParticipant (keyPackage : KeyPackage) (params : RandomizedParams)
  : RerandomizedParticipant := {| rp_keyPackage := keyPackage; rp_params := params |}.

Definition RoundOne (rp : RerandomizedParticipant) : Rand (SigningNonces * SigningCommitments) :=
  participant.RoundOne (rp_keyPackage rp).

Definition RoundTwo (rp : RerandomizedParticipant) (nonces : SigningNonces) (msg : bytes)
    (commitmentList : CommitmentList) : Res SignatureShare :=
  randomizedKeyPackage ← RandomizeKeyPackage (rp_keyPackage rp) (rp_params rp);
  participant.RoundTwo randomizedKeyPackage nonces msg commitmentList.

Record RerandomizedAggregator := {
  ra_minSigners : Z;
  ra_params : RandomizedParams;
}.
Definition NewRerandomizedAggregator (minSigners : Z) (params : RandomizedParams)
  : RerandomizedAggregator := {| ra_minSigners := minSigners; ra_params := params |}.

Definition Aggregate (ra : RerandomizedAggregator) (commitmentList : CommitmentList)
    (msg : bytes) (signatureShares : list SignatureShare)
    (verificationShares : list VerificationShare) : Res Signature :=
  randomizedVerificationShares ← randomize_shares (ra_params ra) verificationShares;
  aggregator.AggregateWithVerification (ra_minSigners ra)
    (Some (RandomizedVerifyingKey (ra_params ra)))
    commitmentList msg signatureShares randomizedVerificationShares.

Definition GetRandomizedPublicKey (ra : RerandomizedAggregator) : Element :=
  RandomizedVerifyingKey (ra_params ra).

Definition Verify (ra : RerandomizedAggregator) (msg : bytes) (signature : Signature) : Res unit :=
  aggregator.Verify msg signature (Some (RandomizedVerifyingKey (ra_params ra))).
End Defs.
End rerandomized.

(** ** Theorems *)

Section RerandomizedFacts.
Context {G : Group} {L : GroupLaws G} {CS : Ciphersuite G}.
Add Field scalar_field : law_field.
Local Open Scope scalar_scope.
Local Open Scope element_scope.
Implicit Types (cs : list Scalar) (a : Scalar).

(** The sharing polynomial with its constant term shifted by the randomizer. *)
Definition shift_constant (a : Scalar) (cs : list Scalar) : list Scalar :=
  match cs with [] => [] | c :: cs' => (c + a) :: cs' end.

Lemma peval_shift a cs x : cs ≠ [] → peval (shift_constant a cs) x = peval cs x + a.
Proof. destruct cs as [|c cs]; [done |]. intros _. cbn. ring. Qed.

Lemma shift_length a cs : length (shift_constant a cs) = length cs.
Proof. by destruct cs. Qed.

Lemma NewRandomizedParams_inv a pk params :
  rerandomized.NewRandomizedParams (Some a) (Some pk) = Ok params →
  params = {| rerandomized.Randomizer := a; rerandomized.RandomizerElement := g^a;
              rerandomized.RandomizedVerifyingKey := pk ⊞ g^a |} ∧ pk ⊞ g^a ≠ Identity.
Proof.
  unfold rerandomized.NewRandomizedParams. rewrite e_IsIdentity_decide. intros H. ok_inv.
  rename select (bool_decide _ = false) into Hb. apply bool_decide_eq_false in Hb.
  by subst params.
Qed.

Definition params_of (a : Scalar) (pk : Element) : rerandomized.RandomizedParams :=
  {| rerandomized.Randomizer := a; rerandomized.RandomizerElement := g^a;
     rerandomized.RandomizedVerifyingKey := pk ⊞ g^a |}.

Lemma randomize_public_shares a pk cs all :
  cs ≠ [] →
  rerandomized.randomize_shares (params_of a pk) (public_shares cs all)
  = Ok (public_shares (shift_constant a cs) all).
Proof.
  intros Hne. unfold rerandomized.randomize_shares, public_shares. rewrite range_map_fmap.
  apply range_map_total. intros id _. cbn. by rewrite peval_shift, base_add.
Qed.

Lemma randomize_dealt a cs t n all id :
  cs ≠ [] →
  rerandomized.RandomizeKeyPackage (dealt_package cs (public_shares cs all) t n id)
    (params_of a (g^(peval cs 0)))
  = Ok (dealt_package (shift_constant a cs) (public_shares (shift_constant a cs) all) t n id).
Proof.
  intros Hne. unfold rerandomized.RandomizeKeyPackage, dealt_package.
  cbn [SecretShare VerificationShares deref]. step. rewrite randomize_public_shares by done. step.
  by rewrite !peval_shift, base_add.
Qed.

(** The signer behind a dealt package, with the randomized package. *)
Definition randomized_signer (cs' : list Scalar) (all : list Z) (t n : Z) (p : signer) : signer :=
  {| s_kp := dealt_package cs' (public_shares cs' all) t n (signer_id p);
     s_d := s_d p; s_e := s_e p |}.

Lemma randomized_signers_ok cs' all t n ps :
  Forall is_uint32 all → signer_id <$> ps ⊆ all →
  Forall (λ p, s_d p ≠ 0 ∧ s_e p ≠ 0) ps →
  Forall (signer_ok cs' (g^(peval cs' 0)) t) (randomized_signer cs' all t n <$> ps).
Proof.
  intros Hu Hsub Hnz. rewrite Forall_forall in Hu. rewrite Forall_forall in Hnz. apply Forall_fmap, Forall_forall.
  intros p Hp. destruct (Hnz p Hp) as [Hd He].
  unfold signer_ok, signer_id; cbn. split_and!; try done.
  apply Hu, Hsub, list_elem_of_fmap. eauto.
Qed.

(** The randomized packages answer round two. *)
Lemma randomized_answers cs a all t n ps msg :
  let cs' := shift_constant a cs in
  let ps' := randomized_signer cs' all t n <$> ps in
  let l := signer_commitment <$> ps' in
  cs ≠ [] →
  (∀ p, p ∈ ps → s_kp p = dealt_package cs (public_shares cs all) t n (signer_id p)) →
  Forall (signer_ok cs' (g^(peval cs' 0)) t) ps' → session_ok l →
  (t ≤ Z.of_nat (length ps))%Z → session_chal (g^(peval cs' 0)) l msg ≠ 0 →
  range_map (λ '(kp, nonces), rerandomized.RoundTwo
      (rerandomized.NewRerandomizedParticipant kp (params_of a (g^(peval cs 0)))) nonces msg l)
    (zip (s_kp <$> ps) ((λ p, round_one_nonces (signer_id p) (s_d p) (s_e p)) <$> ps))
  = Ok (signer_share cs' (g^(peval cs' 0)) l msg <$> ps').
Proof.
  intros cs' ps' l Hne Hdealt Hok Hl Hlen Hc. rewrite zip_fmap_both, range_map_fmap.
  replace (signer_share cs' (g^(peval cs' 0)) l msg <$> ps') with
    ((λ p, signer_share cs' (g^(peval cs' 0)) l msg (randomized_signer cs' all t n p)) <$> ps)
    by (unfold ps'; by rewrite <-list_fmap_compose).
  apply range_map_total. intros p Hp. cbn.
  unfold rerandomized.RoundTwo. cbn [rerandomized.rp_keyPackage rerandomized.rp_params
    rerandomized.NewRerandomizedParticipant]. rewrite (Hdealt p Hp), randomize_dealt by done. step.
  fold cs'. rewrite Forall_forall in Hok.
  assert (Hp' : randomized_signer cs' all t n p ∈ ps') by (apply list_elem_of_fmap; eauto).
  apply (honest_round_two cs' _ t l msg (randomized_signer cs' all t n p));
    [done | by apply Hok | apply list_elem_of_fmap; eauto | | done].
  unfold l, ps'. rewrite !length_fmap. lia.
Qed.

(** C9: rerandomized signing works end to end: after [TrustedDealerKeygen], a
    quorum that runs round one and the rerandomized round two with shared
    parameters produces shares whose rerandomized aggregate verifies under the
    randomized group key [PK + r G]. *)
Theorem rerandomized_signing n t all r kps pkp r1 quorum msg rounds r2 a params :
  Forall is_uint32 all →
  TrustedDealerKeygen n t all r = (Ok (kps, pkp), r1) →
  rerandomized.NewRandomizedParams (Some a) (pkp_GroupPublicKey pkp) = Ok params →
  quorum ⊆ kps → StronglySorted Z.lt (kp_Identifier <$> quorum) →
  (t ≤ Z.of_nat (length quorum))%Z →
  let member kp := rerandomized.NewRerandomizedParticipant kp params in
  let agg := rerandomized.NewRerandomizedAggregator t params in
  rand_map (λ kp, rerandomized.RoundOne (member kp)) quorum r1 = (Ok rounds, r2) →
  let pk' := rerandomized.GetRandomizedPublicKey agg in
  group_commitment pk' rounds.*2 msg ≠ Identity → session_chal pk' rounds.*2 msg ≠ 0 →
  ∃ shares sig,
    range_map (λ '(kp, nonces), rerandomized.RoundTwo (member kp) nonces msg rounds.*2)
      (zip quorum rounds.*1) = Ok shares ∧
    rerandomized.Aggregate agg rounds.*2 msg shares (pkp_VerificationShares pkp) = Ok sig ∧
    rerandomized.Verify agg msg sig = Ok ().
Proof.
  intros Hu Hgen Hpar Hsub Hsort Hlen member agg Hr1. subst member agg.
  apply TrustedDealerKeygen_inv in Hgen as ((Ht & Hn & Hnd & _) & cs & Hcs & -> & ->); [| done].
  cbn [pkp_GroupPublicKey pkp_VerificationShares] in *.
  assert (Hne : cs ≠ []) by (intros ->; cbn in Hcs; lia).
  apply NewRandomizedParams_inv in Hpar as [-> Hid].
  cbn [rerandomized.GetRandomizedPublicKey rerandomized.NewRerandomizedAggregator
       rerandomized.ra_params rerandomized.RandomizedVerifyingKey].
  fold (params_of a (g^(peval cs 0))).
  apply RoundOne_signers in Hr1 as (ps & <- & Hnz & ->).
  assert (Hdealt : ∀ p, p ∈ ps →
    s_kp p = dealt_package cs (public_shares cs all) t n (signer_id p)).
  { intros p Hp. specialize (Hsub (s_kp p)).
    apply list_elem_of_fmap in Hsub as (id & Heq & _); [| apply list_elem_of_fmap; eauto].
    unfold signer_id. by rewrite Heq. }
  destruct (dealt_signer_ok _ _ _ _ _ _ Hu Hsub Hnz) as [_ Hids].
  set (cs' := shift_constant a cs). set (ps' := randomized_signer cs' all t n <$> ps).
  assert (Hpk : g^(peval cs 0) ⊞ g^a = g^(peval cs' 0))
    by (unfold cs'; by rewrite peval_shift, base_add).
  rewrite Hpk in Hid |- *.
  rewrite length_fmap in Hlen. rewrite <-list_fmap_compose in Hsort.
  assert (Hl : ((λ p, (round_one_nonces (signer_id p) (s_d p) (s_e p), signer_commitment p))
                  <$> ps).*2 = signer_commitment <$> ps')
    by (unfold ps'; by rewrite <-!list_fmap_compose).
  rewrite Hl. intros HR Hc. set (l := signer_commitment <$> ps') in *.
  assert (Hok : Forall (signer_ok cs' (g^(peval cs' 0)) t) ps')
    by (by apply randomized_signers_ok).
  assert (Hsort' : StronglySorted Z.lt (signer_id <$> ps'))
    by (unfold ps'; by rewrite <-list_fmap_compose).
  assert (Hne' : ps' ≠ []).
  { unfold ps'. destruct ps; [cbn in Hlen; lia | done]. }
  assert (Hsession : session_ok l) by (by eapply honest_session).
  assert (Hlen' : length ps' = length ps) by (unfold ps'; by rewrite length_fmap).
  exists (signer_share cs' (g^(peval cs' 0)) l msg <$> ps'),
    (assembled (g^(peval cs' 0)) l msg (signer_share cs' (g^(peval cs' 0)) l msg <$> ps')).
  split; [| unfold rerandomized.Aggregate; cbn [rerandomized.NewRerandomizedAggregator
    rerandomized.ra_params rerandomized.ra_minSigners]; rewrite randomize_public_shares by done; step].
  - rewrite <-list_fmap_compose. by apply randomized_answers.
  - unfold rerandomized.Verify.
    cbn [rerandomized.NewRerandomizedAggregator rerandomized.ra_params
         rerandomized.RandomizedVerifyingKey params_of].
    fold cs'. rewrite Hpk. eapply (honest_signature cs' _ t msg (public_shares cs' all) ps' 1%Z);
      try done; [lia | unfold cs'; rewrite shift_length; lia | by apply public_shares_keys_ok |].
    apply public_shares_keys. unfold ps'. by rewrite <-!list_fmap_compose.
Qed.
End RerandomizedFacts.
