(* ===== verification/Dkg.v ===== *)
(** * Distributed key generation: [pkg/frost/keygen/dkg]

    The three rounds of the protocol with its proofs of knowledge and share
    verification.  The theorems: honest proofs are accepted and two accepting
    answers to different challenges reveal the committed secret; a bad share is
    blamed on a sender who sent one; whatever the peers sent, a participant that
    finishes holds a key consistent with the public package; and when everybody
    is honest all participants agree on one sharing of the summed secret. *)

From S2P Require Export Keygen.

Module dkg.
Section Types.
Context {G : Group}.

Record Signature := { R : option Element; Z : option Scalar }.

Record Round1Package := {
  r1_Commitment : list (option Element);
  ProofOfKnowledge : Signature;
}.

Record Round1SecretPackage := {
  s1_Identifier : BinNums.Z;
  s1_Coefficients : list Scalar;
  s1_Commitment : list (option Element);
  s1_MinSigners : BinNums.Z;
  s1_MaxSigners : BinNums.Z;
}.

Record Round2Package := { SigningShare : option Scalar }.

Record Round2SecretPackage := {
  s2_Identifier : BinNums.Z;
  s2_Commitment : list (option Element);
  s2_SecretShare : option Scalar;
  s2_MinSigners : BinNums.Z;
  s2_MaxSigners : BinNums.Z;
}.

Record PublicKeyPackage := {
  VerifyingShares : gmap BinNums.Z Element;
  VerifyingKey : Element;
}.

Definition Round2Package_Zeroize (p : Round2Package) : Round2Package :=
  {| SigningShare := zeroize_scalar (SigningShare p) |}.

Definition Round1SecretPackage_Zeroize (sp : Round1SecretPackage) : Round1SecretPackage :=
  {| s1_Identifier := s1_Identifier sp;
     s1_Coefficients := (λ c, s_Sub c c) <$> s1_Coefficients sp;
     s1_Commitment := s1_Commitment sp;
     s1_MinSigners := s1_MinSigners sp;
     s1_MaxSigners := s1_MaxSigners sp |}.

Definition Round2SecretPackage_Zeroize (sp : Round2SecretPackage) : Round2SecretPackage :=
  {| s2_Identifier := s2_Identifier sp;
     s2_Commitment := s2_Commitment sp;
     s2_SecretShare := zeroize_scalar (s2_SecretShare sp);
     s2_MinSigners := s2_MinSigners sp;
     s2_MaxSigners := s2_MaxSigners sp |}.
End Types.

Section Defs.
Context {G : Group} {CS : Ciphersuite G}.
Local Abbreviation ZZ := BinNums.Z.

(** *** round1.go *)

Definition validateDKGParameters (minSigners maxSigners : ZZ) : Res unit :=
  _ ← fail_if (minSigners <? 2)%Z
        (NewParameterError "minSigners" "must be at least 2" (Sentinel ErrInvalidThreshold));
  _ ← fail_if (maxSigners <? 2)%Z
        (NewParameterError "maxSigners" "must be at least 2" (Sentinel ErrInvalidThreshold));
  fail_if (maxSigners <? minSigners)%Z
    (NewParameterError "minSigners" "cannot exceed maxSigners" (Sentinel ErrInvalidThreshold)).

Definition evaluatePolynomial (coefficients : list Scalar) (x : Scalar) : Scalar :=
  polynomialHelper.Evaluate {| Coefficients := coefficients |} x.

Definition computeChallenge (identifier : ZZ) (commitment R : option Element)
  : Res Scalar :=
  idBytes ← put_identifier identifier;
  commitment ← deref commitment;
  R ← deref R;
  Ok (HDKG (idBytes ++ e_Bytes commitment ++ e_Bytes R)).

Definition computeProofOfKnowledge (identifier : ZZ) (secret : Scalar) (commitment : Element)
  : Rand Signature :=
  k ← rand_wrap (NewParameterError "nonce" "failed to generate random nonce") RandomScalar;
  let R := ScalarBaseMult k in
  challenge ← lift (computeChallenge identifier (Some commitment) (Some R));
  let secretTimesChallenge := s_Mul secret challenge in
  let z := s_Add k secretTimesChallenge in
  mret {| R := Some R; Z := Some z |}.

Definition Part1 (identifier maxSigners minSigners : ZZ)
  : Rand (Round1SecretPackage * Round1Package) :=
  _ ← lift (validateDKGParameters minSigners maxSigners);
  _ ← lift (fail_if (identifier =? 0)%Z
        (NewParameterError "identifier" "cannot be zero" (Sentinel ErrInvalidParticipant)));
  coefficients ← rand_repeat (Z.to_nat minSigners)
    (rand_wrap (NewParameterError "coefficients" "failed to generate random coefficient")
               RandomScalar);
  let commitment := ScalarBaseMult <$> coefficients in
  secret ← lift (index coefficients 0);
  commitment0 ← lift (index commitment 0);
  proof ← computeProofOfKnowledge identifier secret commitment0;
  mret ({| s1_Identifier := identifier;
           s1_Coefficients := coefficients;
           s1_Commitment := Some <$> commitment;
           s1_MinSigners := minSigners;
           s1_MaxSigners := maxSigners |},
        {| r1_Commitment := Some <$> commitment; ProofOfKnowledge := proof |}).

Definition VerifyProofOfKnowledge (identifier : ZZ) (pkg : option Round1Package) : Res unit :=
  match pkg with
  | None => Fail (NewParameterError "package" "cannot be nil" (Sentinel ErrInvalidParameters))
  | Some pkg =>
      match r1_Commitment pkg with
      | [] => Fail (NewParameterError "commitment" "cannot be empty"
                      (Sentinel ErrInvalidCommitment))
      | commitment :: _ =>
          match R (ProofOfKnowledge pkg), Z (ProofOfKnowledge pkg) with
          | Some R, Some z =>
              challenge ← computeChallenge identifier commitment (Some R);
              commitment ← deref commitment;
              let left := ScalarBaseMult z in
              let commitmentTimesChallenge := ScalarMult commitment challenge in
              let right := e_Add R commitmentTimesChallenge in
              fail_if (negb (e_Equal left right))
                (NewProofOfKnowledgeError identifier
                   "verification failed: g^z != R + commitment^c"
                   (Sentinel ErrInvalidSignature))
          | _, _ => Fail (NewVerificationError "proof" "missing R or z component"
                            (Sentinel ErrInvalidParameters))
          end
      end
  end.

(** *** round2.go *)

Context {MO : MapOrder}.

Definition Part2 (secretPackage : option Round1SecretPackage)
    (round1Packages : gmap ZZ (option Round1Package))
  : Res (Round2SecretPackage * gmap ZZ Round2Package) :=
  match secretPackage with
  | None => Fail (NewParameterError "secretPackage" "cannot be nil"
                    (Sentinel ErrInvalidParameters))
  | Some sp =>
      let expectedCount := ((s1_MaxSigners sp - 1) mod 2 ^ 32)%Z in
      _ ← fail_if (negb (Z.of_nat (size round1Packages) =? expectedCount)%Z)
            (NewParameterError "round1Packages" "wrong number of packages received"
               (Sentinel ErrInsufficientParticipants));
      _ ← range_loop (λ _ '(senderID, pkg),
            pkg' ← deref pkg;
            _ ← fail_if (negb (Z.of_nat (length (r1_Commitment pkg')) =? s1_MinSigners sp)%Z)
                  (NewParticipantError senderID "invalid commitment length"
                     (Sentinel ErrInvalidCommitment));
            VerifyProofOfKnowledge senderID pkg) (range_entries 0 round1Packages) ();
      myIDScalar ← wrap (NewParameterError "identifier" "failed to convert to scalar")
                        (IdentifierToScalar (s1_Identifier sp));
      let ownShare := evaluatePolynomial (s1_Coefficients sp) myIDScalar in
      round2Packages ← range_loop (λ round2Packages '(peerID, _),
            peerIDScalar ← wrap (NewParticipantError peerID "failed to convert ID to scalar")
                                (IdentifierToScalar peerID);
            let share := evaluatePolynomial (s1_Coefficients sp) peerIDScalar in
            Ok (<[peerID := {| SigningShare := Some share |}]> round2Packages))
        (range_entries 1 round1Packages) (∅ : gmap ZZ Round2Package);
      Ok ({| s2_Identifier := s1_Identifier sp;
             s2_Commitment := s1_Commitment sp;
             s2_SecretShare := Some ownShare;
             s2_MinSigners := s1_MinSigners sp;
             s2_MaxSigners := s1_MaxSigners sp |}, round2Packages)
  end.

Definition evaluateCommitmentPolynomial (commitment : list (option Element)) (x : Scalar)
  : Res Element :=
  xPower ← polynomialHelper.scalarOne;
  fst <$> range_loop (λ '(result, xPower) c,
    c ← deref c;
    let term := ScalarMult c xPower in
    let result := e_Add result term in
    let xPower := s_Mul xPower x in
    Ok (result, xPower)) commitment (Identity, xPower).

Definition VerifyShare (identifier : ZZ) (share : option Scalar)
    (commitment : list (option Element)) : Res unit :=
  _ ← fail_if (bool_decide (length commitment = 0))
        (NewParameterError "commitment" "cannot be empty" (Sentinel ErrInvalidCommitment));
  match share with
  | None => Fail (NewParameterError "share" "cannot be nil" (Sentinel ErrInvalidParameters))
  | Some share =>
      idScalar ← wrap (NewParameterError "identifier" "failed to convert to scalar")
                      (IdentifierToScalar identifier);
      let left := ScalarBaseMult share in
      right ← evaluateCommitmentPolynomial commitment idScalar;
      fail_if (negb (e_Equal left right))
        (NewParticipantError identifier "invalid share" (Sentinel ErrInvalidKeyShare))
  end.

(** *** round3.go *)

(** [allCommitments]: the participant's own entry, then the peers' entries
    written over it. *)
Definition allCommitments (sp : Round2SecretPackage)
    (round1Packages : gmap ZZ (option Round1Package))
  : Res (gmap ZZ (list (option Element))) :=
  range_loop (λ all '(id, pkg), pkg ← deref pkg; Ok (<[id := r1_Commitment pkg]> all))
    (range_entries 2 round1Packages) {[ s2_Identifier sp := s2_Commitment sp ]}.

Definition aggregateCommitments (sp : Round2SecretPackage)
    (round1Packages : gmap ZZ (option Round1Package)) : Res PublicKeyPackage :=
  allCommitments ← allCommitments sp round1Packages;
  let numCoeffs := Z.to_nat (s2_MinSigners sp) in
  let summedCommitment := replicate numCoeffs Identity in
  summedCommitment ← range_loop (λ summed '(_, commitment),
      range_map (λ '(k, sum_k),
        ck ← index commitment k;
        ck ← deref ck;
        Ok (e_Add sum_k ck)) (imap pair summed))
    (range_entries 3 allCommitments) summedCommitment;
  groupPublicKey ← index summedCommitment 0;
  verifyingShares ← range_loop (λ verifyingShares '(id, _),
      idScalar ← wrap (NewParticipantError id "failed to convert ID to scalar")
                      (IdentifierToScalar id);
      verifyingShare ← evaluateCommitmentPolynomial (Some <$> summedCommitment) idScalar;
      Ok (<[id := verifyingShare]> verifyingShares))
    (range_entries 4 allCommitments) (∅ : gmap ZZ Element);
  Ok {| VerifyingShares := verifyingShares; VerifyingKey := groupPublicKey |}.

Definition Part3 (round2SecretPackage : option Round2SecretPackage)
    (round1Packages : gmap ZZ (option Round1Package))
    (round2Packages : gmap ZZ (option Round2Package))
  : Res (KeyPackage * PublicKeyPackage) :=
  match round2SecretPackage with
  | None => Fail (NewParameterError "round2SecretPackage" "cannot be nil"
                    (Sentinel ErrInvalidParameters))
  | Some sp =>
      let expectedCount := ((s2_MaxSigners sp - 1) mod 2 ^ 32)%Z in
      _ ← fail_if (negb (Z.of_nat (size round1Packages) =? expectedCount)%Z)
            (NewParameterError "round1Packages" "wrong number of packages"
               (Sentinel ErrInsufficientParticipants));
      _ ← fail_if (negb (Z.of_nat (size round2Packages) =? expectedCount)%Z)
            (NewParameterError "round2Packages" "wrong number of packages"
               (Sentinel ErrInsufficientParticipants));
      _ ← range_loop (λ _ '(id, _),
            fail_if (bool_decide (round2Packages !! id = None))
              (NewParticipantError id "missing round 2 package"
                 (Sentinel ErrInvalidParameters))) (range_entries 0 round1Packages) ();
      ownShare ← deref (s2_SecretShare sp);
      let signingShare := s_Copy ownShare in
      signingShare ← range_loop (λ signingShare '(senderID, round2Pkg),
          match round1Packages !! senderID with
          | None => Fail (NewParticipantError senderID "missing round 1 package"
                            (Sentinel ErrInvalidParameters))
          | Some round1Pkg =>
              round2Pkg ← deref round2Pkg;
              round1Pkg ← deref round1Pkg;
              _ ← wrap (NewSecretShareError senderID
                          "share verification failed: g^share != commitment evaluation")
                       (VerifyShare (s2_Identifier sp) (SigningShare round2Pkg)
                          (r1_Commitment round1Pkg));
              share ← deref (SigningShare round2Pkg);
              Ok (s_Add signingShare share)
          end) (range_entries 1 round2Packages) signingShare;
      publicKeyPackage ← aggregateCommitments sp round1Packages;
      let verificationShares :=
        (λ '(id, vk), {| vs_Identifier := id; VerificationKey := Some vk |}) <$>
          range_entries 5 (VerifyingShares publicKeyPackage) in
      Ok ({| kp_Identifier := s2_Identifier sp;
             SecretShare := Some signingShare;
             GroupPublicKey := Some (VerifyingKey publicKeyPackage);
             VerificationShares := verificationShares;
             MinSigners := s2_MinSigners sp;
             MaxSigners := s2_MaxSigners sp |}, publicKeyPackage)
  end.
End Defs.
End dkg.

(** ** Proofs of knowledge *)

Section DkgFacts.
Context {G : Group} {L : GroupLaws G} {CS : Ciphersuite G} {MO : MapOrder}.
Add Field scalar_field : law_field.
Local Open Scope scalar_scope.
Local Open Scope element_scope.
Implicit Types (id : Z) (Cs : list Element) (cs : list Scalar).

(** The challenge [HDKG(id || C || R)]. *)
Definition dkg_chal {CS' : Ciphersuite G} (id : Z) (C R : Element) : Scalar :=
  HDKG (identifier_bytes id ++ e_Bytes C ++ e_Bytes R).

Lemma computeChallenge_Ok {CS' : Ciphersuite G} id C R :
  dkg.computeChallenge (CS := CS') id (Some C) (Some R) = Ok (dkg_chal (CS' := CS') id C R).
Proof. unfold dkg.computeChallenge. by rewrite put_identifier_Ok. Qed.

Definition pok (C R : Element) (z : Scalar) (rest : list (option Element)) : dkg.Round1Package :=
  {| dkg.r1_Commitment := Some C :: rest;
     dkg.ProofOfKnowledge := {| dkg.R := Some R; dkg.Z := Some z |} |}.

Lemma VerifyProofOfKnowledge_pok {CS' : Ciphersuite G} id C R z rest :
  dkg.VerifyProofOfKnowledge (CS := CS') id (Some (pok C R z rest)) =
    fail_if (negb (bool_decide (g^z = R ⊞ C ⊡ dkg_chal (CS' := CS') id C R)))
      (NewProofOfKnowledgeError id "verification failed: g^z != R + commitment^c"
         (Sentinel ErrInvalidSignature)).
Proof.
  unfold dkg.VerifyProofOfKnowledge, pok. cbn [dkg.r1_Commitment dkg.ProofOfKnowledge dkg.R dkg.Z].
  rewrite computeChallenge_Ok. cbn. by rewrite e_Equal_decide.
Qed.

Lemma VerifyProofOfKnowledge_Ok {CS' : Ciphersuite G} id C R z rest :
  dkg.VerifyProofOfKnowledge (CS := CS') id (Some (pok C R z rest)) = Ok () ↔
  g^z = R ⊞ C ⊡ dkg_chal (CS' := CS') id C R.
Proof. rewrite VerifyProofOfKnowledge_pok. case_bool_decide; cbn; split; done. Qed.

(** The proof of knowledge is sound in the sense that matters: from two
    accepted proofs with the same commitment and the same first message, under
    hash functions that answer differently, the committed secret can be
    computed; so no one can prove knowledge of a secret it cannot compute. *)
Theorem proof_of_knowledge_extracts (CS1 CS2 : Ciphersuite G) id id' C R z z' rest rest' :
  dkg.VerifyProofOfKnowledge (CS := CS1) id (Some (pok C R z rest)) = Ok () →
  dkg.VerifyProofOfKnowledge (CS := CS2) id' (Some (pok C R z' rest')) = Ok () →
  dkg_chal (CS' := CS1) id C R ≠ dkg_chal (CS' := CS2) id' C R →
  C = g^((z - z') * sc_inverse (dkg_chal (CS' := CS1) id C R - dkg_chal (CS' := CS2) id' C R)).
Proof.
  rewrite !VerifyProofOfKnowledge_Ok.
  set (c := dkg_chal (CS' := CS1) id C R). set (c' := dkg_chal (CS' := CS2) id' C R).
  intros H1 H2 Hne. assert (Hd : c - c' ≠ 0) by (by apply sub_nonzero).
  assert (Hz : g^(z - z') = C ⊡ (c - c')).
  { apply (e_add_cancel_l (g^z')). rewrite <-base_add.
    replace (z' + (z - z')) with z by ring. rewrite H1, H2, <-law_e_assoc. f_equal.
    rewrite <-law_mult_add. f_equal. ring. }
  rewrite <-base_mul, Hz, <-law_mult_mul, <-(law_mult_one C) at 1. f_equal.
  rewrite <-(inverse_l (c - c')) by done. ring.
Qed.

(** *** Round one *)

(** The coefficient commitments, as they travel. *)
Definition commits cs : list (option Element) := Some <$> ((λ c, g^c) <$> cs).

(** What an honest participant produces from its polynomial and nonce. *)
Definition honest_secret (id n t : Z) cs : dkg.Round1SecretPackage :=
  {| dkg.s1_Identifier := id; dkg.s1_Coefficients := cs; dkg.s1_Commitment := commits cs;
     dkg.s1_MinSigners := t; dkg.s1_MaxSigners := n |}.
Definition honest_package id cs (k : Scalar) : dkg.Round1Package :=
  {| dkg.r1_Commitment := commits cs;
     dkg.ProofOfKnowledge :=
       {| dkg.R := Some (g^k);
          dkg.Z := Some (k + peval cs 0 * dkg_chal id (g^(peval cs 0)) (g^k)) |} |}.

Lemma Part1_inv id n t r sp pkg r' :
  dkg.Part1 id n t r = (Ok (sp, pkg), r') →
  (2 ≤ t ≤ n)%Z ∧ id ≠ 0%Z ∧
  ∃ cs k, length cs = Z.to_nat t ∧ sp = honest_secret id n t cs ∧ pkg = honest_package id cs k.
Proof.
  unfold dkg.Part1, dkg.validateDKGParameters, dkg.computeProofOfKnowledge.
  intros H. rand_inv.
  rename select ((t <? 2)%Z = false) into Ht. rename select ((n <? t)%Z = false) into Hn.
  rename select ((id =? 0)%Z = false) into Hid.
  rename select (rand_repeat _ _ _ = _) into Hcs.
  rename select (dkg.computeChallenge _ _ _ = _) into Hc.
  apply Z.ltb_ge in Ht, Hn. apply Z.eqb_neq in Hid. apply rand_repeat_length in Hcs.
  split; [lia |]. split; [done |].
  match type of Hcs with length ?l = _ => destruct l as [|c0 cs] end; [cbn in Hcs; lia |].
  unfold index in *. cbn in *. ok_inv. simplify_eq.
  rewrite computeChallenge_Ok in Hc. injection Hc as <-.
  eexists (_ :: cs), _. split; [exact Hcs |]. split; [reflexivity |].
  unfold honest_package. by rewrite (peval_zero (_ :: cs)).
Qed.

Lemma honest_proof_accepted id cs k :
  cs ≠ [] → dkg.VerifyProofOfKnowledge id (Some (honest_package id cs k)) = Ok ().
Proof.
  intros Hne. destruct cs as [|c0 cs]; [done |]. unfold honest_package.
  rewrite (peval_zero (c0 :: cs)). cbn [hd].
  apply (VerifyProofOfKnowledge_Ok id (g^c0) (g^k) _ (commits cs)).
  by rewrite base_mul, <-base_add.
Qed.

(** The proof of knowledge is complete: whatever the random source
    yields, the package [Part1] broadcasts passes [VerifyProofOfKnowledge], and
    it commits to [t] coefficients. *)
Theorem Part1_proof_accepted id n t r sp pkg r' :
  dkg.Part1 id n t r = (Ok (sp, pkg), r') →
  dkg.VerifyProofOfKnowledge id (Some pkg) = Ok () ∧
  Z.of_nat (length (dkg.r1_Commitment pkg)) = t.
Proof.
  intros H. apply Part1_inv in H as (Ht & _ & cs & k & Hl & _ & ->). split.
  - apply honest_proof_accepted. intros ->. cbn in Hl. lia.
  - unfold honest_package, commits. cbn [dkg.r1_Commitment]. rewrite !length_fmap. lia.
Qed.

(** *** Share verification *)

Lemma evaluateCommitmentPolynomial_Ok Cs x :
  dkg.evaluateCommitmentPolynomial (Some <$> Cs) x = Ok (ceval Cs x).
Proof.
  unfold dkg.evaluateCommitmentPolynomial. rewrite scalarOne_Ok. step.
  assert (H : ∀ acc p, fst <$> range_loop (λ '(result, xPower) c,
      c ← deref c; let term := ScalarMult c xPower in
      let result := e_Add result term in let xPower := s_Mul xPower x in
      Ok (result, xPower)) (Some <$> Cs) (acc, p) = (Ok (acc ⊞ ceval Cs x ⊡ p) : Res Element)).
  { induction Cs as [|C Cs IH]; intros acc p; cbn.
    - by rewrite mult_identity, law_e_id.
    - cbn in IH. rewrite IH, <-law_e_assoc. do 2 f_equal.
      rewrite law_mult_e_add, <-!law_mult_mul. do 2 f_equal. ring. }
  rewrite H. by rewrite law_mult_one, e_id_l.
Qed.

(** A commitment vector whose entries are all present. *)
Lemma evaluateCommitmentPolynomial_inv vs x y :
  dkg.evaluateCommitmentPolynomial vs x = Ok y → ∃ Cs, vs = Some <$> Cs ∧ y = ceval Cs x.
Proof.
  intros H. assert (∃ Cs, vs = Some <$> Cs) as [Cs ->].
  { unfold dkg.evaluateCommitmentPolynomial in H. rewrite scalarOne_Ok in H.
    ok_inv. rename select (range_loop _ _ _ = _) into Hl. clear H.
    match type of Hl with range_loop _ _ (_, ?q) = _ => clear -Hl; revert Hl; generalize q end.
    generalize (@Identity G) as a.
    induction vs as [|[C|] vs IH]; intros a p Hl; [by exists [] | | done].
    destruct (IH _ _ Hl) as [Cs ->]. by exists (C :: Cs). }
  rewrite evaluateCommitmentPolynomial_Ok in H. injection H as <-. eauto.
Qed.

Lemma dkg_VerifyShare_Ok id s Cs :
  is_uint32 id → Cs ≠ [] →
  dkg.VerifyShare id (Some s) (Some <$> Cs) =
    fail_if (negb (bool_decide (g^s = ceval Cs (sc id))))
      (NewParticipantError id "invalid share" (Sentinel ErrInvalidKeyShare)).
Proof.
  intros Hid Hne. unfold dkg.VerifyShare. rewrite bool_decide_eq_false_2 by (by destruct Cs).
  step. rewrite IdentifierToScalar_Ok by done. step.
  rewrite evaluateCommitmentPolynomial_Ok. step. by rewrite e_Equal_decide.
Qed.

Lemma dkg_VerifyShare_inv id s vs :
  is_uint32 id → dkg.VerifyShare id s vs = Ok () →
  ∃ x Cs, s = Some x ∧ vs = Some <$> Cs ∧ Cs ≠ [] ∧ g^x = ceval Cs (sc id).
Proof.
  intros Hid H. unfold dkg.VerifyShare in H. ok_inv. destruct s as [x|]; [| done].
  rewrite IdentifierToScalar_Ok in H by done. ok_inv. simplify_eq.
  rename select (dkg.evaluateCommitmentPolynomial _ _ = _) into He.
  rename select (bool_decide _ = false) into Hb. apply bool_decide_eq_false in Hb.
  apply evaluateCommitmentPolynomial_inv in He as (Cs & -> & ->).
  exists x, Cs. split; [done |]. split; [done |]. split; [by intros -> |].
  rewrite e_Equal_decide in H. apply negb_false_iff, bool_decide_eq_true in H. done.
Qed.

(** *** Aggregating commitments *)

Definition present (c : list (option Element)) : list Element := omap (λ o, o) c.

Lemma present_Some Cs : present (Some <$> Cs) = Cs.
Proof. unfold present. induction Cs as [|C Cs IH]; [done |]. cbn. by f_equal. Qed.

Lemma add_row off summed (c : list (option Element)) Cs :
  drop off c = Some <$> Cs → length Cs = length summed →
  range_map (λ '(k, sum_k), ck ← index c k; ck ← deref ck; Ok (e_Add sum_k ck))
    (imap (λ i, pair (off + i)%nat) summed) = (Ok (zip_with e_Add summed Cs) : Res _).
Proof.
  revert off Cs. induction summed as [|s summed IH]; intros off [|C Cs] Hd Hl; try done.
  rewrite imap_cons. cbn [range_map]. unfold index at 1. rewrite Nat.add_0_r.
  assert (Hc : c !! off = Some (Some C)).
  { rewrite <-(Nat.add_0_r off), <-lookup_drop, Hd. done. }
  rewrite Hc. cbn [deref mbind outcome_mbind outcome_bind].
  assert (Hd' : drop (S off) c = Some <$> Cs).
  { rewrite <-Nat.add_1_r, <-drop_drop, Hd. done. }
  specialize (IH (S off) Cs Hd' ltac:(cbn in Hl; lia)).
  replace (imap ((λ i, pair (off + i)%nat) ∘ S) summed)
    with (imap (λ i, pair (S off + i)%nat) summed); [by rewrite IH |].
  apply imap_ext. intros j x _. cbn. f_equal. lia.
Qed.

(** The summing loop over commitment vectors of equal length. *)
Definition row_ok (t : nat) (c : list (option Element)) : Prop :=
  ∃ Cs, c = Some <$> Cs ∧ length Cs = t.

Lemma sum_rows t (l : list (Z * list (option Element))) summed :
  length summed = t → Forall (λ e, row_ok t (snd e)) l →
  ∃ out, range_loop (λ summed '(_, commitment),
      range_map (λ '(k, sum_k), ck ← index commitment k; ck ← deref ck; Ok (e_Add sum_k ck))
        (imap pair summed)) l summed = (Ok out : Res _) ∧
    length out = t ∧
    ∀ x, ceval out x = ceval summed x ⊞ esum ((λ e, ceval (present (snd e)) x) <$> l).
Proof.
  intros Hs Hl. revert summed Hs. induction Hl as [|[id c] l (Cs & Hc & Hlen) _ IH];
    intros summed Hs; cbn [range_loop].
  - exists summed. split; [done |]. split; [done |]. intros x. cbn. by rewrite law_e_id.
  - cbn in Hc. subst c.
    pose proof (add_row 0 summed (Some <$> Cs) Cs eq_refl ltac:(lia)) as Hrow.
    cbn [Nat.add] in Hrow. change (imap (λ i, pair i) summed) with (imap pair summed) in Hrow.
    rewrite Hrow. destruct (IH (zip_with e_Add summed Cs)) as (out & Ho & Hlo & Hev).
    { rewrite length_zip_with. lia. }
    exists out. split; [done |]. split; [done |]. intros x. rewrite Hev, ceval_zip_add by lia.
    rewrite fmap_cons. cbn [esum snd]. by rewrite present_Some, law_e_assoc.
Qed.

Lemma ceval_replicate_id n x : ceval (replicate n Identity) x = Identity.
Proof. induction n as [|n IH]; cbn; [done |]. by rewrite IH, mult_identity, law_e_id. Qed.

(** The sum over all participants of their committed polynomials at [x]. *)
Definition total_eval (full : gmap Z (list Element)) (x : Scalar) : Element :=
  esum ((λ e, ceval (snd e) x) <$> map_to_list full).

Lemma total_eval_entries s full x :
  esum ((λ e, ceval (present (snd e)) x) <$>
          range_entries s ((λ Cs : list Element, Some <$> Cs) <$> full)) = total_eval full x.
Proof.
  rewrite range_entries_perm, map_to_list_fmap, <-list_fmap_compose. unfold total_eval.
  f_equal. apply list_fmap_ext. intros i [id Cs] _. cbn. by rewrite present_Some.
Qed.

(** Storing a computed value per key, in whatever order. *)
Lemma store_loop {A B} s (m : gmap Z A) (f : Z → A → B) (body : gmap Z B → Z * A → Res (gmap Z B))
    (m0 : gmap Z B) :
  (∀ acc id a, m !! id = Some a → body acc (id, a) = Ok (<[id := f id a]> acc)) →
  range_loop body (range_entries s m) m0 = Ok (map_imap (λ id a, Some (f id a)) m ∪ m0).
Proof.
  intros Hb. rewrite (range_loop_total _ (λ acc '(id, a), <[id := f id a]> acc)).
  - f_equal. apply map_eq. intros k.
    transitivity (foldl (λ m '(k, v), <[k := v]> m) m0
      ((λ '(id, a), (id, f id a)) <$> range_entries s m) !! k).
    { f_equal. generalize (range_entries s m) as l. clear. intros l. revert m0.
      induction l as [|[id a] l IH]; intros m0; [done | apply IH]. }
    assert (Hfst : ((λ '(id, a), (id, f id a)) <$> range_entries s m).*1 = (range_entries s m).*1).
    { rewrite <-list_fmap_compose. apply list_fmap_ext. by intros i []. }
    rewrite foldl_insert_lookup by (rewrite Hfst; apply range_entries_NoDup).
    rewrite lookup_union, map_lookup_imap. destruct (m !! k) as [a|] eqn:Hk; cbn.
    + rewrite (elem_of_list_to_map_1 _ k (f k a)).
      * by destruct (m0 !! k).
      * rewrite Hfst. apply range_entries_NoDup.
      * apply list_elem_of_fmap. exists (k, a). split; [done |].
        by apply elem_of_range_entries.
    + rewrite (proj1 (not_elem_of_list_to_map _ k)).
      * by destruct (m0 !! k).
      * rewrite Hfst. intros ([k' a] & Hkk & Hin)%list_elem_of_fmap. cbn in Hkk. subst k'.
        apply elem_of_range_entries in Hin. congruence.
  - intros acc [id a] Hin%elem_of_range_entries. by apply Hb.
Qed.

Definition peer_commitments (r1 : gmap Z (option dkg.Round1Package)) : gmap Z (list Element) :=
  (λ o, match o with Some p => present (dkg.r1_Commitment p) | None => [] end) <$> r1.

(** Every peer package is present and commits to [t] coefficients. *)
Definition packages_ok (t : nat) (r1 : gmap Z (option dkg.Round1Package)) : Prop :=
  map_Forall (λ id o, is_uint32 id ∧ ∃ p, o = Some p ∧ row_ok t (dkg.r1_Commitment p)) r1.

Definition public_package (full : gmap Z (list Element)) : dkg.PublicKeyPackage :=
  {| dkg.VerifyingShares := map_imap (λ id _, Some (total_eval full (sc id))) full;
     dkg.VerifyingKey := total_eval full 0 |}.

Lemma aggregateCommitments_Ok sp r1 Cs0 t :
  dkg.s2_MinSigners sp = Z.of_nat (S t) → dkg.s2_Commitment sp = Some <$> Cs0 →
  length Cs0 = S t → is_uint32 (dkg.s2_Identifier sp) → packages_ok (S t) r1 →
  dkg.aggregateCommitments sp r1 =
    Ok (public_package (peer_commitments r1 ∪ {[ dkg.s2_Identifier sp := Cs0 ]})).
Proof.
  intros Ht Hc Hl Hid Hr1. unfold dkg.aggregateCommitments.
  set (full := peer_commitments r1 ∪ {[ dkg.s2_Identifier sp := Cs0 ]}).
  assert (Hall : dkg.allCommitments sp r1 = Ok ((λ Cs : list Element, Some <$> Cs) <$> full)).
  { unfold dkg.allCommitments.
    rewrite (store_loop 2 r1 (λ _ o, match o with Some p => dkg.r1_Commitment p | None => [] end)).
    - f_equal. unfold full. rewrite map_fmap_union, map_fmap_singleton, Hc. f_equal.
      unfold peer_commitments. apply map_eq. intros k.
      rewrite map_lookup_imap, !lookup_fmap. destruct (r1 !! k) as [o|] eqn:Hk; [| done]. cbn.
      destruct (Hr1 _ _ Hk) as (_ & p & -> & Cs & -> & _). by rewrite present_Some.
    - intros acc id o Ho. destruct (Hr1 _ _ Ho) as (_ & p & -> & _). done. }
  rewrite Hall. step.
  assert (Hfull : map_Forall (λ id Cs, is_uint32 id ∧ length Cs = S t) full).
  { apply map_Forall_union_2.
    - intros id Cs. unfold peer_commitments. rewrite lookup_fmap_Some.
      intros (o & <- & Ho). destruct (Hr1 _ _ Ho) as (Hu & p & -> & Cs' & -> & Hl').
      by rewrite present_Some.
    - by apply map_Forall_singleton. }
  rewrite Ht, Nat2Z.id.
  destruct (sum_rows (S t) (range_entries 3 ((λ Cs : list Element, Some <$> Cs) <$> full))
    (replicate (S t) Identity)) as (out & Hout & Hlo & Hev).
  { apply length_replicate. }
  { apply Forall_forall. intros [id c] Hin%elem_of_range_entries.
    apply lookup_fmap_Some in Hin as (Cs & <- & HCs). exists Cs. split; [done |].
    by apply Hfull in HCs as []. }
  rewrite Hout. step.
  assert (Htot : ∀ x, ceval out x = total_eval full x).
  { intros x. by rewrite Hev, ceval_replicate_id, e_id_l, total_eval_entries. }
  destruct out as [|C0 out]; [done |]. unfold index at 1. cbn [lookup list_lookup deref]. step.
  rewrite (store_loop 4 ((λ Cs : list Element, Some <$> Cs) <$> full)
    (λ id _, total_eval full (sc id))).
  - step. f_equal. unfold public_package. f_equal.
    + rewrite map_union_empty. apply map_eq. intros k. rewrite !map_lookup_imap, lookup_fmap.
      by destruct (full !! k).
    + rewrite <-Htot, ceval_zero. done.
  - intros acc id c (Cs & <- & HCs)%lookup_fmap_Some. apply Hfull in HCs as [Hu _].
    rewrite IdentifierToScalar_Ok by done. step.
    rewrite evaluateCommitmentPolynomial_Ok. step. by rewrite Htot.
Qed.

(** *** Round three *)

(** The value a received share contributes, or the error that names its
    sender. *)
Definition receive (own : Z) (r1 : gmap Z (option dkg.Round1Package))
    (e : Z * option dkg.Round2Package) : Res Scalar :=
  let '(senderID, round2Pkg) := e in
  match r1 !! senderID with
  | None => Fail (NewParticipantError senderID "missing round 1 package"
                    (Sentinel ErrInvalidParameters))
  | Some round1Pkg =>
      round2Pkg ← deref round2Pkg;
      round1Pkg ← deref round1Pkg;
      _ ← wrap (NewSecretShareError senderID
                  "share verification failed: g^share != commitment evaluation")
               (dkg.VerifyShare own (dkg.SigningShare round2Pkg) (dkg.r1_Commitment round1Pkg));
      deref (dkg.SigningShare round2Pkg)
  end.

(** [Part3] with its share loop split into "receive" and "sum". *)
Lemma Part3_receive sp r1 r2 :
  dkg.Part3 (Some sp) r1 r2 =
    (let expectedCount := ((dkg.s2_MaxSigners sp - 1) mod 2 ^ 32)%Z in
     _ ← fail_if (negb (Z.of_nat (size r1) =? expectedCount)%Z)
           (NewParameterError "round1Packages" "wrong number of packages"
              (Sentinel ErrInsufficientParticipants));
     _ ← fail_if (negb (Z.of_nat (size r2) =? expectedCount)%Z)
           (NewParameterError "round2Packages" "wrong number of packages"
              (Sentinel ErrInsufficientParticipants));
     _ ← range_loop (λ _ e, fail_if (bool_decide (r2 !! fst e = None))
           (NewParticipantError (fst e) "missing round 2 package"
              (Sentinel ErrInvalidParameters))) (range_entries 0 r1) ();
     own ← deref (dkg.s2_SecretShare sp);
     s ← foldl s_Add (s_Copy own) <$>
           range_map (receive (dkg.s2_Identifier sp) r1) (range_entries 1 r2);
     pkp ← dkg.aggregateCommitments sp r1;
     Ok ({| kp_Identifier := dkg.s2_Identifier sp;
            SecretShare := Some s;
            GroupPublicKey := Some (dkg.VerifyingKey pkp);
            VerificationShares :=
              (λ '(id, vk), {| vs_Identifier := id; VerificationKey := Some vk |}) <$>
                range_entries 5 (dkg.VerifyingShares pkp);
            MinSigners := dkg.s2_MinSigners sp;
            MaxSigners := dkg.s2_MaxSigners sp |}, pkp)).
Proof.
  unfold dkg.Part3. do 2 (destruct (negb _); [done | step]).
  assert (Hck : range_loop (λ (_ : ()) '(id, _), fail_if (bool_decide (r2 !! id = None))
      (NewParticipantError id "missing round 2 package" (Sentinel ErrInvalidParameters)))
      (range_entries 0 r1) () =
    range_loop (λ _ e, fail_if (bool_decide (r2 !! fst e = None))
      (NewParticipantError (fst e) "missing round 2 package" (Sentinel ErrInvalidParameters)))
      (range_entries 0 r1) ()).
  { generalize (range_entries 0 r1) as l. intros l. generalize tt as u.
    induction l as [|[id o] l IH]; intros u; [done |]. cbn.
    destruct (fail_if _ _) as [[]|e|]; [apply IH | done | done]. }
  rewrite Hck. apply bind_ext. intros _ _. apply bind_ext. intros own _.
  rewrite (range_loop_map (receive (dkg.s2_Identifier sp) r1) s_Add); [done |].
  intros acc [id o] _. unfold receive. destruct (r1 !! id) as [p1|]; [| done].
  destruct o as [p2|]; [| done]. destruct p1 as [p1|]; [| done]. step.
  destruct (dkg.VerifyShare _ _ _) as [[]|e|]; [| done | done]. step.
  by destruct (dkg.SigningShare p2).
Qed.

Lemma receive_Ok own r1 id p1 p2 s :
  r1 !! id = Some (Some p1) → dkg.SigningShare p2 = Some s →
  dkg.VerifyShare own (Some s) (dkg.r1_Commitment p1) = Ok () →
  receive own r1 (id, Some p2) = Ok s.
Proof. intros H1 H2 Hv. unfold receive. rewrite H1. step. rewrite H2. step. by rewrite Hv. Qed.

Lemma receive_inv own r1 id o s :
  is_uint32 own → receive own r1 (id, o) = Ok s →
  ∃ p1 Cs, r1 !! id = Some (Some p1) ∧ dkg.r1_Commitment p1 = Some <$> Cs ∧
           g^s = ceval Cs (sc own).
Proof.
  intros Hu H. unfold receive in H. destruct (r1 !! id) as [p1|]; [| done].
  destruct o as [p2|]; [| done]. destruct p1 as [p1|]; [| done].
  cbn [deref mbind outcome_mbind outcome_bind] in H. ok_inv.
  rename select (dkg.VerifyShare _ _ _ = _) into Hv. destruct r.
  apply dkg_VerifyShare_inv in Hv as (x & Cs & Hx & HCs & _ & Hg); [| done].
  exists p1, Cs. split; [done |]. split; [done |]. congruence.
Qed.

Definition peer_eval (r1 : gmap Z (option dkg.Round1Package)) (x : Scalar) (id : Z) : Element :=
  ceval (default [] (peer_commitments r1 !! id)) x.

Lemma peer_lookup (r1 : gmap Z (option dkg.Round1Package)) id p1 Cs :
  r1 !! id = Some (Some p1) → dkg.r1_Commitment p1 = Some <$> Cs →
  peer_commitments r1 !! id = Some Cs.
Proof.
  intros H1 Hc. unfold peer_commitments. rewrite lookup_fmap, H1. cbn. by rewrite Hc, present_Some.
Qed.

Lemma received_sum own r1 (l : list (Z * option dkg.Round2Package)) shares :
  is_uint32 own → range_map (receive own r1) l = Ok shares →
  g^(ssum shares) = esum (peer_eval r1 (sc own) <$> l.*1) ∧
  ∀ id, id ∈ l.*1 → is_Some (r1 !! id).
Proof.
  intros Hu H. apply range_map_Ok in H. induction H as [|[id o] s l shares Hr _ [IH1 IH2]].
  - cbn. split; [apply base_zero | by intros id ?%not_elem_of_nil].
  - apply receive_inv in Hr as (p1 & Cs & H1 & Hc & Hg); [| done]. cbn [fmap list_fmap fst].
    split.
    + cbn. rewrite base_add, Hg, IH1. f_equal. unfold peer_eval.
      by rewrite (peer_lookup _ _ _ _ H1 Hc).
    + intros k [->|Hk]%elem_of_cons; [eauto | by apply IH2].
Qed.

Lemma total_eval_insert r1 own Cs0 x :
  r1 !! own = None →
  total_eval (peer_commitments r1 ∪ {[ own := Cs0 ]}) x =
    ceval Cs0 x ⊞ esum (peer_eval r1 x <$> (map_to_list r1).*1).
Proof.
  intros Hn. assert (Hp : peer_commitments r1 !! own = None)
    by (unfold peer_commitments; by rewrite lookup_fmap, Hn).
  unfold total_eval. rewrite <-insert_union_singleton_r, map_to_list_insert by done.
  cbn [fmap list_fmap esum snd]. f_equal.
  assert (Hmp : ∀ l : list (Z * list Element), (∀ e, e ∈ l → peer_commitments r1 !! fst e = Some (snd e)) →
    (λ e, ceval (snd e) x) <$> l = peer_eval r1 x <$> l.*1).
  { intros l Hl. rewrite <-list_fmap_compose. apply list_fmap_ext. intros i e He. cbn.
    unfold peer_eval. by rewrite (Hl e) by (by eapply list_elem_of_lookup_2). }
  rewrite Hmp by (intros [k Cs] He%elem_of_map_to_list; done).
  f_equal. f_equal. unfold peer_commitments. rewrite map_to_list_fmap, <-list_fmap_compose.
  apply list_fmap_ext. by intros i [].
Qed.

(** The keys of two maps with the same domain, ranged over. *)
Lemma same_keys {A B} s (m : gmap Z A) (m' : gmap Z B) :
  (∀ k, is_Some (m !! k) ↔ is_Some (m' !! k)) →
  (range_entries s m).*1 ≡ₚ (map_to_list m').*1.
Proof.
  intros Hk. apply NoDup_Permutation; [apply range_entries_NoDup | apply NoDup_fst_map_to_list |].
  intros k. rewrite !list_elem_of_fmap. specialize (Hk k). split.
  - intros ([k' a] & -> & Ha%elem_of_range_entries). cbn in *.
    destruct (proj1 Hk) as [b Hb]; [eauto |].
    exists (k', b). split; [done |]. by apply elem_of_map_to_list.
  - intros ([k' b] & -> & Hb%elem_of_map_to_list). cbn in *.
    destruct (proj2 Hk) as [a Ha]; [eauto |].
    exists (k', a). split; [done |]. by apply elem_of_range_entries.
Qed.

Lemma matching_domains {A B} s (m : gmap Z A) (m' : gmap Z B) e0 u :
  range_loop (λ _ e, fail_if (bool_decide (m' !! fst e = None)) (e0 e)) (range_entries s m) ()
    = (Ok u : Res unit) →
  ∀ k, is_Some (m !! k) → is_Some (m' !! k).
Proof.
  destruct u. rewrite check_loop_Ok, Forall_forall. intros H k [a Ha].
  specialize (H (k, a) (proj2 (elem_of_range_entries s m k a) Ha)). cbn in H. ok_inv.
  apply bool_decide_eq_false in H. by apply not_eq_None_Some.
Qed.

Lemma range_shares_find s (vs : gmap Z Element) id :
  (find_by vs_Identifier id
     ((λ '(id, vk), {| vs_Identifier := id; VerificationKey := Some vk |}) <$> range_entries s vs)
   ≫= VerificationKey) = vs !! id.
Proof.
  set (f := λ '(id, vk), {| vs_Identifier := id; VerificationKey := Some vk |} : VerificationShare).
  assert (Hids : vs_Identifier <$> (f <$> range_entries s vs) = (range_entries s vs).*1).
  { rewrite <-list_fmap_compose. apply list_fmap_ext. by intros i []. }
  destruct (vs !! id) as [vk|] eqn:Hvk.
  - rewrite (find_by_NoDup vs_Identifier _ (f (id, vk))); [done | |].
    + rewrite Hids. apply range_entries_NoDup.
    + apply list_elem_of_fmap. exists (id, vk). split; [done |]. by apply elem_of_range_entries.
  - rewrite (proj2 (find_by_None _ _ _)); [done |]. rewrite Hids.
    intros ([k x] & -> & Hin%elem_of_range_entries)%list_elem_of_fmap. cbn in *. congruence.
Qed.

(** The secret state a participant carries into round three. *)
Definition secret_ok (sp : dkg.Round2SecretPackage) (t : nat) Cs0 (own : Scalar) : Prop :=
  dkg.s2_MinSigners sp = Z.of_nat (S t) ∧ dkg.s2_Commitment sp = Some <$> Cs0 ∧
  length Cs0 = S t ∧ is_uint32 (dkg.s2_Identifier sp) ∧
  dkg.s2_SecretShare sp = Some own ∧ g^own = ceval Cs0 (sc (dkg.s2_Identifier sp)).

Lemma own_entry r1 own Cs0 :
  r1 !! own = None → (peer_commitments r1 ∪ {[ own := Cs0 ]}) !! own = Some Cs0.
Proof.
  intros Hn. rewrite <-insert_union_singleton_r.
  - by rewrite lookup_insert_eq.
  - unfold peer_commitments. by rewrite lookup_fmap, Hn.
Qed.

Lemma Part3_inv sp r1 r2 kp pkp t Cs0 own :
  secret_ok sp t Cs0 own → packages_ok (S t) r1 → r1 !! dkg.s2_Identifier sp = None →
  dkg.Part3 (Some sp) r1 r2 = Ok (kp, pkp) →
  pkp = public_package (peer_commitments r1 ∪ {[ dkg.s2_Identifier sp := Cs0 ]}) ∧
  ∃ s, kp = {| kp_Identifier := dkg.s2_Identifier sp;
               SecretShare := Some s;
               GroupPublicKey := Some (dkg.VerifyingKey pkp);
               VerificationShares :=
                 (λ '(id, vk), {| vs_Identifier := id; VerificationKey := Some vk |}) <$>
                   range_entries 5 (dkg.VerifyingShares pkp);
               MinSigners := dkg.s2_MinSigners sp;
               MaxSigners := dkg.s2_MaxSigners sp |} ∧
    g^s = total_eval (peer_commitments r1 ∪ {[ dkg.s2_Identifier sp := Cs0 ]})
            (sc (dkg.s2_Identifier sp)).
Proof.
  intros (Ht & Hc & Hl & Hu & Hown & Hg) Hr1 Hn H. rewrite Part3_receive, Hown in H.
  cbn zeta in H. ok_inv. rename select (range_loop _ _ _ = _) into Hck.
  rename select (range_map _ _ = _) into Hrec.
  rename select (dkg.aggregateCommitments _ _ = _) into Hagg. simplify_eq.
  rewrite (aggregateCommitments_Ok sp r1 Cs0 t) in Hagg by done. injection Hagg as <-.
  split; [done |]. eexists. split; [done |].
  rewrite law_s_Copy, foldl_s_Add, base_add, total_eval_insert, Hg by done. f_equal.
  apply received_sum in Hrec as [-> Hin]; [| done].
  rewrite (same_keys 1 r2 r1); [done |]. intros k. split.
  - intros [o Ho]. apply Hin, list_elem_of_fmap. exists (k, o).
    split; [done |]. by apply elem_of_range_entries.
  - by apply (matching_domains _ _ _ _ _ Hck).
Qed.

(** Round three from the state after it: the secret share matches the entry of the
    public package. *)
Lemma Part3_share_matches sp r1 r2 kp pkp t Cs0 own :
  secret_ok sp t Cs0 own → packages_ok (S t) r1 → r1 !! dkg.s2_Identifier sp = None →
  dkg.Part3 (Some sp) r1 r2 = Ok (kp, pkp) →
  kp_Identifier kp = dkg.s2_Identifier sp ∧
  GroupPublicKey kp = Some (dkg.VerifyingKey pkp) ∧
  (∃ s, SecretShare kp = Some s ∧
        dkg.VerifyingShares pkp !! dkg.s2_Identifier sp = Some (g^s)) ∧
  ∀ id, (find_by vs_Identifier id (VerificationShares kp) ≫= VerificationKey)
        = dkg.VerifyingShares pkp !! id.
Proof.
  intros Hs Hr1 Hn H. destruct (Part3_inv _ _ _ _ _ _ _ _ Hs Hr1 Hn H) as (Hpkp & s & -> & Hg).
  cbn. split; [done |]. split; [done |]. split; [| intros id; apply range_shares_find].
  exists s. split; [done |]. rewrite Hpkp. cbn.
  rewrite map_lookup_imap, own_entry by done. cbn. by rewrite Hg.
Qed.

(** Round three reads every commitment of every peer. *)
Lemma Part3_reads sp r1 r2 res :
  is_uint32 (dkg.s2_Identifier sp) → dkg.Part3 (Some sp) r1 r2 = Ok res →
  map_Forall (λ id o, ∃ p Cs, o = Some p ∧ dkg.r1_Commitment p = Some <$> Cs) r1.
Proof.
  intros Hu H. rewrite Part3_receive in H. cbn zeta in H. ok_inv.
  rename select (range_loop _ _ _ = _) into Hck. rename select (range_map _ _ = _) into Hrec.
  intros id o Ho. destruct (matching_domains _ _ _ _ _ Hck id) as [o2 Ho2]; [by rewrite Ho |].
  apply (elem_of_range_entries 1) in Ho2. apply range_map_Ok in Hrec.
  apply list_elem_of_lookup in Ho2 as [i Hi].
  destruct (Forall2_lookup_l _ _ _ _ _ Hrec Hi) as (s & _ & Hs).
  apply receive_inv in Hs as (p & Cs & Hp & HCs & _); [| done].
  rewrite Ho in Hp. injection Hp as ->. eauto.
Qed.

Lemma aggregateCommitments_Fail sp r1 e :
  dkg.aggregateCommitments sp r1 = Fail e → ∃ id reason err, e = ParticipantError id reason err.
Proof.
  unfold dkg.aggregateCommitments, dkg.allCommitments. intros H.
  apply bind_Fail in H as [H|(all & _ & H)].
  { apply range_loop_Fail in H as (m & [id o] & _ & H). by fail_inv. }
  apply bind_Fail in H as [H|(summed & _ & H)].
  { apply range_loop_Fail in H as (m & [id o] & _ & H).
    apply range_map_Fail in H as (? & [k s] & ? & _ & _ & H). unfold index in H. by fail_inv. }
  apply bind_Fail in H as [H|(gpk & _ & H)]; [unfold index in H; by fail_inv |].
  apply bind_Fail in H as [H|(vs & _ & H)]; [| done].
  apply range_loop_Fail in H as (m & [id o] & _ & H). fail_inv; [by subst; eauto |].
  unfold dkg.evaluateCommitmentPolynomial in H. rewrite scalarOne_Ok in H.
  apply fmap_Fail, range_loop_Fail in H as ([a p] & [c|] & _ & H); by fail_inv.
Qed.

(** Round three blames only cheaters: when it stops with a share error
    that names a sender, that sender's share does not lie on the polynomial it
    committed to. *)
Theorem Part3_blames_cheaters sp r1 r2 id reason err :
  is_uint32 (dkg.s2_Identifier sp) →
  dkg.Part3 (Some sp) r1 r2 = Fail (SecretShareError id reason err) →
  ∃ p1 p2, r1 !! id = Some (Some p1) ∧ r2 !! id = Some (Some p2) ∧
    ∀ cs, dkg.r1_Commitment p1 = commits cs → cs ≠ [] →
          dkg.SigningShare p2 ≠ Some (peval cs (sc (dkg.s2_Identifier sp))).
Proof.
  intros Hu H. rewrite Part3_receive in H. cbn zeta in H. fail_inv; try done.
  - apply range_loop_Fail in H as (_ & x & _ & H). by fail_inv.
  - apply range_map_Fail in H as (pre & [id' o] & suf & Hl & _ & H).
    assert (Hin : r2 !! id' = Some o).
    { apply (elem_of_range_entries 1). rewrite Hl. apply elem_of_app. right.
      apply list_elem_of_here. }
    unfold receive in H. destruct (r1 !! id') as [p1|] eqn:Hp1; [| done].
    destruct o as [p2|]; [| done]. destruct p1 as [p1|]; [| done].
    cbn [deref mbind outcome_mbind outcome_bind] in H. fail_inv.
    injection H as -> _ _. exists p1, p2. split; [done |]. split; [done |].
    intros cs Hc Hne Hs. rewrite Hc, Hs in He. unfold commits in He.
    rewrite dkg_VerifyShare_Ok, ceval_base, bool_decide_eq_true_2 in He; [done | done | done |].
    by destruct cs.
  - by apply aggregateCommitments_Fail in H as (? & ? & ? & ?).
Qed.

(** *** Round two *)

Definition round2_state (sp : dkg.Round1SecretPackage) : dkg.Round2SecretPackage :=
  {| dkg.s2_Identifier := dkg.s1_Identifier sp;
     dkg.s2_Commitment := dkg.s1_Commitment sp;
     dkg.s2_SecretShare := Some (peval (dkg.s1_Coefficients sp) (sc (dkg.s1_Identifier sp)));
     dkg.s2_MinSigners := dkg.s1_MinSigners sp;
     dkg.s2_MaxSigners := dkg.s1_MaxSigners sp |}.

Definition round2_shares {A} cs (peers : gmap Z A) : gmap Z dkg.Round2Package :=
  map_imap (λ id _, Some {| dkg.SigningShare := Some (peval cs (sc id)) |}) peers.

Definition peer_accepted (t : Z) (id : Z) (o : option dkg.Round1Package) : Prop :=
  ∃ p, o = Some p ∧ Z.of_nat (length (dkg.r1_Commitment p)) = t ∧
       dkg.VerifyProofOfKnowledge id (Some p) = Ok ().

Definition check_peer (t : Z) (e : Z * option dkg.Round1Package) : Res unit :=
  pkg' ← deref (snd e);
  _ ← fail_if (negb (Z.of_nat (length (dkg.r1_Commitment pkg')) =? t)%Z)
        (NewParticipantError (fst e) "invalid commitment length" (Sentinel ErrInvalidCommitment));
  dkg.VerifyProofOfKnowledge (fst e) (snd e).

Lemma check_peer_Ok t id o : check_peer t (id, o) = Ok () ↔ peer_accepted t id o.
Proof.
  unfold check_peer, peer_accepted. destruct o as [p|]; cbn [snd fst]; step.
  2: { split; [done | by intros (? & ? & _)]. }
  destruct (Z.eqb_spec (Z.of_nat (length (dkg.r1_Commitment p))) t) as [Ht|Ht]; cbn [negb]; step.
  - split; [eauto | by intros (? & [= <-] & _ & ?)].
  - split; [done | by intros (? & [= <-] & ? & _)].
Qed.

Lemma Part2_cases sp (r1 : gmap Z (option dkg.Round1Package)) s2 out :
  is_uint32 (dkg.s1_Identifier sp) → map_Forall (λ id _, is_uint32 id) r1 →
  dkg.Part2 (Some sp) r1 = Ok (s2, out) ↔
  Z.of_nat (size r1) = ((dkg.s1_MaxSigners sp - 1) mod 2 ^ 32)%Z ∧
  map_Forall (peer_accepted (dkg.s1_MinSigners sp)) r1 ∧
  s2 = round2_state sp ∧ out = round2_shares (dkg.s1_Coefficients sp) r1.
Proof.
  intros Hid Hu. unfold dkg.Part2.
  destruct (Z.eqb_spec (Z.of_nat (size r1)) ((dkg.s1_MaxSigners sp - 1) mod 2 ^ 32)) as [Hsz|Hsz];
    cbn [negb]; step; [| split; [done | tauto]].
  set (chk := range_loop _ (range_entries 0 r1) ()).
  assert (Hchk : chk = Ok () ↔ map_Forall (peer_accepted (dkg.s1_MinSigners sp)) r1).
  { unfold chk. rewrite (range_loop_ext _ (λ _ e, check_peer (dkg.s1_MinSigners sp) e)).
    - rewrite check_loop_Ok, Forall_forall. split.
      + intros H id o Ho. by apply check_peer_Ok, H, elem_of_range_entries.
      + intros H [id o] Ho%elem_of_range_entries. by apply check_peer_Ok, H.
    - by intros [] [id o]. }
  rewrite IdentifierToScalar_Ok by done. step.
  rewrite (store_loop 1 r1 (λ id _, {| dkg.SigningShare :=
    Some (peval (dkg.s1_Coefficients sp) (sc id)) |})).
  2: { intros acc id o Ho. rewrite IdentifierToScalar_Ok by (by eapply Hu). step.
       unfold dkg.evaluatePolynomial. by rewrite Evaluate_peval. }
  rewrite map_union_empty. unfold dkg.evaluatePolynomial. rewrite Evaluate_peval.
  cbn [Coefficients]. destruct chk as [[]|e|]; step.
  - fold (round2_shares (dkg.s1_Coefficients sp) r1). split.
    + intros [= <- <-]. split; [done |]. split; [by apply Hchk |]. done.
    + by intros (_ & _ & -> & ->).
  - split; [done |]. intros (_ & H & _). by apply Hchk in H.
  - split; [done |]. intros (_ & H & _). by apply Hchk in H.
Qed.

(** Round two releases shares exactly when every peer's package is
    present, commits to [t] coefficients and carries an accepted proof of
    knowledge; each peer then receives the value of the polynomial at its own
    identifier and nothing else. *)
Theorem Part2_spec sp (r1 : gmap Z (option dkg.Round1Package)) s2 out :
  is_uint32 (dkg.s1_Identifier sp) → map_Forall (λ id _, is_uint32 id) r1 →
  dkg.Part2 (Some sp) r1 = Ok (s2, out) ↔
  Z.of_nat (size r1) = ((dkg.s1_MaxSigners sp - 1) mod 2 ^ 32)%Z ∧
  map_Forall (peer_accepted (dkg.s1_MinSigners sp)) r1 ∧
  s2 = round2_state sp ∧ out = round2_shares (dkg.s1_Coefficients sp) r1.
Proof. apply Part2_cases. Qed.

(** C37: a participant that runs the three rounds against arbitrary peers, whatever
    packages and shares they send, and finishes holds a consistent key: its key
    package carries its own identifier and the group key of the public package,
    its secret share is the logarithm of its entry among the public
    verification shares, and the verification shares it keeps are the public
    ones.  Rounds two and three get the same packages of round one, none of them
    filed under the participant's own identifier. *)
Theorem Part3_consistent id n t r sp1 pkg r' r1 sp2 out r2 kp pkp :
  is_uint32 id → map_Forall (λ id _, is_uint32 id) r1 → r1 !! id = None →
  dkg.Part1 id n t r = (Ok (sp1, pkg), r') →
  dkg.Part2 (Some sp1) r1 = Ok (sp2, out) →
  dkg.Part3 (Some sp2) r1 r2 = Ok (kp, pkp) →
  kp_Identifier kp = id ∧
  GroupPublicKey kp = Some (dkg.VerifyingKey pkp) ∧
  (∃ s, SecretShare kp = Some s ∧ dkg.VerifyingShares pkp !! id = Some (g^s)) ∧
  ∀ id', (find_by vs_Identifier id' (VerificationShares kp) ≫= VerificationKey)
         = dkg.VerifyingShares pkp !! id'.
Proof.
  intros Hu Hids Hn (Ht & _ & cs & k & Hl & -> & _)%Part1_inv H2 H3.
  apply Part2_cases in H2 as (_ & Hacc & -> & _); [| done..].
  apply (Part3_share_matches (round2_state (honest_secret id n t cs)) r1 r2 kp pkp
    (Z.to_nat (t - 1)) ((λ c, g^c) <$> cs) (peval cs (sc id))); [| | done..].
  - unfold secret_ok. cbn. split_and!; try done; [lia | rewrite length_fmap; lia |].
    by rewrite ceval_base.
  - pose proof (Part3_reads (round2_state (honest_secret id n t cs)) _ _ _ Hu H3) as Hread. intros id' o Ho.
    split; [by eapply Hids |]. destruct (Hread _ _ Ho) as (p & Cs & -> & HCs).
    destruct (Hacc _ _ Ho) as (p' & [= <-] & Hlen & _). exists p. split; [done |].
    exists Cs. split; [done |]. cbn in Hlen. rewrite HCs, length_fmap in Hlen. lia.
Qed.

(** *** An honest run *)

(** One result of [Part1] per participant. *)
Abbreviation run := (dkg.Round1SecretPackage * dkg.Round1Package)%type.

(** The packages participant [j] receives in round one; the packages it
    receives in round two when participant [i] sends [sent i]. *)
Definition others (runs : gmap Z run) (j : Z) : gmap Z (option dkg.Round1Package) :=
  (λ r, Some (snd r)) <$> delete j runs.
Definition received (runs : gmap Z run) (sent : Z → gmap Z dkg.Round2Package) (j : Z)
  : gmap Z (option dkg.Round2Package) :=
  map_imap (λ i _, Some (sent i !! j)) (delete j runs).

Definition honest_run (n t : Z) (id : Z) (r : run) : Prop :=
  is_uint32 id ∧ ∃ cs k, length cs = Z.to_nat t ∧ cs ≠ [] ∧
    r = (honest_secret id n t cs, honest_package id cs k).

Definition run_poly (r : run) : list Scalar := dkg.s1_Coefficients (fst r).

Definition full_commitments (runs : gmap Z run) : gmap Z (list Element) :=
  (λ r, (λ c, g^c) <$> run_poly r) <$> runs.

Section HonestRun.
Context (runs : gmap Z run) (n t : Z).
Hypothesis Hruns : map_Forall (honest_run n t) runs.
Hypothesis Ht : (2 ≤ t ≤ n)%Z.
Hypothesis Hn : is_uint32 n.
Hypothesis Hsize : Z.of_nat (size runs) = n.

Lemma others_lookup j id : id ≠ j → others runs j !! id = (λ r, Some (snd r)) <$> runs !! id.
Proof. intros H. unfold others. by rewrite lookup_fmap, lookup_delete_ne. Qed.

Lemma others_lookup_Some j id r :
  id ≠ j → runs !! id = Some r → others runs j !! id = Some (Some (snd r)).
Proof. intros H Hr. rewrite others_lookup by done. by rewrite Hr. Qed.

Lemma others_own j : others runs j !! j = None.
Proof. unfold others. by rewrite lookup_fmap, lookup_delete_eq. Qed.

Lemma others_size j : is_Some (runs !! j) →
  Z.of_nat (size (others runs j)) = ((n - 1) mod 2 ^ 32)%Z.
Proof.
  intros [r Hr]. unfold others. rewrite map_size_fmap, map_size_delete_Some by eauto.
  unfold is_uint32, uint32_max in Hn. rewrite Z.mod_small by lia.
  change (Z.of_nat (pred (size (runs : gmap Z run))) = (n - 1)%Z).
  revert Hsize. generalize (size (runs : gmap Z run)). intros k ?. lia.
Qed.

Lemma others_accepted j : map_Forall (peer_accepted t) (others runs j).
Proof.
  intros id o. unfold others. rewrite lookup_fmap_Some. intros (r & <- & Hr).
  apply lookup_delete_Some in Hr as [_ Hr].
  destruct (Hruns _ _ Hr) as (_ & cs & k & Hl & Hne & ->). eexists. split; [done |].
  split; [| by apply honest_proof_accepted].
  unfold honest_package, commits. cbn. rewrite !length_fmap. lia.
Qed.

Lemma others_packages_ok j : packages_ok (S (Z.to_nat (t - 1))) (others runs j).
Proof.
  intros id o. unfold others. rewrite lookup_fmap_Some. intros (r & <- & Hr).
  apply lookup_delete_Some in Hr as [_ Hr].
  destruct (Hruns _ _ Hr) as (Hu & cs & k & Hl & Hne & ->). split; [done |].
  eexists. split; [done |]. exists ((λ c, g^c) <$> cs). split; [done |].
  rewrite length_fmap. lia.
Qed.

Lemma full_split j r : runs !! j = Some r →
  peer_commitments (others runs j) ∪ {[ j := (λ c, g^c) <$> run_poly r ]} = full_commitments runs.
Proof.
  intros Hr. apply map_eq. intros id. unfold full_commitments. rewrite lookup_fmap.
  destruct (decide (id = j)) as [->|Hne].
  - rewrite own_entry by apply others_own. by rewrite Hr.
  - rewrite lookup_union, lookup_singleton_ne by done. rewrite (right_id_L None (∪)).
    unfold peer_commitments. rewrite lookup_fmap, others_lookup by done.
    destruct (runs !! id) as [r'|] eqn:Hr'; [| done]. cbn.
    destruct (Hruns _ _ Hr') as (_ & cs & k & _ & _ & ->). cbn. f_equal. apply present_Some.
Qed.

(** The group polynomial, of which every participant ends up with a share. *)
Lemma group_polynomial :
  ∃ cs, length cs = Z.to_nat t ∧ ∀ x, total_eval (full_commitments runs) x = g^(peval cs x).
Proof.
  assert (Hsum : ∀ l : list (Z * run), Forall (λ e, length (run_poly (snd e)) = Z.to_nat t) l →
    poly_fun (Z.to_nat t) (λ x, ssum ((λ e, peval (run_poly (snd e)) x) <$> l))).
  { intros l Hl. induction Hl as [|e l He _ IH]; [apply poly_fun_zero |].
    destruct (poly_fun_add (Z.to_nat t) (peval (run_poly (snd e))) _
      ltac:(by eexists) IH) as (cs & Hcs & Hev). by exists cs. }
  destruct (Hsum (map_to_list runs)) as (cs & Hl & Hev).
  { apply Forall_forall. intros [id r] Hin%elem_of_map_to_list.
    by destruct (Hruns _ _ Hin) as (_ & cs & k & Hl & _ & ->). }
  exists cs. split; [done |]. intros x. rewrite <-Hev, base_ssum.
  unfold total_eval, full_commitments. rewrite map_to_list_fmap, <-!list_fmap_compose.
  f_equal. apply list_fmap_ext. intros i [id r] _. cbn. apply ceval_base.
Qed.

Lemma honest_secret_ok j r : runs !! j = Some r →
  secret_ok (round2_state (fst r)) (Z.to_nat (t - 1)) ((λ c, g^c) <$> run_poly r)
    (peval (run_poly r) (sc j)) ∧ dkg.s1_Identifier (fst r) = j ∧
  dkg.s1_MinSigners (fst r) = t ∧ dkg.s1_MaxSigners (fst r) = n.
Proof.
  intros Hr. destruct (Hruns _ _ Hr) as (Hu & cs & k & Hl & Hne & ->).
  split; [| done]. unfold secret_ok, run_poly. cbn. split_and!; try done; [lia | |].
  - rewrite length_fmap. lia.
  - by rewrite ceval_base.
Qed.

Definition sent_shares (i : Z) : gmap Z dkg.Round2Package :=
  match runs !! i with
  | Some r => round2_shares (run_poly r) (others runs i)
  | None => ∅
  end.

Lemma received_lookup j i o :
  is_Some (runs !! j) → received runs sent_shares j !! i = Some o →
  ∃ r, runs !! i = Some r ∧ i ≠ j ∧
       o = Some {| dkg.SigningShare := Some (peval (run_poly r) (sc j)) |}.
Proof.
  intros [rj Hj]. unfold received. rewrite map_lookup_imap.
  destruct (delete j runs !! i) as [r|] eqn:Hi; [| done]. cbn. intros [= <-].
  apply lookup_delete_Some in Hi as [Hne Hi]. exists r. split; [done |]. split; [done |].
  unfold sent_shares. rewrite Hi. unfold round2_shares.
  by rewrite map_lookup_imap, (others_lookup_Some i j rj Hne Hj).
Qed.

Lemma received_keys j i : is_Some (received runs sent_shares j !! i) ↔ is_Some (others runs j !! i).
Proof.
  unfold received, others. rewrite map_lookup_imap, lookup_fmap, fmap_is_Some.
  destruct (delete j runs !! i); cbn; [by split; eauto | done].
Qed.

Lemma received_size j : size (received runs sent_shares j) = size (others runs j).
Proof.
  rewrite <-!length_map_to_list, <-!(length_fmap fst). apply Permutation_length.
  rewrite <-(same_keys 0 (received runs sent_shares j) (others runs j) (received_keys j)).
  by rewrite range_entries_perm.
Qed.

Lemma honest_received j r :
  runs !! j = Some r →
  ∃ shares, range_map (receive j (others runs j))
    (range_entries 1 (received runs sent_shares j)) = Ok shares.
Proof.
  intros Hj. eexists. apply (range_map_total _ (λ e, match runs !! fst e with
    | Some r => peval (run_poly r) (sc j) | None => 0 end)).
  intros [i o] Hin%elem_of_range_entries.
  destruct (received_lookup j i o) as (ri & Hi & Hne & ->); [eauto | done |].
  cbn [fst]. rewrite Hi.
  destruct (Hruns _ _ Hi) as (_ & cs & k & Hl & Hcs & Hri). destruct (Hruns _ _ Hj) as (Hu & _).
  apply (receive_Ok j (others runs j) i (honest_package i cs k)); [| done |].
  - rewrite (others_lookup_Some j i ri), Hri by done. done.
  - rewrite Hri. unfold run_poly, honest_package, commits. cbn.
    rewrite dkg_VerifyShare_Ok, ceval_base, bool_decide_eq_true_2; [done | done | done |].
    by destruct cs.
Qed.

Lemma honest_Part3 j r :
  runs !! j = Some r →
  ∃ kp pkp, dkg.Part3 (Some (round2_state (fst r))) (others runs j)
              (received runs sent_shares j) = Ok (kp, pkp).
Proof.
  intros Hj. destruct (honest_secret_ok j r Hj) as (Hsec & Hid & Hmin & Hmax).
  pose proof Hsec as (H1 & H2 & H3 & H4 & H5 & _).
  assert (Hid' : dkg.s2_Identifier (round2_state (fst r)) = j) by done.
  rewrite Part3_receive. cbn zeta. rewrite H5, Hid'.
  cbn [dkg.s2_MaxSigners round2_state]. rewrite Hmax, received_size, others_size by eauto.
  rewrite Z.eqb_refl. cbn [negb]. step.
  rewrite (proj2 (check_loop_Ok _ _ tt)).
  2: { apply Forall_forall. intros [i o] Hin%elem_of_range_entries. cbn [fst].
       rewrite bool_decide_eq_false_2; [done |]. apply not_eq_None_Some.
       apply received_keys. eauto. }
  step. destruct (honest_received j r Hj) as [shares Hsh]. rewrite Hsh. step. cbn.
  rewrite (aggregateCommitments_Ok _ _ _ _ H1 H2 H3 H4 (others_packages_ok j)). cbn. eauto.
Qed.
End HonestRun.

(** C2: distributed key generation works: when every participant runs [Part1]
    honestly, everyone's [Part2] and [Part3] succeed on what the others sent,
    all end with the same public package, and their secret shares are the
    values at their identifiers of one polynomial with [t] coefficients whose
    constant term is the discrete logarithm of the group key. *)
Theorem dkg_agreement n t (runs : gmap Z run) :
  is_uint32 n → (2 ≤ t ≤ n)%Z → Z.of_nat (size runs) = n →
  map_Forall (λ id r, is_uint32 id ∧ ∃ s s', dkg.Part1 id n t s = (Ok r, s')) runs →
  ∃ cs pkp sent, length cs = Z.to_nat t ∧
    dkg.VerifyingKey pkp = g^(peval cs 0) ∧
    (∀ id, dkg.VerifyingShares pkp !! id = (λ _, g^(peval cs (sc id))) <$> runs !! id) ∧
    ∀ j r, runs !! j = Some r → ∃ s2 kp,
      dkg.Part2 (Some (fst r)) (others runs j) = Ok (s2, sent j) ∧
      dkg.Part3 (Some s2) (others runs j) (received runs sent j) = Ok (kp, pkp) ∧
      kp_Identifier kp = j ∧ SecretShare kp = Some (peval cs (sc j)) ∧
      GroupPublicKey kp = Some (dkg.VerifyingKey pkp).
Proof.
  intros Hn Ht Hsize Hp1.
  assert (Hruns : map_Forall (honest_run n t) runs).
  { intros id [sp pkg] Hr. destruct (Hp1 _ _ Hr) as (Hu & s & s' & Hs).
    apply Part1_inv in Hs as (_ & _ & cs & k & Hl & -> & ->). split; [done |].
    exists cs, k. split; [done |]. split; [| done]. intros ->. cbn in Hl. lia. }
  destruct (group_polynomial runs n t Hruns) as (cs & Hl & Hev).
  exists cs, (public_package (full_commitments runs)), (sent_shares runs).
  split; [done |]. split; [apply Hev |]. split.
  { intros id. unfold public_package, full_commitments. cbn.
    rewrite map_lookup_imap, lookup_fmap. destruct (runs !! id); [| done]. cbn. f_equal.
    apply Hev. }
  intros j r Hj. destruct (honest_secret_ok runs n t Hruns Ht j r Hj) as (Hsec & Hid & Hmin & Hmax).
  destruct (honest_Part3 runs n t Hruns Ht Hn Hsize j r Hj) as (kp & pkp & H3).
  assert (Huj : is_uint32 j) by (by destruct (Hruns _ _ Hj)).
  exists (round2_state (fst r)), kp. split.
  { apply Part2_cases.
    - by rewrite Hid.
    - intros id o. unfold others. rewrite lookup_fmap_Some.
      intros (r' & _ & [_ Hr']%lookup_delete_Some). by destruct (Hruns _ _ Hr').
    - rewrite Hmax, Hmin. split; [apply (others_size runs n t Ht Hn Hsize); eauto |].
      split; [by apply (others_accepted runs n t Hruns Ht) |]. split; [done |].
      unfold sent_shares. by rewrite Hj. }
  assert (Hid2 : dkg.s2_Identifier (round2_state (fst r)) = j) by exact Hid.
  assert (Hown : others runs j !! dkg.s2_Identifier (round2_state (fst r)) = None).
  { rewrite Hid2. apply others_own. }
  destruct (Part3_inv _ _ _ _ _ _ _ _ Hsec (others_packages_ok runs n t Hruns Ht j) Hown H3)
    as (-> & s & -> & Hg).
  rewrite Hid2, (full_split runs n t Hruns j r Hj) in *. cbn.
  rewrite Hev in Hg. apply base_inj in Hg as ->. done.
Qed.
End DkgFacts.
