(* ===== verification/Refresh.v ===== *)
(** * Share refreshing: [pkg/frost/keygen/refresh/refresh.go]

    A dealer adds shares of a polynomial with zero constant term to the
    participants' shares.  The theorems: an honest refresh moves everyone to
    another sharing of the same secret, and a participant that applies a refresh
    share has checked that its polynomial really has constant term zero. *)

From S2P Require Export Dkg.

Module refresh.
Section Defs.
Context {G : Group}.

Record RefreshShare := {
  rs_Identifier : Z;
  rs_Share : option Scalar;
  rs_Commitment : list (option Element);
}.

Definition Zeroize (rs : RefreshShare) : RefreshShare :=
  {| rs_Identifier := rs_Identifier rs;
     rs_Share := zeroize_scalar (rs_Share rs);
     rs_Commitment := rs_Commitment rs |}.

(** A verbatim copy of the function of package [dkg]. *)
Definition evaluateCommitmentPolynomial := dkg.evaluateCommitmentPolynomial.

(** One iteration of the loop over the identifiers. *)
Definition refresh_step (current : dkg.PublicKeyPackage) (coefficients : list Scalar)
    (commitment : list Element) (acc : list RefreshShare * gmap Z Element) (id : Z)
  : Res (list RefreshShare * gmap Z Element) :=
  let '(refreshShares, newVerifyingShares) := acc in
  idScalar ← wrap (NewParticipantError id "failed to convert ID to scalar")
                  (IdentifierToScalar id);
  let share := polynomialHelper.Evaluate {| Coefficients := coefficients |} idScalar in
  let refreshShares := refreshShares ++
    [{| rs_Identifier := id; rs_Share := Some share;
        rs_Commitment := Some <$> drop 1 commitment |}] in
  match dkg.VerifyingShares current !! id with
  | None => Fail (NewParticipantError id "not found in current public key package"
                    (Sentinel ErrInvalidParticipant))
  | Some oldVerifyingShare =>
      refreshVerifyingShare ← evaluateCommitmentPolynomial (Some <$> commitment) idScalar;
      Ok (refreshShares,
          <[id := e_Add oldVerifyingShare refreshVerifyingShare]> newVerifyingShares)
  end.

Definition ComputeRefreshingShares (currentPublicKeyPackage : option dkg.PublicKeyPackage)
    (maxSigners minSigners : Z) (identifiers : list Z)
  : Rand (list RefreshShare * dkg.PublicKeyPackage) :=
  match currentPublicKeyPackage with
  | None => lift (Fail (NewParameterError "currentPublicKeyPackage" "cannot be nil"
                          (Sentinel ErrInvalidParameters)))
  | Some current =>
      _ ← lift (fail_if (bool_decide (length identifiers = 0))
            (NewParameterError "identifiers" "cannot be empty"
               (Sentinel ErrInvalidParameters)));
      _ ← lift (fail_if (minSigners <? 2)%Z
            (NewParameterError "minSigners" "must be at least 2"
               (Sentinel ErrInvalidThreshold)));
      _ ← lift (fail_if (maxSigners <? minSigners)%Z
            (NewParameterError "minSigners" "cannot exceed maxSigners"
               (Sentinel ErrInvalidThreshold)));
      random ← rand_repeat (Z.to_nat minSigners - 1)
                 (rand_wrap (NewParameterError "coefficients"
                               "failed to generate random coefficient") RandomScalar);
      let coefficients := NewScalar :: random in
      let commitment := ScalarBaseMult <$> coefficients in
      '(refreshShares, newVerifyingShares) ←
        lift (range_loop (refresh_step current coefficients commitment) identifiers ([], ∅));
      mret (refreshShares,
            {| dkg.VerifyingShares := newVerifyingShares;
               dkg.VerifyingKey := dkg.VerifyingKey current |})
  end.

Definition ApplyRefreshShare (refreshShare : RefreshShare)
    (currentKeyPackage : option KeyPackage) : Res KeyPackage :=
  match currentKeyPackage with
  | None => Fail (NewParameterError "currentKeyPackage" "cannot be nil"
                    (Sentinel ErrInvalidParameters))
  | Some current =>
      match rs_Share refreshShare with
      | None => Fail (NewParameterError "refreshShare" "share cannot be nil"
                        (Sentinel ErrInvalidParameters))
      | Some share =>
          _ ← fail_if (negb (rs_Identifier refreshShare =? kp_Identifier current)%Z)
                (NewParameterError "refreshShare" "identifier mismatch"
                   (Sentinel ErrInvalidParticipant));
          let fullCommitment := Some Identity :: rs_Commitment refreshShare in
          idScalar ← wrap (NewParameterError "identifier" "failed to convert to scalar")
                          (IdentifierToScalar (rs_Identifier refreshShare));
          let left := ScalarBaseMult share in
          right ← evaluateCommitmentPolynomial fullCommitment idScalar;
          _ ← fail_if (negb (e_Equal left right))
                (NewVerificationError "refreshShare" "invalid refresh share"
                   (Sentinel ErrInvalidKeyShare));
          secretShare ← deref (SecretShare current);
          let newSigningShare := s_Add secretShare share in
          let newVerifyingShare := ScalarBaseMult newSigningShare in
          let newVerificationShares :=
            (λ vs, if (vs_Identifier vs =? rs_Identifier refreshShare)%Z
                   then {| vs_Identifier := vs_Identifier vs;
                           VerificationKey := Some newVerifyingShare |}
                   else vs) <$> VerificationShares current in
          Ok {| kp_Identifier := kp_Identifier current;
                SecretShare := Some newSigningShare;
                GroupPublicKey := GroupPublicKey current;
                VerificationShares := newVerificationShares;
                MinSigners := MinSigners current;
                MaxSigners := MaxSigners current |}
      end
  end.
End Defs.
End refresh.

(** ** Theorems *)

Section RefreshFacts.
Context {G : Group} {L : GroupLaws G}.
Add Field scalar_field : law_field.
Local Open Scope scalar_scope.
Local Open Scope element_scope.
Implicit Types (cs : list Scalar) (rs : refresh.RefreshShare).

(** The share the dealer deals to [id] from the coefficients [0, a_1, ...]. *)
Definition refresh_share cs (id : Z) : refresh.RefreshShare :=
  {| refresh.rs_Identifier := id;
     refresh.rs_Share := Some (peval (0 :: cs) (sc id));
     refresh.rs_Commitment := Some <$> ((λ c, g^c) <$> cs) |}.

(** The package after a refresh of the share [s] by [a]. *)
Definition refreshed (kp : KeyPackage) (s a : Scalar) : KeyPackage :=
  {| kp_Identifier := kp_Identifier kp;
     SecretShare := Some (s + a);
     GroupPublicKey := GroupPublicKey kp;
     VerificationShares :=
       (λ vs, if (vs_Identifier vs =? kp_Identifier kp)%Z
              then {| vs_Identifier := vs_Identifier vs; VerificationKey := Some (g^(s + a)) |}
              else vs) <$> VerificationShares kp;
     MinSigners := MinSigners kp;
     MaxSigners := MaxSigners kp |}.

Lemma refresh_loop current cs ids :
  Forall is_uint32 ids → (∀ id, id ∈ ids → is_Some (dkg.VerifyingShares current !! id)) →
  ∃ m, range_loop (refresh.refresh_step current (0 :: cs) (ScalarBaseMult <$> (0 :: cs))) ids ([], ∅)
       = Ok (refresh_share cs <$> ids, m) ∧
    ∀ id Y, id ∈ ids → dkg.VerifyingShares current !! id = Some Y →
            m !! id = Some (Y ⊞ g^(peval (0 :: cs) (sc id))).
Proof.
  intros Hu Hcur.
  set (new id := default Identity (dkg.VerifyingShares current !! id) ⊞ g^(peval (0 :: cs) (sc id))).
  rewrite (range_loop_total _ (λ acc id, (acc.1 ++ [refresh_share cs id], <[id := new id]> acc.2))).
  - assert (Hfold : ∀ l (acc : list refresh.RefreshShare * gmap Z Element),
      foldl (λ acc id, (acc.1 ++ [refresh_share cs id], <[id := new id]> acc.2)) acc l =
      (acc.1 ++ (refresh_share cs <$> l), foldl (λ m id, <[id := new id]> m) acc.2 l)).
    { induction l as [|id l IH]; intros [a m]; cbn; [by rewrite app_nil_r |].
      rewrite IH. cbn. by rewrite <-app_assoc. }
    rewrite Hfold. cbn. eexists. split; [done |]. intros id Y Hid HY.
    assert (Hm : ∀ l (m : gmap Z Element),
      (id ∈ l ∨ m !! id = Some (new id)) → foldl (λ m id, <[id := new id]> m) m l !! id = Some (new id)).
    { induction l as [|i l IH]; intros m; cbn; [by intros [?%not_elem_of_nil|] |].
      intros [[->|Hin]%elem_of_cons | Hm]; apply IH; [right | by left | right].
      - apply lookup_insert_eq.
      - destruct (decide (id = i)) as [->|]; [apply lookup_insert_eq | by rewrite lookup_insert_ne]. }
    rewrite Hm by (by left). unfold new. by rewrite HY.
  - intros [a m] id Hin. rewrite Forall_forall in Hu. unfold refresh.refresh_step.
    rewrite IdentifierToScalar_Ok by auto. step. rewrite Evaluate_peval.
    destruct (Hcur id Hin) as [Y HY]. rewrite HY.
    unfold refresh.evaluateCommitmentPolynomial.
    rewrite evaluateCommitmentPolynomial_Ok.
    change (ScalarBaseMult <$> (0 :: cs)) with ((λ c, g^c) <$> (0 :: cs)). rewrite ceval_base. cbn.
    unfold new, refresh_share. rewrite HY. cbn. by rewrite drop_0.
Qed.

Lemma ComputeRefreshingShares_inv current n t ids r shares pkp r' :
  Forall is_uint32 ids →
  refresh.ComputeRefreshingShares (Some current) n t ids r = (Ok (shares, pkp), r') →
  (2 ≤ t ≤ n)%Z ∧ ids ≠ [] ∧
  ∃ cs, length cs = (Z.to_nat t - 1)%nat ∧ shares = refresh_share cs <$> ids ∧
    dkg.VerifyingKey pkp = dkg.VerifyingKey current ∧
    ∀ id, id ∈ ids → ∃ Y, dkg.VerifyingShares current !! id = Some Y ∧
      dkg.VerifyingShares pkp !! id = Some (Y ⊞ g^(peval (0 :: cs) (sc id))).
Proof.
  intros Hu H. unfold refresh.ComputeRefreshingShares in H.
  apply rand_bind_Ok in H as ([] & r1 & H1 & H). apply rand_bind_Ok in H as ([] & r2 & H2 & H).
  apply rand_bind_Ok in H as ([] & r3 & H3 & H). apply rand_bind_Ok in H as (cs & r4 & Hcs & H).
  apply rand_bind_Ok in H as ([sh m] & r5 & Hl & H). rand_inv. simplify_eq.
  apply rand_repeat_length in Hcs. rename select (range_loop _ _ _ = _) into Hloop.
  rewrite law_NewScalar in Hloop.
  assert (Hcur : ∀ id, id ∈ ids → is_Some (dkg.VerifyingShares current !! id)).
  { intros id Hid. destruct (range_loop_each _ _ _ _ _ Hloop Hid) as ([a1 a2] & a' & Hstep).
    unfold refresh.refresh_step in Hstep. ok_inv. destruct (_ !! id); [by eexists | done]. }
  destruct (refresh_loop current cs ids Hu Hcur) as (m' & Hl' & Hm).
  rewrite Hloop in Hl'. injection Hl' as -> ->.
  split; [lia |]. split; [by intros -> |]. exists cs. split; [done |]. split; [done |].
  split; [done |]. intros id Hid. destruct (Hcur id Hid) as [Y HY]. eauto.
Qed.

(** An accepted refresh share with present commitments is the value of the
    committed polynomial without constant term; and such a share is accepted. *)
Lemma ApplyRefreshShare_cases rs kp a Cs s :
  is_uint32 (refresh.rs_Identifier rs) → refresh.rs_Identifier rs = kp_Identifier kp →
  refresh.rs_Share rs = Some a → refresh.rs_Commitment rs = Some <$> Cs →
  SecretShare kp = Some s →
  refresh.ApplyRefreshShare rs (Some kp) =
    if bool_decide (g^a = ceval (Identity :: Cs) (sc (kp_Identifier kp)))
    then Ok (refreshed kp s a)
    else Fail (NewVerificationError "refreshShare" "invalid refresh share"
                 (Sentinel ErrInvalidKeyShare)).
Proof.
  intros Hu Hid Ha HC Hs. unfold refresh.ApplyRefreshShare.
  rewrite Ha, Hid, Z.eqb_refl in *. step. cbn [negb fail_if].
  rewrite IdentifierToScalar_Ok by done. step. rewrite HC.
  change (Some Identity :: (Some <$> Cs)) with (Some <$> (Identity :: Cs)).
  unfold refresh.evaluateCommitmentPolynomial. rewrite evaluateCommitmentPolynomial_Ok. step.
  rewrite e_Equal_decide. case_bool_decide; [| done]. cbn. by rewrite Hs.
Qed.

Lemma refreshed_own_key kp s a :
  (find_by vs_Identifier (kp_Identifier kp) (VerificationShares kp)) ≠ None →
  (find_by vs_Identifier (kp_Identifier kp) (VerificationShares (refreshed kp s a)) ≫= VerificationKey)
  = Some (g^(s + a)).
Proof.
  cbn. induction (VerificationShares kp) as [|v vs IH]; [done |]. cbn.
  destruct (vs_Identifier v =? kp_Identifier kp)%Z eqn:He; cbn; rewrite He; [done | apply IH].
Qed.

(** C39: refreshing keeps the secret and changes the sharing: from any sharing
    by [t] coefficients, the dealer's refresh shares move every participant to
    its value of another polynomial with the same constant term, the new
    public package holds the matching verification keys and the old group key,
    and each participant accepts its refresh share and updates its own
    verification key. *)
Theorem refresh_keeps_secret current n t ids r shares pkp r' cs :
  Forall is_uint32 ids → length cs = Z.to_nat t →
  (∀ id, id ∈ ids → dkg.VerifyingShares current !! id = Some (g^(peval cs (sc id)))) →
  refresh.ComputeRefreshingShares (Some current) n t ids r = (Ok (shares, pkp), r') →
  ∃ cs', length cs' = Z.to_nat t ∧ peval cs' 0 = peval cs 0 ∧
    dkg.VerifyingKey pkp = dkg.VerifyingKey current ∧
    (∀ id, id ∈ ids → dkg.VerifyingShares pkp !! id = Some (g^(peval cs' (sc id)))) ∧
    refresh.rs_Identifier <$> shares = ids ∧
    ∀ rs kp, rs ∈ shares → refresh.rs_Identifier rs = kp_Identifier kp →
      SecretShare kp = Some (peval cs (sc (kp_Identifier kp))) →
      ∃ kp', refresh.ApplyRefreshShare rs (Some kp) = Ok kp' ∧
        SecretShare kp' = Some (peval cs' (sc (kp_Identifier kp))) ∧
        GroupPublicKey kp' = GroupPublicKey kp ∧
        (find_by vs_Identifier (kp_Identifier kp) (VerificationShares kp) ≠ None →
         (find_by vs_Identifier (kp_Identifier kp) (VerificationShares kp') ≫= VerificationKey)
         = Some (g^(peval cs' (sc (kp_Identifier kp))))).
Proof.
  intros Hu Hl Hcur H.
  destruct (ComputeRefreshingShares_inv _ _ _ _ _ _ _ _ Hu H)
    as (Ht & _ & ds & Hd & -> & Hk & Hnew).
  assert (Hlen : length cs = length (0 :: ds)) by (cbn; lia).
  exists (zip_with s_Add cs (0 :: ds)). split; [rewrite length_zip_with; cbn; lia |].
  split; [rewrite peval_zip_add by done; cbn; ring |]. split; [done |]. split.
  { intros id Hid. destruct (Hnew id Hid) as (Y & HY & ->).
    rewrite Hcur in HY by done. injection HY as <-. by rewrite peval_zip_add, base_add by done. }
  split; [rewrite <-list_fmap_compose; apply list_fmap_id |].
  intros rs kp (id & -> & Hid)%list_elem_of_fmap He Hs. cbn in He. subst id.
  rewrite Forall_forall in Hu.
  rewrite (ApplyRefreshShare_cases (refresh_share ds (kp_Identifier kp)) kp
    (peval (0 :: ds) (sc (kp_Identifier kp))) ((λ c, g^c) <$> ds)
    (peval cs (sc (kp_Identifier kp)))) by auto.
  rewrite bool_decide_eq_true_2; cycle 1.
  - rewrite <-ceval_base. cbn [fmap list_fmap]. by rewrite base_zero.
  - eexists. split; [done |]. rewrite peval_zip_add by done. split; [done |].
    split; [done | apply refreshed_own_key].
Qed.

(** A refresh cannot shift the secret: whatever dealer made it, a refresh
    share is applied exactly when it is the value at the participant's
    identifier of its committed polynomial with the constant term replaced by
    zero; the new share is the old one plus that value. *)
Theorem ApplyRefreshShare_spec rs kp a cs s kp' :
  is_uint32 (refresh.rs_Identifier rs) → refresh.rs_Share rs = Some a →
  refresh.rs_Commitment rs = commits cs → SecretShare kp = Some s →
  refresh.ApplyRefreshShare rs (Some kp) = Ok kp' ↔
  refresh.rs_Identifier rs = kp_Identifier kp ∧
  a = peval (0 :: cs) (sc (kp_Identifier kp)) ∧ kp' = refreshed kp s a.
Proof.
  intros Hu Ha HC Hs.
  destruct (decide (refresh.rs_Identifier rs = kp_Identifier kp)) as [Hid|Hid].
  - rewrite (ApplyRefreshShare_cases rs kp a ((λ c, g^c) <$> cs) s) by done.
    rewrite <-base_zero. change (g^0 :: ((λ c, g^c) <$> cs)) with ((λ c, g^c) <$> (0 :: cs)).
    rewrite ceval_base. case_bool_decide as Hb.
    + apply base_inj in Hb. split; [by intros [= <-] | by intros (_ & _ & ->)].
    + split; [done |]. by intros (_ & -> & _).
  - split; [| by intros []]. unfold refresh.ApplyRefreshShare.
    rewrite Ha, (proj2 (Z.eqb_neq _ _)) by done. done.
Qed.
End RefreshFacts.
