(* ===== verification/Repairable.v ===== *)
(** * Share repair: [pkg/frost/keygen/repairable/repairable.go]

    Helpers recover the share of a participant that lost it, without
    reconstructing the secret.  The theorem: when at least as many helpers as
    the threshold run the steps, the recovering participant ends with exactly
    the share it lost. *)

From S2P Require Export Dkg.

Module repairable.
Section Defs.
Context {G : Group}.

Record Step1Result := { Deltas : gmap Z Scalar }.

Definition Zeroize (r : Step1Result) : Step1Result :=
  {| Deltas := (λ delta, s_Sub delta delta) <$> Deltas r |}.

(** The loop that rejects duplicates and looks for the helper itself. *)
Definition scan_step (self : Z) (acc : gset Z * bool) (id : Z) : Res (gset Z * bool) :=
  let '(seen, foundSelf) := acc in
  _ ← fail_if (bool_decide (id ∈ seen))
        (NewParameterError "helperIdentifiers" "contains duplicates"
           (Sentinel ErrDuplicateParticipant));
  Ok ({[id]} ∪ seen, (id =? self)%Z || foundSelf).

(** The index of the first coordinate equal to [xi]. *)
Fixpoint find_index (xCoords : list Scalar) (xi : Scalar) : option nat :=
  match xCoords with
  | [] => None
  | coord :: rest => if s_Equal coord xi then Some 0%nat else S <$> find_index rest xi
  end.

Definition computeLagrangeCoefficient (xCoords : list Scalar) (x xi : Scalar) : Res Scalar :=
  match find_index xCoords xi with
  | None => Fail (NewParameterError "xi" "not found in xCoords"
                    (Sentinel ErrInvalidParameters))
  | Some xiIndex =>
      one ← polynomialHelper.scalarOne;
      let '(numerator, denominator) :=
        foldl (λ '(numerator, denominator) '(j, xj),
                 if j =? xiIndex then (numerator, denominator)
                 else (s_Mul numerator (s_Sub x xj), s_Mul denominator (s_Sub xi xj)))
              (one, s_Copy one) (imap pair xCoords) in
      denominatorInv ← wrap (NewParameterError "denominator" "inversion failed")
                            (s_Inv denominator);
      Ok (s_Mul numerator denominatorInv)
  end.

(** The random deltas for all helpers but the last, with their sum. *)
Definition delta_step (acc : gmap Z Scalar * Scalar) (id : Z) : Rand (gmap Z Scalar * Scalar) :=
  let '(deltas, randomSum) := acc in
  delta ← rand_wrap (NewParameterError "delta" "failed to generate random delta") RandomScalar;
  mret (<[id := delta]> deltas, s_Add randomSum delta).

Definition RepairShareStep1 (helperIdentifiers : list Z) (myKeyPackage : option KeyPackage)
    (participantToRecover : Z) : Rand Step1Result :=
  _ ← lift (fail_if (length helperIdentifiers <? 2)
        (NewParameterError "helperIdentifiers" "at least 2 helpers required"
           (Sentinel ErrInsufficientParticipants)));
  match myKeyPackage with
  | None => lift (Fail (NewParameterError "myKeyPackage" "cannot be nil"
                          (Sentinel ErrInvalidParameters)))
  | Some me =>
      '(_, foundSelf) ← lift (range_loop (scan_step (kp_Identifier me)) helperIdentifiers
                                (∅, false));
      _ ← lift (fail_if (negb foundSelf)
            (NewParameterError "helperIdentifiers" "must include own identifier"
               (Sentinel ErrInvalidParticipant)));
      helperScalars ← lift (range_map (λ id,
          wrap (NewParticipantError id "failed to convert ID to scalar")
               (IdentifierToScalar id)) helperIdentifiers);
      myScalar ← lift (wrap (NewParameterError "myIdentifier" "failed to convert to scalar")
                            (IdentifierToScalar (kp_Identifier me)));
      participantScalar ← lift (wrap (NewParameterError "participantToRecover"
                                        "failed to convert to scalar")
                                     (IdentifierToScalar participantToRecover));
      lambda ← lift (computeLagrangeCoefficient helperScalars participantScalar myScalar);
      secretShare ← lift (deref (SecretShare me));
      let contribution := s_Mul lambda secretShare in
      let numHelpers := length helperIdentifiers in
      '(deltas, randomSum) ← rand_loop delta_step (take (numHelpers - 1) helperIdentifiers)
                               (∅, NewScalar);
      let lastDelta := s_Sub contribution randomSum in
      last ← lift (index helperIdentifiers (numHelpers - 1));
      mret {| Deltas := <[last := lastDelta]> deltas |}
  end.

(** The sum of a non-empty slice of scalars: [xs[0].Copy()], then [Add]. *)
Definition sum_scalars (xs : list (option Scalar)) : Res Scalar :=
  x0 ← index xs 0;
  x0 ← deref x0;
  range_loop (λ acc x, x ← deref x; Ok (s_Add acc x)) (drop 1 xs) (s_Copy x0).

(** Returns nil for an empty slice. *)
Definition RepairShareStep2 (deltas : list (option Scalar)) : Res (option Scalar) :=
  if bool_decide (length deltas = 0) then Ok None
  else Some <$> sum_scalars deltas.

Definition evaluateCommitmentPolynomial := dkg.evaluateCommitmentPolynomial.

Definition RepairShareStep3 (sigmas : list (option Scalar)) (identifier : Z)
    (groupPublicKey : option Element) (commitment : list (option Element)) : Res KeyPackage :=
  _ ← fail_if (bool_decide (length sigmas = 0))
        (NewParameterError "sigmas" "cannot be empty" (Sentinel ErrInvalidParameters));
  recoveredShare ← sum_scalars sigmas;
  _ ← (if bool_decide (length commitment = 0) then Ok ()
       else
         idScalar ← wrap (NewParameterError "identifier" "failed to convert to scalar")
                         (IdentifierToScalar identifier);
         let left := ScalarBaseMult recoveredShare in
         right ← evaluateCommitmentPolynomial commitment idScalar;
         fail_if (negb (e_Equal left right))
           (NewVerificationError "recoveredShare" "share verification failed"
              (Sentinel ErrInvalidKeyShare)));
  Ok {| kp_Identifier := identifier;
        SecretShare := Some recoveredShare;
        GroupPublicKey := groupPublicKey;
        VerificationShares := [];
        MinSigners := 0;
        MaxSigners := 0 |}.
End Defs.
End repairable.

(** ** Theorems *)

Section RepairableFacts.
Context {G : Group} {L : GroupLaws G}.
Add Field scalar_field : law_field.
Local Open Scope scalar_scope.
Local Open Scope element_scope.
Implicit Types (cs xs : list Scalar) (R : repairable.Step1Result).

Lemma scan_loop self ids seen found r :
  range_loop (repairable.scan_step self) ids (seen, found) = Ok r →
  NoDup ids ∧ (snd r = true ↔ found = true ∨ self ∈ ids).
Proof.
  intros H. assert (Hs : range_loop (seen_body (λ id : Z, id) (λ _, Ok ())
    (λ _, NewParameterError "helperIdentifiers" "contains duplicates"
            (Sentinel ErrDuplicateParticipant))) ids seen = Ok (fst r)).
  { revert seen found H. induction ids as [|id ids IH]; intros seen found; cbn; [by intros [= <-] |].
    case_bool_decide; cbn; [done | apply IH]. }
  apply (seen_loop_Ok (λ id, id)) in Hs as (_ & Hnd & _). rewrite list_fmap_id in Hnd.
  split; [done |]. clear Hnd. revert seen found H.
  induction ids as [|id ids IH]; intros seen found; cbn.
  - intros [= <-]. cbn. split; [by left | by intros [|?%not_elem_of_nil]].
  - case_bool_decide; cbn; [done |]. intros H'%IH. rewrite H', orb_true_iff, Z.eqb_eq, elem_of_cons.
    naive_solver.
Qed.

Lemma find_index_lookup xs xi : xi ∈ xs → NoDup xs →
  ∃ i, repairable.find_index xs xi = Some i ∧ ∀ j, xs !! j = Some xi ↔ j = i.
Proof.
  induction xs as [|x xs IH]; [by intros ?%not_elem_of_nil |].
  intros Hin [Hx Hnd]%NoDup_cons. cbn. rewrite s_Equal_decide. case_bool_decide as Hxi.
  - subst x. exists 0%nat. split; [done |]. intros [|j]; cbn; [done |].
    split; [| done]. intros Hj%list_elem_of_lookup_2. done.
  - apply elem_of_cons in Hin as [->|Hin]; [done |].
    destruct (IH Hin Hnd) as (i & Hi & Hj). exists (S i). rewrite Hi. split; [done |].
    intros [|j]; cbn; [split; [naive_solver | done] |]. rewrite Hj. split; congruence.
Qed.

(** The product that skips one index is the Lagrange product that skips the
    node with that index. *)
Lemma lagrange_fold xs off i x xi n d :
  (∀ j, xs !! j = Some xi ↔ (off + j)%nat = i) →
  foldl (λ '(numerator, denominator) '(j, xj),
           if j =? i then (numerator, denominator)
           else (s_Mul numerator (s_Sub x xj), s_Mul denominator (s_Sub xi xj)))
        (n, d) (imap (λ j, pair (off + j)%nat) xs)
  = (n * lag_num xs xi x, d * lag_num xs xi xi).
Proof.
  revert off n d. induction xs as [|xj xs IH]; intros off n d H; cbn; [f_equal; ring |].
  pose proof (H 0%nat) as H0. cbn in H0. rewrite Nat.add_0_r in *.
  rewrite (imap_ext _ (λ j, pair (S off + j)%nat)) by (intros; cbn; f_equal; lia).
  assert (HS : ∀ j, xs !! j = Some xi ↔ (S off + j)%nat = i).
  { intros j. specialize (H (S j)). cbn in H. rewrite H. lia. }
  destruct (decide (xj = xi)) as [->|Hne].
  - rewrite (proj2 (Nat.eqb_eq _ _)) by (by apply H0). by rewrite IH.
  - rewrite (proj2 (Nat.eqb_neq _ _)) by (intros Hoff; apply H0 in Hoff; congruence).
    rewrite IH by done. f_equal; ring.
Qed.

Lemma computeLagrangeCoefficient_Ok xs x xi :
  NoDup xs → xi ∈ xs → repairable.computeLagrangeCoefficient xs x xi = Ok (lag xs xi x).
Proof.
  intros Hnd Hin. unfold repairable.computeLagrangeCoefficient.
  destruct (find_index_lookup xs xi Hin Hnd) as (i & -> & Hi). rewrite scalarOne_Ok. step.
  rewrite law_s_Copy.
  rewrite (lagrange_fold xs 0 i x xi 1 1 Hi).
  replace (1 * lag_num xs xi xi) with (lag_num xs xi xi) by ring.
  rewrite law_s_Inv by apply lag_num_nonzero. cbn. f_equal. unfold lag. ring.
Qed.

Definition delta R (id : Z) : Scalar := default 0 (repairable.Deltas R !! id).

Lemma delta_loop ids m0 s0 r m s r' :
  NoDup ids → rand_loop repairable.delta_step ids (m0, s0) r = (Ok (m, s), r') →
  (∀ id, id ∉ ids → m !! id = m0 !! id) ∧ (∀ id, id ∈ ids → is_Some (m !! id)) ∧
  s = s0 + ssum ((λ id, default 0 (m !! id)) <$> ids).
Proof.
  revert m0 s0 r. induction ids as [|id ids IH]; intros m0 s0 r Hnd H; cbn [rand_loop] in H.
  - rand_inv. simplify_eq. split; [done |]. split; [by intros ? ?%not_elem_of_nil |]. cbn. ring.
  - apply NoDup_cons in Hnd as [Hid Hnd].
    apply rand_bind_Ok in H as ([m1 s1] & r1 & H1 & H). unfold repairable.delta_step in H1.
    rand_inv. simplify_eq. apply IH in H as (Hout & Hin & ->); [| done].
    assert (Hm : m !! id = Some x) by (rewrite Hout by done; apply lookup_insert_eq).
    split; [| split].
    + intros k [Hk Hk']%not_elem_of_cons. rewrite Hout by done. by apply lookup_insert_ne.
    + intros k [->|Hk]%elem_of_cons; [by rewrite Hm | by apply Hin].
    + cbn [fmap list_fmap ssum]. rewrite Hm. cbn. ring.
Qed.

(** The last delta completes the sum to the contribution [c]. *)
Lemma last_delta front last (deltas : gmap Z Scalar) c :
  last ∉ front → (∀ id, id ∈ front → is_Some (deltas !! id)) →
  let R := {| repairable.Deltas :=
    <[last := c - (0 + ssum ((λ id, default 0 (deltas !! id)) <$> front))]> deltas |} in
  (∀ id, id ∈ front ++ [last] → is_Some (repairable.Deltas R !! id)) ∧
  ssum (delta R <$> front ++ [last]) = c.
Proof.
  intros Hni Hin R. split.
  - intros id. rewrite elem_of_app, list_elem_of_singleton. unfold R; cbn.
    intros [Hid | ->]; [| by rewrite lookup_insert_eq].
    rewrite lookup_insert_ne by congruence. auto.
  - rewrite fmap_app, ssum_app. cbn [fmap list_fmap ssum]. unfold delta at 2. unfold R at 2; cbn.
    rewrite lookup_insert_eq. cbn.
    assert (delta R <$> front = (λ id, default 0 (deltas !! id)) <$> front) as ->.
    { apply Forall_fmap_ext_1, Forall_forall. intros id Hid. unfold delta, R; cbn.
      by rewrite lookup_insert_ne by congruence. }
    ring.
Qed.

(** A helper's deltas over the helper list add up to its contribution. *)
Lemma Step1_inv ids me lost s r R r' :
  Forall is_uint32 ids → is_uint32 lost → SecretShare me = Some s →
  repairable.RepairShareStep1 ids (Some me) lost r = (Ok R, r') →
  NoDup ids ∧ kp_Identifier me ∈ ids ∧ (∀ id, id ∈ ids → is_Some (repairable.Deltas R !! id)) ∧
  ssum (delta R <$> ids) = lag (sc <$> ids) (sc (kp_Identifier me)) (sc lost) * s.
Proof.
  intros Hu Hlost Hs H. unfold repairable.RepairShareStep1 in H.
  apply rand_bind_Ok in H as ([] & r1 & Hlen & H). apply lift_Ok in Hlen as [Hlen ->].
  apply fail_if_Ok in Hlen. apply Nat.ltb_ge in Hlen.
  apply rand_bind_Ok in H as ([seen found] & r1 & Hscan & H). apply lift_Ok in Hscan as [Hscan ->].
  apply scan_loop in Hscan as [Hnd Hfound].
  apply rand_bind_Ok in H as ([] & r1 & Hf & H). apply lift_Ok in Hf as [Hf ->].
  apply fail_if_Ok in Hf. apply negb_false_iff in Hf. subst found.
  assert (Hme : kp_Identifier me ∈ ids) by (by destruct (proj1 Hfound eq_refl)). clear Hfound.
  pose proof (proj1 (Forall_forall _ _) Hu) as Hu'.
  rewrite (range_map_total _ sc) in H
    by (intros id Hid; rewrite IdentifierToScalar_Ok by auto; done).
  rewrite !IdentifierToScalar_Ok in H by auto.
  do 3 (apply rand_bind_Ok in H as (? & r1 & Hl & H); apply lift_Ok in Hl as [Hl ->];
        cbn in Hl; injection Hl as <-).
  rewrite computeLagrangeCoefficient_Ok in H; cycle 1.
  { by apply ids_ok_NoDup. } { by apply list_elem_of_fmap_2. }
  rewrite Hs in H.
  do 2 (apply rand_bind_Ok in H as (? & r1 & Hl & H); apply lift_Ok in Hl as [Hl ->];
        injection Hl as <-).
  apply rand_bind_Ok in H as ([deltas sum] & r1 & Hloop & H).
  assert (Hne : ids ≠ []) by (by intros ->).
  destruct (exists_last Hne) as (front & last & ->).
  assert (Htake : take (length (front ++ [last]) - 1) (front ++ [last]) = front).
  { rewrite length_app, Nat.add_sub. apply take_app_length. }
  rewrite Htake in Hloop. apply NoDup_app in Hnd as (Hndf & Hlast & _).
  apply delta_loop in Hloop as (_ & Hin & ->); [| done].
  rewrite law_NewScalar in H. rand_inv.
  rename select (index _ _ = _) into Hidx.
  assert (x = last) as ->.
  { unfold index in Hidx. rewrite length_app, Nat.add_sub, list_lookup_middle in Hidx by done.
    by injection Hidx. }
  assert (Hni : last ∉ front) by (intros Hin'; apply (Hlast last Hin'); by apply list_elem_of_here).
  destruct (last_delta front last deltas
    (lag (sc <$> front ++ [last]) (sc (kp_Identifier me)) (sc lost) * s) Hni Hin) as [Hd Hsum].
  split; [| by split_and!]. apply NoDup_app. split_and!; [done | done | apply NoDup_singleton].
Qed.

Lemma sum_scalars_Ok xs : xs ≠ [] → repairable.sum_scalars (Some <$> xs) = Ok (ssum xs).
Proof.
  destruct xs as [|x xs]; [done |]. intros _. unfold repairable.sum_scalars. cbn.
  rewrite law_s_Copy, (range_loop_total _ (λ acc o, acc + default 0 o)).
  - f_equal. change (foldl (λ acc o, acc + default 0 o) x (Some <$> xs) = x + ssum xs).
    revert x. induction xs as [|y xs IH]; intros x; cbn; [ring |]. rewrite IH. ring.
  - intros acc o Ho. rewrite drop_0 in Ho. by apply list_elem_of_fmap in Ho as (y & -> & _).
Qed.

Definition recovered (id : Z) (gpk : option Element) (s : Scalar) : KeyPackage :=
  {| kp_Identifier := id; SecretShare := Some s; GroupPublicKey := gpk;
     VerificationShares := []; MinSigners := 0; MaxSigners := 0 |}.

Lemma Step3_cases xs id gpk cs :
  xs ≠ [] → is_uint32 id → cs ≠ [] →
  repairable.RepairShareStep3 (Some <$> xs) id gpk (commits cs) =
    if bool_decide (ssum xs = peval cs (sc id)) then Ok (recovered id gpk (ssum xs))
    else Fail (NewVerificationError "recoveredShare" "share verification failed"
                 (Sentinel ErrInvalidKeyShare)).
Proof.
  intros Hne Hid Hcs. unfold repairable.RepairShareStep3, commits.
  rewrite !length_fmap, (bool_decide_eq_false_2 (length xs = 0%nat)),
    (bool_decide_eq_false_2 (length cs = 0%nat)) by (by destruct xs, cs). step.
  rewrite sum_scalars_Ok by done. step. rewrite IdentifierToScalar_Ok by done. step.
  unfold repairable.evaluateCommitmentPolynomial.
  rewrite evaluateCommitmentPolynomial_Ok, ceval_base. step. rewrite e_Equal_decide.
  destruct (decide (ssum xs = peval cs (sc id))) as [->|Hne'].
  - by rewrite !bool_decide_eq_true_2.
  - rewrite (bool_decide_eq_false_2 (g^_ = _)), (bool_decide_eq_false_2 (ssum xs = _)); [done | done |].
    by intros ?%base_inj.
Qed.

(** The sigma of helper [j]: the sum of what all helpers dealt to it. *)
Lemma Step2_sum (results : list repairable.Step1Result) j :
  results ≠ [] → Forall (λ R, is_Some (repairable.Deltas R !! j)) results →
  repairable.RepairShareStep2 ((λ R, repairable.Deltas R !! j) <$> results)
  = Ok (Some (ssum ((λ R, delta R j) <$> results))).
Proof.
  intros Hne Hall. unfold repairable.RepairShareStep2.
  rewrite length_fmap, bool_decide_eq_false_2 by (by destruct results).
  assert ((λ R, repairable.Deltas R !! j) <$> results = Some <$> ((λ R, delta R j) <$> results)) as ->.
  { rewrite <-list_fmap_compose. apply Forall_fmap_ext_1. eapply Forall_impl; [exact Hall |].
    intros R [d Hd]. cbn. unfold delta. by rewrite Hd. }
  by rewrite sum_scalars_Ok by (by destruct results).
Qed.

(** The deltas of a helper that ran step one with a share of [cs]. *)
Definition contributes (ids : list Z) (lost : Z) cs (kp : KeyPackage) R : Prop :=
  (∀ id, id ∈ ids → is_Some (repairable.Deltas R !! id)) ∧
  ssum (delta R <$> ids)
  = peval cs (sc (kp_Identifier kp)) * lag (sc <$> ids) (sc (kp_Identifier kp)) (sc lost).

(** All sigmas together: summing by sender instead of by receiver gives the
    interpolation of the polynomial at the lost identifier. *)
Lemma sigma_sum ids helpers results lost cs :
  ids = kp_Identifier <$> helpers → ids_ok ids → length cs ≤ length helpers →
  Forall2 (contributes ids lost cs) helpers results →
  ssum ((λ j, ssum ((λ R, delta R j) <$> results)) <$> ids) = peval cs (sc lost).
Proof.
  intros Hids Hok Hlen Hruns.
  rewrite ssum_swap, <-(lagrange_interpolation (sc <$> ids) cs (sc lost)); cycle 1.
  { by apply ids_ok_NoDup. } { by rewrite Hids, !length_fmap. }
  unfold interpolate. set (f := λ xi, peval cs xi * lag (sc <$> ids) xi (sc lost)).
  rewrite (f_equal (λ l, f <$> (sc <$> l)) Hids), <-!list_fmap_compose. f_equal.
  clear -Hruns. induction Hruns as [|kp R ? ? [_ Hs] _ IH]; [done |].
  cbn [fmap list_fmap]. f_equal; [exact Hs | exact IH].
Qed.

(** C38: share repair works: when helpers whose shares lie on one polynomial
    with no more coefficients than there are helpers run step one, every
    helper's step two succeeds on what it received, and step three returns to
    the participant exactly the value of that polynomial at its identifier. *)
Theorem repair_recovers_share helpers results lost cs gpk :
  let ids := kp_Identifier <$> helpers in
  Forall is_uint32 ids → is_uint32 lost → cs ≠ [] → length cs ≤ length helpers →
  (∀ kp, kp ∈ helpers → SecretShare kp = Some (peval cs (sc (kp_Identifier kp)))) →
  Forall2 (λ kp R, ∃ r r', repairable.RepairShareStep1 ids (Some kp) lost r = (Ok R, r'))
    helpers results →
  ∃ sigmas,
    range_map (λ j, repairable.RepairShareStep2 ((λ R, repairable.Deltas R !! j) <$> results)) ids
      = Ok sigmas ∧
    repairable.RepairShareStep3 sigmas lost gpk (commits cs)
      = Ok (recovered lost gpk (peval cs (sc lost))).
Proof.
  intros ids Hu Hlost Hcs Hlen Hshares Hruns.
  assert (Hids : ids = kp_Identifier <$> helpers) by done. clearbody ids.
  assert (Hne : helpers ≠ []) by (intros ->; destruct cs; cbn in *; [done | lia]).
  assert (Hruns' : Forall2 (λ kp R, NoDup ids ∧ contributes ids lost cs kp R) helpers results).
  { apply Forall2_same_length_lookup_2; [by eapply Forall2_length |].
    intros i kp R Hkp HR. destruct (Forall2_lookup_lr _ _ _ _ _ _ Hruns Hkp HR) as (r & r' & Hr).
    apply list_elem_of_lookup_2 in Hkp.
    eapply Step1_inv in Hr as (Hnd & _ & Hd & Hsum); [| done | done | by apply Hshares].
    split; [done |]. split; [done |]. rewrite Hsum. ring. }
  assert (Hok : ids_ok ids) by (split; [by destruct Hruns' as [|? ? ? ? (Hnd & _) _] | done]).
  assert (Hres : results ≠ []) by (by destruct Hruns').
  apply (Forall2_impl _ (contributes ids lost cs)) in Hruns'; [| by intros ? ? []].
  exists (Some <$> ((λ j, ssum ((λ R, delta R j) <$> results)) <$> ids)). split.
  - rewrite <-list_fmap_compose. apply range_map_total. intros j Hj.
    rewrite Step2_sum; [done | done |].
    apply (Forall2_Forall_r _ _ _ _ Hruns'), Forall_forall. intros kp _ R [Hd _]. auto.
  - rewrite Step3_cases; [| rewrite Hids; by destruct helpers | done | done].
    rewrite (sigma_sum ids helpers results lost cs), bool_decide_eq_true_2; done.
Qed.

(** Step three returns a share only if it is the right one: against the
    commitments of the sharing polynomial it succeeds exactly when the sigmas
    add up to the lost share, and otherwise it reports an invalid key share. *)
Theorem RepairShareStep3_spec xs id gpk cs :
  xs ≠ [] → is_uint32 id → cs ≠ [] →
  (∀ kp, repairable.RepairShareStep3 (Some <$> xs) id gpk (commits cs) = Ok kp ↔
         ssum xs = peval cs (sc id) ∧ kp = recovered id gpk (peval cs (sc id))) ∧
  (ssum xs ≠ peval cs (sc id) →
   ∃ e, repairable.RepairShareStep3 (Some <$> xs) id gpk (commits cs) = Fail e ∧
        errors_Is e ErrInvalidKeyShare = true).
Proof.
  intros Hne Hid Hcs. rewrite Step3_cases by done. case_bool_decide as Hs.
  - split; [| done]. intros kp. rewrite Hs. naive_solver.
  - split; [naive_solver |]. intros _. by eexists.
Qed.
End RepairableFacts.
