(* ===== verification/Service.v ===== *)
(** * The service layer: [pkg/frost/service/frost.go]

    [FrostService] wires the dealer, the participants and the aggregator into
    one call each for key generation, signing and verification.  The theorems:
    a quorum of packages from [GenerateKeys], in any order, signs, and the
    signature verifies under the returned key; and [Sign] never serves a proper
    quorum of packages from [TrustedDealerKeygen], because it takes the number
    of verification shares for the threshold. *)

From S2P Require Export Signing.

Module service.
Section Defs.
Context {G : Group} {CS : Ciphersuite G}.

Definition validateConfiguration (config : Configuration) : Res unit :=
  _ ← fail_if (cfg_MinSigners config <? 2)%Z
        (NewParameterError "minSigners" "must be at least 2" (Sentinel ErrInvalidThreshold));
  _ ← fail_if (cfg_MaxSigners config <? cfg_MinSigners config)%Z
        (NewParameterError "minSigners" "cannot exceed maxSigners"
           (Sentinel ErrInvalidThreshold));
  fail_if (negb (cfg_Group_set config))
    (NewParameterError "group" "cannot be nil" (Sentinel ErrInvalidConfiguration)).

(** A nil slice is [None]. *)
Definition validateParticipantIDs (participantIDs : option (list Z)) (maxSigners : Z)
  : Res unit :=
  match participantIDs with
  | None => Fail (NewParameterError "participantIDs" "cannot be nil"
                    (Sentinel ErrInvalidParameters))
  | Some participantIDs =>
      _ ← fail_if (negb (Z.of_nat (length participantIDs) =? maxSigners)%Z)
            (NewParameterError "participantIDs" "length must equal maxSigners"
               (Sentinel ErrInvalidParameters));
      _ ← dealer.check_ids participantIDs;
      Ok ()
  end.

Definition GenerateKeys (config : Configuration) (participantIDs : option (list Z))
  : Rand (list KeyPackage * Element) :=
  _ ← lift (validateConfiguration config);
  _ ← lift (validateParticipantIDs participantIDs (cfg_MaxSigners config));
  dealer.GenerateShares None (cfg_MinSigners config) (cfg_MaxSigners config)
    (default [] participantIDs).

(** The body of the loop over [keyPackages[1:]]: [i] counts from 0.  A nil key is
    dereferenced, as the receiver of [Equal] or by the type assertion
    [other.( *Element)] that every adapter starts [Equal] with, which panics on a
    nil interface. *)
Definition check_package (keyPackages : list KeyPackage) (firstGroupPubKey : option Element)
    (i : nat) (pkg : KeyPackage) : Res unit :=
  key ← deref (GroupPublicKey pkg);
  first ← deref firstGroupPubKey;
  _ ← fail_if (negb (e_Equal key first))
        (NewParticipantError (kp_Identifier pkg) "group public key mismatch"
           (Sentinel ErrInvalidKeyShare));
  range_loop (λ _ other,
    fail_if (kp_Identifier other =? kp_Identifier pkg)%Z
      (NewParticipantError (kp_Identifier pkg) "duplicate participant"
         (Sentinel ErrDuplicateParticipant)))
    (take (i + 1) keyPackages) ().

Definition validateKeyPackages (keyPackages : option (list KeyPackage)) : Res unit :=
  match keyPackages with
  | None => Fail (NewParameterError "keyPackages" "cannot be nil"
                    (Sentinel ErrInvalidParameters))
  | Some [] => Fail (NewParameterError "keyPackages" "cannot be empty"
                       (Sentinel ErrInsufficientParticipants))
  | Some (first :: rest) =>
      range_loop (λ _ '(i, pkg), check_package (first :: rest) (GroupPublicKey first) i pkg)
        (imap pair rest) ()
  end.

(** Round one: the nonces by identifier and the commitments in call order. *)
Definition round_one_step (acc : gmap Z SigningNonces * CommitmentList) (pkg : KeyPackage)
  : Rand (gmap Z SigningNonces * CommitmentList) :=
  let '(noncesMap, commitments) := acc in
  '(nonces, commitment) ←
    rand_wrap (NewParticipantError (kp_Identifier pkg) "round one failed")
              (participant.RoundOne pkg);
  mret (<[kp_Identifier pkg := nonces]> noncesMap, commitments ++ [commitment]).

(** Round two of one participant; a missing entry of the Go map is the zero
    struct.  The local copy of the nonces that the code zeroizes afterwards is
    not used again. *)
Definition round_two_step (noncesMap : gmap Z SigningNonces) (msg : bytes)
    (commitments : CommitmentList) (pkg : KeyPackage) : Res SignatureShare :=
  let nonces := default {| HidingNonce := None; BindingNonce := None;
                           Commitments := zero_commitments |}
                        (noncesMap !! kp_Identifier pkg) in
  wrap (NewParticipantError (kp_Identifier pkg) "round two failed")
       (participant.RoundTwo pkg nonces msg commitments).

Definition Sign (keyPackages : option (list KeyPackage)) (msg : bytes) : Rand Signature :=
  _ ← lift (validateKeyPackages keyPackages);
  let pkgs := default [] keyPackages in
  _ ← lift (fail_if (length pkgs <? 2)
        (NewParameterError "keyPackages" "must have at least 2 participants"
           (Sentinel ErrInsufficientParticipants)));
  first ← lift (index pkgs 0);
  let minSigners :=
    if 0 <? length (VerificationShares first)
    then (Z.of_nat (length (VerificationShares first)) mod 2 ^ 32)%Z
    else (Z.of_nat (length pkgs) mod 2 ^ 32)%Z in
  '(noncesMap, commitments) ← rand_loop round_one_step pkgs (∅, []);
  let commitments := sort_Slice cm_Identifier commitments in
  signatureShares ← lift (range_map (round_two_step noncesMap msg commitments) pkgs);
  lift (aggregator.Aggregate minSigners (GroupPublicKey first) commitments msg signatureShares).

Definition Verify (msg : bytes) (signature : Signature) (publicKey : option Element)
  : Res unit :=
  _ ← fail_if (bool_decide (sig_R signature = None))
        (NewParameterError "signature.R" "cannot be nil" (Sentinel ErrInvalidSignature));
  _ ← fail_if (bool_decide (sig_Z signature = None))
        (NewParameterError "signature.Z" "cannot be nil" (Sentinel ErrInvalidSignature));
  _ ← fail_if (bool_decide (publicKey = None))
        (NewParameterError "publicKey" "cannot be nil" (Sentinel ErrInvalidParameters));
  aggregator.Verify msg signature publicKey.

Definition VerifyKeyShare (keyPackage : KeyPackage) : Res unit :=
  _ ← fail_if (bool_decide (SecretShare keyPackage = None))
        (NewParameterError "keyPackage.SecretShare" "cannot be nil" (Sentinel ErrInvalidKeyShare));
  _ ← fail_if (bool_decide (length (VerificationShares keyPackage) = 0))
        (NewParameterError "keyPackage.VerificationShares" "cannot be empty"
           (Sentinel ErrInvalidKeyShare));
  dealer.VerifyShare (kp_Identifier keyPackage) (SecretShare keyPackage)
    (VerificationShares keyPackage).
End Defs.
End service.

(** ** Theorems *)

Section ServiceFacts.
Context {G : Group} {L : GroupLaws G} {CS : Ciphersuite G}.
Add Field scalar_field : law_field.
Local Open Scope scalar_scope.
Local Open Scope element_scope.
Implicit Types (kps quorum : list KeyPackage) (msg : bytes) (pk : Element).

Local Abbreviation ids l := (cm_Identifier <$> l).

(** Packages with one group key and distinct identifiers pass validation. *)
Lemma validateKeyPackages_Ok pk kps :
  kps ≠ [] → NoDup (kp_Identifier <$> kps) → Forall (λ kp, GroupPublicKey kp = Some pk) kps →
  service.validateKeyPackages (Some kps) = Ok ().
Proof.
  intros Hne Hnd Hpk. destruct kps as [|first rest]; [done |]. cbn [service.validateKeyPackages].
  apply (check_loop_Ok (λ '(i, pkg),
    service.check_package (first :: rest) (GroupPublicKey first) i pkg)).
  apply Forall_lookup. intros j [i pkg] Hj. rewrite list_lookup_imap in Hj.
  apply fmap_Some in Hj as (kp & Hkp & [= -> ->]).
  assert (Hkp' : (first :: rest) !! S j = Some kp) by done.
  assert (Hkey : ∀ k, k ∈ first :: rest → GroupPublicKey k = Some pk) by (by apply Forall_forall).
  unfold service.check_package. rewrite !Hkey
    by first [apply list_elem_of_here | by eapply list_elem_of_lookup_2]. step.
  rewrite (proj2 (law_e_Equal pk pk)) by done. step.
  apply (check_loop_Ok (λ other, fail_if (kp_Identifier other =? kp_Identifier kp)%Z _)).
  apply Forall_lookup. intros m other Hm. apply lookup_take_Some in Hm as [Hm Hlt].
  apply fail_if_Ok, Z.eqb_neq. intros He.
  assert (m = S j); [| lia]. eapply NoDup_lookup; [exact Hnd | |]; rewrite list_lookup_fmap.
  - by rewrite Hm.
  - rewrite Hkp'. cbn. by rewrite He.
Qed.

(** What round one of the service collects. *)
Lemma round_one_loop kps rounds r r' m cs :
  rand_map participant.RoundOne kps r = (Ok rounds, r') →
  rand_loop service.round_one_step kps (m, cs) r =
    (Ok (foldl (λ m '(k, v), <[k := v]> m) m (zip (kp_Identifier <$> kps) rounds.*1),
         cs ++ rounds.*2), r').
Proof.
  revert rounds r m cs. induction kps as [|kp kps IH]; intros rounds r m cs H.
  - injection H as <- <-. cbn. by rewrite app_nil_r.
  - cbn [rand_map] in H. apply rand_bind_Ok in H as ([n c] & r1 & H1 & H).
    apply rand_bind_Ok in H as (rounds' & r2 & H2 & H). apply rand_ret_Ok in H as [<- ->].
    cbn [rand_loop]. apply rand_bind_Ok. exists (<[kp_Identifier kp := n]> m, cs ++ [c]), r1. split.
    + unfold service.round_one_step. apply rand_bind_Ok. exists (n, c), r1.
      split; [by apply rand_wrap_Ok | done].
    + rewrite (IH _ _ _ _ H2). cbn. by rewrite <-app_assoc.
Qed.

(** A run of the service. *)
Section Run.
Context (cs : list Scalar) (vs : list VerificationShare) (n : Z) (all : list Z)
  (ps : list signer) (msg : bytes).
Definition run_threshold : Z := Z.of_nat (length vs).

Local Abbreviation pk := (g^(peval cs 0)).
Local Abbreviation l := (run_list ps).
Local Abbreviation t := run_threshold.
Local Abbreviation shares := (signer_share cs pk l msg <$> ps).

Context (Ht : is_uint32 t) (H : honest_run cs vs t n all ps msg).

Lemma run_validates : service.validateKeyPackages (Some (s_kp <$> ps)) = Ok ().
Proof.
  apply (validateKeyPackages_Ok pk).
  - intros He. apply (f_equal length) in He. rewrite length_fmap in He. cbn in He.
    pose proof (run_length _ _ _ _ _ _ _ H). lia.
  - rewrite <-list_fmap_compose. apply H.
  - apply Forall_fmap. eapply Forall_impl; [by eapply run_ok |]. by intros p (_ & Hp & _).
Qed.

Lemma run_round_two :
  range_map (service.round_two_step
    (foldl (λ m '(k, v), <[k := v]> m) ∅ (zip (kp_Identifier <$> (s_kp <$> ps)) (run_rounds ps).*1))
    msg l) (s_kp <$> ps) = Ok shares.
Proof.
  rewrite range_map_fmap. apply range_map_total. intros p Hp. unfold service.round_two_step.
  replace (zip (kp_Identifier <$> (s_kp <$> ps)) (run_rounds ps).*1)
    with ((λ p, (signer_id p, round_one_nonces (signer_id p) (s_d p) (s_e p))) <$> ps)
    by (unfold run_rounds; by rewrite <-!list_fmap_compose, zip_fmap_both).
  change (kp_Identifier (s_kp p)) with (signer_id p).
  rewrite nonces_lookup by (done || apply H). by eapply wrap_Ok, run_answer.
Qed.

Lemma run_Sign r r2 :
  rand_map participant.RoundOne (s_kp <$> ps) r = (Ok (run_rounds ps), r2) →
  service.Sign (Some (s_kp <$> ps)) msg r = (Ok (assembled pk l msg shares), r2).
Proof.
  intros Hr1. pose proof (run_length _ _ _ _ _ _ _ H) as Hlen. unfold service.Sign.
  apply rand_bind_Ok. exists (), r.
  split; [apply lift_Ok; split; [apply run_validates | done] |].
  change (default [] (Some (s_kp <$> ps))) with (s_kp <$> ps). apply rand_bind_Ok. exists (), r.
  split; [apply lift_Ok; split; [| done]; apply fail_if_Ok, Nat.ltb_ge; rewrite length_fmap; lia |].
  assert (∃ p0, p0 ∈ ps ∧ index (s_kp <$> ps) 0 = (Ok (s_kp p0) : Res _)) as (p0 & Hp0 & Hindex).
  { clear -Hlen. destruct ps as [|p0 ps0]; [cbn in Hlen; lia |]. exists p0. by split; [left |]. }
  rewrite Hindex. apply rand_bind_Ok. exists (s_kp p0), r. split; [done |].
  assert (VerificationShares (s_kp p0) = vs ∧ GroupPublicKey (s_kp p0) = Some pk) as [-> ->].
  { pose proof (run_packages _ _ _ _ _ _ _ H (s_kp p0) (list_elem_of_fmap_2 _ _ _ Hp0)) as Hsub.
    by apply list_elem_of_fmap in Hsub as (id & -> & _). }
  assert (Hvs : 0 < length vs) by (unfold run_threshold in *; lia).
  rewrite (proj2 (Nat.ltb_lt _ _) Hvs).
  change (Z.of_nat (length vs)) with t. rewrite Z.mod_small by (unfold is_uint32, uint32_max in Ht; lia).
  apply rand_bind_Ok. eexists _, r2. split; [by apply round_one_loop |].
  cbn [app]. change (sort_Slice cm_Identifier (run_rounds ps).*2) with l.
  rewrite run_round_two. apply rand_bind_Ok. exists shares, r2. split; [done |].
  by erewrite run_aggregates.
Qed.
End Run.

Lemma GenerateKeys_inv config all r kps pk r1 :
  Forall is_uint32 all →
  service.GenerateKeys config (Some all) r = (Ok (kps, pk), r1) →
  dealer_params_ok (cfg_MinSigners config) (cfg_MaxSigners config) all ∧
  ∃ cs, length cs = Z.to_nat (cfg_MinSigners config) ∧ pk = g^(peval cs 0) ∧
    kps = dealt_package cs (commitments_of cs) (cfg_MinSigners config)
            (cfg_MaxSigners config) <$> all.
Proof.
  intros Hu H. unfold service.GenerateKeys in H. rand_inv.
  apply GenerateShares_inv in H as (Hp & cs & ? & ? & _ & ?); [| done]. eauto 10.
Qed.

(** C4: the service signs: any quorum of packages from [GenerateKeys], presented
    in any order, gets a signature on any message, and the service's [Verify]
    accepts it under the key [GenerateKeys] returned.  The three inequations
    exclude the hash and nonce collisions that the code reports as errors. *)
Theorem service_signs config all r kps pk r1 quorum msg rounds r2 :
  Forall is_uint32 all → is_uint32 (cfg_MaxSigners config) →
  service.GenerateKeys config (Some all) r = (Ok (kps, pk), r1) →
  quorum ⊆ kps → NoDup (kp_Identifier <$> quorum) →
  (cfg_MinSigners config ≤ Z.of_nat (length quorum))%Z →
  rand_map participant.RoundOne quorum r1 = (Ok rounds, r2) →
  pk ≠ Identity → group_commitment pk (sort_Slice cm_Identifier rounds.*2) msg ≠ Identity →
  session_chal pk (sort_Slice cm_Identifier rounds.*2) msg ≠ 0 →
  ∃ sig, service.Sign (Some quorum) msg r1 = (Ok sig, r2) ∧
         service.Verify msg sig (Some pk) = Ok ().
Proof.
  intros Hu Hmax Hgen Hsub Hnd Hlen Hr1 Hid HR Hc.
  apply GenerateKeys_inv in Hgen as ((Ht & _) & cs & Hcs & -> & ->); [| done].
  pose proof Hr1 as Hr1'.
  apply RoundOne_signers in Hr1 as (ps & <- & Hnz & ->).
  rewrite length_fmap in Hlen. rewrite <-list_fmap_compose in Hnd.
  assert (Hvs : length (commitments_of cs) = length cs).
  { unfold commitments_of. by rewrite length_imap. }
  assert (Hthr : run_threshold (commitments_of cs) = cfg_MinSigners config)
    by (unfold run_threshold; lia).
  rewrite <-Hthr in Hsub, Ht, Hlen.
  assert (Hrun : honest_run cs (commitments_of cs) (run_threshold (commitments_of cs))
            (cfg_MaxSigners config) all ps msg) by (split; try done; lia).
  eexists. split.
  - eapply (run_Sign cs (commitments_of cs)); [unfold is_uint32 in *; lia | exact Hrun | done].
  - unfold service.Verify. step. by eapply run_verifies.
Qed.

(** The service refuses the quorums it should serve: for the packages of
    [TrustedDealerKeygen], which carry one verification share per participant,
    [Sign] never returns a signature for fewer than all of them, although the
    threshold [t] may be smaller.  The code takes [len(VerificationShares)] for
    the threshold. *)
Theorem Sign_refuses_dealer_quorum n t all r kps pkp r1 quorum msg r2 sig r3 :
  Forall is_uint32 all → is_uint32 n →
  TrustedDealerKeygen n t all r = (Ok (kps, pkp), r1) →
  quorum ⊆ kps → (Z.of_nat (length quorum) < n)%Z →
  service.Sign (Some quorum) msg r2 ≠ (Ok sig, r3).
Proof.
  intros Hu Hn Hgen Hsub Hlen H.
  apply TrustedDealerKeygen_inv in Hgen as ((Ht & Hall & _) & cs & _ & _ & ->); [| done].
  unfold service.Sign in H. change (default [] (Some quorum)) with quorum in H. rand_inv.
  rename select (gmap Z SigningNonces * CommitmentList)%type into acc. destruct acc. rand_inv.
  rename select (index quorum 0 = _) into Hfirst. rename select (range_map _ _ = _) into Hshares.
  apply range_map_Ok, Forall2_length in Hshares.
  destruct quorum as [|first rest]; [done |]. injection Hfirst as <-.
  assert (Hvs : VerificationShares first = public_shares cs all).
  { specialize (Hsub first (list_elem_of_here _ _)).
    by apply list_elem_of_fmap in Hsub as (id & -> & _). }
  assert (Hvl : length (VerificationShares first) = length all)
    by (rewrite Hvs; apply length_fmap).
  rewrite Hvl, (proj2 (Nat.ltb_lt 0 (length all))), Hall, Z.mod_small in *
    by (unfold is_uint32, uint32_max in *; lia).
  unfold aggregator.Aggregate in *. ok_inv.
  rename select ((_ <? n)%Z = _) into Hge. apply Z.ltb_ge in Hge. lia.
Qed.
End ServiceFacts.
