(* ===== verification/Session.v ===== *)
(** * Signing sessions: [pkg/frost/service/session_manager.go]

    A session collects one commitment and one signature share per expected
    participant behind a mutex; the manager keeps sessions by a random
    identifier.  Every exported method holds the lock for its whole body, so a
    concurrent execution is a sequence of the atomic steps modelled here, and
    the theorems hold for every interleaving: the commitment list a session
    releases is the sorted list of one accepted commitment per participant, what
    was accepted is never replaced, cancellation is final, and no session ever
    returns a signature. *)

From Stdlib Require Import Ascii.
From S2P Require Export Signing.

Module session.
Section Defs.
Context {G : Group} `{MapOrder}.

Record signingSession := {
  id : string;
  participantIDs : list Z;
  message : bytes;
  commitments : gmap Z SigningCommitments;
  signatureShares : gmap Z SignatureShare;
  finalSignature : Signature;
  isComplete : bool;
  isCanceled : bool;
  minParticipants : nat;
}.

Definition newSigningSession (id : string) (participantIDs : list Z) (message : bytes)
  : signingSession :=
  {| id := id;
     participantIDs := participantIDs;
     message := message;
     commitments := ∅;
     signatureShares := ∅;
     finalSignature := {| sig_R := None; sig_Z := None |};
     isComplete := false;
     isCanceled := false;
     minParticipants := length participantIDs |}.

Definition set_commitments (m : gmap Z SigningCommitments) (s : signingSession) :=
  {| id := id s; participantIDs := participantIDs s; message := message s;
     commitments := m; signatureShares := signatureShares s;
     finalSignature := finalSignature s; isComplete := isComplete s;
     isCanceled := isCanceled s; minParticipants := minParticipants s |}.
Definition set_signatureShares (m : gmap Z SignatureShare) (s : signingSession) :=
  {| id := id s; participantIDs := participantIDs s; message := message s;
     commitments := commitments s; signatureShares := m;
     finalSignature := finalSignature s; isComplete := isComplete s;
     isCanceled := isCanceled s; minParticipants := minParticipants s |}.
Definition set_isCanceled (b : bool) (s : signingSession) :=
  {| id := id s; participantIDs := participantIDs s; message := message s;
     commitments := commitments s; signatureShares := signatureShares s;
     finalSignature := finalSignature s; isComplete := isComplete s;
     isCanceled := b; minParticipants := minParticipants s |}.

(** The two state checks the mutators start with. *)
Definition check_open (s : signingSession) : Res unit :=
  _ ← fail_if (isCanceled s)
        (NewParameterError "session" "session is canceled" (Sentinel ErrInvalidParameters));
  fail_if (isComplete s)
    (NewParameterError "session" "session is already complete" (Sentinel ErrInvalidParameters)).

(** The search for an expected participant. *)
Definition expected (s : signingSession) (identifier : Z) : bool :=
  existsb (λ id, (id =? identifier)%Z) (participantIDs s).

Definition AddCommitment (commitment : SigningCommitments) (s : signingSession)
  : Res unit * signingSession :=
  let identifier := cm_Identifier commitment in
  match (_ ← check_open s;
         _ ← fail_if (negb (expected s identifier))
               (NewParticipantError identifier "not in participant list"
                  (Sentinel ErrInvalidParticipant));
         fail_if (bool_decide (is_Some (commitments s !! identifier)))
           (NewParticipantError identifier "commitment already added"
              (Sentinel ErrDuplicateParticipant))) with
  | Ok tt => (Ok (), set_commitments (<[identifier := commitment]> (commitments s)) s)
  | err => (err, s)
  end.

Definition GetCommitmentList (s : signingSession) : Res CommitmentList :=
  _ ← fail_if (isCanceled s)
        (NewParameterError "session" "session is canceled" (Sentinel ErrInvalidParameters));
  _ ← fail_if (size (commitments s) <? minParticipants s)
        (NewParameterError "commitments" "insufficient commitments"
           (Sentinel ErrInsufficientParticipants));
  Ok (sort_Slice cm_Identifier (range_entries 0 (commitments s)).*2).

Definition AddSignatureShare (share : SignatureShare) (s : signingSession)
  : Res unit * signingSession :=
  let identifier := share_Identifier share in
  match (_ ← check_open s;
         _ ← fail_if (negb (expected s identifier))
               (NewParticipantError identifier "not in participant list"
                  (Sentinel ErrInvalidParticipant));
         fail_if (bool_decide (is_Some (signatureShares s !! identifier)))
           (NewParticipantError identifier "signature share already added"
              (Sentinel ErrDuplicateParticipant))) with
  | Ok tt => (Ok (), set_signatureShares (<[identifier := share]> (signatureShares s)) s)
  | err => (err, s)
  end.

Definition GetSignature (s : signingSession) : Res Signature :=
  _ ← fail_if (isCanceled s)
        (NewParameterError "session" "session is canceled" (Sentinel ErrInvalidParameters));
  if isComplete s then Ok (finalSignature s) else
  _ ← fail_if (size (signatureShares s) <? minParticipants s)
        (NewParameterError "signatureShares" "insufficient signature shares"
           (Sentinel ErrInsufficientParticipants));
  Fail (NewParameterError "session" "session-based aggregation requires group public key context"
          (Sentinel ErrInvalidConfiguration)).

Definition IsComplete (s : signingSession) : bool := isComplete s.

Definition Cancel (s : signingSession) : Res unit * signingSession :=
  if isComplete s
  then (Fail (NewParameterError "session" "cannot cancel completed session"
                (Sentinel ErrInvalidParameters)), s)
  else (Ok (), set_isCanceled true s).

(** ** The manager *)

(** Sessions are heap objects: the manager's map and the callers hold pointers
    to them, which are indices into [heap]. *)
Record manager := {
  heap : list signingSession;
  sessions : gmap string nat;
  random : Rng;
}.

Definition newSessionManager (r : Rng) : manager :=
  {| heap := []; sessions := ∅; random := r |}.

(** [hex.EncodeToString] *)
Definition hex_digit (d : Z) : ascii :=
  ascii_of_nat (Z.to_nat (if (d <? 10)%Z then 48 + d else 87 + d)%Z).
Fixpoint EncodeToString (bs : bytes) : string :=
  match bs with
  | [] => ""
  | b :: bs' => String.String (hex_digit (byte.unsigned b / 16))
                  (String.String (hex_digit (byte.unsigned b mod 16)) (EncodeToString bs'))
  end.

Definition generateSessionID : Rand string :=
  bs ← rand_Read 16;
  mret (EncodeToString bs).

(** Returns the pointer to the new session. *)
Definition CreateSession (participantIDs : option (list Z)) (msg : bytes) (m : manager)
  : Res nat * manager :=
  match participantIDs with
  | None => (Fail (NewParameterError "participantIDs" "cannot be nil"
                     (Sentinel ErrInvalidParameters)), m)
  | Some [] => (Fail (NewParameterError "participantIDs" "cannot be empty"
                        (Sentinel ErrInsufficientParticipants)), m)
  | Some ids =>
      match generateSessionID (random m) with
      | (Ok sessionID, r) =>
          let p := length (heap m) in
          (Ok p, {| heap := heap m ++ [newSigningSession sessionID ids msg];
                    sessions := <[sessionID := p]> (sessions m);
                    random := r |})
      | (Fail e, r) => (Fail e, {| heap := heap m; sessions := sessions m; random := r |})
      | (Panic, r) => (Panic, {| heap := heap m; sessions := sessions m; random := r |})
      end
  end.

Definition GetSession (sessionID : string) (m : manager) : Res nat :=
  _ ← fail_if (bool_decide (sessionID = "")) (NewParameterError "sessionID" "cannot be empty"
                                    (Sentinel ErrInvalidParameters));
  match sessions m !! sessionID with
  | None => Fail (NewParameterError "sessionID" "session not found"
                    (Sentinel ErrInvalidParameters))
  | Some session => Ok session
  end.

Definition DeleteSession (sessionID : string) (m : manager) : Res unit * manager :=
  if bool_decide (sessionID = "")
  then (Fail (NewParameterError "sessionID" "cannot be empty" (Sentinel ErrInvalidParameters)), m)
  else match sessions m !! sessionID with
       | None => (Fail (NewParameterError "sessionID" "session not found"
                          (Sentinel ErrInvalidParameters)), m)
       | Some _ => (Ok (), {| heap := heap m; sessions := delete sessionID (sessions m);
                              random := random m |})
       end.

(** The order of the keys is the map's iteration order. *)
Definition ListSessions (m : manager) : list string := (map_to_list (sessions m)).*1.

(** ** Executions *)

(** One locked method call on a session. *)
Inductive step : signingSession → signingSession → Prop :=
| step_AddCommitment s c : step s (AddCommitment c s).2
| step_AddSignatureShare s sh : step s (AddSignatureShare sh s).2
| step_Cancel s : step s (Cancel s).2.

(** One call on the manager or, through a pointer, on one of its sessions. *)
Inductive manager_step : manager → manager → Prop :=
| step_CreateSession m ids msg : manager_step m (CreateSession ids msg m).2
| step_DeleteSession m sid : manager_step m (DeleteSession sid m).2
| step_session m p s s' :
    heap m !! p = Some s → step s s' →
    manager_step m {| heap := <[p := s']> (heap m); sessions := sessions m;
                      random := random m |}.
End Defs.
End session.

(** ** Theorems *)

Section SessionFacts.
Context {G : Group} `{MapOrder}.
Import session.
Implicit Types (s : signingSession) (m : manager) (l : CommitmentList).

Local Abbreviation ids l := (cm_Identifier <$> l).

(** The invariant of a session. *)
Record session_inv s : Prop := {
  inv_open : isComplete s = false;
  inv_min : minParticipants s = length (participantIDs s);
  inv_commitments i c :
    commitments s !! i = Some c → cm_Identifier c = i ∧ i ∈ participantIDs s;
  inv_shares i sh :
    signatureShares s !! i = Some sh → share_Identifier sh = i ∧ i ∈ participantIDs s;
}.

(** What never changes, and what only grows. *)
Record evolves s s' : Prop := {
  ev_id : id s' = id s;
  ev_participants : participantIDs s' = participantIDs s;
  ev_message : message s' = message s;
  ev_commitments : commitments s ⊆ commitments s';
  ev_shares : signatureShares s ⊆ signatureShares s';
  ev_canceled : isCanceled s = true → isCanceled s' = true;
}.

#[export] Instance evolves_preorder : PreOrder evolves.
Proof.
  split; [by intros s; constructor |]. intros s1 s2 s3 [] []. constructor; try congruence.
  - by etrans.
  - by etrans.
  - auto.
Qed.

Definition reachable s : Prop :=
  ∃ id ids msg, rtc step (newSigningSession id ids msg) s.

Lemma expected_spec s i : expected s i = true ↔ i ∈ participantIDs s.
Proof.
  unfold expected. rewrite existsb_exists. setoid_rewrite <-list_elem_of_In.
  split; [by intros (x & Hx & ->%Z.eqb_eq) | intros Hi; exists i; by rewrite Z.eqb_refl].
Qed.

(** A mutator either reports an error and changes nothing, or stores its
    argument under a fresh expected key of an open session. *)
Lemma AddCommitment_cases c s :
  ((∃ e, AddCommitment c s = (Fail e, s)) ∧
     (isCanceled s = true ∨ isComplete s = true ∨ cm_Identifier c ∉ participantIDs s ∨
      is_Some (commitments s !! cm_Identifier c))) ∨
  (AddCommitment c s = (Ok (), set_commitments (<[cm_Identifier c := c]> (commitments s)) s) ∧
     isCanceled s = false ∧ isComplete s = false ∧ cm_Identifier c ∈ participantIDs s ∧
     commitments s !! cm_Identifier c = None).
Proof.
  unfold AddCommitment, check_open. destruct (isCanceled s); [left; step; eauto |].
  destruct (isComplete s); [left; step; eauto |]. step.
  destruct (expected s (cm_Identifier c)) eqn:He; cbn [negb fail_if]; step.
  2: { left. split; [eauto |]. right. right. left. rewrite <-expected_spec. by rewrite He. }
  apply expected_spec in He. destruct (commitments s !! cm_Identifier c) eqn:Hc; cbn.
  - left. split; [eauto | right; right; right; eauto].
  - by right.
Qed.

Lemma AddSignatureShare_cases sh s :
  ((∃ e, AddSignatureShare sh s = (Fail e, s)) ∧
     (isCanceled s = true ∨ isComplete s = true ∨ share_Identifier sh ∉ participantIDs s ∨
      is_Some (signatureShares s !! share_Identifier sh))) ∨
  (AddSignatureShare sh s
     = (Ok (), set_signatureShares (<[share_Identifier sh := sh]> (signatureShares s)) s) ∧
     isCanceled s = false ∧ isComplete s = false ∧ share_Identifier sh ∈ participantIDs s ∧
     signatureShares s !! share_Identifier sh = None).
Proof.
  unfold AddSignatureShare, check_open. destruct (isCanceled s); [left; step; eauto |].
  destruct (isComplete s); [left; step; eauto |]. step.
  destruct (expected s (share_Identifier sh)) eqn:He; cbn [negb fail_if]; step.
  2: { left. split; [eauto |]. right. right. left. rewrite <-expected_spec. by rewrite He. }
  apply expected_spec in He. destruct (signatureShares s !! share_Identifier sh) eqn:Hc; cbn.
  - left. split; [eauto | right; right; right; eauto].
  - by right.
Qed.

Lemma step_evolves s s' : step s s' → evolves s s'.
Proof.
  intros [s0 c|s0 sh|s0].
  - destruct (AddCommitment_cases c s0) as [[[e ->] _]|(-> & _ & _ & _ & Hc)]; [done |].
    constructor; try done. by apply insert_subseteq.
  - destruct (AddSignatureShare_cases sh s0) as [[[e ->] _]|(-> & _ & _ & _ & Hc)]; [done |].
    constructor; try done. by apply insert_subseteq.
  - unfold Cancel. destruct (isComplete s0); [done |]. by constructor.
Qed.

Lemma step_inv s s' : step s s' → session_inv s → session_inv s'.
Proof.
  intros [s0 c|s0 sh|s0] [Ho Hm Hc Hs].
  - destruct (AddCommitment_cases c s0) as [[[e ->] _]|(-> & _ & _ & Hin & _)]; [done |].
    constructor; try done. intros i c'. cbn.
    destruct (decide (i = cm_Identifier c)) as [->|]; simplify_map_eq; naive_solver.
  - destruct (AddSignatureShare_cases sh s0) as [[[e ->] _]|(-> & _ & _ & Hin & _)]; [done |].
    constructor; try done. intros i c'. cbn.
    destruct (decide (i = share_Identifier sh)) as [->|]; simplify_map_eq; naive_solver.
  - unfold Cancel. rewrite Ho. by constructor.
Qed.

Lemma steps_evolve s s' : rtc step s s' → evolves s s'.
Proof. induction 1 as [|s1 s2 s3 H1 _ IH]; [done |]. etrans; [by apply step_evolves | done]. Qed.

Lemma reachable_inv s : reachable s → session_inv s.
Proof.
  intros (id & ids & msg & Hs).
  assert (Hi : session_inv (newSigningSession id ids msg)) by (by constructor).
  clear -Hs Hi. induction Hs; eauto using step_inv.
Qed.

(** The commitments of a session, in any order. *)
Lemma range_commitments s c :
  session_inv s →
  c ∈ (range_entries 0 (commitments s)).*2 ↔ commitments s !! cm_Identifier c = Some c.
Proof.
  intros Hi. rewrite list_elem_of_fmap. split.
  - intros ([i c'] & -> & Hin). apply elem_of_range_entries in Hin. cbn.
    by destruct (inv_commitments _ Hi _ _ Hin) as [-> _].
  - intros Hc. exists (cm_Identifier c, c). split; [done | by apply elem_of_range_entries].
Qed.

Lemma range_ids s : session_inv s →
  ids (range_entries 0 (commitments s)).*2 = (range_entries 0 (commitments s)).*1.
Proof.
  intros Hi. rewrite <-list_fmap_compose. apply list_fmap_ext. intros j [i c] Hj.
  apply list_elem_of_lookup_2, elem_of_range_entries in Hj.
  by destruct (inv_commitments _ Hi _ _ Hj).
Qed.

(** Enough keys from a list are all of it. *)
Lemma keys_cover (ks zs : list Z) : NoDup ks → ks ⊆ zs → length zs ≤ length ks → ks ≡ₚ zs.
Proof. intros Hnd Hsub Hlen. apply submseteq_length_Permutation; [by apply NoDup_submseteq | done]. Qed.

Lemma range_keys s : session_inv s → (range_entries 0 (commitments s)).*1 ⊆ participantIDs s.
Proof.
  intros Hi i Hin. apply list_elem_of_fmap in Hin as ([j c] & -> & Hin).
  apply elem_of_range_entries in Hin. by apply (inv_commitments _ Hi _ c).
Qed.

(** A list of one stored commitment per participant is all that is stored. *)
Lemma stored_list_perm s l :
  session_inv s → NoDup (ids l) → ids l ≡ₚ participantIDs s →
  (∀ c, c ∈ l → commitments s !! cm_Identifier c = Some c) →
  l ≡ₚ (range_entries 0 (commitments s)).*2.
Proof.
  intros Hi Hndl Hperm Hin. apply NoDup_Permutation.
  - by apply NoDup_fmap_1 in Hndl.
  - apply (NoDup_fmap_1 cm_Identifier). rewrite range_ids by done. apply range_entries_NoDup.
  - intros c. rewrite range_commitments by done. split; [auto |]. intros Hc.
    destruct (inv_commitments _ Hi _ _ Hc) as [_ Hp]. rewrite <-Hperm in Hp.
    apply list_elem_of_fmap in Hp as (c' & He & Hc'). specialize (Hin c' Hc').
    rewrite <-He, Hc in Hin. by injection Hin as ->.
Qed.

Lemma GetCommitmentList_Ok s l :
  session_inv s →
  GetCommitmentList s = Ok l ↔
    isCanceled s = false ∧ StronglySorted Z.lt (ids l) ∧ ids l ≡ₚ participantIDs s ∧
    ∀ c, c ∈ l → commitments s !! cm_Identifier c = Some c.
Proof.
  intros Hi. unfold GetCommitmentList. rewrite (inv_min _ Hi).
  pose proof (range_entries_NoDup 0 (commitments s)) as Hnd.
  pose proof (range_entries_length 0 (commitments s)) as Hlen. split.
  - intros Hok. ok_inv. subst l. rename select ((_ <? _) = false) into Hsize.
    apply Nat.ltb_ge in Hsize. split; [done |].
    split; [apply sort_Slice_lt; by rewrite range_ids |]. split.
    + rewrite sort_Slice_perm, range_ids by done.
      apply keys_cover; [done | by apply range_keys |]. by rewrite length_fmap, Hlen.
    + intros c Hc. rewrite sort_Slice_perm in Hc. by apply range_commitments.
  - intros (-> & Hsort & Hperm & Hin).
    assert (Hndl : NoDup (ids l)) by (by apply StronglySorted_lt_NoDup).
    pose proof (stored_list_perm s l Hi Hndl Hperm Hin) as Hes. step.
    rewrite (proj2 (Nat.ltb_ge _ _)); [step; f_equal |].
    + apply (sorted_unique cm_Identifier); [by rewrite sort_Slice_perm | | done].
      apply sort_Slice_lt. by rewrite range_ids.
    + rewrite <-Hlen, <-(length_fmap snd), <-Hes, <-Hperm. by rewrite length_fmap.
Qed.

(** C5: a session releases a commitment list exactly when it is not canceled
    and every expected participant's commitment was accepted, and the list is
    the one sorted arrangement of those commitments, ready for validation; a
    session created with a repeated identifier never releases one. *)
Theorem GetCommitmentList_spec s l :
  reachable s →
  (GetCommitmentList s = Ok l ↔
     isCanceled s = false ∧ StronglySorted Z.lt (ids l) ∧ ids l ≡ₚ participantIDs s ∧
     ∀ c, c ∈ l → commitments s !! cm_Identifier c = Some c) ∧
  (GetCommitmentList s = Ok l → participantIDs s ≠ [] →
     commitmentListEncoder.ValidateCommitmentList l = Ok ()) ∧
  (¬ NoDup (participantIDs s) → GetCommitmentList s ≠ Ok l).
Proof.
  intros Hi%reachable_inv. pose proof (GetCommitmentList_Ok s l Hi) as Hiff.
  split; [done |]. split.
  - intros (_ & Hsort & Hperm & _)%Hiff Hne. apply ValidateCommitmentList_Ok. split; [| done].
    intros ->. apply Hne. by apply Permutation_nil_l in Hperm.
  - intros Hdup (_ & Hsort & Hperm & _)%Hiff. apply Hdup. rewrite <-Hperm.
    by apply StronglySorted_lt_NoDup.
Qed.

(** *** Progress *)

(** What the participants send, accepted or not. *)
Inductive submission :=
| Commit (c : SigningCommitments)
| Share (sh : SignatureShare).

Definition submit s (x : submission) : signingSession :=
  match x with Commit c => (AddCommitment c s).2 | Share sh => (AddSignatureShare sh s).2 end.

Definition submit_all (xs : list submission) s : signingSession := foldl submit s xs.

Fixpoint first_commitment (xs : list submission) (i : Z) : option SigningCommitments :=
  match xs with
  | [] => None
  | Commit c :: xs => if decide (cm_Identifier c = i) then Some c else first_commitment xs i
  | Share _ :: xs => first_commitment xs i
  end.

(** The commitment of a participant: the one that is stored, or the first one
    that is sent. *)
Definition commitment_of s (xs : list submission) (i : Z) : option SigningCommitments :=
  match commitments s !! i with Some c => Some c | None => first_commitment xs i end.

Definition active s : Prop := session_inv s ∧ isCanceled s = false.

Lemma submit_active s x :
  active s → active (submit s x) ∧ participantIDs (submit s x) = participantIDs s.
Proof.
  intros [Hi Hc]. destruct x as [c|sh]; cbn [submit].
  - split; [split; [by eapply step_inv; [apply step_AddCommitment |] |] |];
      by destruct (AddCommitment_cases c s) as [[[e ->] _]|(-> & _)].
  - split; [split; [by eapply step_inv; [apply step_AddSignatureShare |] |] |];
      by destruct (AddSignatureShare_cases sh s) as [[[e ->] _]|(-> & _)].
Qed.

Lemma submit_commitment s x xs i :
  active s → i ∈ participantIDs s → commitment_of (submit s x) xs i = commitment_of s (x :: xs) i.
Proof.
  intros [Hi Hc] Hin. pose proof (inv_open _ Hi) as Ho. unfold commitment_of.
  destruct x as [c|sh]; cbn [submit first_commitment].
  - destruct (AddCommitment_cases c s) as [[[e ->] Hwhy]|(-> & _ & _ & Hp & Hn)]; cbn [snd].
    + destruct (commitments s !! i) eqn:Hs; [done |]. rewrite decide_False; [done |].
      intros <-. destruct Hwhy as [?|[?|[?|[? ?]]]]; congruence.
    + cbn [commitments set_commitments]. destruct (decide (cm_Identifier c = i)) as [<-|Hne].
      * by rewrite lookup_insert_eq, Hn.
      * by rewrite lookup_insert_ne.
  - by destruct (AddSignatureShare_cases sh s) as [[[e ->] _]|(-> & _)].
Qed.

Lemma submit_all_active xs s :
  active s →
  active (submit_all xs s) ∧ participantIDs (submit_all xs s) = participantIDs s ∧
  ∀ i, i ∈ participantIDs s → commitments (submit_all xs s) !! i = commitment_of s xs i.
Proof.
  revert s. induction xs as [|x xs IH]; intros s Ha.
  - split; [done |]. split; [done |]. intros i _. unfold commitment_of. change (submit_all [] s) with s. by destruct (commitments s !! i).
  - destruct (submit_active s x Ha) as [H1 H2]. destruct (IH _ H1) as (H3 & H4 & H5).
    split; [done |]. split; [by rewrite <-H2, <-H4 |]. intros i Hin.
    rewrite <-submit_commitment by done. apply H5. by rewrite H2.
Qed.

(** With a commitment of every expected participant the list is released. *)
Lemma full_session_releases s :
  session_inv s → isCanceled s = false → NoDup (participantIDs s) →
  (∀ i, i ∈ participantIDs s → is_Some (commitments s !! i)) →
  ∃ l, GetCommitmentList s = Ok l ∧ ∀ c, c ∈ l ↔ commitments s !! cm_Identifier c = Some c.
Proof.
  intros Hi Hc Hnd Hall. unfold GetCommitmentList. rewrite Hc, (inv_min _ Hi). step.
  assert (length (participantIDs s) ≤ size (commitments s)) as Hsize.
  { rewrite <-(range_entries_length 0 (commitments s)), <-(length_fmap fst).
    apply submseteq_length, NoDup_submseteq; [done |]. intros i Hin.
    destruct (Hall i Hin) as [c Hci]. apply list_elem_of_fmap. exists (i, c).
    split; [done | by apply elem_of_range_entries]. }
  rewrite (proj2 (Nat.ltb_ge _ _) Hsize). step. eexists. split; [done |].
  intros c. rewrite sort_Slice_perm. by apply range_commitments.
Qed.

(** C6: a session makes progress.  From every reachable session with distinct
    participants that was not canceled, whatever the participants submit and in
    whatever order, repeated, unexpected and refused submissions included: once
    every expected participant has sent a commitment, the list is released, and
    it holds each participant's first one. *)
Theorem session_progress s xs :
  reachable s → isCanceled s = false → NoDup (participantIDs s) →
  (∀ i, i ∈ participantIDs s → is_Some (commitment_of s xs i)) →
  ∃ l, GetCommitmentList (submit_all xs s) = Ok l ∧
       ∀ i c, i ∈ participantIDs s → commitment_of s xs i = Some c → c ∈ l.
Proof.
  intros Hi%reachable_inv Hc Hnd Hall.
  destruct (submit_all_active xs s (conj Hi Hc)) as ([Hi' Hc'] & Hp & Hcs).
  destruct (full_session_releases (submit_all xs s) Hi' Hc') as (l & Hl & Hin).
  - by rewrite Hp.
  - intros i Hpi. rewrite Hp in Hpi. rewrite Hcs by done. by apply Hall.
  - exists l. split; [done |]. intros i c Hpi Hci. apply Hin.
    rewrite <-(Hcs i Hpi) in Hci. by destruct (inv_commitments _ Hi' _ _ Hci) as [-> _].
Qed.

(** A canceled session does not change any more. *)
Lemma canceled_frozen s s' :
  isCanceled s = true → rtc step s s' → commitments s' = commitments s ∧ isCanceled s' = true.
Proof.
  intros Hcan Hs. induction Hs as [|s1 s2 s3 Hstep _ IH]; [done |].
  assert (commitments s2 = commitments s1 ∧ isCanceled s2 = true) as [Hc2 Hcan2].
  { destruct Hstep as [s0 d|s0 sh|s0].
    - by destruct (AddCommitment_cases d s0) as [[[e ->] _]|(_ & ? & _)]; [| congruence].
    - by destruct (AddSignatureShare_cases sh s0) as [[[e ->] _]|(_ & ? & _)]; [| congruence].
    - unfold Cancel. by destruct (isComplete s0). }
  rewrite <-Hc2. by apply IH.
Qed.

(** What a session accepted is final under every interleaving of later
    calls: the accepted commitment stays, a second one under the same identifier
    is refused without effect, and after a cancellation every call is refused. *)
Theorem accepted_is_final s c s' c' :
  (AddCommitment c s).1 = Ok () → rtc step (AddCommitment c s).2 s' →
  commitments s' !! cm_Identifier c = Some c ∧
  (cm_Identifier c' = cm_Identifier c → ∃ e, AddCommitment c' s' = (Fail e, s')) ∧
  (isCanceled s' = true → ∀ s'', rtc step s' s'' → commitments s'' = commitments s' ∧
     ∃ e, GetCommitmentList s'' = Fail e ∧ GetSignature s'' = Fail e).
Proof.
  intros Hok Hsteps.
  destruct (AddCommitment_cases c s) as [[[e He] _]|(He & _)]; [by rewrite He in Hok |].
  assert (Hc : commitments s' !! cm_Identifier c = Some c).
  { apply steps_evolve, ev_commitments in Hsteps. rewrite He in Hsteps.
    eapply lookup_weaken; [| exact Hsteps]. cbn. by rewrite lookup_insert_eq. }
  split; [done |]. split.
  - intros Hid. destruct (AddCommitment_cases c' s') as [[He' _]|(_ & _ & _ & _ & Hn)]; [done |].
    rewrite Hid in Hn. congruence.
  - intros Hcan s'' Hs. pose proof (canceled_frozen _ _ Hcan Hs) as Hs''.
    destruct Hs'' as [-> Hcan'']. split; [done |]. unfold GetCommitmentList, GetSignature.
    rewrite Hcan''. step. eauto.
Qed.

Lemma reachable_step s s' : reachable s → step s s' → reachable s'.
Proof. intros (i & zs & msg & Hs) Hstep. exists i, zs, msg. by eapply rtc_r. Qed.

(** Every session of a reachable manager is a reachable session, and is listed
    under its own identifier. *)
Lemma manager_inv r m :
  rtc manager_step (newSessionManager r) m →
  (∀ p s, heap m !! p = Some s → reachable s) ∧
  (∀ sid p, sessions m !! sid = Some p → ∃ s, heap m !! p = Some s ∧ id s = sid).
Proof.
  intros Hm. remember (newSessionManager r) as m0 eqn:E0.
  assert (H0 : (∀ p s, heap m0 !! p = Some s → reachable s) ∧
    (∀ sid p, sessions m0 !! sid = Some p → ∃ s, heap m0 !! p = Some s ∧ id s = sid))
    by (by subst m0; split).
  clear E0. induction Hm as [|m1 m2 m3 Hstep _ IH]; [done |]. apply IH. clear IH.
  destruct H0 as [Hh Hs]. destruct Hstep as [m1 ids msg|m1 sid|m1 p s s' Hp Hstep].
  - unfold CreateSession. destruct ids as [[|i ids]|]; [done | | done].
    destruct (generateSessionID (random m1)) as [[sid|e|] r']; cbn; [| done | done]. split.
    + intros p s [Hp|[_ Hp]]%lookup_app_Some; [eauto |].
      apply list_lookup_singleton_Some in Hp as [_ <-]. do 3 eexists. apply rtc_refl.
    + intros sid' p. destruct (decide (sid' = sid)) as [->|Hne]; simplify_map_eq.
      * intros [= <-]. eexists. rewrite list_lookup_middle by done. done.
      * intros (s & Hs' & <-)%Hs. exists s. split; [by apply lookup_app_l_Some | done].
  - unfold DeleteSession. case_bool_decide; [done |].
    destruct (sessions m1 !! sid); cbn; [| done]. split; [done |].
    intros sid' p [_ ?]%lookup_delete_Some. eauto.
  - cbn. split.
    + intros p' s1 [(-> & <- & _)|[_ ?]]%list_lookup_insert_Some; [| eauto].
      eapply reachable_step; eauto.
    + intros sid q (s1 & Hq & <-)%Hs. destruct (decide (q = p)) as [->|].
      * exists s'. rewrite list_lookup_insert_eq by (by eapply lookup_lt_Some). split; [done |].
        rewrite Hp in Hq. injection Hq as ->. by apply ev_id, step_evolves.
      * exists s1. by rewrite list_lookup_insert_ne.
Qed.

(** No session a manager ever hands out returns a signature or reports
    completion, whatever commitments and shares were added: [isComplete] is
    never set and [GetSignature] ends in an error in every reachable state, the
    missing group key once all shares are present. *)
Theorem session_never_signs r m p s :
  rtc manager_step (newSessionManager r) m → heap m !! p = Some s →
  IsComplete s = false ∧ ∃ e, GetSignature s = Fail e ∧
  (isCanceled s = false → length (participantIDs s) ≤ size (signatureShares s) →
   errors_Is e ErrInvalidConfiguration = true).
Proof.
  intros Hm Hp. apply manager_inv in Hm as [Hh _]. specialize (Hh p s Hp).
  apply reachable_inv in Hh as [Ho Hmin _ _]. split; [done |].
  unfold GetSignature. rewrite Ho, Hmin. destruct (isCanceled s); step.
  { eexists. by split. }
  destruct (Nat.ltb_spec (size (signatureShares s)) (length (participantIDs s))); step.
  - eexists. split; [done |]. lia.
  - eexists. by split.
Qed.
End SessionFacts.
