(* ===== verification/Coordinator.v ===== *)
(** * The signing coordinator: [pkg/frost/signing/coordinator.go]

    The coordinator drives participants it knows through the [Participant]
    interface: it collects and sorts their commitments, keeps their nonces
    between the rounds, asks for the shares and aggregates them.  It consults a
    reputation tracker through the interface of [Reputation.v] and an
    authenticator through that of [Authenticator.v].  Every call of a
    participant is logged, in order, as a ghost component of the state.

    The theorems: a full run signs; nonces are handed to round two at most once,
    under every interleaving of concurrent calls; excluded participants are not
    asked, and misbehavior is charged to the participant that failed. *)

From S2P Require Import Reputation.
From S2P Require Import Authenticator.
From S2P Require Export Protocol.

(** The part of the [Participant] interface the coordinator calls. *)
Record Participant {G : Group} := {
  P_RoundOne : Rand (SigningNonces * SigningCommitments);
  P_RoundTwo : SigningNonces → bytes → CommitmentList → Res SignatureShare;
}.

(** [NewParticipant(suite, keyPackage)] *)
Definition NewParticipant {G : Group} {CS : Ciphersuite G} (keyPackage : KeyPackage)
  : Participant :=
  {| P_RoundOne := participant.RoundOne keyPackage;
     P_RoundTwo := participant.RoundTwo keyPackage |}.

Module coordinator.
Section Defs.
Context {G : Group} {CS : Ciphersuite G} {E : Ed25519} {T : ReputationTracker}.

(** The fields fixed at construction. *)
Record coordinator := {
  participants : gmap Z Participant;
  aggregator : Element → CommitmentList → bytes → list SignatureShare → Res Signature;
  groupPublicKey : option Element;
  authenticator : option authenticator.ParticipantAuthenticator;
}.

(** What a participant was asked, and on which nonces. *)
Inductive request : Type :=
| AskedRoundOne (id : Z)
| StoredNonces (id : Z) (nonces : SigningNonces)
| AskedRoundTwo (id : Z) (nonces : SigningNonces).

Record state := {
  noncesMap : gmap Z SigningNonces;
  reputationTracker : option tracker;
  random : Rng;
  log : list request;
}.

(** Constructors; a coordinator starts without nonces. *)
Definition NewCoordinatorWithSecurity (participants : gmap Z Participant)
    (aggregator : Element → CommitmentList → bytes → list SignatureShare → Res Signature)
    (groupPublicKey : option Element)
    (authenticator : option authenticator.ParticipantAuthenticator) : coordinator :=
  {| participants := participants; aggregator := aggregator;
     groupPublicKey := groupPublicKey; authenticator := authenticator |}.
Definition NewCoordinatorWithAuthenticator participants aggregator groupPublicKey authenticator :=
  NewCoordinatorWithSecurity participants aggregator groupPublicKey authenticator.
Definition NewCoordinatorWithPublicKey participants aggregator groupPublicKey :=
  NewCoordinatorWithSecurity participants aggregator groupPublicKey None.
Definition NewCoordinator participants aggregator :=
  NewCoordinatorWithSecurity participants aggregator None None.
Definition new_state (reputationTracker : option tracker) (random : Rng) : state :=
  {| noncesMap := ∅; reputationTracker := reputationTracker; random := random; log := [] |}.

(** ** The state monad of the coordinator's methods *)

Definition Coord (A : Type) : Type := state → Res A * state.
#[export] Instance coord_mret : MRet Coord := λ A a s, (Ok a, s).
#[export] Instance coord_mbind : MBind Coord := λ A B k m s,
  match m s with
  | (Ok a, s) => k a s
  | (Fail e, s) => (Fail e, s)
  | (Panic, s) => (Panic, s)
  end.
Definition pure {A} (r : Res A) : Coord A := λ s, (r, s).

(** Code that inspects the error of a call. *)
Definition attempt {A} (m : Coord A) : Coord (Res A) := λ s,
  let '(r, s) := m s in (match r with Panic => Panic | r => Ok r end, s).

Definition draw {A} (m : Rand A) : Coord A := λ s,
  let '(r, rng) := m (random s) in
  (r, {| noncesMap := noncesMap s; reputationTracker := reputationTracker s;
         random := rng; log := log s |}).
Definition note (r : request) : Coord unit := λ s,
  (Ok (), {| noncesMap := noncesMap s; reputationTracker := reputationTracker s;
             random := random s; log := log s ++ [r] |}).

Fixpoint coord_loop {A B} (body : B → A → Coord B) (l : list A) (acc : B) : Coord B :=
  match l with
  | [] => mret acc
  | x :: l => acc ← body acc x; coord_loop body l acc
  end.

(** The three locked sections around [noncesMap].  The request of round two is
    logged where the nonces leave the map: between the unlocking and the call of
    [RoundTwo] with them the code touches no shared state. *)
Definition reset_nonces : Coord unit := λ s,
  (Ok (), {| noncesMap := ∅; reputationTracker := reputationTracker s;
             random := random s; log := log s |}).
Definition store_nonces (id : Z) (nonces : SigningNonces) : Coord unit := λ s,
  (Ok (), {| noncesMap := <[id := nonces]> (noncesMap s);
             reputationTracker := reputationTracker s; random := random s;
             log := log s ++ [StoredNonces id nonces] |}).
Definition take_nonces (id : Z) : Coord (option SigningNonces) := λ s,
  match noncesMap s !! id with
  | None => (Ok None, s)
  | Some nonces =>
      (Ok (Some nonces), {| noncesMap := delete id (noncesMap s);
                            reputationTracker := reputationTracker s; random := random s;
                            log := log s ++ [AskedRoundTwo id nonces] |})
  end.

(** [if c.reputationTracker != nil { _ = c.reputationTracker.RecordMisbehavior(...) }]
    at the clock readings [now] and [now']. *)
Definition record_misbehavior (now now' : Z) (id : Z) (ty : MisbehaviorType) (details : string)
  : Coord unit := λ s,
  match reputationTracker s with
  | None => (Ok (), s)
  | Some t =>
      let '(r, t) := rt_RecordMisbehavior t id ty details now now' in
      (match r with Panic => Panic | _ => Ok () end,
       {| noncesMap := noncesMap s; reputationTracker := Some t;
          random := random s; log := log s |})
  end.

(** ** Round one *)

Definition check_reputation (t : tracker) (id : Z) : Res unit :=
  excluded ← wrap (NewParticipantError id "failed to check reputation") (rt_IsExcluded t id);
  fail_if excluded (NewParticipantError id "participant is excluded"
                      security.ErrParticipantExcluded).

Definition check_reputations (participantIDs : list Z) : Coord unit := λ s,
  match reputationTracker s with
  | None => (Ok (), s)
  | Some t => (range_loop (λ _ id, check_reputation t id) participantIDs (), s)
  end.

Definition request_commitment (c : coordinator) (now now' : Z) (commitments : CommitmentList)
    (id : Z) : Coord CommitmentList :=
  match participants c !! id with
  | None => pure (Fail (Sentinel ErrInvalidParticipant))
  | Some participant =>
      _ ← note (AskedRoundOne id);
      r ← attempt (draw (P_RoundOne participant));
      match r with
      | Ok (nonces, commitment) =>
          _ ← store_nonces id nonces;
          mret (commitments ++ [commitment])
      | Fail err =>
          _ ← record_misbehavior now now' id MisbehaviorInvalidCommitment (Error err);
          pure (Fail (NewParticipantError id "failed to generate commitment" err))
      | Panic => pure Panic
      end
  end.

Definition RequestCommitments (c : coordinator) (now now' : Z) (participantIDs : list Z)
  : Coord CommitmentList :=
  _ ← pure (fail_if (bool_decide (participantIDs = [])) (Sentinel ErrInsufficientParticipants));
  _ ← check_reputations participantIDs;
  _ ← reset_nonces;
  commitments ← coord_loop (request_commitment c now now') participantIDs [];
  let commitments := sort_Slice cm_Identifier commitments in
  _ ← pure (commitmentListEncoder.ValidateCommitmentList commitments);
  mret commitments.

(** ** Round two *)

Definition request_share (c : coordinator) (now now' : Z) (msg : bytes)
    (commitmentList : CommitmentList) (signatureShares : list SignatureShare)
    (commitment : SigningCommitments) : Coord (list SignatureShare) :=
  let id := cm_Identifier commitment in
  match participants c !! id with
  | None => pure (Fail (NewParticipantError id "not found in participant map"
                          (Sentinel ErrInvalidParticipant)))
  | Some participant =>
      found ← take_nonces id;
      match found with
      | None => pure (Fail (NewParticipantError id
                  "nonces not found - RequestCommitments must be called first"
                  (Sentinel ErrInvalidNonce)))
      | Some nonces =>
          (* the coordinator's nonces are zeroized after this call *)
          match P_RoundTwo participant nonces msg commitmentList with
          | Ok share => mret (signatureShares ++ [share])
          | Fail err =>
              _ ← record_misbehavior now now' id MisbehaviorInvalidShare (Error err);
              pure (Fail (NewParticipantError id "failed to generate signature share" err))
          | Panic => pure Panic
          end
      end
  end.

Definition RequestSignatureShares (c : coordinator) (now now' : Z)
    (commitmentList : CommitmentList) (msg : bytes) : Coord (list SignatureShare) :=
  _ ← pure (commitmentListEncoder.ValidateCommitmentList commitmentList);
  coord_loop (request_share c now now' msg commitmentList) commitmentList [].

Definition Sign (c : coordinator) (now now' : Z) (participantIDs : list Z) (msg : bytes)
  : Coord Signature :=
  match groupPublicKey c with
  | None => pure (Fail (NewParameterError "groupPublicKey" "must be set before signing"
                          (Sentinel ErrInvalidParameters)))
  | Some groupPublicKey =>
      commitmentList ← RequestCommitments c now now' participantIDs;
      signatureShares ← RequestSignatureShares c now now' commitmentList msg;
      pure (aggregator c groupPublicKey commitmentList msg signatureShares)
  end.

(** ** Authentication *)

Definition authenticate (c : coordinator) (now now' : Z) (id : Z)
    (call : authenticator.ParticipantAuthenticator → Res unit) (details : string) : Coord unit :=
  match authenticator c with
  | None => pure (Fail (NewParameterError "authenticator" "no authenticator configured"
                          (Sentinel ErrInvalidParameters)))
  | Some a =>
      match call a with
      | Fail err =>
          _ ← record_misbehavior now now' id MisbehaviorAuthenticationFailure details;
          pure (Fail err)
      | r => pure r
      end
  end.

Definition AuthenticateCommitment (c : coordinator) (now now' : Z) (id : Z)
    (commitment : SigningCommitments) (proof : bytes) : Coord unit :=
  authenticate c now now' id
    (λ a, authenticator.AuthenticateCommitment a id commitment proof)
    "commitment authentication failed".

Definition AuthenticateSignatureShare (c : coordinator) (now now' : Z) (id : Z)
    (share : SignatureShare) (proof : bytes) : Coord unit :=
  authenticate c now now' id
    (λ a, authenticator.AuthenticateSignatureShare a id share proof)
    "signature share authentication failed".
End Defs.
End coordinator.

(** ** Theorems *)

Section CoordinatorFacts.
Context {G : Group} {CS : Ciphersuite G} {E : Ed25519} {T : ReputationTracker}.
Import coordinator.
Implicit Types (s : state) (c : coordinator) (id now : Z) (n : SigningNonces).

(** A call of a method, with its clock readings. *)
Inductive coordinator_call : Type :=
| CallRequestCommitments (now now' : Z) (ids : list Z)
| CallRequestSignatureShares (now now' : Z) (l : CommitmentList) (msg : bytes)
| CallSign (now now' : Z) (ids : list Z) (msg : bytes)
| CallAuthenticateCommitment (now now' id : Z) (cm : SigningCommitments) (proof : bytes)
| CallAuthenticateSignatureShare (now now' id : Z) (sh : SignatureShare) (proof : bytes).

Definition after c (k : coordinator_call) s : state :=
  match k with
  | CallRequestCommitments now now' ids => (RequestCommitments c now now' ids s).2
  | CallRequestSignatureShares now now' l msg => (RequestSignatureShares c now now' l msg s).2
  | CallSign now now' ids msg => (Sign c now now' ids msg s).2
  | CallAuthenticateCommitment now now' id cm proof =>
      (AuthenticateCommitment c now now' id cm proof s).2
  | CallAuthenticateSignatureShare now now' id sh proof =>
      (AuthenticateSignatureShare c now now' id sh proof s).2
  end.

(** ** Methods move the state by a preorder when their parts do *)

Section Moves.
Context (R : relation state) `{!PreOrder R}.

Definition moves {A} (m : Coord A) : Prop := ∀ s, R s (m s).2.

Lemma moves_pure {A} (r : Res A) : moves (pure r).
Proof. intros s. cbn. reflexivity. Qed.

Lemma moves_ret {A} (a : A) : moves (mret a).
Proof. intros s. cbn. reflexivity. Qed.

Lemma moves_bind {A B} (m : Coord A) (k : A → Coord B) :
  moves m → (∀ a, moves (k a)) → moves (m ≫= k).
Proof.
  intros Hm Hk s. unfold mbind, coord_mbind. specialize (Hm s).
  destruct (m s) as [[a| |] s1]; cbn in *; [| done..]. etrans; [exact Hm | apply Hk].
Qed.

Lemma moves_attempt {A} (m : Coord A) : moves m → moves (attempt m).
Proof. intros Hm s. unfold attempt. specialize (Hm s). by destruct (m s) as [[] s1]. Qed.

Lemma moves_loop {A B} (body : B → A → Coord B) l acc :
  (∀ acc x, x ∈ l → moves (body acc x)) → moves (coord_loop body l acc).
Proof.
  revert acc. induction l as [|x l IH]; intros acc Hb; [apply moves_ret |].
  apply moves_bind; [apply Hb; by left |]. intros acc'. apply IH. intros; apply Hb. by right.
Qed.

(** The parts. *)
Context (Hreset : moves reset_nonces) (Hstore : ∀ id n, moves (store_nonces id n))
  (Htake : ∀ id, moves (take_nonces id)) (Hdraw : ∀ A (m : Rand A), moves (draw m))
  (Hrecord : ∀ now now' id ty details, moves (record_misbehavior now now' id ty details)).

Lemma moves_check ids : moves (check_reputations ids).
Proof. intros s. unfold check_reputations. by destruct (reputationTracker s). Qed.

Lemma moves_commitment c now now' acc id :
  moves (note (AskedRoundOne id)) → moves (request_commitment c now now' acc id).
Proof.
  intros Hnote. unfold request_commitment. destruct (participants c !! id); [| apply moves_pure].
  apply moves_bind; [done |]. intros _. apply moves_bind; [by apply moves_attempt |].
  intros [[]| |].
  - apply moves_bind; [apply Hstore | intros; apply moves_ret].
  - apply moves_bind; [apply Hrecord | intros; apply moves_pure].
  - apply moves_pure.
Qed.

Lemma moves_share c now now' msg l acc cm : moves (request_share c now now' msg l acc cm).
Proof.
  unfold request_share. destruct (participants c !! cm_Identifier cm) as [p|]; [| apply moves_pure].
  apply moves_bind; [apply Htake |]. intros [nonces|]; [| apply moves_pure].
  destruct (P_RoundTwo p nonces msg l).
  - apply moves_ret.
  - apply moves_bind; [apply Hrecord | intros; apply moves_pure].
  - apply moves_pure.
Qed.

Lemma moves_shares c now now' l msg : moves (RequestSignatureShares c now now' l msg).
Proof.
  apply moves_bind; [apply moves_pure |]. intros _. apply moves_loop. intros. apply moves_share.
Qed.

Lemma moves_commitments c now now' ids :
  (∀ id, id ∈ ids → moves (note (AskedRoundOne id))) → moves (RequestCommitments c now now' ids).
Proof.
  intros Hnote. unfold RequestCommitments. apply moves_bind; [apply moves_pure | intros _].
  apply moves_bind; [apply moves_check | intros _]. apply moves_bind; [done | intros _].
  apply moves_bind; [| intros l; apply moves_bind; [apply moves_pure | intros; apply moves_ret]].
  apply moves_loop. intros. by apply moves_commitment, Hnote.
Qed.

Lemma moves_authenticate c now now' id call details :
  moves (authenticate c now now' id call details).
Proof.
  unfold authenticate. destruct (authenticator c) as [a|]; [| apply moves_pure].
  destruct (call a); [apply moves_pure | | apply moves_pure].
  apply moves_bind; [apply Hrecord | intros; apply moves_pure].
Qed.

Lemma moves_call c k :
  (∀ id, moves (note (AskedRoundOne id))) → ∀ s, R s (after c k s).
Proof.
  intros Hnote. destruct k; unfold after.
  - by apply moves_commitments.
  - apply moves_shares.
  - unfold Sign. destruct (groupPublicKey c); [| apply moves_pure].
    apply moves_bind; [by apply moves_commitments | intros l].
    apply moves_bind; [apply moves_shares | intros; apply moves_pure].
  - apply moves_authenticate.
  - apply moves_authenticate.
Qed.
End Moves.

(** ** Nonces are used at most once *)

(** The steps other threads can interleave with: the three locked sections, and
    everything that touches neither the map nor the nonces in the log. *)
Inductive step : relation state :=
| step_reset s : step s (reset_nonces s).2
| step_store id n s : step s (store_nonces id n s).2
| step_take id s : step s (take_nonces id s).2
| step_ask id s : step s (note (AskedRoundOne id) s).2
| step_other s s' : noncesMap s' = noncesMap s → log s' = log s → step s s'.

Lemma call_steps c k s : rtc step s (after c k s).
Proof.
  apply (moves_call (rtc step)).
  - intros s0. apply rtc_once, step_reset.
  - intros id n s0. apply rtc_once, step_store.
  - intros id s0. apply rtc_once, step_take.
  - intros A m s0. apply rtc_once, step_other; unfold draw; by destruct (m (random s0)).
  - intros now now' id ty details s0. apply rtc_once, step_other; unfold record_misbehavior;
      destruct (reputationTracker s0) as [t|]; try done;
      by destruct (rt_RecordMisbehavior t id ty details now now').
  - intros id s0. apply rtc_once, step_ask.
Qed.

(** Neither stored nor used. *)
Definition untouched id (l : list request) : Prop :=
  ∀ n, (StoredNonces id n ∉ l) ∧ (AskedRoundTwo id n ∉ l).

(** The last thing that happened to the nonces of [id] is that [n] was stored. *)
Definition unused id n (l : list request) : Prop :=
  ∃ l1 l2, l = l1 ++ StoredNonces id n :: l2 ∧ untouched id l2.

(** Every use is of nonces stored before and not used since. *)
Definition used_once (l : list request) : Prop :=
  ∀ l1 id n l2, l = l1 ++ AskedRoundTwo id n :: l2 → unused id n l1.

Definition nonces_ok s : Prop :=
  used_once (log s) ∧ ∀ id n, noncesMap s !! id = Some n → unused id n (log s).

Lemma unused_snoc id n l r :
  unused id n l → (∀ n', r ≠ StoredNonces id n' ∧ r ≠ AskedRoundTwo id n') → unused id n (l ++ [r]).
Proof.
  intros (l1 & l2 & -> & Hu) Hr. exists l1, (l2 ++ [r]). split; [by rewrite <-app_assoc |].
  intros n'. destruct (Hu n'), (Hr n').
  split; rewrite elem_of_app, list_elem_of_singleton; intros [?|?]; congruence.
Qed.

Lemma used_once_snoc l r :
  used_once l → (∀ id n, r = AskedRoundTwo id n → unused id n l) → used_once (l ++ [r]).
Proof.
  intros Hl Hr l1 id n l2 Heq. destruct l2 as [|x l2 _] using rev_ind.
  - apply app_inj_tail in Heq as [<- ->]. by apply Hr.
  - rewrite app_comm_cons, app_assoc in Heq. apply app_inj_tail in Heq as [-> _]. by eapply Hl.
Qed.

Lemma step_nonces_ok s s' : step s s' → nonces_ok s → nonces_ok s'.
Proof.
  intros Hs [Hl Hm]. destruct Hs as [s|id n s|id s|id s|s s' Hn Hlog]; cbn.
  - split; [done |]. intros id n Hid. discriminate Hid.
  - split; [by apply used_once_snoc |]. cbn. intros id' n'. destruct (decide (id' = id)) as [->|Hne].
    + rewrite lookup_insert_eq. intros [= <-]. exists (log s), []. split; [done |].
      intros n'. split; apply not_elem_of_nil.
    + rewrite lookup_insert_ne by done. intros Hid. apply unused_snoc; [by apply Hm |].
      intros n''. split; congruence.
  - unfold take_nonces. destruct (noncesMap s !! id) as [n|] eqn:Hid; [| done]. cbn.
    split; [apply used_once_snoc; [done |]; intros ? ? [= <- <-]; by apply Hm |]. cbn.
    intros id' n'. destruct (decide (id' = id)) as [->|Hne]; [by rewrite lookup_delete_eq |].
    rewrite lookup_delete_ne by done. intros Hid'. apply unused_snoc; [by apply Hm |].
    intros n''. split; congruence.
  - split; [by apply used_once_snoc |]. cbn. intros id' n' Hid'. by apply unused_snoc; [apply Hm |].
  - unfold nonces_ok. by rewrite Hn, Hlog.
Qed.

(** C10: nonces are used at most once: every method is a sequence of atomic
    steps, and in every interleaving of such steps, from any number of
    concurrent calls on one coordinator, the nonces a participant is asked to
    use in round two were stored for it before and neither used nor replaced
    since. *)
Theorem nonces_used_once :
  (∀ c k s, rtc step s (after c k s)) ∧
  ∀ t rng s, rtc step (new_state t rng) s →
    used_once (log s) ∧
    ∀ l1 id n l2 n' l3, log s = l1 ++ AskedRoundTwo id n :: l2 ++ AskedRoundTwo id n' :: l3 →
      StoredNonces id n' ∈ l2.
Proof.
  split; [apply call_steps |]. intros t rng s Hs.
  assert (nonces_ok s) as [Hl _].
  { remember (new_state t rng) as s0 eqn:H0. assert (nonces_ok s0) as Hok.
    { subst. split; [by intros [] | intros id n Hid; discriminate Hid]. }
    clear H0. induction Hs as [|s1 s2 s3 Hstep _ IH]; [done |].
    by apply IH, (step_nonces_ok s1). }
  split; [done |]. intros l1 id n l2 n' l3 Heq.
  destruct (Hl (l1 ++ AskedRoundTwo id n :: l2) id n' l3) as (p1 & p2 & Hp & Hu);
    [by rewrite Heq, <-app_assoc |].
  apply app_eq_inv in Hp as [(k & -> & Hk)|(k & -> & Hk)]; destruct k as [|r k]; try done.
  - injection Hk as -> ->. destruct (Hu n) as [_ []]. apply elem_of_app. right. by left.
  - injection Hk as <- ->. apply elem_of_app. right. by left.
Qed.

(** ** Reputation *)

Section Reputation.
Context {LT : ReputationLaws T}.

Definition excluded s id : Prop :=
  ∃ t, reputationTracker s = Some t ∧ rt_IsExcluded t id = Ok true.

(** [id] stays excluded if it was, and is not asked for commitments. *)
Definition shuns id s s' : Prop :=
  excluded s id → excluded s' id ∧ ∃ l, log s' = log s ++ l ∧ AskedRoundOne id ∉ l.

#[local] Instance shuns_preorder id : PreOrder (shuns id).
Proof.
  split.
  - intros s He. split; [done |]. exists []. split; [by rewrite app_nil_r | apply not_elem_of_nil].
  - intros s1 s2 s3 H12 H23 He. destruct (H12 He) as [He2 (l1 & Hl1 & Hn1)].
    destruct (H23 He2) as [He3 (l2 & Hl2 & Hn2)]. split; [done |].
    exists (l1 ++ l2). rewrite Hl2, Hl1, app_assoc. split; [done |]. by rewrite elem_of_app; intros [].
Qed.

Lemma shuns_snoc id s s' r :
  reputationTracker s' = reputationTracker s → log s' = log s ++ [r] → r ≠ AskedRoundOne id →
  shuns id s s'.
Proof.
  intros Ht Hl Hr He. split; [unfold excluded; by rewrite Ht |].
  exists [r]. split; [done |]. rewrite list_elem_of_singleton. congruence.
Qed.

Lemma shuns_same id s s' :
  (excluded s id → excluded s' id) → log s' = log s → shuns id s s'.
Proof.
  intros He Hl H. split; [by apply He |]. exists []. rewrite app_nil_r.
  split; [done | apply not_elem_of_nil].
Qed.

Lemma shuns_record id now now' id' ty details :
  moves (shuns id) (record_misbehavior now now' id' ty details).
Proof.
  intros s. apply shuns_same; unfold record_misbehavior.
  - intros (t & Ht & He). rewrite Ht. unfold excluded.
    pose proof (law_record_keeps t id' ty details now now' id He) as Hk.
    destruct (rt_RecordMisbehavior t id' ty details now now') as [r t']. cbn in *. eauto.
  - destruct (reputationTracker s) as [t|]; [| done]. by destruct (rt_RecordMisbehavior _ _ _ _ _ _).
Qed.

Lemma shuns_draw id {A} (m : Rand A) : moves (shuns id) (draw m).
Proof.
  intros s. unfold draw. destruct (m (random s)). by apply shuns_same.
Qed.

Lemma shuns_take id id' : moves (shuns id) (take_nonces id').
Proof.
  intros s. unfold take_nonces. destruct (noncesMap s !! id') as [n|]; [| by apply shuns_same].
  by eapply shuns_snoc.
Qed.

(** The reputation check stops a request that names an excluded participant,
    before anything is asked. *)
Lemma check_excluded s ids id :
  excluded s id → id ∈ ids →
  (∀ t id', reputationTracker s = Some t → id' ∈ ids → ∃ b, rt_IsExcluded t id' = Ok b) →
  ∃ id' e, (check_reputations ids s) = (Fail e, s) ∧ id' ∈ ids ∧ excluded s id' ∧
    e = NewParticipantError id' "participant is excluded" security.ErrParticipantExcluded.
Proof.
  intros (t & Ht & He) Hin Hok. unfold check_reputations. rewrite Ht.
  specialize (λ id', Hok t id' Ht).
  assert (Hx : ∀ id', rt_IsExcluded t id' = Ok true → excluded s id') by (intros; by exists t).
  clear Ht. induction ids as [|x ids IH]; [by apply not_elem_of_nil in Hin |].
  cbn [range_loop]. unfold check_reputation.
  destruct (Hok x) as [b Hb]; [by left |]. rewrite Hb. step. destruct b; step.
  - eexists x, _. split; [done |]. split; [by left |]. eauto.
  - apply elem_of_cons in Hin as [->|Hin]; [congruence |].
    destruct IH as (id' & e & Heq & Hid' & ? & ?); [done | intros; apply Hok; by right |].
    exists id', e. split; [exact Heq |]. split; [by right | done].
Qed.

Lemma check_reputations_Ok s ids t :
  reputationTracker s = Some t →
  check_reputations ids s = (Ok (), s) ↔ Forall (λ id, rt_IsExcluded t id = Ok false) ids.
Proof.
  intros Ht. unfold check_reputations. rewrite Ht.
  assert (Hc : range_loop (λ _ id, check_reputation t id) ids () = Ok () ↔
               Forall (λ id, rt_IsExcluded t id = Ok false) ids).
  { rewrite (check_loop_Ok (check_reputation t)). apply Forall_iff. intros id.
    unfold check_reputation. destruct (rt_IsExcluded t id) as [[]| |]; step; split; congruence. }
  rewrite <-Hc. split; [by intros [= ->] | by intros ->].
Qed.

Lemma check_reputations_state ids s : (check_reputations ids s).2 = s.
Proof. unfold check_reputations. by destruct (reputationTracker s). Qed.

Lemma commitments_shuns c now now' ids id : moves (shuns id) (RequestCommitments c now now' ids).
Proof.
  destruct (decide (id ∈ ids)) as [Hin|Hin].
  - intros s He. pose proof He as (t & Ht & Hx).
    assert (RequestCommitments c now now' ids s = ((RequestCommitments c now now' ids s).1, s)) as ->.
    { unfold RequestCommitments, mbind, coord_mbind, pure.
      destruct (fail_if _ _); [| done..].
      pose proof (check_reputations_state ids s) as Hs.
      destruct (check_reputations ids s) as [[[]| |] s1] eqn:Hc; cbn in Hs; subst s1; [| done..].
      apply (check_reputations_Ok _ _ t Ht) in Hc. rewrite Forall_forall in Hc.
      specialize (Hc id Hin). congruence. }
    by apply (shuns_same id s s).
  - apply (moves_commitments (shuns id)).
    + intros s. by apply shuns_same.
    + intros id' n s. by eapply shuns_snoc.
    + intros A m. apply shuns_draw.
    + intros. apply shuns_record.
    + intros id' Hid' s. eapply shuns_snoc; [done.. |]. congruence.
Qed.

Lemma call_shuns c k id s : shuns id s (after c k s).
Proof.
  destruct k; unfold after.
  - apply commitments_shuns.
  - apply (moves_shares (shuns id)); intros; [apply shuns_take | apply shuns_record].
  - unfold Sign. destruct (groupPublicKey c); [| by apply shuns_same]. revert s.
    apply (moves_bind (shuns id)); [apply commitments_shuns | intros l].
    apply (moves_bind (shuns id)); [| intros ? s; by apply shuns_same].
    apply (moves_shares (shuns id)); intros; [apply shuns_take | apply shuns_record].
  - apply (moves_authenticate (shuns id)). intros. apply shuns_record.
  - apply (moves_authenticate (shuns id)). intros. apply shuns_record.
Qed.

(** C18: an excluded participant stays excluded and is never asked for
    commitments again, whatever calls follow; and a request that names it fails
    before anyone is asked, with an error that blames an excluded participant
    of the request. *)
Theorem excluded_not_asked c ks s id :
  excluded s id →
  shuns id s (foldl (λ s k, after c k s) s ks) ∧
  ∀ now now' ids, id ∈ ids →
    (∀ t id', reputationTracker s = Some t → id' ∈ ids → ∃ b, rt_IsExcluded t id' = Ok b) →
    ∃ id' e, RequestCommitments c now now' ids s = (Fail e, s) ∧
      id' ∈ ids ∧ excluded s id' ∧ GetCulprits e = [id'].
Proof.
  intros He. split.
  - clear He. revert s. induction ks as [|k ks IH]; intros s; [reflexivity |].
    cbn. etrans; [apply call_shuns | apply IH].
  - intros now now' ids Hin Hok.
    destruct (check_excluded s ids id He Hin Hok) as (id' & e & Hc & Hid' & Hx & ->).
    exists id', (NewParticipantError id' "participant is excluded" security.ErrParticipantExcluded).
    split; [| done]. unfold RequestCommitments, mbind, coord_mbind, pure.
    rewrite bool_decide_eq_false_2 by (intros ->; by apply not_elem_of_nil in Hin).
    cbn [fail_if]. by rewrite Hc.
Qed.

(** *** Blame *)

Definition standing s id : option (Res bool) :=
  (λ t, rt_IsExcluded t id) <$> reputationTracker s.

(** A participant's standing changes only in a call that fails and blames it. *)
Definition charges {A} (m : Coord A) : Prop :=
  ∀ s id, standing (m s).2 id ≠ standing s id → ∃ e, (m s).1 = Fail e ∧ GetCulprits e = [id].

(** No standing changes. *)
Definition spares {A} (m : Coord A) : Prop :=
  ∀ s, reputationTracker (m s).2 = reputationTracker s.

Lemma spares_charges {A} (m : Coord A) : spares m → charges m.
Proof. intros Hm s id. unfold standing. by rewrite Hm. Qed.

Lemma charges_bind {A B} (m : Coord A) (k : A → Coord B) :
  charges m → (∀ a, charges (k a)) → charges (m ≫= k).
Proof.
  intros Hm Hk s id. unfold mbind, coord_mbind. specialize (Hm s id).
  destruct (m s) as [[a| |] s1]; cbn in *.
  - intros Hne. apply Hk. intros Heq. destruct Hm as (e & ? & _); [by rewrite <-Heq | done].
  - intros Hne. destruct (Hm Hne) as (e' & [= ->] & ?). eauto.
  - intros Hne. by destruct (Hm Hne) as (e' & ? & ?).
Qed.

Lemma charges_loop {A B} (body : B → A → Coord B) l acc :
  (∀ acc x, charges (body acc x)) → charges (coord_loop body l acc).
Proof.
  intros Hb. revert acc. induction l as [|x l IH]; intros acc; [by apply spares_charges |].
  by apply charges_bind.
Qed.

(** Recording misbehavior and failing with the participant's error. *)
Lemma charges_fail {A} now now' id ty details (e : error) :
  GetCulprits e = [id] →
  charges (A := A) (_ ← record_misbehavior now now' id ty details; pure (Fail e)).
Proof.
  intros He s id'. unfold mbind, coord_mbind, record_misbehavior, standing.
  destruct (reputationTracker s) as [t|] eqn:Ht; [| cbn; by rewrite Ht].
  pose proof (law_record_others t id ty details now now' id') as Ho.
  pose proof (law_record_total t id ty details now now') as Hr.
  destruct (rt_RecordMisbehavior t id ty details now now') as [r t']. cbn in Ho, Hr.
  assert (Hres : match r with Panic => Panic | _ => Ok () end = Ok () :> Res ()) by (by destruct r).
  rewrite Hres. cbn. destruct (decide (id' = id)) as [->|Hne]; [eauto |].
  by rewrite Ho.
Qed.

Lemma commitment_charges c now now' acc id : charges (request_commitment c now now' acc id).
Proof.
  unfold request_commitment. destruct (participants c !! id) as [p|]; [| by apply spares_charges].
  apply charges_bind; [by apply spares_charges | intros _].
  apply charges_bind.
  - apply spares_charges. intros s. unfold attempt, draw. by destruct (P_RoundOne p (random s)) as [[]].
  - intros [[]| |]; [by apply spares_charges | by apply charges_fail | by apply spares_charges].
Qed.

Lemma share_charges c now now' msg l acc cm : charges (request_share c now now' msg l acc cm).
Proof.
  unfold request_share. destruct (participants c !! cm_Identifier cm) as [p|];
    [| by apply spares_charges].
  apply charges_bind.
  - apply spares_charges. intros s. unfold take_nonces. by destruct (noncesMap s !! _).
  - intros [n|]; [| by apply spares_charges].
    destruct (P_RoundTwo p n msg l);
      [by apply spares_charges | by apply charges_fail | by apply spares_charges].
Qed.

Lemma commitments_charge c now now' ids : charges (RequestCommitments c now now' ids).
Proof.
  apply charges_bind; [by apply spares_charges | intros _].
  apply charges_bind; [apply spares_charges; intros s; by rewrite check_reputations_state | intros _].
  apply charges_bind; [by apply spares_charges | intros _].
  apply charges_bind; [apply charges_loop; intros; apply commitment_charges | intros l].
  apply charges_bind; intros; by apply spares_charges.
Qed.

Lemma shares_charge c now now' l msg : charges (RequestSignatureShares c now now' l msg).
Proof.
  apply charges_bind; [by apply spares_charges | intros _].
  apply charges_loop. intros. apply share_charges.
Qed.

(** C19: blame is local: when a protocol call changes a participant's standing
    with the reputation tracker, the call has failed and its error names exactly
    that participant as the culprit. *)
Theorem blame_is_local c now now' ids l msg :
  charges (RequestCommitments c now now' ids) ∧
  charges (RequestSignatureShares c now now' l msg) ∧
  charges (Sign c now now' ids msg).
Proof.
  split; [apply commitments_charge |]. split; [apply shares_charge |].
  unfold Sign. destruct (groupPublicKey c); [| by apply spares_charges].
  apply charges_bind; [apply commitments_charge | intros ?].
  apply charges_bind; [apply shares_charge | intros ?; by apply spares_charges].
Qed.
End Reputation.
End CoordinatorFacts.

(** ** The coordinator signs *)

Section Signing.
Context {G : Group} {L : GroupLaws G} {CS : Ciphersuite G} {E : Ed25519} {T : ReputationTracker}.
Add Field scalar_field : law_field.
Local Open Scope scalar_scope.
Local Open Scope element_scope.
Import coordinator.

Lemma commitments_loop c now now' kps rounds r' s acc :
  (∀ kp, kp ∈ kps → participants c !! kp_Identifier kp = Some (NewParticipant kp)) →
  rand_map participant.RoundOne kps (random s) = (Ok rounds, r') →
  ∃ s', coord_loop (request_commitment c now now') (kp_Identifier <$> kps) acc s
          = (Ok (acc ++ rounds.*2), s') ∧
    noncesMap s' = foldl (λ m '(k, v), <[k := v]> m) (noncesMap s)
                     (zip (kp_Identifier <$> kps) rounds.*1) ∧
    reputationTracker s' = reputationTracker s.
Proof.
  revert rounds s acc. induction kps as [|kp kps IH]; intros rounds s acc Hp H.
  - injection H as <- _. exists s. by rewrite app_nil_r.
  - cbn [rand_map] in H. apply rand_bind_Ok in H as ([n cm] & r1 & H1 & H).
    apply rand_bind_Ok in H as (rounds' & r2 & H2 & H). apply rand_ret_Ok in H as [<- ->].
    cbn [fmap list_fmap coord_loop]. unfold mbind at 1, coord_mbind at 1, request_commitment.
    rewrite Hp by (by left). cbn [P_RoundOne NewParticipant].
    unfold mbind, coord_mbind, attempt, draw, note. cbn [random]. rewrite H1. cbn.
    set (s1 := {| noncesMap := _ |}).
    destruct (IH rounds' s1 (acc ++ [cm])) as (s' & Hl & Hn & Ht); [| exact H2 |].
    { intros kp' Hkp'. apply Hp. by right. }
    exists s'. by rewrite <-app_assoc in Hl.
Qed.

Lemma shares_loop c now now' msg l (share : signer → SignatureShare) qs s acc :
  (∀ p, p ∈ qs →
     participants c !! signer_id p = Some (NewParticipant (s_kp p)) ∧
     noncesMap s !! signer_id p = Some (round_one_nonces (signer_id p) (s_d p) (s_e p)) ∧
     participant.RoundTwo (s_kp p) (round_one_nonces (signer_id p) (s_d p) (s_e p)) msg l
       = Ok (share p)) →
  NoDup (signer_id <$> qs) →
  ∃ s', coord_loop (request_share c now now' msg l) (signer_commitment <$> qs) acc s
          = (Ok (acc ++ (share <$> qs)), s') ∧
    noncesMap s' = foldl (λ m id, delete id m) (noncesMap s) (signer_id <$> qs).
Proof.
  revert s acc. induction qs as [|p qs IH]; intros s acc Hq Hnd.
  - exists s. by rewrite app_nil_r.
  - apply NoDup_cons in Hnd as [Hp Hnd]. destruct (Hq p) as (H1 & H2 & H3); [by left |].
    cbn [fmap list_fmap coord_loop]. unfold mbind at 1, coord_mbind at 1, request_share.
    change (cm_Identifier (signer_commitment p)) with (signer_id p). rewrite H1.
    unfold mbind, coord_mbind, take_nonces. rewrite H2. cbn [P_RoundTwo NewParticipant].
    rewrite H3. cbn. set (s1 := {| noncesMap := _ |}).
    destruct (IH s1 (acc ++ [share p])) as (s' & Hl & Hn); [| done |].
    { intros q Hin. destruct (Hq q) as (H1' & H2' & H3'); [by right |]. split; [done |].
      split; [| done]. cbn. rewrite lookup_delete_ne; [done |]. intros Heq. apply Hp.
      rewrite Heq. by apply list_elem_of_fmap_2. }
    exists s'. by rewrite <-app_assoc in Hl.
Qed.

Lemma delete_all_lookup (ids : list Z) (m : gmap Z SigningNonces) id :
  foldl (λ m id, delete id m) m ids !! id = if bool_decide (id ∈ ids) then None else m !! id.
Proof.
  revert m. induction ids as [|x ids IH]; intros m; [done |]. cbn. rewrite IH.
  destruct (decide (id = x)) as [->|Hne].
  - rewrite lookup_delete_eq. rewrite (bool_decide_eq_true_2 (x ∈ x :: ids)) by (by left).
    by case_bool_decide.
  - rewrite lookup_delete_ne by done. erewrite bool_decide_ext; [done |].
    rewrite elem_of_cons. naive_solver.
Qed.

Lemma coord_bind_Ok {A B} (m : Coord A) (k : A → Coord B) s a s1 r :
  m s = (Ok a, s1) → k a s1 = r → (m ≫= k) s = r.
Proof. unfold mbind, coord_mbind. by intros -> ->. Qed.

(** Round one of an honest run collects the sorted list and keeps the nonces. *)
Lemma RequestCommitments_run cs vs t n all ps msg c now now' s r2 :
  honest_run cs vs t n all ps msg →
  (∀ kp, kp ∈ s_kp <$> ps → participants c !! kp_Identifier kp = Some (NewParticipant kp)) →
  (∀ tr, reputationTracker s = Some tr →
     Forall (λ id, rt_IsExcluded tr id = Ok false) (signer_id <$> ps)) →
  rand_map participant.RoundOne (s_kp <$> ps) (random s) = (Ok (run_rounds ps), r2) →
  ∃ s', RequestCommitments c now now' (signer_id <$> ps) s = (Ok (run_list ps), s') ∧
    noncesMap s' = foldl (λ m '(k, v), <[k := v]> m) ∅
      ((λ p, (signer_id p, round_one_nonces (signer_id p) (s_d p) (s_e p))) <$> ps).
Proof.
  intros Hrun Hparts Hrep Hr1.
  assert (Hids : kp_Identifier <$> (s_kp <$> ps) = signer_id <$> ps)
    by (by rewrite <-list_fmap_compose).
  set (s1 := (reset_nonces s).2).
  destruct (commitments_loop c now now' (s_kp <$> ps) (run_rounds ps) r2 s1 [] Hparts Hr1)
    as (s' & Hl & Hn & _). rewrite Hids in Hl, Hn.
  exists s'. split.
  - unfold RequestCommitments. eapply coord_bind_Ok.
    { unfold pure. rewrite bool_decide_eq_false_2; [done |]. intros Hnil.
      apply (f_equal length) in Hnil. rewrite length_fmap in Hnil. cbn in Hnil.
      pose proof (run_length _ _ _ _ _ _ _ Hrun). lia. }
    eapply coord_bind_Ok.
    { unfold check_reputations. destruct (reputationTracker s) as [tr|] eqn:Htr; [| done].
      pose proof (proj2 (check_reputations_Ok s _ tr Htr) (Hrep tr eq_refl)) as Hc.
      unfold check_reputations in Hc. by rewrite Htr in Hc. }
    eapply coord_bind_Ok; [done |]. eapply coord_bind_Ok; [exact Hl |]. cbn [app].
    change (sort_Slice cm_Identifier (run_rounds ps).*2) with (run_list ps).
    eapply coord_bind_Ok; [| done]. unfold pure.
    rewrite (proj2 (ValidateCommitmentList_Ok _)); [done |].
    by edestruct run_session as (? & ? & _).
  - rewrite Hn. cbn. f_equal. unfold run_rounds. by rewrite <-list_fmap_compose, zip_fmap_both.
Qed.

(** C8: the coordinator signs: it holds a quorum of participants with packages
    of [TrustedDealerKeygen], none of them excluded, and is asked to sign with
    them in any order; then [Sign] returns a signature that verifies under the
    group key, and no nonces are left over. *)
Theorem coordinator_signs n t all r kps pkp r1 c now now' quorum msg s rounds r2 pk :
  Forall is_uint32 all →
  TrustedDealerKeygen n t all r = (Ok (kps, pkp), r1) →
  pkp_GroupPublicKey pkp = Some pk → groupPublicKey c = Some pk →
  coordinator.aggregator c = (λ pk, aggregator.Aggregate t (Some pk)) →
  (∀ kp, kp ∈ quorum → participants c !! kp_Identifier kp = Some (NewParticipant kp)) →
  (∀ tr, reputationTracker s = Some tr →
     Forall (λ kp, rt_IsExcluded tr (kp_Identifier kp) = Ok false) quorum) →
  quorum ⊆ kps → NoDup (kp_Identifier <$> quorum) → (t ≤ Z.of_nat (length quorum))%Z →
  rand_map participant.RoundOne quorum (random s) = (Ok rounds, r2) →
  pk ≠ Identity → group_commitment pk (sort_Slice cm_Identifier rounds.*2) msg ≠ Identity →
  session_chal pk (sort_Slice cm_Identifier rounds.*2) msg ≠ 0 →
  ∃ sig s', Sign c now now' (kp_Identifier <$> quorum) msg s = (Ok sig, s') ∧
    aggregator.Verify msg sig (Some pk) = Ok () ∧ noncesMap s' = ∅.
Proof.
  intros Hu Hgen Hpk Hgpk Hagg Hparts Hrep Hsub Hnd Hlen Hr1 Hid HR Hc.
  apply TrustedDealerKeygen_inv in Hgen as ((Ht & Hn & Hnda & _) & cs & Hcs & -> & ->); [| done].
  cbn [pkp_GroupPublicKey] in Hpk. injection Hpk as <-.
  pose proof Hr1 as Hr1'. apply RoundOne_signers in Hr1 as (ps & <- & Hnz & ->).
  rewrite length_fmap in Hlen. rewrite <-list_fmap_compose in Hnd.
  assert (Hrun : honest_run cs (public_shares cs all) t n all ps msg) by (split; try done; lia).
  assert (Hids : kp_Identifier <$> (s_kp <$> ps) = signer_id <$> ps) by (by rewrite <-list_fmap_compose).
  rewrite Hids. setoid_rewrite Forall_fmap in Hrep.
  destruct (RequestCommitments_run cs _ t n all ps msg c now now' s r2 Hrun Hparts) as (s1 & H1 & Hn1);
    [by intros tr Htr; apply Forall_fmap, Hrep | done |].
  set (qs := sort_Slice signer_id ps). set (pk := g^(peval cs 0)).
  set (l := run_list ps). assert (Hl : l = signer_commitment <$> qs) by by eapply run_list_sorted.
  destruct (shares_loop c now now' msg l (signer_share cs pk l msg) qs s1 []) as (s2 & H2 & Hn2).
  { intros p Hp. unfold qs in Hp. rewrite sort_Slice_perm in Hp. split; [| split].
    - apply (Hparts (s_kp p)). by apply list_elem_of_fmap_2.
    - rewrite Hn1. by apply nonces_lookup.
    - by eapply run_answer. }
  { unfold qs. by rewrite sort_Slice_perm. }
  eexists _, s2. split; [| split].
  - unfold Sign. rewrite Hgpk. eapply coord_bind_Ok; [exact H1 |].
    eapply coord_bind_Ok.
    { unfold RequestSignatureShares. rewrite <-Hl in H2. eapply coord_bind_Ok; [| exact H2].
      unfold pure. rewrite (proj2 (ValidateCommitmentList_Ok _)); [done |].
    by edestruct run_session as (? & ? & _). }
    unfold pure. rewrite Hagg. cbn [app]. apply (f_equal (λ r, (r, s2))).
    eapply (run_aggregates cs _ t n all ps msg Hrun qs), sort_Slice_perm.
  - by eapply run_verifies.
  - apply map_eq. intros id. rewrite Hn2, delete_all_lookup, lookup_empty.
    case_bool_decide as Hin; [done |]. unfold qs in Hin. rewrite sort_Slice_perm in Hin.
    rewrite Hn1, foldl_insert_lookup by (by rewrite <-list_fmap_compose).
    rewrite not_elem_of_list_to_map_1; [done |]. by rewrite <-list_fmap_compose.
Qed.
End Signing.
