(* ===== verification/Cli.v ===== *)
(** * The command line: [cmd/frost/main.go]

    The commands as functions of their parsed flags, in a state of a disk (the
    model of [FileBackend.v]) and the random source; [Fail] is an exit with
    status one, [Panic] a panic.  The parsing of flags and the usage texts are in
    [CliMain.v]; what the commands print is not represented.  encoding/json is a parameter; names of ciphersuites are
    taken to be ASCII, relative file names start at a working directory, and
    patterns have no other metacharacter than the star, which the directory part
    has not either. *)

From Stdlib Require Import Ascii.
From stdpp Require Import pretty sorting.
From S2P Require Export Service.
From S2P Require Export Session.
From S2P Require Export FileStore.

Module cli.
Import session.

(** ** encoding/hex *)

Definition ErrLength : error := OpaqueError "encoding/hex: odd length hex string".
Definition InvalidByteError : error := OpaqueError "encoding/hex: invalid byte".

Definition fromHexChar (c : ascii) : option Z :=
  let n := Z.of_nat (nat_of_ascii c) in
  if (48 <=? n)%Z && (n <=? 57)%Z then Some (n - 48)%Z
  else if (97 <=? n)%Z && (n <=? 102)%Z then Some (n - 87)%Z
  else if (65 <=? n)%Z && (n <=? 70)%Z then Some (n - 55)%Z
  else None.

Fixpoint DecodeString (s : string) : Res bytes :=
  match s with
  | EmptyString => Ok []
  | String a EmptyString =>
      match fromHexChar a with None => Fail InvalidByteError | Some _ => Fail ErrLength end
  | String a (String b s) =>
      match fromHexChar a, fromHexChar b with
      | Some x, Some y => bs ← DecodeString s; Ok (byte.of_Z (16 * x + y) :: bs)
      | _, _ => Fail InvalidByteError
      end
  end.

(** ** Ciphersuites *)

Inductive suite_name := ed25519 | p256 | secp256k1 | ed448 | ristretto255.

(** [strings.ToLower] *)
Definition lower (c : ascii) : ascii :=
  let n := nat_of_ascii c in
  if (65 <=? n) && (n <=? 90) then ascii_of_nat (n + 32) else c.
Fixpoint ToLower (s : string) : string :=
  match s with EmptyString => EmptyString | String c s => String (lower c) (ToLower s) end.

Definition getCiphersuite (name : string) : suite_name :=
  let n := ToLower name in
  if bool_decide (n ∈ ["ed25519"; "ed25519-sha512"]) then ed25519
  else if bool_decide (n ∈ ["p256"; "p256-sha256"]) then p256
  else if bool_decide (n ∈ ["secp256k1"; "secp256k1-sha256"]) then secp256k1
  else if bool_decide (n ∈ ["ed448"; "ed448-shake256"]) then ed448
  else ristretto255.

(** ** Conversions *)

Definition safeUintToUint32 (v : Z) : Res Z := if (2 ^ 32 - 1 <? v)%Z then Panic else Ok v.
Definition safeUintToUint16 (v : Z) : Res Z := if (65535 <? v)%Z then Panic else Ok v.
Definition safeUint32ToUint16 (v : Z) : Res Z := if (65535 <? v)%Z then Panic else Ok v.
Definition safeIntToUint16 (v : Z) : Res Z :=
  if (v <? 0)%Z || (65535 <? v)%Z then Panic else Ok v.

(** ** fmt.Sscanf(s, "%d,%d", &id1, &id2) *)

(** Spaces before a number; a newline ends the scan. *)
Definition is_space (c : ascii) : bool :=
  let n := nat_of_ascii c in (n =? 32) || (n =? 9) || (n =? 11) || (n =? 12) || (n =? 13).
Fixpoint skip_space (s : string) : string :=
  match s with
  | String c s' => if is_space c then skip_space s' else s
  | EmptyString => EmptyString
  end.

Definition digit (c : ascii) : option Z :=
  let n := Z.of_nat (nat_of_ascii c) in
  if (48 <=? n)%Z && (n <=? 57)%Z then Some (n - 48)%Z else None.

(** The value of the leading digits, and what follows them. *)
Fixpoint digits (acc : option Z) (s : string) : option Z * string :=
  match s with
  | String c s' =>
      match digit c with
      | Some d => digits (Some (10 * default 0%Z acc + d)%Z) s'
      | None => (acc, s)
      end
  | EmptyString => (acc, EmptyString)
  end.

(** [%d] into an [int]: a sign, digits, and a value of 64 bits. *)
Definition scan_int (s : string) : option (Z * string) :=
  let s := skip_space s in
  let '(neg, s) := match s with
                   | String "-" s' => (true, s')
                   | String "+" s' => (false, s')
                   | _ => (false, s)
                   end in
  match digits None s with
  | (Some v, s) =>
      let v := if neg : bool then (- v)%Z else v in
      if (- 2 ^ 63 <=? v)%Z && (v <? 2 ^ 63)%Z then Some (v, s) else None
  | (None, _) => None
  end.

(** Scanning into the slice fails always, so that the command scans two
    integers; what follows them is ignored. *)
Definition parse_signers (signers : string) : option (list Z) :=
  '(id1, s) ← scan_int signers;
  match s with
  | String "," s => '(id2, _) ← scan_int s; Some [id1; id2]
  | _ => None
  end.

(** ** The documents *)

Record KeyPackageExport := {
  kx_Identifier : Z;
  kx_SecretShare : string;
  kx_PublicKey : string;
}.

Record KeysFile := {
  kf_MinSigners : Z;
  kf_MaxSigners : Z;
  kf_GroupPublicKey : string;
  kf_KeyPackages : list KeyPackageExport;
}.

Record CommitmentFile := {
  cf_Identifier : Z;
  cf_HidingCommitment : string;
  cf_BindingCommitment : string;
}.

Record NoncesFile := {
  nf_Identifier : Z;
  nf_HidingNonce : string;
  nf_BindingNonce : string;
}.

Record ShareFile := {
  sf_Identifier : Z;
  sf_Share : string;
}.

Record SignatureFile := {
  gf_Message : string;
  gf_Signature : string;
  gf_PublicKey : string;
}.

(** encoding/json on them; [json_map] is [map[string]interface{}]. *)
Class CliJson : Type := {
  marshal_keys : KeysFile → Res bytes;
  unmarshal_keys : bytes → Res KeysFile;
  marshal_commitment : CommitmentFile → Res bytes;
  unmarshal_commitments : bytes → Res (list CommitmentFile);
  marshal_nonces : NoncesFile → Res bytes;
  unmarshal_nonces : bytes → Res NoncesFile;
  marshal_share : ShareFile → Res bytes;
  unmarshal_shares : bytes → Res (list ShareFile);
  marshal_signature : SignatureFile → Res bytes;
  unmarshal_signature : bytes → Res SignatureFile;
  json_map : Type;
  unmarshal_map : bytes → Res json_map;
  marshal_maps : list json_map → Res bytes;
}.

(** ** Commands *)

Record State := { st_fs : os.Fs; st_rng : Rng }.

Definition Cmd (A : Type) : Type := State → Res A * State.

#[export] Instance cmd_mret : MRet Cmd := λ A a st, (Ok a, st).
#[export] Instance cmd_mbind : MBind Cmd := λ A B k m st,
  match m st with
  | (Ok a, st') => k a st'
  | (Fail e, st') => (Fail e, st')
  | (Panic, st') => (Panic, st')
  end.

Definition pure {A} (r : Res A) : Cmd A := λ st, (r, st).
Definition file {A} (m : os.Os A) : Cmd A := λ st,
  let '(r, fs) := m (st_fs st) in (r, {| st_fs := fs; st_rng := st_rng st |}).
Definition rand {A} (m : Rand A) : Cmd A := λ st,
  let '(r, rng) := m (st_rng st) in (r, {| st_fs := st_fs st; st_rng := rng |}).

(** A message on the standard error output and an exit with status one. *)
Definition exit {A} (msg : string) : Cmd A := pure (Fail (FreshError msg)).
Definition or_exit {A} (msg : string) (m : Cmd A) : Cmd A := λ st,
  let '(r, st') := m st in (wrap (Errorf msg) r, st').
Definition check (b : bool) (msg : string) : Cmd unit := pure (fail_if b (FreshError msg)).

(** ** filepath.Glob *)

(** The star stands for any text of a name. *)
Fixpoint Match (pattern : string) : string → bool :=
  match pattern with
  | EmptyString => λ s, bool_decide (s = "")
  | String "*" p =>
      fix star s := Match p s || match s with EmptyString => false | String _ s' => star s' end
  | String c p => λ s, match s with
                       | String c' s' => bool_decide (c = c') && Match p s'
                       | EmptyString => false
                       end
  end.

(** [filepath.Split]: the directory keeps its slash. *)
Fixpoint Split (s : string) : string * string :=
  match s with
  | EmptyString => ("", "")
  | String c s' =>
      let '(dir, file) := Split s' in
      if bool_decide (dir = "") && negb (bool_decide (c = "/"%char))
      then ("", String c file) else (String c dir, file)
  end.

(** The names of a directory, in no particular order. *)
Definition child (p : path) (e : path * os.node) : option string :=
  if decide (e.1 ≠ [] ∧ Dir_ e.1 = p) then last e.1 else None.
Definition children (n : os.nodes) (p : path) : list string := omap (child p) (map_to_list n).

Definition Readdirnames (p : path) : os.Os (list string) :=
  os.call (λ n, x ← os.resolve n [] p;
                match x with os.Dir => Ok (children n p, n) | os.File _ => Fail os.ENOTDIR end).

Section Commands.
Context (cwd : path) {J : CliJson}.

Definition path_of (name : string) : path :=
  foldl clean_step (if storage.HasPrefix name "/" then [] else cwd) (split_slash name).

Definition ReadFile (name : string) : Cmd bytes := file (os.ReadFile (path_of name)).
Definition WriteFile (name : string) (data : bytes) : Cmd unit :=
  file (os.WriteFile (path_of name) data).

#[local] Existing Instances os.os_mret os.os_mbind.

(** Errors of the system are ignored. *)
Definition glob (pattern : string) : os.Os (list string) :=
  if negb (storage.Contains pattern "*") then
    r ← os.attempt (os.Stat (path_of pattern));
    mret (match r with Ok _ => [pattern] | _ => [] end)
  else
    let '(dir, base) := Split pattern in
    r ← os.attempt (os.Stat (path_of dir));
    match r with
    | Ok os.Dir =>
        names ← os.attempt (Readdirnames (path_of dir));
        mret ((λ n, dir +:+ n) <$> filter (λ n, Match base n = true)
                (merge_sort String.le (match names with Ok l => l | _ => [] end)))
    | _ => mret []
    end.
Definition Glob (pattern : string) : Cmd (list string) := file (glob pattern).

(** Reading and decoding a document; encoding and writing one. *)
Definition read_doc {A} (what : string) (unmarshal : bytes → Res A) (name : string) : Cmd A :=
  data ← or_exit ("Error reading " +:+ what +:+ " file") (ReadFile name);
  or_exit ("Error parsing " +:+ what +:+ " file") (pure (unmarshal data)).

Definition write_doc (what : string) (m : Res bytes) (name : string) : Cmd unit :=
  data ← or_exit ("Error marshaling " +:+ what) (pure m);
  or_exit ("Error writing " +:+ what +:+ " file") (WriteFile name data).

(** ** The bodies of the commands, over the chosen ciphersuite *)

Section Suite.
Context {G : Group} {CS : Ciphersuite G}.

Definition DecodeElement (what s : string) : Res Element :=
  bs ← wrap (Errorf ("Error decoding " +:+ what)) (DecodeString s);
  wrap (Errorf ("Error deserializing " +:+ what)) (DeserializeElement bs).

Definition DecodeScalar (what s : string) : Res Scalar :=
  bs ← wrap (Errorf ("Error decoding " +:+ what)) (DecodeString s);
  wrap (Errorf ("Error deserializing " +:+ what)) (DeserializeScalar bs).

(** [keygen] *)

Record KeygenFlags := {
  kg_min : Z;
  kg_max : Z;
  kg_output : string;
  kg_ciphersuite : string;
}.
Definition keygen_defaults : KeygenFlags :=
  {| kg_min := 2; kg_max := 3; kg_output := "frost-keys.json"; kg_ciphersuite := "ristretto255" |}.

Definition export_package (pkg : KeyPackage) : Res KeyPackageExport :=
  share ← deref (SecretShare pkg);
  let secretShareBytes := s_Bytes share in
  identifier ← safeUint32ToUint16 (kp_Identifier pkg);
  publicKey ← deref (GroupPublicKey pkg);
  Ok {| kx_Identifier := identifier;
        kx_SecretShare := EncodeToString secretShareBytes;
        kx_PublicKey := EncodeToString (e_Bytes publicKey) |}.

Definition keygen_flags_ok (fl : KeygenFlags) : Cmd unit :=
  _ ← check (kg_min fl <? 2)%Z "Error: min must be at least 2";
  _ ← check (kg_max fl <? kg_min fl)%Z "Error: min cannot exceed max";
  check (65535 <? kg_max fl)%Z "Error: max signers exceeds maximum value (65535)".

Definition keygen_body (fl : KeygenFlags) : Cmd unit :=
  participantIDs ← pure (range_map (λ i, safeUintToUint32 (Z.of_nat i + 1))
                           (seq 0 (Z.to_nat (kg_max fl))));
  secret ← or_exit "Error generating secret" (rand RandomScalar);
  minSigners ← pure (safeUintToUint32 (kg_min fl));
  maxSigners ← pure (safeUintToUint32 (kg_max fl));
  '(keyPackages, groupPublicKey) ← or_exit "Error generating shares"
    (rand (dealer.GenerateShares (Some secret) minSigners maxSigners participantIDs));
  packages ← pure (range_map export_package keyPackages);
  let outputData := {| kf_MinSigners := minSigners; kf_MaxSigners := maxSigners;
                       kf_GroupPublicKey := EncodeToString (e_Bytes groupPublicKey);
                       kf_KeyPackages := packages |} in
  write_doc "output" (marshal_keys outputData) (kg_output fl).

(** The key package of an entry: it has no verification shares and a zero
    threshold. *)
Definition import_package (pkg : KeyPackageExport) : Res KeyPackage :=
  secret ← DecodeScalar "secret share" (kx_SecretShare pkg);
  pubKey ← DecodeElement "public key" (kx_PublicKey pkg);
  Ok {| kp_Identifier := kx_Identifier pkg; SecretShare := Some secret;
        GroupPublicKey := Some pubKey; VerificationShares := [];
        MinSigners := 0; MaxSigners := 0 |}.

(** The loop that looks for an entry; the identifier is converted in every
    iteration. *)
Fixpoint find_package (id : Res Z) (pkgs : list KeyPackageExport) : Res (option KeyPackage) :=
  match pkgs with
  | [] => Ok None
  | pkg :: pkgs =>
      i ← id;
      if (kx_Identifier pkg =? i)%Z then Some <$> import_package pkg
      else find_package id pkgs
  end.

Definition found (msg : string) (o : option KeyPackage) : Res KeyPackage :=
  match o with Some kp => Ok kp | None => Fail (FreshError msg) end.

(** The last part of [sign] and [aggregate]. *)
Definition write_signature (message : string) (groupPublicKey : Element) (sig : Signature)
    (output : string) : Cmd unit :=
  sigOutput ← pure (
    R ← deref (sig_R sig);
    Z ← deref (sig_Z sig);
    Ok {| gf_Message := message;
          gf_Signature := EncodeToString (e_Bytes R ++ s_Bytes Z);
          gf_PublicKey := EncodeToString (e_Bytes groupPublicKey) |});
  write_doc "signature" (marshal_signature sigOutput) output.

(** [sign] *)

Record SignFlags := {
  sg_keys : string;
  sg_message : string;
  sg_signers : string;
  sg_output : string;
  sg_ciphersuite : string;
}.
Definition sign_defaults : SignFlags :=
  {| sg_keys := "frost-keys.json"; sg_message := ""; sg_signers := "1,2";
     sg_output := "frost-signature.json"; sg_ciphersuite := "ristretto255" |}.

Definition read_keys (name : string) : Cmd KeysFile := read_doc "keys" unmarshal_keys name.

Definition sign_signers (fl : SignFlags) : Cmd (list Z) :=
  match parse_signers (sg_signers fl) with
  | Some ids => mret ids
  | None => exit "Error: invalid signers format, use comma-separated IDs (e.g., 1,2)"
  end.

Definition sign_body (fl : SignFlags) (keysInput : KeysFile) (signerIDs : list Z) : Cmd unit :=
  groupPublicKey ← pure (DecodeElement "group public key" (kf_GroupPublicKey keysInput));
  signingPackages ← pure (range_map (λ signerID,
    o ← find_package (safeIntToUint16 signerID) (kf_KeyPackages keysInput);
    found "Error: signer not found in key packages" o) signerIDs);
  rounds ← or_exit "Error in round one" (rand (rand_map participant.RoundOne signingPackages));
  let commitments := rounds.*2 in
  let messageBytes := string_bytes (sg_message fl) in
  signatureShares ← or_exit "Error in round two" (pure (range_map (λ '(kp, nonces),
    participant.RoundTwo kp nonces messageBytes commitments) (zip signingPackages rounds.*1)));
  signature ← or_exit "Error aggregating signature"
    (pure (aggregator.Aggregate (kf_MinSigners keysInput) (Some groupPublicKey) commitments
             messageBytes signatureShares));
  write_signature (sg_message fl) groupPublicKey signature (sg_output fl).

(** [commit] *)

Record CommitFlags := {
  ct_keys : string;
  ct_id : Z;
  ct_output : string;
  ct_nonces : string;
  ct_ciphersuite : string;
}.
Definition commit_defaults : CommitFlags :=
  {| ct_keys := "frost-keys.json"; ct_id := 0; ct_output := ""; ct_nonces := "";
     ct_ciphersuite := "ristretto255" |}.

(** [fmt.Sprintf("commitment-%d.json", id)] for a name that was not given *)
Definition default_name (name what : string) (id : Z) : string :=
  if bool_decide (name = "") then what +:+ "-" +:+ pretty id +:+ ".json" else name.

Definition participant_package (id : Z) (keysInput : KeysFile) : Cmd KeyPackage :=
  o ← pure (find_package (safeUintToUint16 id) (kf_KeyPackages keysInput));
  pure (found "Error: participant not found in key packages" o).

Definition commitment_file (commitment : SigningCommitments) : Res CommitmentFile :=
  identifier ← safeUint32ToUint16 (cm_Identifier commitment);
  hiding ← deref (HidingNonceCommitment commitment);
  binding ← deref (BindingNonceCommitment commitment);
  Ok {| cf_Identifier := identifier;
        cf_HidingCommitment := EncodeToString (e_Bytes hiding);
        cf_BindingCommitment := EncodeToString (e_Bytes binding) |}.

Definition nonces_file (id : Z) (nonces : SigningNonces) : Res NoncesFile :=
  hidingNonce ← deref (HidingNonce nonces);
  bindingNonce ← deref (BindingNonce nonces);
  identifier ← safeUintToUint16 id;
  Ok {| nf_Identifier := identifier;
        nf_HidingNonce := EncodeToString (s_Bytes hidingNonce);
        nf_BindingNonce := EncodeToString (s_Bytes bindingNonce) |}.

Definition commit_body (fl : CommitFlags) (keysInput : KeysFile) : Cmd unit :=
  keyPackage ← participant_package (ct_id fl) keysInput;
  '(nonces, commitment) ← or_exit "Error generating nonces and commitment"
    (rand (participant.RoundOne keyPackage));
  commitmentOutput ← pure (commitment_file commitment);
  _ ← write_doc "commitment" (marshal_commitment commitmentOutput)
        (default_name (ct_output fl) "commitment" (ct_id fl));
  noncesOutput ← pure (nonces_file (ct_id fl) nonces);
  write_doc "nonces" (marshal_nonces noncesOutput)
    (default_name (ct_nonces fl) "nonces" (ct_id fl)).

(** [sign-share] *)

Record SignShareFlags := {
  ss_keys : string;
  ss_id : Z;
  ss_nonces : string;
  ss_commitments : string;
  ss_message : string;
  ss_output : string;
  ss_ciphersuite : string;
}.
Definition sign_share_defaults : SignShareFlags :=
  {| ss_keys := "frost-keys.json"; ss_id := 0; ss_nonces := "";
     ss_commitments := "commitments.json"; ss_message := ""; ss_output := "";
     ss_ciphersuite := "ristretto255" |}.

(** The identifier of the file is not looked at. *)
Definition import_nonces (noncesInput : NoncesFile) : Res SigningNonces :=
  hidingNonce ← DecodeScalar "hiding nonce" (nf_HidingNonce noncesInput);
  bindingNonce ← DecodeScalar "binding nonce" (nf_BindingNonce noncesInput);
  Ok {| HidingNonce := Some hidingNonce; BindingNonce := Some bindingNonce;
        Commitments := zero_commitments |}.

Definition import_commitment (c : CommitmentFile) : Res SigningCommitments :=
  hidingComm ← DecodeElement "hiding commitment" (cf_HidingCommitment c);
  bindingComm ← DecodeElement "binding commitment" (cf_BindingCommitment c);
  Ok {| cm_Identifier := cf_Identifier c; HidingNonceCommitment := Some hidingComm;
        BindingNonceCommitment := Some bindingComm |}.

Definition read_commitments (name : string) : Cmd CommitmentList :=
  commitmentsInput ← read_doc "commitments" unmarshal_commitments name;
  pure (range_map import_commitment commitmentsInput).

Definition share_file (signatureShare : SignatureShare) : Res ShareFile :=
  identifier ← safeUint32ToUint16 (share_Identifier signatureShare);
  share ← deref (share_value signatureShare);
  Ok {| sf_Identifier := identifier; sf_Share := EncodeToString (s_Bytes share) |}.

Definition sign_share_body (fl : SignShareFlags) (keysInput : KeysFile) : Cmd unit :=
  keyPackage ← participant_package (ss_id fl) keysInput;
  noncesInput ← read_doc "nonces" unmarshal_nonces (default_name (ss_nonces fl) "nonces" (ss_id fl));
  nonces ← pure (import_nonces noncesInput);
  commitments ← read_commitments (ss_commitments fl);
  signatureShare ← or_exit "Error creating signature share"
    (pure (participant.RoundTwo keyPackage nonces (string_bytes (ss_message fl)) commitments));
  shareOutput ← pure (share_file signatureShare);
  write_doc "signature share" (marshal_share shareOutput)
    (default_name (ss_output fl) "share" (ss_id fl)).

(** [aggregate] *)

Record AggregateFlags := {
  ag_keys : string;
  ag_commitments : string;
  ag_shares : string;
  ag_message : string;
  ag_output : string;
  ag_ciphersuite : string;
}.
Definition aggregate_defaults : AggregateFlags :=
  {| ag_keys := "frost-keys.json"; ag_commitments := "commitments.json";
     ag_shares := "shares.json"; ag_message := ""; ag_output := "frost-signature.json";
     ag_ciphersuite := "ristretto255" |}.

Definition import_share (s : ShareFile) : Res SignatureShare :=
  share ← DecodeScalar "signature share" (sf_Share s);
  Ok {| share_Identifier := sf_Identifier s; share_value := Some share |}.

Definition aggregate_body (fl : AggregateFlags) (keysInput : KeysFile) : Cmd unit :=
  groupPublicKey ← pure (DecodeElement "group public key" (kf_GroupPublicKey keysInput));
  commitments ← read_commitments (ag_commitments fl);
  sharesInput ← read_doc "shares" unmarshal_shares (ag_shares fl);
  signatureShares ← pure (range_map import_share sharesInput);
  signature ← or_exit "Error aggregating signature"
    (pure (aggregator.Aggregate (kf_MinSigners keysInput) (Some groupPublicKey) commitments
             (string_bytes (ag_message fl)) signatureShares));
  write_signature (ag_message fl) groupPublicKey signature (ag_output fl).

(** [verify] *)

Record VerifyFlags := {
  vf_signature : string;
  vf_ciphersuite : string;
}.
Definition verify_defaults : VerifyFlags :=
  {| vf_signature := "frost-signature.json"; vf_ciphersuite := "ristretto255" |}.

Definition verify_body (sigInput : SignatureFile) : Cmd unit :=
  publicKey ← pure (DecodeElement "public key" (gf_PublicKey sigInput));
  sigBytes ← or_exit "Error decoding signature" (pure (DecodeString (gf_Signature sigInput)));
  or_exit "Signature verification FAILED"
    (pure (VerifySignature (string_bytes (gf_Message sigInput)) sigBytes publicKey)).
End Suite.

(** [collect-commitments] and [collect-shares] *)

Record CollectFlags := {
  cl_output : string;
  cl_pattern : string;
}.
Definition collect_commitments_defaults : CollectFlags :=
  {| cl_output := "commitments.json"; cl_pattern := "commitment-*.json" |}.
Definition collect_shares_defaults : CollectFlags :=
  {| cl_output := "shares.json"; cl_pattern := "share-*.json" |}.

Definition collect_file (name : string) : Cmd json_map :=
  data ← or_exit ("Error reading " +:+ name) (ReadFile name);
  or_exit ("Error parsing " +:+ name) (pure (unmarshal_map data)).

Definition collect (what none : string) (fl : CollectFlags) : Cmd unit :=
  matches ← Glob (cl_pattern fl);
  _ ← check (bool_decide (matches = [])) none;
  all ← mapM collect_file matches;
  write_doc what (marshal_maps all) (cl_output fl).

Definition collectCommitmentsCommand : CollectFlags → Cmd unit :=
  collect "commitments" "No commitment files found matching pattern".
Definition collectSharesCommand : CollectFlags → Cmd unit :=
  collect "shares" "No share files found matching pattern".

(** ** The commands

    [suites] gives the ciphersuite that the [New] function of a package
    returns. *)

Record AnySuite := { any_Group : Group; any_Suite : Ciphersuite any_Group }.

Context (suites : suite_name → AnySuite).

Definition with_suite {A} (name : string)
    (body : ∀ {G : Group} {CS : Ciphersuite G}, A) : A :=
  let s := suites (getCiphersuite name) in
  body (G := any_Group s) (CS := any_Suite s).

Definition keygenCommand (fl : KeygenFlags) : Cmd unit :=
  _ ← keygen_flags_ok fl;
  with_suite (kg_ciphersuite fl) (λ G CS, keygen_body fl).

Definition require_message (message : string) : Cmd unit :=
  check (bool_decide (message = "")) "Error: message is required".
Definition require_id (id : Z) : Cmd unit :=
  check (id =? 0)%Z "Error: participant id is required".

Definition signCommand (fl : SignFlags) : Cmd unit :=
  _ ← require_message (sg_message fl);
  keysInput ← read_keys (sg_keys fl);
  signerIDs ← sign_signers fl;
  with_suite (sg_ciphersuite fl) (λ G CS, sign_body fl keysInput signerIDs).

Definition commitCommand (fl : CommitFlags) : Cmd unit :=
  _ ← require_id (ct_id fl);
  keysInput ← read_keys (ct_keys fl);
  with_suite (ct_ciphersuite fl) (λ G CS, commit_body fl keysInput).

Definition signShareCommand (fl : SignShareFlags) : Cmd unit :=
  _ ← require_id (ss_id fl);
  _ ← require_message (ss_message fl);
  keysInput ← read_keys (ss_keys fl);
  with_suite (ss_ciphersuite fl) (λ G CS, sign_share_body fl keysInput).

Definition aggregateCommand (fl : AggregateFlags) : Cmd unit :=
  _ ← require_message (ag_message fl);
  keysInput ← read_keys (ag_keys fl);
  with_suite (ag_ciphersuite fl) (λ G CS, aggregate_body fl keysInput).

Definition verifyCommand (fl : VerifyFlags) : Cmd unit :=
  sigInput ← read_doc "signature" unmarshal_signature (vf_signature fl);
  with_suite (vf_ciphersuite fl) (λ G CS, verify_body sigInput).

(** The command line with its flags parsed. *)
Inductive command_line :=
  | cmd_keygen (fl : KeygenFlags)
  | cmd_sign (fl : SignFlags)
  | cmd_commit (fl : CommitFlags)
  | cmd_collect_commitments (fl : CollectFlags)
  | cmd_sign_share (fl : SignShareFlags)
  | cmd_collect_shares (fl : CollectFlags)
  | cmd_aggregate (fl : AggregateFlags)
  | cmd_verify (fl : VerifyFlags)
  | cmd_info
  | cmd_unknown.

Definition main (c : command_line) : Cmd unit :=
  match c with
  | cmd_info => mret ()
  | cmd_keygen fl => keygenCommand fl
  | cmd_sign fl => signCommand fl
  | cmd_commit fl => commitCommand fl
  | cmd_collect_commitments fl => collectCommitmentsCommand fl
  | cmd_sign_share fl => signShareCommand fl
  | cmd_collect_shares fl => collectSharesCommand fl
  | cmd_aggregate fl => aggregateCommand fl
  | cmd_verify fl => verifyCommand fl
  | cmd_unknown => exit "Unknown command"
  end.
End Commands.
End cli.
