(* ===== verification/CliDisk.v ===== *)
(** * Commands on a disk that works

    Total-correctness triples for the commands of [Cli.v]: [does cwd m D r a D' r']
    takes the files [D] of the working directory and the random source [r] to
    [D'] and [r'].  Rules for the monad, for reading and writing documents and for
    [filepath.Glob], and the names with a participant's number: their patterns
    and their lexical order. *)

From Stdlib Require Import Ascii.
From stdpp Require Import pretty sorting.
From S2P Require Export Cli.

Import session cli.

(** ** encoding/hex *)

Lemma hex_digit_value d : (0 ≤ d < 16)%Z → fromHexChar (hex_digit d) = Some d.
Proof.
  intros Hd. assert (d ∈ Z.of_nat <$> seq 0 16) as Hin.
  { apply list_elem_of_fmap. exists (Z.to_nat d). rewrite elem_of_seq. lia. }
  assert (Forall (λ d, fromHexChar (hex_digit d) = Some d) (Z.of_nat <$> seq 0 16)) as Hall
    by (repeat constructor).
  by apply (proj1 (Forall_forall _ _) Hall).
Qed.

Lemma hex_roundtrip bs : DecodeString (EncodeToString bs) = Ok bs.
Proof.
  induction bs as [|b bs IH]; [done |]. cbn [EncodeToString DecodeString].
  pose proof (byte.unsigned_range b) as Hb.
  rewrite !hex_digit_value by (split; [apply Z.div_pos || apply Z.mod_pos_bound |
    apply Z.div_lt_upper_bound || apply Z.mod_pos_bound]; lia).
  rewrite IH. step. by rewrite <-Z.div_mod, byte.of_Z_unsigned by done.
Qed.

(** ** Triples

    [does m D r a D' r']: from a working directory with the files [D] and the random source [r],
    [m] returns [a] and leaves the files [D'] and the source [r']. *)

Abbreviation dir := (gmap string bytes).

Record world (cwd : path) (st : State) (D : dir) (r : Rng) : Prop := {
  world_works : works (st_fs st);
  world_tree : tree (os.fs_nodes (st_fs st));
  world_cwd : os.node_at (os.fs_nodes (st_fs st)) cwd = Some os.Dir;
  world_files name : os.node_at (os.fs_nodes (st_fs st)) (cwd ++ [name]) = os.File <$> D !! name;
  world_rng : st_rng st = r;
}.

Definition does (cwd : path) {A} (m : Cmd A) (D : dir) (r : Rng) (a : A) (D' : dir) (r' : Rng)
  : Prop :=
  ∀ st, world cwd st D r → ∃ st', m st = (Ok a, st') ∧ world cwd st' D' r'.

(** The name of a file in the working directory. *)
Definition file_name (name : string) : Prop :=
  storage.Contains name "/" = false ∧ name ≠ "" ∧ name ≠ "." ∧ name ≠ "..".

Lemma path_of_name cwd name : file_name name → path_of cwd name = cwd ++ [name].
Proof.
  intros (Hs & H1 & H2 & H3). unfold path_of. rewrite split_slash_seg by done.
  assert (storage.HasPrefix name "/" = false) as ->.
  { destruct (storage.HasPrefix name "/") eqn:Hp; [| done].
    apply HasPrefix_app in Hp as [t ->]. change ("/" +:+ t) with (String "/" t) in Hs.
    cbn [storage.Contains] in Hs. rewrite prefix_char, bool_decide_true in Hs by done.
    by destruct t. }
  cbn [foldl]. unfold clean_step. by rewrite !bool_decide_eq_false_2.
Qed.

Section Triples.
Context (cwd : path) {J : CliJson}.
Local Abbreviation does := (does cwd).

Lemma does_ret {A} (a : A) D r : does (mret a) D r a D r.
Proof. intros st Hst. by exists st. Qed.

Lemma does_pure {A} (x : Res A) a D r : x = Ok a → does (pure x) D r a D r.
Proof. intros -> st Hst. by exists st. Qed.

Lemma does_bind {A B} (m : Cmd A) (k : A → Cmd B) D r a D1 r1 b D' r' :
  does m D r a D1 r1 → does (k a) D1 r1 b D' r' → does (m ≫= k) D r b D' r'.
Proof.
  intros Hm Hk st Hst. destruct (Hm st Hst) as (st1 & H1 & Hst1).
  destruct (Hk st1 Hst1) as (st2 & H2 & Hst2). exists st2.
  unfold mbind, cmd_mbind. by rewrite H1.
Qed.

Lemma does_or_exit {A} msg (m : Cmd A) D r a D' r' :
  does m D r a D' r' → does (or_exit msg m) D r a D' r'.
Proof.
  intros Hm st Hst. destruct (Hm st Hst) as (st1 & H1 & Hst1). exists st1.
  unfold or_exit. by rewrite H1.
Qed.

Lemma does_check b msg D r : b = false → does (check b msg) D r () D r.
Proof. intros ->. by apply does_pure. Qed.

Lemma does_rand {A} (m : Rand A) a D r r' : m r = (Ok a, r') → does (rand m) D r a D r'.
Proof.
  intros Hm st [Hw Ht Hc Hf <-]. unfold rand. rewrite Hm. eexists. split; [done |]. by split.
Qed.

(** A call that only looks at the disk. *)
Lemma does_file_call {A} (F : os.nodes → Res (A * os.nodes)) a D r :
  (∀ st, world cwd st D r → F (os.fs_nodes (st_fs st)) = Ok (a, os.fs_nodes (st_fs st))) →
  does (file (os.call F)) D r a D r.
Proof.
  intros HF st Hst. pose proof (HF st Hst) as He. destruct Hst as [Hw Ht Hc Hf Hr].
  unfold file. rewrite (call_works F) by done. rewrite He. eexists. split; [done |]. by split.
Qed.

Lemma does_ReadFile name d D r :
  file_name name → D !! name = Some d → does (ReadFile cwd name) D r d D r.
Proof.
  intros Hn Hd. unfold ReadFile. rewrite path_of_name by done. apply does_file_call.
  intros st [Hw Ht Hc Hf Hr].
  by rewrite (resolve_present _ (cwd ++ [name]) (os.File d)) by (done || by rewrite Hf, Hd).
Qed.

Lemma does_WriteFile name d D r :
  file_name name → does (WriteFile cwd name d) D r () (<[name := d]> D) r.
Proof.
  intros Hn st [Hw Ht Hc Hf Hr]. unfold WriteFile, file. rewrite path_of_name by done.
  destruct (WriteFile_works (cwd ++ [name]) d (st_fs st)) as (fs' & -> & Hfault & Ht' & Hn');
    [done | done | by destruct cwd | by rewrite Dir_snoc | by rewrite Hf; destruct (D !! name) |].
  eexists. split; [done |]. split; cbn; [| done | | | done].
  - intros i. by rewrite Hfault.
  - rewrite Hn', decide_False; [done |]. intros He. apply (f_equal length) in He.
    rewrite length_app in He. cbn in He. lia.
  - intros name'. rewrite Hn'. destruct (decide (name' = name)) as [->|Hne].
    + by rewrite decide_True, lookup_insert_eq.
    + rewrite decide_False, lookup_insert_ne; [done | congruence |].
      intros He%app_inj_tail. by destruct He.
Qed.

Lemma does_read_doc {A} what (unmarshal : bytes → Res A) name d x D r :
  file_name name → D !! name = Some d → unmarshal d = Ok x →
  does (read_doc cwd what unmarshal name) D r x D r.
Proof.
  intros Hn Hd Hx. unfold read_doc. eapply does_bind; [by eapply does_or_exit, does_ReadFile |].
  by apply does_or_exit, does_pure.
Qed.

Lemma does_write_doc what (m : Res bytes) name d D r :
  m = Ok d → file_name name →
  does (write_doc cwd what m name) D r () (<[name := d]> D) r.
Proof.
  intros Hm Hw. unfold write_doc. eapply does_bind; [by eapply does_or_exit, does_pure |].
  by apply does_or_exit, does_WriteFile.
Qed.

(** The files whose names match, in lexical order. *)
Lemma StronglySorted_filter {A} (R : relation A) (P : A → Prop) `{∀ x, Decision (P x)} (l : list A) :
  StronglySorted R l → StronglySorted R (filter P l).
Proof.
  induction 1 as [|x l Hs IH Hx]; [constructor |]. destruct (decide (P x)).
  - rewrite filter_cons_True by done. constructor; [done |].
    apply Forall_forall. intros y [_ Hy]%list_elem_of_filter. rewrite Forall_forall in Hx. auto.
  - by rewrite filter_cons_False.
Qed.

Lemma child_Some p e name : child p e = Some name ↔ e.1 = p ++ [name].
Proof.
  unfold child. split.
  - case_decide as Hp; [| done]. destruct Hp as [Hne <-]. destruct (e.1) as [|seg q _] using rev_ind; [done |].
    rewrite last_snoc, Dir_snoc. by intros [= ->].
  - intros ->. rewrite decide_True, last_snoc; [done |]. split; [by destruct p | apply Dir_snoc].
Qed.

Lemma children_spec n p name : name ∈ children n p ↔ is_Some (n !! (p ++ [name])).
Proof.
  unfold children. rewrite list_elem_of_omap. setoid_rewrite child_Some. split.
  - intros ([q x] & Hin%elem_of_map_to_list & He). cbn in He. subst. by exists x.
  - intros [x Hx]. exists (p ++ [name], x). by rewrite elem_of_map_to_list.
Qed.

Lemma children_NoDup n p : NoDup (children n p).
Proof.
  unfold children. pose proof (NoDup_fst_map_to_list n) as Hnd. revert Hnd.
  induction (map_to_list n) as [|e l IH]; cbn [omap list_omap fmap list_fmap]; [constructor |].
  intros [He Hnd]%NoDup_cons. destruct (child p e) as [name|] eqn:Hc; [| by apply IH].
  constructor; [| by apply IH]. intros (e' & Hin & He')%list_elem_of_omap.
  apply child_Some in Hc, He'. apply He. rewrite Hc, <-He'. apply list_elem_of_fmap. eauto.
Qed.

Lemma does_Glob pattern l D r :
  storage.Contains pattern "*" = true → Split pattern = ("", pattern) →
  StronglySorted String.le l → NoDup l →
  (∀ name, name ∈ l ↔ Match pattern name = true ∧ is_Some (D !! name)) →
  does (Glob cwd pattern) D r l D r.
Proof.
  intros Hstar Hsplit Hsort Hnd Hl st [Hw Ht Hc Hf Hr].
  set (n := os.fs_nodes (st_fs st)) in *.
  assert (filter (λ name, Match pattern name = true) (merge_sort String.le (children n cwd)) = l) as He.
  { apply (StronglySorted_unique String.le).
    - apply StronglySorted_filter, StronglySorted_merge_sort; apply _.
    - done.
    - apply NoDup_Permutation; [| done |].
      + apply NoDup_filter. rewrite merge_sort_Permutation. apply children_NoDup.
      + intros name. rewrite list_elem_of_filter, merge_sort_Permutation, children_spec, Hl.
        rewrite <-node_at_snoc, Hf. by rewrite fmap_is_Some. }
  unfold Glob, file, glob. rewrite Hstar, Hsplit. cbn [negb].
  assert (path_of cwd "" = cwd) as -> by done.
  unfold os.attempt, mbind, os.os_mbind, mret, os.os_mret, os.Stat, Readdirnames.
  rewrite !call_works by done. rewrite (resolve_present _ cwd os.Dir) by done. step.
  rewrite call_works by done. cbn [os.fs_nodes os.move].
  rewrite (resolve_present _ cwd os.Dir) by done. step.
  exists {| st_fs := os.move n (os.move n (st_fs st)); st_rng := st_rng st |}. split; [| by split].
  apply (f_equal2 pair); [| done]. apply (f_equal Ok). exact (eq_trans (list_fmap_id _) He).
Qed.
End Triples.

(** ** Several files *)

Definition put_all (es : list (string * bytes)) (D : dir) : dir :=
  foldl (λ D e, <[e.1 := e.2]> D) D es.

Lemma put_all_app es es' D : put_all (es ++ es') D = put_all es' (put_all es D).
Proof. apply foldl_app. Qed.

Lemma put_all_out es D name : name ∉ es.*1 → put_all es D !! name = D !! name.
Proof.
  revert D. induction es as [|e es IH]; intros D; [done |]. rewrite fmap_cons.
  intros [Hne Hin]%not_elem_of_cons. cbn [put_all foldl]. change (foldl _ _ es) with
    (put_all es (<[e.1 := e.2]> D)). by rewrite IH, lookup_insert_ne by done.
Qed.

Lemma put_all_in es D name b : NoDup es.*1 → (name, b) ∈ es → put_all es D !! name = Some b.
Proof.
  revert D. induction es as [|e es IH]; intros D; [by intros _ ?%not_elem_of_nil |].
  rewrite fmap_cons. intros [Hne Hnd]%NoDup_cons Hin. cbn [put_all foldl].
  change (foldl _ _ es) with (put_all es (<[e.1 := e.2]> D)).
  apply elem_of_cons in Hin as [<-|Hin]; [| by apply IH].
  by rewrite put_all_out, lookup_insert_eq.
Qed.

Lemma put_all_dom es D name : is_Some (put_all es D !! name) → name ∈ es.*1 ∨ is_Some (D !! name).
Proof.
  intros Hs. destruct (decide (name ∈ es.*1)) as [|Hn]; [by left |]. right.
  by rewrite put_all_out in Hs.
Qed.

(** ** Names with a participant's number *)

Definition named (what : string) (id : Z) : string := what +:+ "-" +:+ pretty id +:+ ".json".

Lemma pretty_go_slash x s :
  storage.Contains (pretty_N_go x s) "/" = storage.Contains s "/".
Proof.
  revert s. induction (N.lt_wf_0 x) as [x _ IH]. intros s.
  destruct (decide (x = 0)%N) as [->|Hx]; [by rewrite pretty_N_go_0 |].
  rewrite pretty_N_go_step, IH by (try apply N.div_lt; lia).
  cbn [storage.Contains]. rewrite prefix_char.
  assert (bool_decide ("/"%char = pretty_N_char (x `mod` 10)) = false) as ->; [| done].
  apply bool_decide_eq_false_2. unfold pretty_N_char. by repeat case_match.
Qed.

Lemma named_file_name what id :
  (0 < id)%Z → storage.Contains what "/" = false → (2 <? String.length what) = true → file_name (named what id).
Proof.
  intros Hid Hw Hl%Nat.ltb_lt. unfold named. split.
  - rewrite !Contains_slash_app, Hw. cbn [orb].
    assert (storage.Contains (pretty id) "/" = false) as ->; [| done].
    destruct id as [|x|x]; [done | | done]. unfold pretty, pretty_Z, pretty, pretty_positive, pretty, pretty_N.
    destruct (decide _); [done |]. apply pretty_go_slash.
  - destruct what as [|c1 [|c2 [|c3 what]]]; cbn in Hl; try lia. done.
Qed.

Lemma named_inj what id id' : named what id = named what id' → id = id'.
Proof.
  unfold named. intros H%(inj (String.append what))%(inj (String.append "-")).
  by apply String.app_inv_l, (inj pretty) in H.
Qed.

Lemma Match_star p a b : Match p b = true → Match (String "*" p) (a +:+ b) = true.
Proof.
  intros Hb. induction a as [|c a IH].
  - simpl. destruct b; simpl; by rewrite Hb.
  - change (String c a +:+ b) with (String c (a +:+ b)). simpl. simpl in IH.
    by rewrite IH, orb_true_r.
Qed.

Lemma Match_commitment id : Match "commitment-*.json" (named "commitment" id) = true.
Proof. apply (Match_star ".json" (pretty id) ".json"). reflexivity. Qed.

Lemma Match_share id : Match "share-*.json" (named "share" id) = true.
Proof. apply (Match_star ".json" (pretty id) ".json"). reflexivity. Qed.

Lemma le_app p a b : String.le a b → String.le (p +:+ a) (p +:+ b).
Proof.
  intros Hab. induction p as [|c p IH]; [done |]. unfold String.le, String.leb in *.
  change (String c p +:+ a) with (String c (p +:+ a)).
  change (String c p +:+ b) with (String c (p +:+ b)).
  cbn [String.compare].
  assert (Ascii.compare c c = Eq) as -> by apply N.compare_refl. done.
Qed.

(** The lexical order of the names is the order of the numbers. *)
Definition lexical (ids : list Z) : Prop :=
  StronglySorted String.le ((λ id, pretty id +:+ ".json") <$> ids).

Lemma named_sorted what ids : lexical ids → StronglySorted String.le (named what <$> ids).
Proof.
  unfold lexical. intros Hs.
  assert (named what <$> ids =
    (String.append (what +:+ "-")) <$> ((λ id, pretty id +:+ ".json") <$> ids)) as ->.
  { rewrite <-list_fmap_compose. apply list_fmap_ext. intros _ id _. unfold named. cbn.
    by rewrite append_assoc. }
  eapply StronglySorted_fmap, Hs. intros x y. apply le_app.
Qed.

Lemma named_NoDup what ids : NoDup ids → NoDup (named what <$> ids).
Proof. intros Hnd. apply NoDup_fmap_2; [| done]. intros id id'. apply named_inj. Qed.
