(* ===== verification/Ceremony.v ===== *)
(** * The commands together: [cmd/frost/main.go]

    What the commands of [Cli.v] do one after the other: the ceremony of separate
    signers that exchange files, from [keygen] to [verify], and the one-shot
    [sign].  encoding/json is held to its round trips ([CliJsonLaws]), the group to
    its contract, and the ciphersuite's verifier to accepting what the protocol's
    own verifier accepts ([VerifierLaw], which the deployed suites keep). *)

From stdpp Require Import pretty sorting.
From S2P Require Export CliDisk.
From S2P Require Import SuiteLaws.

Import session cli.

(** ** encoding/json

    A document of valid UTF-8 strings and numbers of its fields' types is read
    back as it was written, also when it went through a map on its way into a
    list: 16-bit integers are exact as 64-bit floats. *)

Definition is_uint16 (i : Z) : Prop := (0 ≤ i < 2 ^ 16)%Z.

Class CliJsonLaws (J : CliJson) : Type := {
  cli_utf8 : string → Prop;
  utf8_hex bs : cli_utf8 (EncodeToString bs);
  json_keys k :
    is_uint32 (kf_MinSigners k) → is_uint32 (kf_MaxSigners k) → cli_utf8 (kf_GroupPublicKey k) →
    Forall (λ e, is_uint16 (kx_Identifier e) ∧ cli_utf8 (kx_SecretShare e) ∧
                 cli_utf8 (kx_PublicKey e)) (kf_KeyPackages k) →
    ∃ b, marshal_keys k = Ok b ∧ unmarshal_keys b = Ok k;
  json_nonces n :
    is_uint16 (nf_Identifier n) → cli_utf8 (nf_HidingNonce n) → cli_utf8 (nf_BindingNonce n) →
    ∃ b, marshal_nonces n = Ok b ∧ unmarshal_nonces b = Ok n;
  json_signature g :
    cli_utf8 (gf_Message g) → cli_utf8 (gf_Signature g) → cli_utf8 (gf_PublicKey g) →
    ∃ b, marshal_signature g = Ok b ∧ unmarshal_signature b = Ok g;
  json_commitment c :
    is_uint16 (cf_Identifier c) → cli_utf8 (cf_HidingCommitment c) →
    cli_utf8 (cf_BindingCommitment c) →
    ∃ b m, marshal_commitment c = Ok b ∧ unmarshal_map b = Ok m;
  json_commitments cs ms :
    Forall2 (λ c m, ∃ b, marshal_commitment c = Ok b ∧ unmarshal_map b = Ok m) cs ms →
    Forall (λ c, is_uint16 (cf_Identifier c) ∧ cli_utf8 (cf_HidingCommitment c) ∧
                 cli_utf8 (cf_BindingCommitment c)) cs →
    ∃ b, marshal_maps ms = Ok b ∧ unmarshal_commitments b = Ok cs;
  json_share s :
    is_uint16 (sf_Identifier s) → cli_utf8 (sf_Share s) →
    ∃ b m, marshal_share s = Ok b ∧ unmarshal_map b = Ok m;
  json_shares ss ms :
    Forall2 (λ s m, ∃ b, marshal_share s = Ok b ∧ unmarshal_map b = Ok m) ss ms →
    Forall (λ s, is_uint16 (sf_Identifier s) ∧ cli_utf8 (sf_Share s)) ss →
    ∃ b, marshal_maps ms = Ok b ∧ unmarshal_shares b = Ok ss;
}.

(** The suite's verifier accepts what the protocol's own verifier accepts. *)
Class VerifierLaw {G : Group} (CS : Ciphersuite G) : Prop :=
  verifier_accepts msg R z PK :
    R ≠ Identity → PK ≠ Identity →
    aggregator.Verify msg {| sig_R := Some R; sig_Z := Some z |} (Some PK) = Ok () →
    VerifySignature msg (e_Bytes R ++ s_Bytes z) PK = Ok ().

(** On the valid values of their groups, the deployed suites keep the law. *)
Lemma deployed_verifier {G} (CS : Ciphersuite G) (L : AdapterLaws G) n (HD : Deployed CS L n) :
  VerifierLaw (restrict_suite CS L (su_valid (SuiteLaws := deployed_laws CS L n HD))).
Proof.
  intros msg R z PK HR HPK Hv.
  pose proof (@Verify_cases (restrict G) _
    (restrict_suite CS L (su_valid (SuiteLaws := deployed_laws CS L n HD))) msg R z PK) as [Hiff _].
  apply Hiff in Hv as (_ & _ & _ & He).
  apply (suite_accepts (SL := deployed_laws CS L n HD) msg R z PK HR HPK) in He.
  unfold signature_bytes in He. cbn [SerializeScalar restrict] in He.
  pose proof (law_s_Bytes (G := restrict G) z) as Hb. cbn in Hb. cbn. rewrite Hb. exact He.
Qed.

(** ** What the commands write and read *)

Section Documents.
Context {G : Group} {L : GroupLaws G} {CS : Ciphersuite G}.
Context (cwd : path) {J : CliJson} {JL : CliJsonLaws J}.
Local Open Scope scalar_scope.
Local Open Scope element_scope.
Local Abbreviation does := (does cwd).
Implicit Types (cs : list Scalar) (pk : Element) (D : dir) (r : Rng) (id : Z).

Definition exported cs id : KeyPackageExport :=
  {| kx_Identifier := id;
     kx_SecretShare := EncodeToString (s_Bytes (peval cs (sc id)));
     kx_PublicKey := EncodeToString (e_Bytes (g^(peval cs 0))) |}.

Definition keys_doc cs (t n : Z) (ids : list Z) : KeysFile :=
  {| kf_MinSigners := t; kf_MaxSigners := n;
     kf_GroupPublicKey := EncodeToString (e_Bytes (g^(peval cs 0)));
     kf_KeyPackages := exported cs <$> ids |}.

(** The package a signer makes of its entry. *)
Definition imported cs id : KeyPackage :=
  {| kp_Identifier := id; SecretShare := Some (peval cs (sc id));
     GroupPublicKey := Some (g^(peval cs 0)); VerificationShares := [];
     MinSigners := 0; MaxSigners := 0 |}.

Definition all_ids (n : Z) : list Z := (λ i, (Z.of_nat i + 1)%Z) <$> seq 0 (Z.to_nat n).

Lemma all_ids_spec n id : id ∈ all_ids n ↔ (1 ≤ id ≤ n)%Z.
Proof.
  unfold all_ids. rewrite list_elem_of_fmap. setoid_rewrite elem_of_seq. split.
  - intros (i & -> & Hi). lia.
  - intros Hid. exists (Z.to_nat (id - 1)). lia.
Qed.

Lemma DecodeScalar_hex what x : DecodeScalar what (EncodeToString (s_Bytes x)) = Ok x.
Proof.
  unfold DecodeScalar. rewrite hex_roundtrip. step.
  by rewrite law_s_Bytes, law_SerializeScalar.
Qed.

Lemma DecodeElement_hex what P :
  P ≠ Identity → DecodeElement what (EncodeToString (e_Bytes P)) = Ok P.
Proof.
  intros HP. unfold DecodeElement. rewrite hex_roundtrip. step.
  by rewrite law_DeserializeElement.
Qed.

Lemma import_exported cs id :
  g^(peval cs 0) ≠ Identity → import_package (exported cs id) = Ok (imported cs id).
Proof.
  intros Hpk. unfold import_package, exported. cbn [kx_Identifier kx_SecretShare kx_PublicKey].
  rewrite DecodeScalar_hex. step. by rewrite DecodeElement_hex.
Qed.

Lemma find_exported cs id ids :
  g^(peval cs 0) ≠ Identity → id ∈ ids →
  find_package (Ok id) (exported cs <$> ids) = Ok (Some (imported cs id)).
Proof.
  intros Hpk. induction ids as [|i ids IH]; [by intros ?%not_elem_of_nil |].
  intros Hid. cbn [fmap list_fmap find_package]. step. cbn [kx_Identifier exported].
  destruct (Z.eqb_spec i id) as [->|Hne].
  - by rewrite import_exported.
  - apply IH. by apply elem_of_cons in Hid as [?|?].
Qed.
(** *** keygen *)

Lemma safe_ids n :
  (0 ≤ n ≤ 65535)%Z →
  range_map (λ i, safeUintToUint32 (Z.of_nat i + 1)) (seq 0 (Z.to_nat n)) = Ok (all_ids n).
Proof.
  intros Hn. apply range_map_total. intros i Hi%elem_of_seq. unfold safeUintToUint32.
  by rewrite (proj2 (Z.ltb_ge _ _)) by lia.
Qed.

Lemma export_dealt cs vs t n id :
  (id ≤ 65535)%Z → export_package (dealt_package cs vs t n id) = Ok (exported cs id).
Proof.
  intros Hid. unfold export_package, dealt_package. cbn [SecretShare kp_Identifier GroupPublicKey].
  step. unfold safeUint32ToUint16. by rewrite (proj2 (Z.ltb_ge _ _)) by lia.
Qed.

Lemma keys_doc_marshals cs t n :
  (0 ≤ t ≤ n)%Z → (n ≤ 65535)%Z →
  ∃ b, marshal_keys (keys_doc cs t n (all_ids n)) = Ok b ∧
       unmarshal_keys b = Ok (keys_doc cs t n (all_ids n)).
Proof.
  intros Ht Hn. apply json_keys; cbn [kf_MinSigners kf_MaxSigners kf_GroupPublicKey kf_KeyPackages keys_doc].
  - unfold is_uint32, uint32_max. lia.
  - unfold is_uint32, uint32_max. lia.
  - apply utf8_hex.
  - apply Forall_fmap, Forall_forall. intros id Hid%all_ids_spec. cbn.
    unfold is_uint16. split; [lia |]. split; apply utf8_hex.
Qed.

Lemma keygen_does fl D r s r1 kps pk r2 :
  (2 ≤ kg_min fl ≤ kg_max fl)%Z → (kg_max fl ≤ 65535)%Z →
  file_name (kg_output fl) →
  RandomScalar r = (Ok s, r1) →
  dealer.GenerateShares (Some s) (kg_min fl) (kg_max fl) (all_ids (kg_max fl)) r1
    = (Ok (kps, pk), r2) →
  ∃ cs b, length cs = Z.to_nat (kg_min fl) ∧ pk = g^(peval cs 0) ∧
    kps = dealt_package cs (commitments_of cs) (kg_min fl) (kg_max fl) <$> all_ids (kg_max fl) ∧
    unmarshal_keys b = Ok (keys_doc cs (kg_min fl) (kg_max fl) (all_ids (kg_max fl))) ∧
    does (keygen_body cwd fl) D r () (<[kg_output fl := b]> D) r2.
Proof.
  intros Hmin Hmax Hw Hs Hg. pose proof Hg as Hinv.
  apply GenerateShares_inv in Hinv as (_ & cs & Hcs & -> & _ & ->).
  2: { apply Forall_forall. intros id Hid%all_ids_spec. unfold is_uint32, uint32_max. lia. }
  destruct (keys_doc_marshals cs (kg_min fl) (kg_max fl)) as (b & Hb & Hb'); [lia.. |].
  exists cs, b. split; [done |]. split; [done |]. split; [done |]. split; [done |].
  unfold keygen_body. eapply does_bind; [apply does_pure, safe_ids; lia |].
  eapply does_bind; [by apply does_or_exit, does_rand |].
  unfold safeUintToUint32. rewrite !(proj2 (Z.ltb_ge _ _)) by lia.
  do 2 (eapply does_bind; [by apply does_pure |]).
  eapply does_bind; [by apply does_or_exit, does_rand |].
  eapply does_bind; [eapply does_pure, (range_map_total _ (λ kp, exported cs (kp_Identifier kp))) |].
  - intros kp (id & -> & Hid%all_ids_spec)%list_elem_of_fmap. by rewrite export_dealt by lia.
  - rewrite <-list_fmap_compose. by apply does_write_doc.
Qed.

(** *** The signature file and verify *)

Context {VL : VerifierLaw CS}.

Definition sig_doc (message : string) pk (sig : Signature) : SignatureFile :=
  {| gf_Message := message;
     gf_Signature := EncodeToString (match sig_R sig, sig_Z sig with
                                     | Some R, Some z => e_Bytes R ++ s_Bytes z
                                     | _, _ => []
                                     end);
     gf_PublicKey := EncodeToString (e_Bytes pk) |}.

Lemma write_signature_does message pk R z output D r :
  let sig := {| sig_R := Some R; sig_Z := Some z |} in
  cli_utf8 message → file_name output →
  ∃ b, unmarshal_signature b = Ok (sig_doc message pk sig) ∧
    does (write_signature cwd message pk sig output) D r () (<[output := b]> D) r.
Proof.
  intros sig Hm Hw.
  destruct (json_signature (sig_doc message pk sig)) as (b & Hb & Hb'); [done | apply utf8_hex.. |].
  exists b. split; [done |]. eapply does_bind; [by apply does_pure |]. by apply does_write_doc.
Qed.

Lemma verify_does message pk sig D r :
  pk ≠ Identity → sig_R sig ≠ Some Identity →
  aggregator.Verify (string_bytes message) sig (Some pk) = Ok () →
  does (verify_body (sig_doc message pk sig)) D r () D r.
Proof.
  intros Hpk HR Hv. unfold verify_body.
  eapply does_bind; [by apply does_pure, DecodeElement_hex |].
  eapply does_bind; [apply does_or_exit, does_pure, hex_roundtrip |].
  apply does_or_exit, does_pure. cbn [gf_Message sig_doc].
  destruct sig as [[R|] [z|]]; cbn [sig_R sig_Z] in *.
  - apply verifier_accepts; [congruence | done | done].
  - done.
  - done.
  - done.
Qed.
(** *** The ceremony: collecting *)

Lemma Forall2_choice {A B} (R : A → B → Prop) (xs : list A) :
  (∀ x, x ∈ xs → ∃ y, R x y) → ∃ ys, Forall2 R xs ys.
Proof.
  induction xs as [|x xs IH]; intros HR; [by exists [] |].
  destruct (HR x) as [y Hy]; [by left |]. destruct IH as [ys Hys]; [intros x' Hx'; apply HR; by right |].
  exists (y :: ys). by constructor.
Qed.

Lemma collect_files names ms D r :
  Forall2 (λ name m, file_name name ∧ ∃ b, D !! name = Some b ∧ unmarshal_map b = Ok m) names ms →
  does (mapM (collect_file cwd) names) D r ms D r.
Proof.
  induction 1 as [|name m names ms (Hn & b & Hb & Hm) _ IH]; [apply does_ret |].
  change (mapM _ (name :: names)) with
    (m ← collect_file cwd name; ms ← mapM (collect_file cwd) names; mret (m :: ms)).
  eapply does_bind.
  - unfold collect_file. eapply does_bind; [by eapply does_or_exit, does_ReadFile |].
    by apply does_or_exit, does_pure.
  - eapply does_bind; [exact IH | apply does_ret].
Qed.

Lemma collect_does what none fl names ms b D r :
  storage.Contains (cl_pattern fl) "*" = true → Split (cl_pattern fl) = ("", cl_pattern fl) →
  names ≠ [] → StronglySorted String.le names → NoDup names →
  (∀ name, name ∈ names ↔ Match (cl_pattern fl) name = true ∧ is_Some (D !! name)) →
  Forall2 (λ name m, file_name name ∧ ∃ b, D !! name = Some b ∧ unmarshal_map b = Ok m) names ms →
  marshal_maps ms = Ok b → file_name (cl_output fl) →
  does (collect cwd what none fl) D r () (<[cl_output fl := b]> D) r.
Proof.
  intros Hstar Hsplit Hne Hsort Hnd Hnames Hms Hb Ho. unfold collect.
  eapply does_bind; [by apply does_Glob |].
  eapply does_bind; [by apply does_check, bool_decide_eq_false_2 |].
  eapply does_bind; [by apply collect_files |]. by apply does_write_doc.
Qed.

(** *** A signing session of imported packages *)

Section Session.
Context (cs : list Scalar) (n : Z) (ps : list signer) (message : string).

Local Abbreviation pk := (g^(peval cs 0)).
Local Abbreviation msg := (string_bytes message).
Local Abbreviation t := (Z.of_nat (length cs)).
Local Abbreviation l := (signer_commitment <$> ps).
Local Abbreviation shares := (signer_share cs pk l msg <$> ps).

(** The signers are at least as many as the threshold and in ascending order,
    their nonces are not zero, and the session is free of the collisions that the
    code reports as errors. *)
Record cli_session : Prop := {
  cs_packages : s_kp <$> ps = imported cs <$> (signer_id <$> ps);
  cs_ids : signer_id <$> ps ⊆ all_ids n;
  cs_small : (n ≤ 65535)%Z;
  cs_sorted : StronglySorted Z.lt (signer_id <$> ps);
  cs_enough : (2 ≤ t ≤ Z.of_nat (length ps))%Z;
  cs_nonces : Forall (λ p, s_d p ≠ 0 ∧ s_e p ≠ 0) ps;
  cs_pk : pk ≠ Identity;
  cs_R : group_commitment pk l msg ≠ Identity;
  cs_challenge : session_chal pk l msg ≠ 0;
}.

Context (H : cli_session).

Lemma session_package p : p ∈ ps → s_kp p = imported cs (signer_id p).
Proof.
  intros Hp. pose proof (cs_packages H) as He. rewrite <-list_fmap_compose in He.
  apply list_elem_of_lookup in Hp as [i Hi].
  apply (f_equal (.!! i)) in He. rewrite !list_lookup_fmap, Hi in He. by injection He.
Qed.

Lemma session_id p : p ∈ ps → (1 ≤ signer_id p ≤ 65535)%Z.
Proof.
  intros Hp. assert (signer_id p ∈ all_ids n) as Hid%all_ids_spec
    by (apply (cs_ids H), list_elem_of_fmap; eauto).
  pose proof (cs_small H). lia.
Qed.

Lemma session_signers : Forall (signer_ok cs pk 0) ps.
Proof.
  apply Forall_forall. intros p Hp. pose proof (session_id p Hp) as Hid.
  pose proof (cs_nonces H) as Hnz. rewrite Forall_forall in Hnz. destruct (Hnz p Hp) as [Hd He].
  unfold signer_ok. rewrite (session_package p Hp). split_and!; try done.
  unfold is_uint32, uint32_max. lia.
Qed.

Lemma session_nonempty : ps ≠ [].
Proof. intros Hps. pose proof (cs_enough H) as He. rewrite Hps in He. cbn [length] in He. lia. Qed.

Lemma session_list : session_ok l.
Proof.
  eapply (honest_session cs); [apply session_nonempty | apply (cs_sorted H) | apply session_signers].
Qed.

Lemma RoundTwo_nonces kp nonces d e :
  HidingNonce nonces = Some d → BindingNonce nonces = Some e →
  participant.RoundTwo kp nonces msg l = participant.RoundTwo kp (round_one_nonces (kp_Identifier kp) d e) msg l.
Proof. intros Hd He. unfold participant.RoundTwo. by rewrite Hd, He. Qed.

Lemma session_answer p nonces :
  p ∈ ps → HidingNonce nonces = Some (s_d p) → BindingNonce nonces = Some (s_e p) →
  participant.RoundTwo (imported cs (signer_id p)) nonces msg l = Ok (signer_share cs pk l msg p).
Proof.
  intros Hp Hd He. rewrite (RoundTwo_nonces _ _ _ _ Hd He).
  pose proof session_signers as Hok. rewrite Forall_forall in Hok.
  rewrite <-(session_package p Hp).
  eapply honest_round_two; [apply session_list | by apply Hok | | apply Nat2Z.is_nonneg | apply (cs_challenge H)].
  apply list_elem_of_fmap. eauto.
Qed.

Lemma session_signature :
  aggregator.Aggregate t (Some pk) l msg shares = Ok (assembled pk l msg shares) ∧
  aggregator.Verify msg (assembled pk l msg shares) (Some pk) = Ok ().
Proof.
  pose proof (cs_enough H) as Hlen.
  assert (keys_of cs (cm_Identifier <$> l) (public_shares cs (signer_id <$> ps))) as Hkeys.
  { apply public_shares_keys. by rewrite <-list_fmap_compose. }
  assert (NoDup (signer_id <$> ps)) as Hnd.
  { apply (StronglySorted_lt_NoDup _ (cs_sorted H)). }
  destruct (honest_signature cs pk 0 msg (public_shares cs (signer_id <$> ps)) ps 0)
    as [_ Hv]; try apply H; try done.
  - apply session_nonempty.
  - apply session_signers.
  - lia.
  - lia.
  - by apply public_shares_keys_ok.
  - split; [| exact Hv]. apply Aggregate_Ok; [apply session_list | apply (cs_R H) | |].
    + rewrite length_fmap. lia.
    + apply Forall_fmap, Forall_forall. intros p Hp. pose proof (session_id p Hp).
      cbn. split; [unfold is_uint32, uint32_max; lia | by eexists].
Qed.

(** What the signers send and keep. *)
Definition session_rounds : list (SigningNonces * SigningCommitments) :=
  (λ p, (round_one_nonces (signer_id p) (s_d p) (s_e p), signer_commitment p)) <$> ps.

Lemma session_rounds_1 :
  session_rounds.*1 = (λ p, round_one_nonces (signer_id p) (s_d p) (s_e p)) <$> ps.
Proof. unfold session_rounds. by rewrite <-list_fmap_compose. Qed.

Lemma session_rounds_2 : session_rounds.*2 = l.
Proof. unfold session_rounds. by rewrite <-list_fmap_compose. Qed.

Lemma session_find_package p :
  p ∈ ps → find_package (safeUintToUint16 (signer_id p)) (exported cs <$> all_ids n)
           = Ok (Some (imported cs (signer_id p))).
Proof.
  intros Hp. unfold safeUintToUint16. pose proof (session_id p Hp).
  rewrite (proj2 (Z.ltb_ge _ _)) by lia. apply find_exported; [apply (cs_pk H) |].
  apply (cs_ids H), list_elem_of_fmap. eauto.
Qed.

(** *** sign *)

Lemma sign_does fl D r r' :
  sg_message fl = message → cli_utf8 message → file_name (sg_output fl) →
  rand_map participant.RoundOne (imported cs <$> (signer_id <$> ps)) r = (Ok session_rounds, r') →
  ∃ b, unmarshal_signature b = Ok (sig_doc message pk (assembled pk l msg shares)) ∧
    does (sign_body cwd fl (keys_doc cs t n (all_ids n)) (signer_id <$> ps)) D r ()
      (<[sg_output fl := b]> D) r'.
Proof.
  intros Hm Hu Hw Hr. destruct session_signature as [Hagg _].
  destruct (write_signature_does message pk (group_commitment pk l msg)
    (ssum (share_z <$> shares)) (sg_output fl) D r' Hu Hw) as (b & Hb & Hdoes).
  exists b. split; [exact Hb |]. unfold sign_body. rewrite Hm.
  cbn [kf_GroupPublicKey kf_KeyPackages kf_MinSigners keys_doc].
  eapply does_bind; [apply does_pure, DecodeElement_hex, (cs_pk H) |].
  eapply does_bind; [eapply does_pure, (range_map_total _ (imported cs)) |].
  { intros id (p & -> & Hp)%list_elem_of_fmap. pose proof (session_id p Hp).
    change (safeIntToUint16 (signer_id p)) with
      (if (signer_id p <? 0)%Z || (65535 <? signer_id p)%Z then Panic : Res Z else Ok (signer_id p)).
    rewrite !(proj2 (Z.ltb_ge _ _)) by lia. cbn [orb].
    rewrite find_exported; [done | apply (cs_pk H) |].
    apply (cs_ids H), list_elem_of_fmap. eauto. }
  eapply does_bind; [by apply does_or_exit, does_rand |].
  rewrite session_rounds_1, session_rounds_2.
  eapply does_bind; [eapply does_or_exit, does_pure |].
  { rewrite <-list_fmap_compose, zip_fmap_both, range_map_fmap.
    apply range_map_total. intros p Hp. by apply session_answer. }
  eapply does_bind; [apply does_or_exit, does_pure, Hagg |]. exact Hdoes.
Qed.
(** *** The ceremony: commit *)

Definition commitment_doc (p : signer) : CommitmentFile :=
  {| cf_Identifier := signer_id p;
     cf_HidingCommitment := EncodeToString (e_Bytes (g^(s_d p)));
     cf_BindingCommitment := EncodeToString (e_Bytes (g^(s_e p))) |}.
Definition nonces_doc (p : signer) : NoncesFile :=
  {| nf_Identifier := signer_id p;
     nf_HidingNonce := EncodeToString (s_Bytes (s_d p));
     nf_BindingNonce := EncodeToString (s_Bytes (s_e p)) |}.
Definition share_doc (p : signer) : ShareFile :=
  {| sf_Identifier := signer_id p;
     sf_Share := EncodeToString (s_Bytes (share_formula pk l msg (signer_id p) (s_d p) (s_e p)
                                            (peval cs (sc (signer_id p))))) |}.

Definition written (m : Res bytes) : bytes := match m with Ok b => b | _ => [] end.

Definition commit_entries (p : signer) : list (string * bytes) :=
  [(named "commitment" (signer_id p), written (marshal_commitment (commitment_doc p)));
   (named "nonces" (signer_id p), written (marshal_nonces (nonces_doc p)))].
Definition share_entries (p : signer) : list (string * bytes) :=
  [(named "share" (signer_id p), written (marshal_share (share_doc p)))].

Lemma session_uint16 p : p ∈ ps → is_uint16 (signer_id p).
Proof. intros Hp. pose proof (session_id p Hp). unfold is_uint16. lia. Qed.

Lemma nonce_points p : p ∈ ps → g^(s_d p) ≠ Identity ∧ g^(s_e p) ≠ Identity.
Proof.
  intros Hp. pose proof (cs_nonces H) as Hnz. rewrite Forall_forall in Hnz.
  destruct (Hnz p Hp) as [Hd He]. split; intros Hi%law_generator; done.
Qed.

Lemma import_commitment_doc p :
  p ∈ ps → import_commitment (commitment_doc p) = Ok (signer_commitment p).
Proof.
  intros [Hd He]%nonce_points. unfold import_commitment, commitment_doc.
  cbn [cf_Identifier cf_HidingCommitment cf_BindingCommitment].
  rewrite DecodeElement_hex by done. step. by rewrite DecodeElement_hex.
Qed.

Lemma import_share_doc p : import_share (share_doc p) = Ok (signer_share cs pk l msg p).
Proof. unfold import_share, share_doc. cbn [sf_Share]. by rewrite DecodeScalar_hex. Qed.

Lemma participant_package_does p D r :
  p ∈ ps → does (participant_package (signer_id p) (keys_doc cs t n (all_ids n))) D r
             (imported cs (signer_id p)) D r.
Proof.
  intros Hp. unfold participant_package. cbn [kf_KeyPackages keys_doc].
  eapply does_bind; [by apply does_pure, session_find_package |]. by apply does_pure.
Qed.

Lemma named_session what p :
  p ∈ ps → storage.Contains what "/" = false → (2 <? String.length what) = true →
  file_name (named what (signer_id p)).
Proof. intros Hp. pose proof (session_id p Hp). apply named_file_name. lia. Qed.

Lemma commit_does fl p D r r' :
  p ∈ ps → ct_id fl = signer_id p → ct_output fl = "" → ct_nonces fl = "" →
  participant.RoundOne (imported cs (signer_id p)) r
    = (Ok (round_one_nonces (signer_id p) (s_d p) (s_e p), signer_commitment p), r') →
  does (commit_body cwd fl (keys_doc cs t n (all_ids n))) D r () (put_all (commit_entries p) D) r'.
Proof.
  intros Hp Hid Hout Hn Hr. pose proof (session_id p Hp) as Hrange.
  destruct (json_commitment (commitment_doc p)) as (bc & m & Hbc & _);
    [by apply session_uint16 | apply utf8_hex.. |].
  destruct (json_nonces (nonces_doc p)) as (bn & Hbn & _);
    [by apply session_uint16 | apply utf8_hex.. |].
  unfold commit_body, commit_entries, put_all. rewrite Hid, Hout, Hn, Hbc, Hbn. cbn [foldl fst snd].
  eapply does_bind; [by apply participant_package_does |].
  eapply does_bind; [by apply does_or_exit, does_rand |].
  eapply does_bind; [apply (does_pure _ _ (commitment_doc p)) |].
  { unfold commitment_file. cbn. unfold safeUint32ToUint16.
    by rewrite (proj2 (Z.ltb_ge _ _)) by lia. }
  eapply does_bind; [by apply does_write_doc; [exact Hbc | apply (named_session "commitment")] |].
  eapply does_bind; [apply (does_pure _ _ (nonces_doc p)) |].
  { unfold nonces_file. cbn. unfold safeUintToUint16. by rewrite (proj2 (Z.ltb_ge _ _)) by lia. }
  by apply does_write_doc; [exact Hbn | apply (named_session "nonces")].
Qed.

(** *** The ceremony: sign-share *)

Lemma read_commitments_does qs name b D r :
  qs ⊆ ps → file_name name → D !! name = Some b →
  unmarshal_commitments b = Ok (commitment_doc <$> qs) →
  does (read_commitments cwd name) D r (signer_commitment <$> qs) D r.
Proof.
  intros Hsub Hn Hb Hu. unfold read_commitments. eapply does_bind; [by eapply does_read_doc |].
  apply does_pure. rewrite range_map_fmap. apply range_map_total. intros p Hp.
  by apply import_commitment_doc, Hsub.
Qed.

(** The command with a list of commitments that may be in any order. *)
Lemma sign_share_fails fl p qs b D r st :
  p ∈ ps → qs ⊆ ps → ¬ StronglySorted Z.lt (signer_id <$> qs) →
  ss_id fl = signer_id p → ss_nonces fl = "" → file_name (ss_commitments fl) →
  D !! named "nonces" (signer_id p) = Some (written (marshal_nonces (nonces_doc p))) →
  D !! ss_commitments fl = Some b → unmarshal_commitments b = Ok (commitment_doc <$> qs) →
  world cwd st D r →
  ∃ e st', sign_share_body cwd fl (keys_doc cs t n (all_ids n)) st = (Fail e, st').
Proof.
  intros Hp Hsub Hsort Hid Hn Hc HDn HDc Hb Hst. unfold sign_share_body. rewrite Hid, Hn.
  destruct (participant_package_does p D r Hp st Hst) as (st1 & H1 & Hst1).
  destruct (json_nonces (nonces_doc p)) as (bn & Hbn & Hun);
    [by apply session_uint16 | apply utf8_hex.. |]. rewrite Hbn in HDn.
  destruct (does_read_doc cwd "nonces" unmarshal_nonces _ _ _ D r
    (named_session "nonces" p Hp eq_refl eq_refl) HDn Hun st1 Hst1) as (st2 & H2 & Hst2).
  destruct (read_commitments_does qs _ b D r Hsub Hc HDc Hb st2 Hst2) as (st3 & H3 & Hst3).
  unfold mbind, cmd_mbind. rewrite H1.
  change (default_name "" "nonces" (signer_id p)) with (named "nonces" (signer_id p)). rewrite H2.
  unfold import_nonces. cbn [nf_HidingNonce nf_BindingNonce nonces_doc].
  rewrite DecodeScalar_hex. step. rewrite DecodeScalar_hex. step. unfold pure at 1. rewrite H3.
  unfold participant.RoundTwo.
  pose proof (ValidateCommitmentList_Ok (signer_commitment <$> qs)) as Hv.
  pose proof (ValidateCommitmentList_no_panic (signer_commitment <$> qs)) as Hnp.
  destruct (commitmentListEncoder.ValidateCommitmentList _) as [[]|e|]; [| | done].
  - destruct (proj1 Hv eq_refl) as [_ Hs]. by rewrite <-list_fmap_compose in Hs.
  - step. eauto.
Qed.

Lemma sign_share_does fl p b D r :
  p ∈ ps → ss_id fl = signer_id p → ss_nonces fl = "" → ss_output fl = "" →
  ss_message fl = message → file_name (ss_commitments fl) →
  D !! named "nonces" (signer_id p) = Some (written (marshal_nonces (nonces_doc p))) →
  D !! ss_commitments fl = Some b → unmarshal_commitments b = Ok (commitment_doc <$> ps) →
  does (sign_share_body cwd fl (keys_doc cs t n (all_ids n))) D r () (put_all (share_entries p) D) r.
Proof.
  intros Hp Hid Hn Ho Hm Hc HDn HDc Hb. pose proof (session_id p Hp) as Hrange.
  destruct (json_share (share_doc p)) as (bs & m & Hbs & _);
    [by apply session_uint16 | apply utf8_hex |].
  destruct (json_nonces (nonces_doc p)) as (bn & Hbn & Hun);
    [by apply session_uint16 | apply utf8_hex.. |].
  rewrite Hbn in HDn. unfold sign_share_body, share_entries, put_all.
  rewrite Hid, Hn, Ho, Hm, Hbs. cbn [foldl fst snd].
  eapply does_bind; [by apply participant_package_does |].
  eapply does_bind; [eapply does_read_doc; [by apply (named_session "nonces") | exact HDn | exact Hun] |].
  eapply does_bind; [apply does_pure; unfold import_nonces; cbn [nf_HidingNonce nf_BindingNonce nonces_doc];
    rewrite DecodeScalar_hex; step; rewrite DecodeScalar_hex; reflexivity |].
  eapply does_bind; [by eapply (read_commitments_does ps) |].
  eapply does_bind; [by apply does_or_exit, does_pure, session_answer |].
  eapply does_bind; [apply (does_pure _ _ (share_doc p)) |].
  { unfold share_file. cbn. unfold safeUint32ToUint16. by rewrite (proj2 (Z.ltb_ge _ _)) by lia. }
  by apply does_write_doc; [exact Hbs | apply (named_session "share")].
Qed.

(** *** The ceremony: aggregate *)

Lemma aggregate_does fl bc bs D r :
  ag_message fl = message → cli_utf8 message → file_name (ag_commitments fl) →
  file_name (ag_shares fl) → file_name (ag_output fl) →
  D !! ag_commitments fl = Some bc → unmarshal_commitments bc = Ok (commitment_doc <$> ps) →
  D !! ag_shares fl = Some bs → unmarshal_shares bs = Ok (share_doc <$> ps) →
  ∃ b, unmarshal_signature b = Ok (sig_doc message pk (assembled pk l msg shares)) ∧
    does (aggregate_body cwd fl (keys_doc cs t n (all_ids n))) D r () (<[ag_output fl := b]> D) r.
Proof.
  intros Hm Hu Hnc Hns Hno HDc Hbc HDs Hbs. destruct session_signature as [Hagg _].
  destruct (write_signature_does message pk (group_commitment pk l msg)
    (ssum (share_z <$> shares)) (ag_output fl) D r Hu Hno) as (b & Hb & Hdoes).
  exists b. split; [exact Hb |]. unfold aggregate_body. rewrite Hm.
  cbn [kf_GroupPublicKey kf_MinSigners keys_doc].
  eapply does_bind; [apply does_pure, DecodeElement_hex, (cs_pk H) |].
  eapply does_bind; [by eapply (read_commitments_does ps) |].
  eapply does_bind; [by eapply does_read_doc |].
  eapply does_bind; [apply (does_pure _ _ shares) |].
  { rewrite range_map_fmap. apply range_map_total. intros p _. apply import_share_doc. }
  eapply does_bind; [apply does_or_exit, does_pure, Hagg |]. exact Hdoes.
Qed.
(** The documents of all signers become one list, in the lexical order of
    the file names. *)
Lemma collect_session {D : Type} what none fl (doc : signer → D) (marshal : D → Res bytes)
    (unmarshal : bytes → Res (list D)) kind Ds qs r :
  qs ≡ₚ ps → lexical (signer_id <$> qs) →
  (∀ p, p ∈ ps → ∃ b m, marshal (doc p) = Ok b ∧ unmarshal_map b = Ok m) →
  (∀ ms, Forall2 (λ d m, ∃ b, marshal d = Ok b ∧ unmarshal_map b = Ok m) (doc <$> qs) ms →
         ∃ b, marshal_maps ms = Ok b ∧ unmarshal b = Ok (doc <$> qs)) →
  (∀ p, p ∈ ps → Ds !! named kind (signer_id p) = Some (written (marshal (doc p)))) →
  (∀ name, is_Some (Ds !! name) → Match (cl_pattern fl) name = true →
           ∃ p, p ∈ ps ∧ name = named kind (signer_id p)) →
  (∀ id, Match (cl_pattern fl) (named kind id) = true) →
  storage.Contains (cl_pattern fl) "*" = true → Split (cl_pattern fl) = ("", cl_pattern fl) →
  storage.Contains kind "/" = false → (2 <? String.length kind) = true →
  file_name (cl_output fl) →
  ∃ b, unmarshal b = Ok (doc <$> qs) ∧
       does (collect cwd what none fl) Ds r () (<[cl_output fl := b]> Ds) r.
Proof.
  intros Hperm Hlex Hdoc Hlist HDs Honly Hmatch Hstar Hsplit Hk1 Hk2 Ho.
  destruct (Forall2_choice
    (λ p m, p ∈ ps ∧ ∃ b, marshal (doc p) = Ok b ∧ unmarshal_map b = Ok m) qs) as [ms Hms].
  { intros p Hp. rewrite Hperm in Hp. destruct (Hdoc p Hp) as (b & m & Hb & Hm). eauto. }
  destruct (Hlist ms) as (b & Hb & Hub).
  { apply Forall2_fmap_l. by eapply Forall2_impl; [exact Hms |]; intros p m []. }
  exists b. split; [done |].
  assert (NoDup (signer_id <$> qs)) as Hnd
    by (rewrite Hperm; apply StronglySorted_lt_NoDup, (cs_sorted H)).
  apply (collect_does _ _ _ (named kind <$> (signer_id <$> qs)) ms); try done.
  - intros ->%fmap_nil_inv%fmap_nil_inv. symmetry in Hperm.
    by apply session_nonempty, Permutation_nil_r.
  - by apply named_sorted.
  - by apply named_NoDup.
  - intros name. split.
    + intros (id & -> & (p & -> & Hp)%list_elem_of_fmap)%list_elem_of_fmap.
      rewrite Hperm in Hp. split; [apply Hmatch |]. by rewrite (HDs p Hp).
    + intros [Hm Hs]. destruct (Honly name Hs Hm) as (p & Hp & ->).
      apply list_elem_of_fmap. eexists. split; [done |]. rewrite Hperm.
      apply list_elem_of_fmap. eauto.
  - rewrite <-list_fmap_compose. apply Forall2_fmap_l.
    eapply Forall2_impl; [exact Hms |].
    intros p m (Hp & b' & Hb' & Hm'). cbn. split; [by apply named_session |].
    exists b'. rewrite (HDs p Hp), Hb'. done.
Qed.
End Session.
End Documents.

Lemma parse_signers_two s l : parse_signers s = Some l → ∃ i j, l = [i; j].
Proof.
  unfold parse_signers. intros H.
  apply bind_Some in H as ([i s1] & _ & H). destruct s1 as [|[[] [] [] [] [] [] [] []] s1]; try done.
  apply bind_Some in H as ([j s2] & _ & H). injection H as <-. eauto.
Qed.

(** ** Scripts of commands *)

Section Scripts.
Context (cwd : path) {J : CliJson} {JL : CliJsonLaws J} (suites : suite_name → AnySuite)
  (name : string).

#[local] Instance chosen_group : Group := any_Group (suites (getCiphersuite name)).
#[local] Instance chosen_suite : Ciphersuite chosen_group := any_Suite (suites (getCiphersuite name)).

Context {L : GroupLaws chosen_group} {VL : VerifierLaw chosen_suite}.
Local Open Scope scalar_scope.
Local Open Scope element_scope.
Local Abbreviation does := (does cwd).

(** One process after the other, as long as they succeed. *)
Fixpoint script (cs : list command_line) : Cmd unit :=
  match cs with
  | [] => mret ()
  | c :: cs => _ ← main cwd suites c; script cs
  end.

Lemma script_app cs1 cs2 st st1 :
  script cs1 st = (Ok (), st1) → script (cs1 ++ cs2) st = script cs2 st1.
Proof.
  revert st. induction cs1 as [|c cs1 IH]; intros st H; [by injection H as -> |].
  cbn [app script] in *. unfold mbind, cmd_mbind in *.
  destruct (main cwd suites c st) as [[[]|e|] st']; [by apply IH | done | done].
Qed.

Lemma does_script_app cs1 cs2 D r D1 r1 D2 r2 :
  does (script cs1) D r () D1 r1 → does (script cs2) D1 r1 () D2 r2 →
  does (script (cs1 ++ cs2)) D r () D2 r2.
Proof.
  intros H1 H2 st Hst. destruct (H1 st Hst) as (st1 & Hs1 & Hst1).
  rewrite (script_app _ _ _ _ Hs1). by apply H2.
Qed.

Lemma script_fails c cs st e st' : main cwd suites c st = (Fail e, st') → script (c :: cs) st = (Fail e, st').
Proof. intros H. cbn [script]. unfold mbind, cmd_mbind. by rewrite H. Qed.

Lemma signShareCommand_body fl keysInput st st1 :
  ss_id fl ≠ 0%Z → ss_message fl ≠ "" → read_keys cwd (ss_keys fl) st = (Ok keysInput, st1) →
  signShareCommand cwd suites fl st
  = with_suite suites (ss_ciphersuite fl) (λ G CS, sign_share_body cwd fl keysInput) st1.
Proof.
  intros Hid Hm Hk. unfold signShareCommand, require_id, require_message, check, pure.
  rewrite (proj2 (Z.eqb_neq _ _)), bool_decide_eq_false_2 by done.
  unfold mbind, cmd_mbind. cbn [fail_if]. by rewrite Hk.
Qed.

Lemma does_script_one c D r D' r' :
  does (main cwd suites c) D r () D' r' → does (script [c]) D r () D' r'.
Proof. intros Hc. cbn [script]. eapply does_bind; [exact Hc | apply does_ret]. Qed.

Lemma does_script_cons c cs D r D1 r1 D2 r2 :
  does (main cwd suites c) D r () D1 r1 → does (script cs) D1 r1 () D2 r2 →
  does (script (c :: cs)) D r () D2 r2.
Proof. intros Hc Hcs. apply (does_script_app [c] cs D r D1 r1); [by apply does_script_one | done]. Qed.

(** The commands with the default file names and one ciphersuite. *)
Definition keygen_of (t n : Z) : command_line :=
  cmd_keygen {| kg_min := t; kg_max := n; kg_output := kg_output keygen_defaults;
                kg_ciphersuite := name |}.
Definition sign_of (signers message : string) : command_line :=
  cmd_sign {| sg_keys := sg_keys sign_defaults; sg_message := message; sg_signers := signers;
              sg_output := sg_output sign_defaults; sg_ciphersuite := name |}.
Definition commit_of (id : Z) : command_line :=
  cmd_commit {| ct_keys := ct_keys commit_defaults; ct_id := id;
                ct_output := ct_output commit_defaults; ct_nonces := ct_nonces commit_defaults;
                ct_ciphersuite := name |}.
Definition sign_share_of (message : string) (id : Z) : command_line :=
  cmd_sign_share {| ss_keys := ss_keys sign_share_defaults; ss_id := id;
                    ss_nonces := ss_nonces sign_share_defaults;
                    ss_commitments := ss_commitments sign_share_defaults; ss_message := message;
                    ss_output := ss_output sign_share_defaults; ss_ciphersuite := name |}.
Definition aggregate_of (message : string) : command_line :=
  cmd_aggregate {| ag_keys := ag_keys aggregate_defaults;
                   ag_commitments := ag_commitments aggregate_defaults;
                   ag_shares := ag_shares aggregate_defaults; ag_message := message;
                   ag_output := ag_output aggregate_defaults; ag_ciphersuite := name |}.
Definition verify_of : command_line :=
  cmd_verify {| vf_signature := vf_signature verify_defaults; vf_ciphersuite := name |}.

(** Key generation, and the two rounds of the signers of the README. *)
Definition ceremony_rest (rest : list command_line) (t n : Z) (ids : list Z) (message : string)
  : list command_line :=
  [keygen_of t n] ++ (commit_of <$> ids) ++
  [cmd_collect_commitments collect_commitments_defaults] ++ (sign_share_of message <$> ids) ++ rest.
Definition ceremony (t n : Z) (ids : list Z) (message : string) : list command_line :=
  ceremony_rest [cmd_collect_shares collect_shares_defaults; aggregate_of message; verify_of]
    t n ids message.

(** Up to the list of commitments. *)
Definition collecting (t n : Z) (ids : list Z) : list command_line :=
  [keygen_of t n] ++ (commit_of <$> ids) ++
  [cmd_collect_commitments collect_commitments_defaults].

Lemma ceremony_split t n ids message :
  ceremony t n ids message = collecting t n ids ++ (sign_share_of message <$> ids) ++
    [cmd_collect_shares collect_shares_defaults; aggregate_of message; verify_of].
Proof. unfold ceremony, ceremony_rest, collecting. by rewrite <-!app_assoc. Qed.

Lemma length_collecting t n ids : length (collecting t n ids) = (length ids + 2)%nat.
Proof. unfold collecting. rewrite !length_app, length_fmap. cbn. lia. Qed.

(** *** Each command *)

Lemma keygen_of_does t n s D r r1 kps pk r2 :
  (2 ≤ t ≤ n)%Z → (n ≤ 65535)%Z →
  RandomScalar r = (Ok s, r1) →
  dealer.GenerateShares (Some s) t n (all_ids n) r1 = (Ok (kps, pk), r2) →
  ∃ cs b, length cs = Z.to_nat t ∧ pk = g^(peval cs 0) ∧
    kps = dealt_package cs (commitments_of cs) t n <$> all_ids n ∧
    unmarshal_keys b = Ok (keys_doc cs t n (all_ids n)) ∧
    does (main cwd suites (keygen_of t n)) D r () (<["frost-keys.json" := b]> D) r2.
Proof.
  intros Ht Hn Hs Hg.
  destruct (keygen_does cwd {| kg_min := t; kg_max := n; kg_output := "frost-keys.json";
    kg_ciphersuite := name |} D r s r1 kps pk r2) as (cs & b & H1 & H2 & H3 & H4 & Hdoes);
    [done | done | done | done | done |].
  exists cs, b. split; [done |]. split; [done |]. split; [done |]. split; [done |].
  cbn [main keygen_of]. unfold keygenCommand. eapply does_bind; [| exact Hdoes].
  unfold keygen_flags_ok. cbn [kg_min kg_max].
  do 2 (eapply does_bind; [apply does_check, Z.ltb_ge; lia |]). apply does_check, Z.ltb_ge. lia.
Qed.

Section Signers.
Context (cs : list Scalar) (n : Z) (ps : list signer) (message : string) (bk : bytes).
Local Abbreviation pk := (g^(peval cs 0)).
Local Abbreviation msg := (string_bytes message).
Local Abbreviation t := (Z.of_nat (length cs)).
Local Abbreviation l := (signer_commitment <$> ps).
Local Abbreviation shares := (signer_share cs pk l msg <$> ps).

Context (H : cli_session cs n ps message)
  (Hbk : unmarshal_keys bk = Ok (keys_doc cs t n (all_ids n))).

Lemma commit_of_does p D r r' :
  p ∈ ps → D !! "frost-keys.json" = Some bk →
  participant.RoundOne (imported cs (signer_id p)) r
    = (Ok (round_one_nonces (signer_id p) (s_d p) (s_e p), signer_commitment p), r') →
  does (main cwd suites (commit_of (signer_id p))) D r () (put_all (commit_entries p) D) r'.
Proof.
  intros Hp HD Hr. pose proof (session_id cs n ps message H p Hp) as Hid.
  cbn [main commit_of]. unfold commitCommand.
  eapply does_bind; [apply does_check, Z.eqb_neq; cbn; lia |].
  eapply does_bind; [by eapply does_read_doc |].
  by apply (commit_does cwd cs n ps message H).
Qed.

Lemma commits_does qs D r r' :
  qs ⊆ ps → D !! "frost-keys.json" = Some bk →
  rand_map participant.RoundOne (imported cs <$> (signer_id <$> qs)) r
    = (Ok (session_rounds qs), r') →
  does (script (commit_of <$> (signer_id <$> qs))) D r ()
    (put_all (concat (commit_entries <$> qs)) D) r'.
Proof.
  revert D r. induction qs as [|p qs IH]; intros D r Hsub HD Hr.
  - cbn in Hr. injection Hr as <-. apply does_ret.
  - cbn [fmap list_fmap rand_map session_rounds] in Hr.
    apply rand_bind_Ok in Hr as (y & r1 & Hy & Hr). apply rand_bind_Ok in Hr as (ys & r2 & Hys & Hr).
    apply rand_ret_Ok in Hr as [He ->]. injection He as Hy1 Hys1. subst y ys.
    cbn [fmap list_fmap concat]. rewrite put_all_app. apply does_script_cons with (put_all (commit_entries p) D) r1.
    + apply commit_of_does; [apply Hsub; by left | done | exact Hy].
    + apply IH; [intros q Hq; apply Hsub; by right | | exact Hys].
      rewrite put_all_out; [done |]. cbn.
      intros [|[|?%not_elem_of_nil]%elem_of_cons]%elem_of_cons; done.
Qed.

Lemma sign_share_of_does p b D r :
  p ∈ ps → message ≠ "" → D !! "frost-keys.json" = Some bk →
  D !! named "nonces" (signer_id p) = Some (written (marshal_nonces (nonces_doc p))) →
  D !! "commitments.json" = Some b → unmarshal_commitments b = Ok (commitment_doc <$> ps) →
  does (main cwd suites (sign_share_of message (signer_id p))) D r ()
    (put_all (share_entries cs ps message p) D) r.
Proof.
  intros Hp Hm HD HDn HDc Hb. pose proof (session_id cs n ps message H p Hp) as Hid.
  cbn [main sign_share_of]. unfold signShareCommand.
  eapply does_bind; [apply does_check, Z.eqb_neq; cbn; lia |].
  eapply does_bind; [by apply does_check, bool_decide_eq_false_2 |].
  eapply does_bind; [by eapply does_read_doc |].
  by eapply (sign_share_does cwd cs n ps message H).
Qed.

Lemma sign_shares_does qs b D r :
  qs ⊆ ps → message ≠ "" → D !! "frost-keys.json" = Some bk →
  (∀ p, p ∈ ps → D !! named "nonces" (signer_id p) = Some (written (marshal_nonces (nonces_doc p)))) →
  D !! "commitments.json" = Some b → unmarshal_commitments b = Ok (commitment_doc <$> ps) →
  does (script (sign_share_of message <$> (signer_id <$> qs))) D r ()
    (put_all (concat (share_entries cs ps message <$> qs)) D) r.
Proof.
  intros Hsub Hm HD HDn HDc Hb. revert D HD HDn HDc.
  induction qs as [|p qs IH]; intros D HD HDn HDc; [apply does_ret |].
  cbn [fmap list_fmap concat]. rewrite put_all_app.
  assert (∀ name', (∀ id, name' ≠ named "share" id) →
    put_all (share_entries cs ps message p) D !! name' = D !! name') as Hout.
  { intros name' Hn. apply put_all_out. cbn.
    intros Hin%list_elem_of_singleton. by apply (Hn (signer_id p)). }
  eapply does_script_cons.
  - eapply sign_share_of_does; [apply Hsub; by left | done | done | apply HDn, Hsub; by left | done | done].
  - apply IH.
    + intros q Hq. apply Hsub. by right.
    + by rewrite Hout.
    + intros q Hq. rewrite Hout by done. by apply HDn.
    + by rewrite Hout.
Qed.

(** The names the rounds leave behind. *)
Lemma commit_names qs name' :
  name' ∈ (concat (commit_entries <$> qs)).*1 ↔
  ∃ p, p ∈ qs ∧ (name' = named "commitment" (signer_id p) ∨ name' = named "nonces" (signer_id p)).
Proof.
  induction qs as [|q qs IH]; cbn [fmap list_fmap concat].
  - split; [by intros ?%not_elem_of_nil | by intros (p & ?%not_elem_of_nil & _)].
  - rewrite fmap_app, elem_of_app, IH. cbn. rewrite !elem_of_cons. setoid_rewrite elem_of_cons.
    split.
    + intros [[->|[->|?%not_elem_of_nil]]|(p & Hp & Hn)]; [| | done |]; eauto.
    + intros (p & [->|Hp] & Hn); [left; naive_solver | right; eauto].
Qed.

Lemma commit_names_NoDup qs : NoDup (signer_id <$> qs) → NoDup (concat (commit_entries <$> qs)).*1.
Proof.
  induction qs as [|q qs IH]; [constructor |]. cbn [fmap list_fmap concat].
  intros [Hq Hnd]%NoDup_cons. rewrite fmap_app. apply NoDup_app. split; [| split; [| by apply IH]].
  - cbn. apply NoDup_cons. split; [by intros ?%list_elem_of_singleton | apply NoDup_singleton].
  - intros name' Hin (p & Hp & Hn)%commit_names. apply Hq. apply list_elem_of_fmap. exists p.
    split; [| done]. cbn in Hin. apply elem_of_cons in Hin as [->|Hin].
    + by destruct Hn as [Hn%named_inj|Hn].
    + apply list_elem_of_singleton in Hin as ->. by destruct Hn as [Hn|Hn%named_inj].
Qed.

Lemma share_names qs :
  (concat (share_entries cs ps message <$> qs)).*1 = named "share" <$> (signer_id <$> qs).
Proof.
  induction qs as [|q qs IH]; [done |]. cbn [fmap list_fmap concat]. rewrite fmap_app.
  cbn [share_entries fmap list_fmap fst app]. by f_equal.
Qed.

Lemma session_NoDup : NoDup (signer_id <$> ps).
Proof. apply StronglySorted_lt_NoDup, (cs_sorted cs n ps message H). Qed.

Lemma entries_in {B} (e : signer → list B) qs p x : p ∈ qs → x ∈ e p → x ∈ concat (e <$> qs).
Proof.
  intros Hp Hx. induction qs as [|q qs IH]; [by apply not_elem_of_nil in Hp |].
  cbn [fmap list_fmap concat]. apply elem_of_app.
  apply elem_of_cons in Hp as [<-|Hp]; [by left | right; by apply IH].
Qed.

(** Nothing in the working directory looks like a file of an earlier ceremony. *)
Definition fresh_dir (D : dir) : Prop :=
  ∀ name', is_Some (D !! name') →
    Match "commitment-*.json" name' = false ∧ Match "share-*.json" name' = false.

(** The first half: commitments, and the list of them. *)
Lemma round_one_does qs D r r' :
  fresh_dir D → qs ≡ₚ ps → lexical (signer_id <$> qs) → D !! "frost-keys.json" = Some bk →
  rand_map participant.RoundOne (imported cs <$> (signer_id <$> ps)) r
    = (Ok (session_rounds ps), r') →
  ∃ D' b, does (script ((commit_of <$> (signer_id <$> ps)) ++
                        [cmd_collect_commitments collect_commitments_defaults])) D r () D' r' ∧
    (∀ name', Match "share-*.json" name' = true → D' !! name' = None) ∧
    D' !! "frost-keys.json" = Some bk ∧
    (∀ p, p ∈ ps → D' !! named "nonces" (signer_id p) = Some (written (marshal_nonces (nonces_doc p)))) ∧
    D' !! "commitments.json" = Some b ∧ unmarshal_commitments b = Ok (commitment_doc <$> qs).
Proof.
  intros Hfresh Hperm Hlex Hkeys Hr. set (D1 := put_all (concat (commit_entries <$> ps)) D).
  assert (∀ p e, p ∈ ps → e ∈ commit_entries p → D1 !! e.1 = Some e.2) as Hin.
  { intros p [name' b] Hp He. apply put_all_in; [apply commit_names_NoDup, session_NoDup |].
    by eapply entries_in. }
  assert (∀ name', (∀ id, name' ≠ named "commitment" id) → (∀ id, name' ≠ named "nonces" id) →
    D1 !! name' = D !! name') as Hout.
  { intros name' H1 H2. apply put_all_out. intros (p & _ & [Hn|Hn])%commit_names; naive_solver. }
  destruct (collect_session cwd cs n ps message H "commitments"
    "No commitment files found matching pattern" collect_commitments_defaults commitment_doc
    marshal_commitment unmarshal_commitments "commitment" D1 qs r') as (b & Hb & Hdoes); try done.
  - intros p Hp. apply json_commitment; [by apply (session_uint16 cs n ps message H) | apply utf8_hex..].
  - intros ms Hms. apply json_commitments; [done |]. apply Forall_fmap, Forall_forall. intros p Hp.
    rewrite Hperm in Hp.
    cbn. split; [by apply (session_uint16 cs n ps message H) | split; apply utf8_hex].
  - intros p Hp. apply (Hin p (_, _) Hp). by left.
  - intros name' [Hn|Hn]%put_all_dom Hm.
    + apply commit_names in Hn as (p & Hp & [->| ->]); [eauto | discriminate].
    + apply Hfresh in Hn as [Hn _]. cbn [cl_pattern collect_commitments_defaults] in Hm. congruence.
  - apply Match_commitment.
  - exists (<["commitments.json" := b]> D1), b. split; [| split_and!].
    + eapply does_script_app; [by apply commits_does | by apply does_script_one].
    + intros name' Hm. rewrite lookup_insert_ne by (by intros <-).
      rewrite Hout by (by intros id ->).
      destruct (D !! name') as [d|] eqn:Hd; [| done].
      destruct (Hfresh name') as [_ Hf]; [by rewrite Hd | congruence].
    + rewrite lookup_insert_ne, Hout by done. done.
    + intros p Hp. rewrite lookup_insert_ne by done. apply (Hin p (_, _) Hp). right. by left.
    + apply lookup_insert_eq.
    + done.
Qed.

(** Commitments in another order are refused by the first signer. *)
Lemma round_two_fails qs D b r st :
  qs ≡ₚ ps → ¬ StronglySorted Z.lt (signer_id <$> qs) → message ≠ "" →
  D !! "frost-keys.json" = Some bk →
  (∀ p, p ∈ ps → D !! named "nonces" (signer_id p) = Some (written (marshal_nonces (nonces_doc p)))) →
  D !! "commitments.json" = Some b → unmarshal_commitments b = Ok (commitment_doc <$> qs) →
  world cwd st D r →
  ∃ id e st', head (signer_id <$> ps) = Some id ∧
    main cwd suites (sign_share_of message id) st = (Fail e, st').
Proof.
  intros Hperm Hsort Hm Hkeys Hnonces Hc Hb Hst.
  destruct ps as [|p ps'] eqn:Hps; [by destruct (session_nonempty cs n [] message H) |].
  rewrite <-Hps in *.
  assert (p ∈ ps) as Hp by (rewrite Hps; by left).
  pose proof (session_id cs n ps message H p Hp) as Hid.
  destruct (does_read_doc cwd "keys" unmarshal_keys "frost-keys.json" bk
    (keys_doc cs t n (all_ids n)) D r) with st
    as (st1 & H1 & Hst1); [done | done | exact Hbk | done |].
  destruct (sign_share_fails cwd cs n ps message H {| ss_keys := "frost-keys.json";
    ss_id := signer_id p; ss_nonces := ""; ss_commitments := "commitments.json";
    ss_message := message; ss_output := ""; ss_ciphersuite := name |} p qs b D r st1)
    as (e & st2 & H2); try done; [| by apply Hnonces |].
  { intros q Hq. by rewrite <-Hperm. }
  exists (signer_id p), e, st2. split; [by rewrite Hps |]. cbn [main sign_share_of].
  erewrite signShareCommand_body; [exact H2 | | done | exact H1]. cbn. lia.
Qed.

(** The second half: shares, the list of them, the signature and its check. *)
Lemma round_two_does D b r :
  lexical (signer_id <$> ps) → message ≠ "" → cli_utf8 message →
  (∀ name', Match "share-*.json" name' = true → D !! name' = None) →
  D !! "frost-keys.json" = Some bk →
  (∀ p, p ∈ ps → D !! named "nonces" (signer_id p) = Some (written (marshal_nonces (nonces_doc p)))) →
  D !! "commitments.json" = Some b → unmarshal_commitments b = Ok (commitment_doc <$> ps) →
  ∃ D', does (script ((sign_share_of message <$> (signer_id <$> ps)) ++
    [cmd_collect_shares collect_shares_defaults; aggregate_of message; verify_of])) D r () D' r.
Proof.
  intros Hlex Hm Hu Hfresh Hkeys Hnonces Hc Hb.
  set (D1 := put_all (concat (share_entries cs ps message <$> ps)) D).
  assert (NoDup (concat (share_entries cs ps message <$> ps)).*1) as Hnd
    by (rewrite share_names; apply named_NoDup, session_NoDup).
  assert (∀ name', (∀ id, name' ≠ named "share" id) → D1 !! name' = D !! name') as Hout.
  { intros name' Hn. apply put_all_out. rewrite share_names.
    intros (id & -> & _)%list_elem_of_fmap. by apply (Hn id). }
  destruct (collect_session cwd cs n ps message H "shares"
    "No share files found matching pattern" collect_shares_defaults (share_doc cs ps message)
    marshal_share unmarshal_shares "share" D1 ps r) as (bs & Hbs & Hdoes); try done.
  - intros p Hp. apply json_share; [by apply (session_uint16 cs n ps message H) | apply utf8_hex].
  - intros ms Hms. apply json_shares; [done |]. apply Forall_fmap, Forall_forall. intros p Hp.
    cbn. split; [by apply (session_uint16 cs n ps message H) | apply utf8_hex].
  - intros p Hp. apply put_all_in; [done |]. eapply entries_in; [done | by left].
  - intros name' [Hn|[d Hn]]%put_all_dom Hmatch.
    + rewrite share_names in Hn. apply list_elem_of_fmap in Hn as (id & -> & Hid).
      apply list_elem_of_fmap in Hid as (p & -> & Hp). eauto.
    + by rewrite Hfresh in Hn.
  - apply Match_share.
  - set (D2 := <["shares.json" := bs]> D1).
    destruct (aggregate_does cwd cs n ps message H {| ag_keys := "frost-keys.json";
      ag_commitments := "commitments.json"; ag_shares := "shares.json"; ag_message := message;
      ag_output := "frost-signature.json"; ag_ciphersuite := name |} b bs D2 r)
      as (sg & Hsg & Hagg); try done.
    { unfold D2. rewrite lookup_insert_ne, Hout by done. done. }
    { apply lookup_insert_eq. }
    exists (<["frost-signature.json" := sg]> D2).
    eapply does_script_app; [by eapply sign_shares_does |].
    eapply does_script_cons; [exact Hdoes |]. eapply does_script_cons; [| apply does_script_one].
    + cbn [main aggregate_of]. unfold aggregateCommand.
      eapply does_bind; [by apply does_check, bool_decide_eq_false_2 |].
      eapply does_bind; [eapply does_read_doc; [done | | exact Hbk] | exact Hagg].
      unfold D2. rewrite lookup_insert_ne, Hout by done. done.
    + cbn [main verify_of]. unfold verifyCommand.
      eapply does_bind; [eapply does_read_doc; [done | apply lookup_insert_eq | exact Hsg] |].
      apply (verify_does cwd message pk (assembled pk l msg shares)); [apply H | |].
      * intros [= He]. by apply (cs_R cs n ps message H).
      * apply (session_signature cs n ps message H).
Qed.

End Signers.
(** *** From key generation on *)

Lemma round_one_imported cs vs t n ids r :
  rand_map participant.RoundOne (dealt_package cs vs t n <$> ids) r
  = rand_map participant.RoundOne (imported cs <$> ids) r.
Proof.
  revert r. induction ids as [|id ids IH]; intros r; [done |]. cbn [fmap list_fmap rand_map].
  change (participant.RoundOne (dealt_package cs vs t n id)) with
    (participant.RoundOne (imported cs id)).
  unfold mbind, rand_mbind. destruct (participant.RoundOne (imported cs id) r) as [[y|e|] r1]; [| done..].
  by rewrite IH.
Qed.

(** A quorum of dealt packages is the session of its members. *)
Lemma quorum_session cs vs t n quorum rounds r r' message :
  Z.of_nat (length cs) = t → (2 ≤ t)%Z → (n ≤ 65535)%Z →
  quorum ⊆ dealt_package cs vs t n <$> all_ids n →
  StronglySorted Z.lt (kp_Identifier <$> quorum) → (t ≤ Z.of_nat (length quorum))%Z →
  rand_map participant.RoundOne quorum r = (Ok rounds, r') →
  let pk := g^(peval cs 0) in
  pk ≠ Identity → group_commitment pk rounds.*2 (string_bytes message) ≠ Identity →
  session_chal pk rounds.*2 (string_bytes message) ≠ 0 →
  ∃ ps, cli_session cs n ps message ∧ signer_id <$> ps = kp_Identifier <$> quorum ∧
    rand_map participant.RoundOne (imported cs <$> (signer_id <$> ps)) r
      = (Ok (session_rounds ps), r').
Proof.
  intros Ht Ht2 Hn Hsub Hsort Hlen Hr pk Hpk HR Hc. set (ids := kp_Identifier <$> quorum) in *.
  assert (quorum = dealt_package cs vs t n <$> ids ∧ ids ⊆ all_ids n) as [Hq Hids].
  { clear -Hsub. subst ids. induction quorum as [|kp quorum IH]; [by split; [| intros ? ?%not_elem_of_nil] |].
    destruct IH as [Heq Hin]; [intros x Hx; apply Hsub; by right |].
    destruct (proj1 (list_elem_of_fmap _ _ _) (Hsub kp (list_elem_of_here _ _))) as (id & -> & Hid).
    cbn [fmap list_fmap kp_Identifier dealt_package]. split; [by f_equal |].
    intros x [->|Hx]%elem_of_cons; [done | by apply Hin]. }
  rewrite Hq, round_one_imported in Hr. pose proof Hr as Hr'.
  apply RoundOne_signers in Hr' as (ps & Hps & Hnz & Hrd).
  assert (rounds = session_rounds ps) as -> by exact Hrd. clear Hrd.
  assert (signer_id <$> ps = ids) as Hpid.
  { transitivity (kp_Identifier <$> (s_kp <$> ps)); [by rewrite <-list_fmap_compose |].
    rewrite Hps, <-list_fmap_compose. apply list_fmap_id. }
  exists ps. rewrite Hpid. split; [| done]. rewrite session_rounds_2 in HR, Hc.
  split; rewrite ?Hpid; try done. split; [lia |].
  rewrite Ht, <-(length_fmap signer_id ps), Hpid. unfold ids. by rewrite length_fmap.
Qed.

(** Every list of signers can be put into the order of their file names; when
    that order is not the one of the list, it is not ascending. *)
Lemma lexical_order (ps : list signer) :
  ∃ qs, qs ≡ₚ ps ∧ lexical (signer_id <$> qs).
Proof.
  set (key := λ p, pretty (signer_id p) +:+ ".json").
  set (R := λ p q, String.le (key p) (key q)).
  assert (RelDecision R) by (intros p q; unfold R; apply _).
  exists (merge_sort R ps). split; [apply merge_sort_Permutation |].
  unfold lexical. rewrite <-list_fmap_compose. apply (StronglySorted_fmap _ R); [done |].
  apply StronglySorted_merge_sort.
  - intros p q o Hpq Hqo. unfold R in *. by transitivity (key q).
  - intros p q. unfold R. apply (total String.le).
Qed.

Lemma ascending_unique (ids ids' : list Z) :
  StronglySorted Z.lt ids → StronglySorted Z.lt ids' → ids ≡ₚ ids' → ids = ids'.
Proof. apply StronglySorted_unique_strong. intros. lia. Qed.

(** The ceremony of the command line, for every threshold: on a disk that
    works and with no files of an earlier ceremony, [keygen], [commit] by each
    signer of a quorum, [collect-commitments], [sign-share] by each,
    [collect-shares], [aggregate] and [verify], all with their default file
    names, succeed one after the other, when the lexical order of the signers'
    file names is the order of their numbers.  When it is not, everything up to
    [collect-commitments] succeeds and the [sign-share] of the first signer
    refuses the collected commitments. *)
Theorem ceremony_signs st D r t n s r1 kps pk r2 quorum rounds r3 message :
  let ids := kp_Identifier <$> quorum in
  world cwd st D r → fresh_dir D →
  (2 ≤ t ≤ n)%Z → (n ≤ 65535)%Z → message ≠ "" → cli_utf8 message →
  RandomScalar r = (Ok s, r1) →
  dealer.GenerateShares (Some s) t n (all_ids n) r1 = (Ok (kps, pk), r2) →
  quorum ⊆ kps → StronglySorted Z.lt ids → (t ≤ Z.of_nat (length quorum))%Z →
  rand_map participant.RoundOne quorum r2 = (Ok rounds, r3) →
  pk ≠ Identity → group_commitment pk rounds.*2 (string_bytes message) ≠ Identity →
  session_chal pk rounds.*2 (string_bytes message) ≠ 0 →
  (lexical ids → ∃ st', script (ceremony t n ids message) st = (Ok (), st')) ∧
  (¬ lexical ids → ∃ id st1 e st', head ids = Some id ∧
     script (collecting t n ids) st = (Ok (), st1) ∧
     main cwd suites (sign_share_of message id) st1 = (Fail e, st')).
Proof.
  intros ids Hst Hfresh Ht Hn Hm Hu Hs Hg Hsub Hsort Hlen Hr Hpk HR Hc.
  destruct (keygen_of_does t n s D r r1 kps pk r2) as (cs & bk & Hcs & -> & -> & Hbk & Hkeygen);
    [done.. |].
  assert (Z.of_nat (length cs) = t) as Hct by lia.
  destruct (quorum_session cs (commitments_of cs) t n quorum rounds r2 r3 message)
    as (ps & H & Hids & Hrounds); [done || lia.. |].
  rewrite <-Hct in Hbk. unfold ids in *. rewrite <-Hids in Hsort |- *.
  assert (fresh_dir (<["frost-keys.json" := bk]> D)) as Hfresh'.
  { intros name' Hn'. destruct (decide (name' = "frost-keys.json")) as [->|Hne]; [done |].
    rewrite lookup_insert_ne in Hn' by done. by apply Hfresh. }
  rewrite ceremony_split. split.
  - intros Hlex. destruct (round_one_does cs n ps message bk H Hbk ps _ r2 r3 Hfresh')
      as (D1 & b & H1 & Hsh & Hk & Hno & Hc1 & Hb); [done | done | apply lookup_insert_eq | done |].
    destruct (round_two_does cs n ps message bk H Hbk D1 b r3) as (D2 & H2); [done.. |].
    destruct (does_script_app _ _ _ _ _ _ _ _ (does_script_app _ _ _ _ _ _ _ _
      (does_script_one _ _ _ _ _ Hkeygen) H1) H2 st Hst) as (st' & Hrun & _). eauto.
  - intros Hlex. destruct (lexical_order ps) as (qs & Hperm & Hqs).
    destruct (round_one_does cs n ps message bk H Hbk qs _ r2 r3 Hfresh')
      as (D1 & b & H1 & _ & Hk & Hno & Hc1 & Hb); [done | done | apply lookup_insert_eq | done |].
    destruct (does_script_app _ _ _ _ _ _ _ _ (does_script_one _ _ _ _ _ Hkeygen) H1 st Hst)
      as (st1 & Hrun & Hst1).
    destruct (round_two_fails cs n ps message bk H Hbk qs D1 b r3 st1)
      as (id & e & st2 & Hid & Hfail); try done; [| by exists id, st1, e, st2].
    intros Hasc. apply Hlex. by rewrite <-(ascending_unique _ _ Hasc Hsort) by by rewrite Hperm.
Qed.

(** For a threshold of two the one-shot [sign] works: [keygen],
    [sign] for two signers in ascending order and [verify] succeed one after the
    other on a disk that works. *)
Theorem one_shot_signs st D r n s r1 kps pk r2 quorum rounds r3 signers message :
  world cwd st D r → (2 ≤ n ≤ 65535)%Z → message ≠ "" → cli_utf8 message →
  RandomScalar r = (Ok s, r1) →
  dealer.GenerateShares (Some s) 2 n (all_ids n) r1 = (Ok (kps, pk), r2) →
  quorum ⊆ kps → StronglySorted Z.lt (kp_Identifier <$> quorum) →
  parse_signers signers = Some (kp_Identifier <$> quorum) →
  rand_map participant.RoundOne quorum r2 = (Ok rounds, r3) →
  pk ≠ Identity → group_commitment pk rounds.*2 (string_bytes message) ≠ Identity →
  session_chal pk rounds.*2 (string_bytes message) ≠ 0 →
  ∃ st', script [keygen_of 2 n; sign_of signers message; verify_of] st = (Ok (), st').
Proof.
  intros Hst Hn Hm Hu Hs Hg Hsub Hsort Hsigners Hr Hpk HR Hc.
  destruct (keygen_of_does 2 n s D r r1 kps pk r2) as (cs & bk & Hcs & -> & -> & Hbk & Hkeygen);
    [done || lia.. |].
  assert (Z.of_nat (length cs) = 2%Z) as Hct by lia.
  destruct (parse_signers_two _ _ Hsigners) as (i & j & Hij).
  assert (length quorum = 2) as Hlen by (by rewrite <-(length_fmap kp_Identifier), Hij).
  destruct (quorum_session cs (commitments_of cs) 2 n quorum rounds r2 r3 message)
    as (ps & H & Hids & Hrounds); [done || lia.. |].
  rewrite <-Hct in Hbk. rewrite <-Hids in Hsigners.
  destruct (sign_does cwd cs n ps message H {| sg_keys := "frost-keys.json"; sg_message := message;
    sg_signers := signers; sg_output := "frost-signature.json"; sg_ciphersuite := name |}
    (<["frost-keys.json" := bk]> D) r2 r3) as (b & Hb & Hsign); [done.. |].
  assert (∃ D', does (script [keygen_of 2 n; sign_of signers message; verify_of]) D r () D' r3)
    as [D' Hscript]; [eexists | by destruct (Hscript st Hst) as (st' & Hrun & _); eauto].
  eapply does_script_cons; [exact Hkeygen |]. eapply does_script_cons; [| apply does_script_one].
  - cbn [main sign_of]. unfold signCommand.
    eapply does_bind; [by apply does_check, bool_decide_eq_false_2 |].
    eapply does_bind; [eapply does_read_doc; [done | apply lookup_insert_eq | exact Hbk] |].
    eapply does_bind; [| exact Hsign].
    unfold sign_signers. cbn [sg_signers]. rewrite Hsigners. apply does_ret.
  - cbn [main verify_of]. unfold verifyCommand.
    eapply does_bind; [eapply does_read_doc; [done | apply lookup_insert_eq | exact Hb] |].
    eapply (verify_does cwd message); [done | |].
    + intros [= He]. by apply (cs_R cs n ps message H).
    + apply (session_signature cs n ps message H).
Qed.

End Scripts.

(** ** The one-shot command *)

Section OneShot.
Context (cwd : path) {J : CliJson} (suites : suite_name → AnySuite).

Lemma cmd_bind_Ok {A B} (m : Cmd A) (k : A → Cmd B) st b st' :
  (m ≫= k) st = (Ok b, st') ↔ ∃ a st1, m st = (Ok a, st1) ∧ k a st1 = (Ok b, st').
Proof.
  unfold mbind, cmd_mbind. destruct (m st) as [[a|e|] st1]; [naive_solver | |];
    (split; [done | by intros (?&?&[=]&_)]).
Qed.

Lemma or_exit_Ok {A} msg (m : Cmd A) st a st' :
  or_exit msg m st = (Ok a, st') ↔ m st = (Ok a, st').
Proof. unfold or_exit. destruct (m st) as [[x|e|] st1]; naive_solver. Qed.

Lemma pure_Ok {A} (x : Res A) st a st' : pure x st = (Ok a, st') ↔ x = Ok a ∧ st' = st.
Proof. unfold pure. naive_solver. Qed.

Lemma rand_Ok {A} (m : Rand A) st a st' :
  rand m st = (Ok a, st') → m (st_rng st) = (Ok a, st_rng st').
Proof. unfold rand. destruct (m (st_rng st)) as [x r]. by intros [= -> <-]. Qed.

Lemma find_package_id {G : Group} id pkgs kp :
  find_package id pkgs = Ok (Some kp) → id = Ok (kp_Identifier kp).
Proof.
  induction pkgs as [|pkg pkgs IH]; cbn [find_package]; [done |].
  destruct id as [i|e|]; [| done..]. step. destruct (Z.eqb_spec (kx_Identifier pkg) i) as [<-|_]; [| done].
  intros H. ok_inv. unfold import_package in *. ok_inv. by simplify_eq.
Qed.

Lemma find_package_none {G : Group} id pkgs :
  id ∉ kx_Identifier <$> pkgs → find_package (Ok id) pkgs = Ok None.
Proof.
  induction pkgs as [|pkg pkgs IH]; [done |]. rewrite fmap_cons.
  intros [Hne Hin]%not_elem_of_cons. cbn [find_package]. step.
  rewrite (proj2 (Z.eqb_neq _ _)) by congruence. by apply IH.
Qed.

Lemma read_doc_Ok {A} what (unmarshal : bytes → Res A) name x st st' :
  read_doc cwd what unmarshal name st = (Ok x, st') →
  ∃ data, (os.ReadFile (path_of cwd name) (st_fs st)).1 = Ok data ∧ unmarshal data = Ok x.
Proof.
  unfold read_doc. intros H. apply cmd_bind_Ok in H as (data & st1 & Hr%or_exit_Ok & H).
  apply or_exit_Ok, pure_Ok in H as [Hx _]. exists data. split; [| done].
  unfold ReadFile, file in Hr. destruct (os.ReadFile _ _) as [y fs]. by injection Hr as ->.
Qed.

Lemma signer_package {G : Group} id keysInput kp :
  (o ← find_package (safeIntToUint16 id) (kf_KeyPackages keysInput);
   found "Error: signer not found in key packages" o) = Ok kp →
  kp_Identifier kp = id ∧ (0 ≤ id ≤ 65535)%Z.
Proof.
  intros H. ok_inv. destruct r as [kp'|]; [| done]. cbn [found] in H. ok_inv. subst kp'.
  match goal with H : find_package _ _ = _ |- _ => apply find_package_id in H as Hid end.
  unfold safeIntToUint16 in Hid. destruct (_ || _) eqn:Hb; [done |]. injection Hid as <-.
  apply orb_false_iff in Hb as [H1 H2]. apply Z.ltb_ge in H1, H2. lia.
Qed.

(** RoundTwo only accepts strictly ascending commitments; the aggregator wants
    as many shares as the threshold. *)
Lemma sign_body_two {G : Group} {CS : Ciphersuite G} fl keysInput i j st st' :
  sign_body cwd fl keysInput [i; j] st = (Ok (), st') →
  (0 ≤ i < j)%Z ∧ (j ≤ 65535)%Z ∧ (kf_MinSigners keysInput ≤ 2)%Z.
Proof.
  unfold sign_body. intros H.
  apply cmd_bind_Ok in H as (pk & st1 & [_ ->]%pure_Ok & H).
  apply cmd_bind_Ok in H as (kps & st2 & [Hkps ->]%pure_Ok & H).
  apply cmd_bind_Ok in H as (rounds & st3 & Hr%or_exit_Ok%rand_Ok & H).
  apply cmd_bind_Ok in H as (shares & st4 & Hs%or_exit_Ok & H). apply pure_Ok in Hs as [Hs ->].
  apply cmd_bind_Ok in H as (sig & st5 & Hagg%or_exit_Ok & _). apply pure_Ok in Hagg as [Hagg _].
  apply range_map_Ok in Hkps.
  apply Forall2_cons_inv_l in Hkps as (kp1 & kps' & [Hk1 H1]%signer_package & Hkps & ->).
  apply Forall2_cons_inv_l in Hkps as (kp2 & kps'' & [Hk2 H2]%signer_package & Hkps & ->).
  apply Forall2_nil_inv_l in Hkps as ->.
  assert (Forall2 (λ kp y, cm_Identifier y.2 = kp_Identifier kp) [kp1; kp2] rounds) as Hids.
  { eapply (rand_map_Forall2 _ participant.RoundOne); [| exact Hr].
    intros kp r y r' _ Hone. unfold participant.RoundOne in Hone. rand_inv. done. }
  apply Forall2_cons_inv_l in Hids as (y1 & ys & Hy1 & Hids & ->).
  apply Forall2_cons_inv_l in Hids as (y2 & ys' & Hy2 & Hids & ->).
  apply Forall2_nil_inv_l in Hids as ->. cbn [fmap list_fmap zip zip_with] in *.
  apply range_map_Ok in Hs as Hs'. apply Forall2_length in Hs'. cbn in Hs'.
  apply range_map_Ok in Hs.
  apply Forall2_cons_inv_l in Hs as (sh & shs & Hs & _ & _).
  unfold participant.RoundTwo in Hs. apply bind_Ok in Hs as ([] & Hv & _).
  apply ValidateCommitmentList_Ok in Hv as [_ Hv]. cbn [fmap list_fmap] in Hv.
  rewrite Hy1, Hy2, Hk1, Hk2 in Hv. apply StronglySorted_inv in Hv as [_ Hv].
  apply Forall_cons in Hv as [Hlt _]. split; [lia |]. split; [lia |].
  unfold aggregator.Aggregate in Hagg. ok_inv.
  rename select ((_ <? kf_MinSigners keysInput)%Z = _) into Hge. apply Z.ltb_ge in Hge. lia.
Qed.

(** [sign] signs for exactly two signers in ascending order: whatever the
    list after [--signers] says, when the command succeeds it has read two
    identifiers of 16 bits, the first smaller than the second, and the
    threshold of the keys file is at most two.  So the packages of [keygen]
    with a higher threshold never sign this way. *)
Theorem sign_takes_two fl st st' :
  signCommand cwd suites fl st = (Ok (), st') →
  ∃ i j data keysInput,
    parse_signers (sg_signers fl) = Some [i; j] ∧ (0 ≤ i < j)%Z ∧ (j ≤ 65535)%Z ∧
    (os.ReadFile (path_of cwd (sg_keys fl)) (st_fs st)).1 = Ok data ∧
    unmarshal_keys data = Ok keysInput ∧ (kf_MinSigners keysInput ≤ 2)%Z.
Proof.
  unfold signCommand. intros H.
  apply cmd_bind_Ok in H as ([] & st1 & Hm & H). apply pure_Ok in Hm as [_ ->].
  apply cmd_bind_Ok in H as (keysInput & st2 & (data & Hd & Hk)%read_doc_Ok & H).
  apply cmd_bind_Ok in H as (ids & st3 & Hids & H).
  unfold sign_signers in Hids. destruct (parse_signers (sg_signers fl)) as [l|] eqn:Hp; [| done].
  injection Hids as <- <-. destruct (parse_signers_two _ _ Hp) as (i & j & ->).
  apply sign_body_two in H as (H1 & H2 & H3). exists i, j, data, keysInput. done.
Qed.

(** The refusals of [commit]: no identifier, one that the keys file does not
    have, and, instead of an error, a panic for one above 65535.  Nothing is
    written. *)
Theorem commit_refuses fl st D r b keysInput :
  world cwd st D r →
  file_name (ct_keys fl) → D !! ct_keys fl = Some b → unmarshal_keys b = Ok keysInput →
  kf_KeyPackages keysInput ≠ [] →
  (ct_id fl = 0%Z → ∃ e, commitCommand cwd suites fl st = (Fail e, st)) ∧
  ((0 < ct_id fl ≤ 65535)%Z → ct_id fl ∉ kx_Identifier <$> kf_KeyPackages keysInput →
     ∃ e st', commitCommand cwd suites fl st = (Fail e, st') ∧ world cwd st' D r) ∧
  ((65535 < ct_id fl)%Z →
     ∃ st', commitCommand cwd suites fl st = (Panic, st') ∧ world cwd st' D r).
Proof.
  intros Hst Hn HD Hb Hne.
  destruct (does_read_doc cwd "keys" unmarshal_keys _ b keysInput D r Hn HD Hb st Hst)
    as (st1 & H1 & Hst1).
  assert (ct_id fl ≠ 0%Z → commitCommand cwd suites fl st =
    with_suite suites (ct_ciphersuite fl) (λ G CS, commit_body cwd fl keysInput) st1) as Hbody.
  { intros Hid. unfold commitCommand, require_id, check, pure. rewrite (proj2 (Z.eqb_neq _ _)) by done.
    unfold mbind, cmd_mbind. cbn [fail_if]. unfold read_keys. by rewrite H1. }
  split; [| split].
  - intros Hid. unfold commitCommand, require_id, check, pure. rewrite Hid. cbn. eauto.
  - intros Hid Hin. eexists _, st1. split; [| done]. rewrite Hbody by lia.
    unfold with_suite, commit_body, participant_package, safeUintToUint16.
    rewrite (proj2 (Z.ltb_ge _ _)) by lia. rewrite find_package_none by done. reflexivity.
  - intros Hid. exists st1. split; [| done]. rewrite Hbody by lia.
    unfold with_suite, commit_body, participant_package, safeUintToUint16.
    rewrite (proj2 (Z.ltb_lt _ _)) by lia.
    destruct (kf_KeyPackages keysInput) as [|pkg pkgs]; [done |]. reflexivity.
Qed.

End OneShot.
