(* ===== verification/Flags.v ===== *)
(** * Flags of a command: what [cmd/frost/main.go] uses of packages flag and strconv

    [ParseUint] in base zero, a set of flags of strings and unsigned integers,
    [FlagSet.Parse] with the errors on which it exits, and the text of
    [PrintDefaults].  The theorems relate parsing to the ways of writing a
    flag. *)

From Stdlib Require Import Ascii.
From stdpp Require Import pretty sorting.
From S2P Require Export Prelude.

Module flag.

(** ** strconv.ParseUint(s, 0, 64) *)

Definition code (c : ascii) : Z := Z.of_nat (nat_of_ascii c).

(** [c | ('x' - 'X')] *)
Definition lower (c : ascii) : Z := Z.lor (code c) 32.

Definition is_code (c : ascii) (n : Z) : bool := (code c =? n)%Z.

(** The value of a digit in some base up to 36. *)
Definition digit_value (c : ascii) : option Z :=
  if (48 <=? code c)%Z && (code c <=? 57)%Z then Some (code c - 48)%Z
  else if (97 <=? lower c)%Z && (lower c <=? 122)%Z then Some (lower c - 97 + 10)%Z
  else None.

(** The scanner of [underscoreOK]: what the character before was. *)
Inductive seen := seen_start | seen_digit | seen_underscore | seen_other.

Fixpoint underscores_ok (hex : bool) (i : seen) (s : string) : bool :=
  match s with
  | EmptyString => match i with seen_underscore => false | _ => true end
  | String c s =>
      if ((48 <=? code c)%Z && (code c <=? 57)%Z)
         || (hex && (97 <=? lower c)%Z && (lower c <=? 102)%Z)
      then underscores_ok hex seen_digit s
      else if is_code c 95 then
        match i with seen_digit => underscores_ok hex seen_underscore s | _ => false end
      else match i with seen_underscore => false | _ => underscores_ok hex seen_other s end
  end.

Definition underscoreOK (s : string) : bool :=
  let s := match s with
           | String "-" s' | String "+" s' => s'
           | _ => s
           end in
  match s with
  | String "0" (String c s') =>
      if (lower c =? 98)%Z || (lower c =? 111)%Z || (lower c =? 120)%Z
      then underscores_ok (lower c =? 120)%Z seen_digit s'
      else underscores_ok false seen_start s
  | _ => underscores_ok false seen_start s
  end.

(** The base that the prefix gives, and the digits. *)
Definition base_prefix (s : string) : Z * string :=
  match s with
  | String "0" s' =>
      match s' with
      | String c (String _ _ as s'') =>
          if (lower c =? 98)%Z then (2%Z, s'')
          else if (lower c =? 111)%Z then (8%Z, s'')
          else if (lower c =? 120)%Z then (16%Z, s'')
          else (8%Z, s')
      | _ => (8%Z, s')
      end
  | _ => (10%Z, s)
  end.

(** The digits' value and whether an underscore was among them; [None] for a
    syntax error or a value of more than 64 bits. *)
Fixpoint scan_digits (base : Z) (n : Z) (underscores : bool) (s : string) : option (Z * bool) :=
  match s with
  | EmptyString => Some (n, underscores)
  | String c s =>
      if is_code c 95 then scan_digits base n true s
      else
        d ← digit_value c;
        if (base <=? d)%Z then None
        else
          let n := (n * base + d)%Z in
          if (2 ^ 64 <=? n)%Z then None else scan_digits base n underscores s
  end.

Definition ParseUint (s0 : string) : option Z :=
  match s0 with
  | EmptyString => None
  | _ =>
      let '(base, s) := base_prefix s0 in
      '(n, underscores) ← scan_digits base 0 false s;
      if underscores && negb (underscoreOK s0) then None else Some n
  end.

(** ** Flag sets *)

Inductive Value := UintValue (v : Z) | StringValue (s : string).

Record Flag := { fl_Name : string; fl_Usage : string; fl_DefValue : Value }.

(** The values of the flags that were set. *)
Abbreviation Values := (gmap string Value).

Inductive flag_error :=
| BadSyntax (s : string)
| NotDefined (name : string)
| NeedsArgument (name : string)
| InvalidValue (value name : string).

Inductive Parsed :=
| Continue (vs : Values)
| ErrHelp
| Failed (e : flag_error).

Definition Lookup (name : string) (formal : list Flag) : option Flag :=
  list_find (λ f, fl_Name f = name) formal ≫= λ '(_, f), Some f.

(** [flag.Value.Set] *)
Definition Set_ (f : Flag) (value : string) : option Value :=
  match fl_DefValue f with
  | UintValue _ => UintValue <$> ParseUint value
  | StringValue _ => Some (StringValue value)
  end.

(** What an argument is: not a flag, the end of the flags, or a name with
    perhaps a value after the first ['='] that is not the first character. *)
Inductive arg := NonFlag | Terminator | Bad | Named (name : string) (value : option string).

Fixpoint split_equals (name : string) : string * option string :=
  match name with
  | EmptyString => (EmptyString, None)
  | String c s =>
      if is_code c 61 then (EmptyString, Some s)
      else let '(n, v) := split_equals s in (String c n, v)
  end.

Definition flag_name (name : string) : arg :=
  match name with
  | EmptyString => Bad
  | String c s =>
      if is_code c 45 || is_code c 61 then Bad
      else let '(n, v) := split_equals s in Named (String c n) v
  end.

Definition classify (s : string) : arg :=
  match s with
  | String "-" EmptyString => NonFlag
  | String "-" (String "-" EmptyString) => Terminator
  | String "-" (String "-" name) => flag_name name
  | String "-" name => flag_name name
  | _ => NonFlag
  end.

(** [FlagSet.Parse]: a loop of [parseOne]. *)
Fixpoint Parse (formal : list Flag) (vs : Values) (args : list string) : Parsed :=
  match args with
  | [] => Continue vs
  | s :: args =>
      match classify s with
      | NonFlag | Terminator => Continue vs
      | Bad => Failed (BadSyntax s)
      | Named name value =>
          match Lookup name formal with
          | None =>
              if bool_decide (name = "help") || bool_decide (name = "h") then ErrHelp
              else Failed (NotDefined name)
          | Some f =>
              let set v args :=
                match Set_ f v with
                | Some x => Parse formal (<[name := x]> vs) args
                | None => Failed (InvalidValue v name)
                end in
              match value, args with
              | Some v, _ => set v args
              | None, v :: args => set v args
              | None, [] => Failed (NeedsArgument name)
              end
          end
      end
  end.

(** ** The text of [PrintDefaults] *)

Definition newline : string := String (ascii_of_nat 10) EmptyString.
Definition tab : string := String (ascii_of_nat 9) EmptyString.
Definition quote : string := String (ascii_of_nat 34) EmptyString.

(** A flag of the set: its name and kind, its usage, and its default value
    unless that is zero.  The usages and the string defaults are plain text
    without quotes, backquotes and newlines. *)
Definition default_text (f : Flag) : string :=
  "  -" +:+ fl_Name f +:+
  (match fl_DefValue f with UintValue _ => " uint" | StringValue _ => " string" end) +:+
  newline +:+ "    " +:+ tab +:+ fl_Usage f +:+
  (match fl_DefValue f with
   | UintValue v => if (v =? 0)%Z then "" else " (default " +:+ pretty v +:+ ")"
   | StringValue s =>
       if bool_decide (s = "") then "" else " (default " +:+ quote +:+ s +:+ quote +:+ ")"
   end).

Definition name_le (f g : Flag) : Prop := String.le (fl_Name f) (fl_Name g).
#[export] Instance name_le_dec : RelDecision name_le.
Proof. intros f g. unfold name_le. apply _. Defined.

Definition PrintDefaults (formal : list Flag) : list string :=
  default_text <$> merge_sort name_le formal.
End flag.

(** ** Numbers *)

Section Numbers.
Import flag.

Lemma scan_digits_range base s n u m u' :
  (0 ≤ n < 2 ^ 64)%Z → (0 < base)%Z →
  scan_digits base n u s = Some (m, u') → (0 ≤ m < 2 ^ 64)%Z.
Proof.
  intros Hn Hb. revert n u Hn. induction s as [|c s IH]; intros n u Hn; cbn [scan_digits];
    [by intros [= <- _] |].
  destruct (is_code c 95); [by apply IH |]. intros (d & Hd & H)%bind_Some.
  assert (0 ≤ d)%Z.
  { unfold digit_value in Hd. repeat case_match; simplify_eq; rewrite ?andb_true_iff, ?Z.leb_le in *; lia. }
  destruct (base <=? d)%Z; [done |]. destruct (Z.leb_spec (2 ^ 64) (n * base + d)); [done |].
  apply IH in H; [done | nia].
Qed.

Lemma ParseUint_range s v : ParseUint s = Some v → (0 ≤ v < 2 ^ 64)%Z.
Proof.
  unfold ParseUint. destruct s as [|c s]; [done |].
  destruct (base_prefix (String c s)) as [base rest] eqn:Hb.
  intros ([n u] & Hs & H)%bind_Some. destruct (u && _); [done |]. injection H as <-.
  eapply scan_digits_range; [| | exact Hs]; [lia |].
  unfold base_prefix in Hb. repeat case_match; injection Hb as <- _; lia.
Qed.

(** Scanning the decimal digits of a number. *)
Lemma digit_value_char x : (x < 10)%N → digit_value (pretty_N_char x) = Some (Z.of_N x)
                                        ∧ is_code (pretty_N_char x) 95 = false.
Proof.
  intros Hx. assert (x ∈ N.of_nat <$> seq 0 10) as Hin.
  { apply list_elem_of_fmap. exists (N.to_nat x). rewrite elem_of_seq. lia. }
  assert (Forall (λ x, digit_value (pretty_N_char x) = Some (Z.of_N x)
                       ∧ is_code (pretty_N_char x) 95 = false) (N.of_nat <$> seq 0 10)) as Hall
    by (repeat constructor).
  by apply (proj1 (Forall_forall _ _) Hall).
Qed.

Lemma scan_pretty x s :
  (Z.of_N x < 2 ^ 64)%Z →
  scan_digits 10 0 false (pretty_N_go x s) = scan_digits 10 (Z.of_N x) false s.
Proof.
  revert s. induction (N.lt_wf_0 x) as [x _ IH]. intros s Hx.
  destruct (decide (x = 0)%N) as [->|Hx0]; [by rewrite pretty_N_go_0 |].
  pose proof (N.mod_lt x 10 ltac:(lia)) as Hm. pose proof (N.div_mod x 10 ltac:(lia)) as Hd.
  assert (x / 10 < x)%N by (apply N.div_lt; lia).
  rewrite pretty_N_go_step, IH by lia. cbn [scan_digits].
  destruct (digit_value_char (x mod 10)%N Hm) as [-> ->]. cbn [mbind option_bind].
  rewrite (proj2 (Z.leb_gt _ _)) by lia.
  replace (Z.of_N (x / 10) * 10 + Z.of_N (x mod 10))%Z with (Z.of_N x) by lia.
  by rewrite (proj2 (Z.leb_gt _ _)) by lia.
Qed.

Lemma pretty_head x s : (0 < x)%N → ∃ c r, pretty_N_go x s = String c r ∧ c ≠ "0"%char.
Proof.
  revert s. induction (N.lt_wf_0 x) as [x _ IH]. intros s Hx.
  pose proof (N.mod_lt x 10 ltac:(lia)). pose proof (N.div_mod x 10 ltac:(lia)).
  rewrite pretty_N_go_step by lia. destruct (decide (x / 10 = 0)%N) as [Hq|Hq].
  - rewrite Hq, pretty_N_go_0. eexists _, _. split; [done |].
    assert (x mod 10 ≠ 0)%N as Hr by lia. unfold pretty_N_char. repeat case_match; try done; lia.
  - apply IH; [apply N.div_lt; lia | lia].
Qed.

(** A decimal number is read back. *)
Lemma ParseUint_pretty (n : Z) : (0 ≤ n < 2 ^ 64)%Z → ParseUint (pretty n) = Some n.
Proof.
  intros Hn. destruct n as [|n|n]; [done | | lia].
  change (pretty (Z.pos n)) with (pretty (N.pos n)). unfold pretty, pretty_N.
  rewrite decide_False by done. destruct (pretty_head (N.pos n) "" ltac:(lia)) as (c & r & He & Hc).
  assert (base_prefix (pretty_N_go (N.pos n) "") = (10%Z, pretty_N_go (N.pos n) "")) as Hb.
  { rewrite He. clear -Hc. by destruct c as [[] [] [] [] [] [] [] []]. }
  unfold ParseUint. rewrite Hb, scan_pretty by (cbn; lia). by rewrite He.
Qed.
End Numbers.

(** ** Ways of writing a flag *)

Section Writing.
Import flag.

(** One or two dashes; the value in the same argument or in the next one. *)
Record style := { two_dashes : bool; same_argument : bool }.

Definition write (st : style) (name value : string) : list string :=
  let dashes := if two_dashes st then "--" else "-" in
  if same_argument st then [dashes +:+ name +:+ "=" +:+ value] else [dashes +:+ name; value].

Fixpoint no_equals (name : string) : bool :=
  match name with EmptyString => true | String c s => negb (is_code c 61) && no_equals s end.

Definition flag_word (name : string) : bool :=
  match name with
  | EmptyString => false
  | String c _ => negb (is_code c 45) && no_equals name
  end.

Lemma split_equals_none name : no_equals name = true → split_equals name = (name, None).
Proof.
  induction name as [|c name IH]; [done |]. cbn [no_equals split_equals String.append]. intros [Hc Hn]%andb_true_iff.
  apply negb_true_iff in Hc. by rewrite Hc, IH.
Qed.

Lemma split_equals_some name v :
  no_equals name = true → split_equals (name +:+ "=" +:+ v) = (name, Some v).
Proof.
  induction name as [|c name IH]; [done |]. intros [Hc Hn]%andb_true_iff.
  change (split_equals (String c (name +:+ "=" +:+ v)) = (String c name, Some v)).
  cbn [split_equals]. apply negb_true_iff in Hc. by rewrite Hc, IH.
Qed.

Lemma append_empty_r s : s +:+ "" = s.
Proof. induction s as [|c s IH]; [done |]. change (String c (s +:+ "") = String c s). by rewrite IH. Qed.

Lemma flag_name_word name (value : option string) :
  flag_word name = true →
  flag_name (name +:+ match value with Some v => "=" +:+ v | None => "" end) = Named name value.
Proof.
  destruct name as [|c name]; [done |]. cbn [flag_word no_equals].
  intros [Hc [He Hn]%andb_true_iff]%andb_true_iff. apply negb_true_iff in Hc, He.
  change (String c name +:+ ?s) with (String c (name +:+ s)).
  cbn [flag_name]. rewrite Hc, He. cbn [orb]. destruct value as [v|].
  - by rewrite split_equals_some.
  - by rewrite append_empty_r, split_equals_none.
Qed.

Lemma classify_dashes (two : bool) name :
  flag_name name ≠ Bad → classify ((if two then "--" else "-") +:+ name) = flag_name name.
Proof.
  intros Hb. destruct name as [|c name]; [done |].
  assert (c ≠ "-"%char) as Hc by (by intros ->). clear Hb.
  destruct two; [done |]. by destruct c as [[] [] [] [] [] [] [] []].
Qed.

(** A flag that is written in any of the ways sets its value, whatever its
    value looks like. *)
Lemma Parse_write st formal vs name f v x rest :
  flag_word name = true → Lookup name formal = Some f → Set_ f v = Some x →
  Parse formal vs (write st name v ++ rest) = Parse formal (<[name := x]> vs) rest.
Proof.
  intros Hw Hf Hx. unfold write.
  assert (∀ value, classify ((if two_dashes st then "--" else "-") +:+ name +:+
            match value with Some v => "=" +:+ v | None => "" end) = Named name value) as Hc.
  { intros value. by rewrite classify_dashes; rewrite flag_name_word. }
  destruct (same_argument st); cbn [app Parse].
  - rewrite (Hc (Some v)). by rewrite Hf, Hx.
  - specialize (Hc None). rewrite append_empty_r in Hc. by rewrite Hc, Hf, Hx.
Qed.

(** An argument that is no flag ends the flags: what follows is ignored. *)
Lemma Parse_stops formal vs a rest :
  classify a = NonFlag → Parse formal vs (a :: rest) = Continue vs.
Proof. intros Ha. cbn [Parse]. by rewrite Ha. Qed.
End Writing.
