(* ===== verification/CliMain.v ===== *)
(** * The process of the command line: [main] of [cmd/frost/main.go]

    From the arguments to the exit status: the choice of the command, its flags
    ([Flags.v]), the usage texts, and the command itself ([Cli.v]) between
    [secmem.Init] and the deferred [secmem.Purge].  The messages that commands
    print are not represented. *)

From stdpp Require Import pretty.
From S2P Require Export Flags.
From S2P Require Export Ceremony.

Module frost.
Import flag cli.

Section Main.
Context (Version : string) (cwd : path) {J : CliJson} (suites : suite_name → AnySuite).

(** ** Flags of the commands *)

Definition uint_flag (name : string) (value : Z) (usage : string) : Flag :=
  {| fl_Name := name; fl_Usage := usage; fl_DefValue := UintValue value |}.
Definition string_flag (name value usage : string) : Flag :=
  {| fl_Name := name; fl_Usage := usage; fl_DefValue := StringValue value |}.

(** The value of a flag after parsing. *)
Definition get (formal : list Flag) (vs : Values) (name : string) : option Value :=
  match vs !! name with
  | Some v => Some v
  | None => fl_DefValue <$> Lookup name formal
  end.
Definition get_uint (formal : list Flag) (vs : Values) (name : string) : Z :=
  match get formal vs name with Some (UintValue v) => v | _ => 0 end.
Definition get_string (formal : list Flag) (vs : Values) (name : string) : string :=
  match get formal vs name with Some (StringValue s) => s | _ => "" end.

Definition ciphersuite_flag : Flag := string_flag "ciphersuite" "ristretto255" "Ciphersuite to use".

Definition keygen_set : list Flag :=
  [uint_flag "min" 2 "Minimum number of signers (threshold)";
   uint_flag "max" 3 "Maximum number of signers (total participants)";
   string_flag "output" "frost-keys.json" "Output file for key packages";
   ciphersuite_flag].
Definition keygen_values (vs : Values) : KeygenFlags :=
  {| kg_min := get_uint keygen_set vs "min"; kg_max := get_uint keygen_set vs "max";
     kg_output := get_string keygen_set vs "output";
     kg_ciphersuite := get_string keygen_set vs "ciphersuite" |}.

Definition sign_set : list Flag :=
  [string_flag "keys" "frost-keys.json" "Input file containing key packages";
   string_flag "message" "" "Message to sign";
   string_flag "signers" "1,2" "Comma-separated list of signer identifiers (e.g., 1,2)";
   string_flag "output" "frost-signature.json" "Output file for signature";
   ciphersuite_flag].
Definition sign_values (vs : Values) : SignFlags :=
  {| sg_keys := get_string sign_set vs "keys"; sg_message := get_string sign_set vs "message";
     sg_signers := get_string sign_set vs "signers"; sg_output := get_string sign_set vs "output";
     sg_ciphersuite := get_string sign_set vs "ciphersuite" |}.

Definition commit_set : list Flag :=
  [string_flag "keys" "frost-keys.json" "Input file containing key packages";
   uint_flag "id" 0 "Participant identifier";
   string_flag "output" "" "Output file for commitment (default: commitment-{id}.json)";
   string_flag "nonces" "" "Output file for private nonces (default: nonces-{id}.json)";
   ciphersuite_flag].
Definition commit_values (vs : Values) : CommitFlags :=
  {| ct_keys := get_string commit_set vs "keys"; ct_id := get_uint commit_set vs "id";
     ct_output := get_string commit_set vs "output"; ct_nonces := get_string commit_set vs "nonces";
     ct_ciphersuite := get_string commit_set vs "ciphersuite" |}.

Definition sign_share_set : list Flag :=
  [string_flag "keys" "frost-keys.json" "Input file containing key packages";
   uint_flag "id" 0 "Participant identifier";
   string_flag "nonces" "" "Input file containing private nonces (default: nonces-{id}.json)";
   string_flag "commitments" "commitments.json" "Input file containing all commitments";
   string_flag "message" "" "Message to sign";
   string_flag "output" "" "Output file for signature share (default: share-{id}.json)";
   ciphersuite_flag].
Definition sign_share_values (vs : Values) : SignShareFlags :=
  {| ss_keys := get_string sign_share_set vs "keys"; ss_id := get_uint sign_share_set vs "id";
     ss_nonces := get_string sign_share_set vs "nonces";
     ss_commitments := get_string sign_share_set vs "commitments";
     ss_message := get_string sign_share_set vs "message";
     ss_output := get_string sign_share_set vs "output";
     ss_ciphersuite := get_string sign_share_set vs "ciphersuite" |}.

Definition aggregate_set : list Flag :=
  [string_flag "keys" "frost-keys.json" "Input file containing key packages";
   string_flag "commitments" "commitments.json" "Input file containing all commitments";
   string_flag "shares" "shares.json" "Input file containing all signature shares";
   string_flag "message" "" "Message that was signed";
   string_flag "output" "frost-signature.json" "Output file for final signature";
   ciphersuite_flag].
Definition aggregate_values (vs : Values) : AggregateFlags :=
  {| ag_keys := get_string aggregate_set vs "keys";
     ag_commitments := get_string aggregate_set vs "commitments";
     ag_shares := get_string aggregate_set vs "shares";
     ag_message := get_string aggregate_set vs "message";
     ag_output := get_string aggregate_set vs "output";
     ag_ciphersuite := get_string aggregate_set vs "ciphersuite" |}.

Definition verify_set : list Flag :=
  [string_flag "signature" "frost-signature.json" "Input file containing signature";
   ciphersuite_flag].
Definition verify_values (vs : Values) : VerifyFlags :=
  {| vf_signature := get_string verify_set vs "signature";
     vf_ciphersuite := get_string verify_set vs "ciphersuite" |}.

Definition collect_commitments_set : list Flag :=
  [string_flag "output" "commitments.json" "Output file for combined commitments";
   string_flag "pattern" "commitment-*.json" "File pattern to match"].
Definition collect_shares_set : list Flag :=
  [string_flag "output" "shares.json" "Output file for combined shares";
   string_flag "pattern" "share-*.json" "File pattern to match"].
Definition collect_values (formal : list Flag) (vs : Values) : CollectFlags :=
  {| cl_output := get_string formal vs "output"; cl_pattern := get_string formal vs "pattern" |}.

(** ** Texts *)

Inductive output :=
| Stdout (line : string)
| Stderr (line : string)
| FlagMessage (e : flag_error).

Definition getSupportedCiphersuites : string :=
  "  ristretto255 - FROST(ristretto255, SHA-512) [default, recommended]" +:+ newline +:+
  "  ed25519      - FROST(Ed25519, SHA-512)" +:+ newline +:+
  "  p256         - FROST(P-256, SHA-256) [NIST]" +:+ newline +:+
  "  secp256k1    - FROST(secp256k1, SHA-256) [Bitcoin curve]" +:+ newline +:+
  "  ed448        - FROST(Ed448, SHAKE256) [highest security]".

Definition printVersion : list output := [Stdout Version].

Definition printUsage : list output :=
  [Stdout "FROST Threshold Signature Scheme";
   Stdout "RFC 9591 Implementation";
   Stdout "";
   Stdout "Usage: frost <command> [options]";
   Stdout "";
   Stdout "Commands:";
   Stdout "  keygen       Generate key shares for participants";
   Stdout "  sign         Create a threshold signature (local testing)";
   Stdout "";
   Stdout "Distributed Signing:";
   Stdout "  commit               Round 1: Generate nonce and commitment";
   Stdout "  collect-commitments  Coordinator: Collect all commitments into one file";
   Stdout "  sign-share           Round 2: Create signature share";
   Stdout "  collect-shares       Coordinator: Collect all shares into one file";
   Stdout "  aggregate            Aggregate signature shares into final signature";
   Stdout "";
   Stdout "Verification:";
   Stdout "  verify       Verify a threshold signature";
   Stdout "";
   Stdout "Other:";
   Stdout "  version      Show version information";
   Stdout "  help         Show this help message";
   Stdout "";
   Stdout "Run 'frost <command> --help' for more information on a command."].

Definition keygen_usage : list output :=
  [Stdout "Usage: frost keygen [options]";
   Stdout "";
   Stdout "Generate FROST key shares for threshold signing";
   Stdout "";
   Stdout "Options:"] ++
  (Stderr <$> PrintDefaults keygen_set) ++
  [Stdout "";
   Stdout "Supported Ciphersuites:";
   Stdout getSupportedCiphersuites;
   Stdout "";
   Stdout "Example:";
   Stdout "  frost keygen --min 2 --max 3 --ciphersuite ristretto255 --output keys.json";
   Stdout "  frost keygen --min 2 --max 3 --ciphersuite ed25519 --output keys.json"].

Definition sign_usage : list output :=
  [Stdout "Usage: frost sign [options]";
   Stdout "";
   Stdout "Create a threshold signature";
   Stdout "";
   Stdout "Options:"] ++
  (Stderr <$> PrintDefaults sign_set) ++
  [Stdout "";
   Stdout "Supported Ciphersuites:";
   Stdout getSupportedCiphersuites;
   Stdout "";
   Stdout "Example:";
   Stdout "  frost sign --keys keys.json --message 'Hello World' --signers 1,2 --output sig.json";
   Stdout "  frost sign --keys keys.json --message 'Hello World' --ciphersuite ed25519 --signers 1,2"].

Definition commit_usage : list output :=
  [Stdout "Usage: frost commit [options]";
   Stdout "";
   Stdout "Round 1: Generate nonce and commitment for distributed signing";
   Stdout "";
   Stdout "Options:"] ++
  (Stderr <$> PrintDefaults commit_set) ++
  [Stdout "";
   Stdout "Supported Ciphersuites:";
   Stdout getSupportedCiphersuites;
   Stdout "";
   Stdout "Example:";
   Stdout "  frost commit --keys keys.json --id 1";
   Stdout "  frost commit --keys keys.json --id 1 --ciphersuite ed25519"].

Definition sign_share_usage : list output :=
  [Stdout "Usage: frost sign-share [options]";
   Stdout "";
   Stdout "Round 2: Create signature share for distributed signing";
   Stdout "";
   Stdout "Options:"] ++
  (Stderr <$> PrintDefaults sign_share_set) ++
  [Stdout "";
   Stdout "Supported Ciphersuites:";
   Stdout getSupportedCiphersuites;
   Stdout "";
   Stdout "Example:";
   Stdout "  frost sign-share --keys keys.json --id 1 --commitments commitments.json --message 'Hello World'";
   Stdout "  frost sign-share --keys keys.json --id 1 --ciphersuite ed25519 --commitments commitments.json --message 'Hello World'"].

Definition aggregate_usage : list output :=
  [Stdout "Usage: frost aggregate [options]";
   Stdout "";
   Stdout "Aggregate signature shares into final signature";
   Stdout "";
   Stdout "Options:"] ++
  (Stderr <$> PrintDefaults aggregate_set) ++
  [Stdout "";
   Stdout "Supported Ciphersuites:";
   Stdout getSupportedCiphersuites;
   Stdout "";
   Stdout "Example:";
   Stdout "  frost aggregate --keys keys.json --commitments commitments.json --shares shares.json --message 'Hello World'";
   Stdout "  frost aggregate --keys keys.json --ciphersuite ed25519 --commitments commitments.json --shares shares.json --message 'Hello World'"].

Definition verify_usage : list output :=
  [Stdout "Usage: frost verify [options]";
   Stdout "";
   Stdout "Verify a threshold signature";
   Stdout "";
   Stdout "Options:"] ++
  (Stderr <$> PrintDefaults verify_set) ++
  [Stdout "";
   Stdout "Supported Ciphersuites:";
   Stdout getSupportedCiphersuites;
   Stdout "";
   Stdout "Example:";
   Stdout "  frost verify --signature sig.json";
   Stdout "  frost verify --signature sig.json --ciphersuite ed25519"].

Definition collect_commitments_usage : list output :=
  [Stdout "Usage: frost collect-commitments [options]";
   Stdout "";
   Stdout "Collect all commitment files into a single JSON array";
   Stdout "";
   Stdout "Options:"] ++
  (Stderr <$> PrintDefaults collect_commitments_set) ++
  [Stdout "";
   Stdout "Example:";
   Stdout "  frost collect-commitments --output commitments.json"].

Definition collect_shares_usage : list output :=
  [Stdout "Usage: frost collect-shares [options]";
   Stdout "";
   Stdout "Collect all signature share files into a single JSON array";
   Stdout "";
   Stdout "Options:"] ++
  (Stderr <$> PrintDefaults collect_shares_set) ++
  [Stdout "";
   Stdout "Example:";
   Stdout "  frost collect-shares --output shares.json"].

(** ** The process *)

(** What the arguments ask for: a command, after some text, or an exit. *)
Inductive request :=
| Run (printed : list output) (c : command_line)
| Exits (status : Z) (printed : list output).

(** [fs.Parse(os.Args[2:])] of a set that exits on errors: [parse] never returns
    an error to its caller. *)
Definition parse {A} (formal : list Flag) (usage : list output) (values : Values → A)
    (command : A → command_line) (args : list string) : request :=
  match Parse formal ∅ args with
  | Continue vs => Run [] (command (values vs))
  | ErrHelp => Exits 0 usage
  | Failed e => Exits 2 (FlagMessage e :: usage)
  end.

Definition read_arguments (argv : list string) : request :=
  match argv with
  | _ :: command :: args =>
      if bool_decide (command ∈ ["version"; "--version"; "-v"]) then Run printVersion cmd_info
      else if bool_decide (command ∈ ["help"; "--help"; "-h"]) then Run printUsage cmd_info
      else if bool_decide (command = "keygen")
      then parse keygen_set keygen_usage keygen_values cmd_keygen args
      else if bool_decide (command = "sign")
      then parse sign_set sign_usage sign_values cmd_sign args
      else if bool_decide (command = "commit")
      then parse commit_set commit_usage commit_values cmd_commit args
      else if bool_decide (command = "collect-commitments")
      then parse collect_commitments_set collect_commitments_usage
             (collect_values collect_commitments_set) cmd_collect_commitments args
      else if bool_decide (command = "sign-share")
      then parse sign_share_set sign_share_usage sign_share_values cmd_sign_share args
      else if bool_decide (command = "collect-shares")
      then parse collect_shares_set collect_shares_usage
             (collect_values collect_shares_set) cmd_collect_shares args
      else if bool_decide (command = "aggregate")
      then parse aggregate_set aggregate_usage aggregate_values cmd_aggregate args
      else if bool_decide (command = "verify")
      then parse verify_set verify_usage verify_values cmd_verify args
      else Run (Stderr ("Unknown command: " +:+ command +:+ newline) :: printUsage) cmd_unknown
  | _ => Exits 1 printUsage
  end.

(** How the process ended.  [os.Exit] does not run the deferred [secmem.Purge];
    a panic does, and ends the process with status two. *)
Record Exit := { status : Z; printed : list output; purged : bool }.

Definition finish (printed : list output) (r : Res unit) : Exit :=
  match r with
  | Ok _ => {| status := 0; printed := printed; purged := true |}
  | Fail _ => {| status := 1; printed := printed; purged := false |}
  | Panic => {| status := 2; printed := printed; purged := true |}
  end.

Definition main (argv : list string) (st : State) : Exit * State :=
  match read_arguments argv with
  | Run printed c => let '(r, st') := cli.main cwd suites c st in (finish printed r, st')
  | Exits status printed => ({| status := status; printed := printed; purged := false |}, st)
  end.
End Main.
End frost.

(** ** Reading the arguments *)

Import session cli flag.

Definition is_uint64 (v : Z) : Prop := (0 ≤ v < 2 ^ 64)%Z.

(** The values that flags set. *)
Fixpoint set_flags (formal : list Flag) (vs : Values) (l : list (string * string)) : option Values :=
  match l with
  | [] => Some vs
  | (name, value) :: l =>
      f ← Lookup name formal; x ← Set_ f value; set_flags formal (<[name := x]> vs) l
  end.

(** A flag that exists, with the value its text stands for. *)
Lemma set_flags_string formal vs n f d v l :
  Lookup n formal = Some f → fl_DefValue f = StringValue d →
  set_flags formal vs ((n, v) :: l) = set_flags formal (<[n := StringValue v]> vs) l.
Proof. intros Hf Hd. cbn [set_flags]. rewrite Hf. cbn [mbind option_bind]. unfold Set_. by rewrite Hd. Qed.

Lemma set_flags_uint formal vs n f d v l :
  Lookup n formal = Some f → fl_DefValue f = UintValue d → is_uint64 v →
  set_flags formal vs ((n, pretty v) :: l) = set_flags formal (<[n := UintValue v]> vs) l.
Proof.
  intros Hf Hd Hv. cbn [set_flags]. rewrite Hf. cbn [mbind option_bind]. unfold Set_.
  by rewrite Hd, ParseUint_pretty.
Qed.

Ltac flags_set :=
  repeat first
    [ erewrite set_flags_uint; [| reflexivity | reflexivity | eassumption]
    | erewrite set_flags_string; [| reflexivity | reflexivity] ];
  reflexivity.

Section Arguments.
Context (Version : string) (st : string → style).
Local Abbreviation read := (frost.read_arguments Version).

(** Flags, each in its own style. *)
Definition write_flags (l : list (string * string)) : list string :=
  concat ((λ e, write (st e.1) e.1 e.2) <$> l).

(** A command with all of its flags written out. *)
Definition argv_of (c : command_line) : list string :=
  "frost" ::
  match c with
  | cmd_keygen fl =>
      "keygen" :: write_flags [("min", pretty (kg_min fl)); ("max", pretty (kg_max fl));
                               ("output", kg_output fl); ("ciphersuite", kg_ciphersuite fl)]
  | cmd_sign fl =>
      "sign" :: write_flags [("keys", sg_keys fl); ("message", sg_message fl);
                             ("signers", sg_signers fl); ("output", sg_output fl);
                             ("ciphersuite", sg_ciphersuite fl)]
  | cmd_commit fl =>
      "commit" :: write_flags [("keys", ct_keys fl); ("id", pretty (ct_id fl));
                               ("output", ct_output fl); ("nonces", ct_nonces fl);
                               ("ciphersuite", ct_ciphersuite fl)]
  | cmd_collect_commitments fl =>
      "collect-commitments" :: write_flags [("output", cl_output fl); ("pattern", cl_pattern fl)]
  | cmd_sign_share fl =>
      "sign-share" :: write_flags [("keys", ss_keys fl); ("id", pretty (ss_id fl));
                                   ("nonces", ss_nonces fl); ("commitments", ss_commitments fl);
                                   ("message", ss_message fl); ("output", ss_output fl);
                                   ("ciphersuite", ss_ciphersuite fl)]
  | cmd_collect_shares fl =>
      "collect-shares" :: write_flags [("output", cl_output fl); ("pattern", cl_pattern fl)]
  | cmd_aggregate fl =>
      "aggregate" :: write_flags [("keys", ag_keys fl); ("commitments", ag_commitments fl);
                                  ("shares", ag_shares fl); ("message", ag_message fl);
                                  ("output", ag_output fl); ("ciphersuite", ag_ciphersuite fl)]
  | cmd_verify fl =>
      "verify" :: write_flags [("signature", vf_signature fl); ("ciphersuite", vf_ciphersuite fl)]
  | cmd_info => ["version"]
  | cmd_unknown => []
  end.

(** The commands with flags, whose numbers are of 64 bits. *)
Definition has_flags (c : command_line) : Prop :=
  match c with
  | cmd_keygen fl => is_uint64 (kg_min fl) ∧ is_uint64 (kg_max fl)
  | cmd_commit fl => is_uint64 (ct_id fl)
  | cmd_sign_share fl => is_uint64 (ss_id fl)
  | cmd_info | cmd_unknown => False
  | _ => True
  end.

Lemma Parse_writes formal vs l vs' :
  forallb (λ e, flag_word e.1) l = true → set_flags formal vs l = Some vs' →
  Parse formal vs (write_flags l) = Continue vs'.
Proof.
  revert vs. induction l as [|[n v] l IH]; intros vs; cbn [forallb set_flags fst];
    [by intros _ [= ->] |].
  intros [Hw Hl]%andb_true_iff (f & Hf & (x & Hx & Hs)%bind_Some)%bind_Some.
  unfold write_flags in *. cbn [fmap list_fmap concat fst snd].
  rewrite (Parse_write _ _ _ n f v x) by done. by apply IH.
Qed.

Lemma parse_writes {A} formal usage (values : Values → A) command l vs c :
  forallb (λ e, flag_word e.1) l = true → set_flags formal ∅ l = Some vs →
  command (values vs) = c →
  frost.parse formal usage values command (write_flags l) = frost.Run [] c.
Proof. intros Hl Hs <-. unfold frost.parse. by rewrite (Parse_writes formal ∅ l vs). Qed.

(** Every command is read back from its flags, whichever way they are written. *)
Theorem arguments_roundtrip c : has_flags c → read (argv_of c) = frost.Run [] c.
Proof.
  intros H. destruct c as [[] |[] |[] |[] |[] |[] |[] |[] | |]; cbn in H; destruct_and?; try done;
    (eapply parse_writes; [reflexivity | flags_set | vm_compute; reflexivity]).
Qed.
End Arguments.

(** ** Sessions of processes *)

Section Shell.
Context (Version : string) (cwd : path) {J : CliJson} (suites : suite_name → AnySuite).
Local Abbreviation main := (frost.main Version cwd suites).
Local Abbreviation read := (frost.read_arguments Version).

(** Processes joined with [&&]: their exit statuses up to the first that is not zero. *)
Fixpoint shell (argvs : list (list string)) (st : State) : list Z * State :=
  match argvs with
  | [] => ([], st)
  | argv :: argvs =>
      let '(e, st) := main argv st in
      if (frost.status e =? 0)%Z then
        let '(l, st) := shell argvs st in (0%Z :: l, st)
      else ([frost.status e], st)
  end.

Definition run_status {A} (r : Res A) : list Z :=
  match r with Ok _ => [] | Fail _ => [1%Z] | Panic => [2%Z] end.

(** The statuses of processes whose arguments ask for commands. *)
Lemma shell_script argvs cs st r st' :
  Forall2 (λ a c, ∃ printed, read a = frost.Run printed c) argvs cs →
  script cwd suites cs st = (r, st') →
  ∃ k, shell argvs st = (replicate k 0%Z ++ run_status r, st') ∧
       (if run_status r is [] then k = length argvs else k < length argvs).
Proof.
  intros H. revert st. induction H as [|a c argvs cs (printed & Ha) _ IH]; intros st Hs.
  - injection Hs as <- <-. by exists 0.
  - cbn [script shell] in *. unfold mbind, cmd_mbind in Hs. unfold frost.main. rewrite Ha.
    destruct (cli.main cwd suites c st) as [[[]|e|] st1]; cbn.
    + destruct (IH st1 Hs) as (k & Hk & Hle). rewrite Hk. exists (S k). cbn.
      split; [done |]. destruct (run_status r); lia.
    + injection Hs as <- <-. exists 0. split; [done |]. cbn. lia.
    + injection Hs as <- <-. exists 0. split; [done |]. cbn. lia.
Qed.

(** The processes of a list that all exit with zero come before the rest. *)
Lemma shell_app a b st st1 :
  shell a st = (replicate (length a) 0%Z, st1) →
  shell (a ++ b) st = (replicate (length a) 0%Z ++ (shell b st1).1, (shell b st1).2).
Proof.
  revert st. induction a as [|argv a IH]; intros st; cbn [app shell length replicate].
  - intros [= <-]. by destruct (shell b st).
  - destruct (main argv st) as [e st2]. 
    destruct (Z.eqb_spec (frost.status e) 0) as [_|He]; [| by intros [= ?]].
    destruct (shell a st2) as [l st3] eqn:E. intros [= -> ->].
    by rewrite (IH st2 E).
Qed.
End Shell.

(** ** The ceremony by its arguments *)

Section ByArguments.
Context (Version : string) (sty : string → style) (cwd : path) {J : CliJson} {JL : CliJsonLaws J}
  (suites : suite_name → AnySuite) (name : string)
  {L : GroupLaws (chosen_group suites name)} {VL : VerifierLaw (chosen_suite suites name)}.
#[local] Instance party_group : Group := chosen_group suites name.
#[local] Instance party_suite : Ciphersuite party_group := chosen_suite suites name.
Local Abbreviation write_flags := (write_flags sty).
Local Abbreviation read := (frost.read_arguments Version).

(** What the parties type: the file names are left to their defaults. *)
Definition ceremony_argvs (t n : Z) (ids : list Z) (message : string) : list (list string) :=
  ["frost" :: "keygen" ::
     write_flags [("min", pretty t); ("max", pretty n); ("ciphersuite", name)]] ++
  ((λ id, "frost" :: "commit" :: write_flags [("id", pretty id); ("ciphersuite", name)]) <$> ids) ++
  [["frost"; "collect-commitments"]] ++
  ((λ id, "frost" :: "sign-share" ::
      write_flags [("id", pretty id); ("message", message); ("ciphersuite", name)]) <$> ids) ++
  [["frost"; "collect-shares"];
   "frost" :: "aggregate" :: write_flags [("message", message); ("ciphersuite", name)];
   "frost" :: "verify" :: write_flags [("ciphersuite", name)]].

Ltac arguments_read :=
  exists []; eapply parse_writes; [reflexivity | flags_set | vm_compute; reflexivity].

Lemma ceremony_read t n ids message :
  is_uint64 t → is_uint64 n → Forall is_uint64 ids →
  Forall2 (λ a c, ∃ printed, read a = frost.Run printed c)
    (ceremony_argvs t n ids message) (ceremony name t n ids message).
Proof.
  intros Ht Hn Hids. unfold ceremony_argvs, ceremony, ceremony_rest.
  repeat apply Forall2_app; repeat apply Forall2_cons_2; try apply Forall2_nil_2;
    try (by exists []).
  - arguments_read.
  - apply Forall2_fmap, Forall_Forall2_diag. eapply Forall_impl; [exact Hids |].
    intros id Hid. cbn beta. arguments_read.
  - apply Forall2_fmap, Forall_Forall2_diag. eapply Forall_impl; [exact Hids |].
    intros id Hid. cbn beta. arguments_read.
  - arguments_read.
  - arguments_read.
Qed.

Lemma ceremony_argvs_share t n ids message :
  is_Some (head ids) →
  ∃ flags, ceremony_argvs t n ids message !! (length ids + 2) = Some ("frost" :: "sign-share" :: flags).
Proof.
  intros [id Hid]. destruct ids as [|id' ids]; [done |]. eexists. unfold ceremony_argvs.
  rewrite lookup_app_r by (cbn; lia). rewrite lookup_app_r by (rewrite length_fmap; cbn; lia).
  rewrite length_fmap, lookup_app_r by (cbn; lia). cbn [length].
  by replace (S (length ids) + 2 - 1 - S (length ids) - 1) with 0 by lia.
Qed.

(** The identifiers of dealt packages. *)
Lemma dealt_ids t n s r1 kps pk r2 (D : dir) r quorum :
  (2 ≤ t ≤ n)%Z → (n ≤ 65535)%Z → RandomScalar r = (Ok s, r1) →
  dealer.GenerateShares (Some s) t n (all_ids n) r1 = (Ok (kps, pk), r2) →
  quorum ⊆ kps → Forall is_uint64 (kp_Identifier <$> quorum).
Proof.
  intros Ht Hn Hs Hg Hsub.
  destruct (keygen_of_does cwd suites name t n s D r r1 kps pk r2) as (cs & bk & _ & _ & -> & _);
    [done.. |].
  apply Forall_fmap, Forall_forall. intros kp Hkp%Hsub. cbn.
  apply list_elem_of_fmap in Hkp as (id & -> & Hid%all_ids_spec). cbn. unfold is_uint64. lia.
Qed.

(** C11: the ceremony of the command line, from the arguments to the exit
    statuses, for every threshold and every way of writing the flags: on a disk
    that works and with no files of an earlier ceremony, [frost keygen], [frost
    commit] by each signer of a quorum, [frost collect-commitments], [frost
    sign-share] by each, [frost collect-shares], [frost aggregate] and [frost
    verify] all exit with status zero, when the lexical order of the signers'
    file names is the order of their numbers.  When it is not, the processes up
    to [collect-commitments] exit with zero and the next one, the [sign-share] of
    the first signer, refuses the collected commitments and exits with one. *)
Theorem ceremony_by_arguments st D r t n s r1 kps pk r2 quorum rounds r3 message :
  let ids := kp_Identifier <$> quorum in
  let argvs := ceremony_argvs t n ids message in
  world cwd st D r → fresh_dir D →
  (2 ≤ t ≤ n)%Z → (n ≤ 65535)%Z → message ≠ "" → cli_utf8 message →
  RandomScalar r = (Ok s, r1) →
  dealer.GenerateShares (Some s) t n (all_ids n) r1 = (Ok (kps, pk), r2) →
  quorum ⊆ kps → StronglySorted Z.lt ids → (t ≤ Z.of_nat (length quorum))%Z →
  rand_map participant.RoundOne quorum r2 = (Ok rounds, r3) →
  pk ≠ Identity → group_commitment pk rounds.*2 (string_bytes message) ≠ Identity →
  session_chal pk rounds.*2 (string_bytes message) ≠ Group.sc 0 →
  (lexical ids → ∃ st', shell Version cwd suites argvs st = (replicate (length argvs) 0%Z, st')) ∧
  (¬ lexical ids → ∃ st',
     shell Version cwd suites argvs st = (replicate (length ids + 2) 0%Z ++ [1%Z], st') ∧
     ∃ flags, argvs !! (length ids + 2) = Some ("frost" :: "sign-share" :: flags)).
Proof.
  intros ids argvs Hst Hfresh Ht Hn Hm Hu Hs Hg Hsub Hsort Hlen Hr Hpk HR Hc.
  assert (Forall2 (λ a c, ∃ printed, read a = frost.Run printed c) argvs
            (ceremony name t n ids message)) as Hread.
  { apply ceremony_read; [unfold is_uint64; lia.. |]. by eapply (dealt_ids _ _ _ _ _ _ _ D). }
  destruct (ceremony_signs cwd suites name st D r t n s r1 kps pk r2 quorum rounds r3 message)
    as [Hok Hfail]; [done.. |]. split; intros Hlex.
  - destruct (Hok Hlex) as [st' Hrun]. exists st'.
    destruct (shell_script Version cwd suites _ _ _ _ _ Hread Hrun) as (k & -> & ->).
    cbn [run_status]. by rewrite app_nil_r.
  - destruct (Hfail Hlex) as (id & st1 & e & st' & Hid & Hrun & Hshare).
    exists st'. split; [| apply ceremony_argvs_share; by exists id].
    rewrite ceremony_split in Hread.
    apply Forall2_app_inv_r in Hread as (a & b & Ha & Hb & Hab). fold argvs in Hab. rewrite Hab.
    destruct (shell_script Version cwd suites _ _ _ _ _ Ha Hrun) as (k & Hk & ->).
    cbn [run_status] in Hk. rewrite app_nil_r in Hk. rewrite (shell_app _ _ _ _ _ _ _ Hk).
    rewrite (Forall2_length _ _ _ Ha), length_collecting.
    assert (∃ ids', ids = id :: ids') as [ids' Hids].
    { assert (head ids = Some id) as Hid' by exact Hid. clear -Hid'. clearbody ids.
      destruct ids as [|? ids']; [done |].
      injection Hid' as ->. by exists ids'. }
    rewrite Hids in Hb. inversion Hb as [|argv c b' cs [printed Hargv] _]; subst b c cs. cbn [shell].
    unfold frost.main. by rewrite Hargv, Hshare.
Qed.
End ByArguments.

(** ** The usage texts *)

(** The words of a line for a shell: separated by spaces, with single quotes. *)
Fixpoint words (quoted : bool) (word : option string) (s : string) : list string :=
  match s with
  | EmptyString => match word with Some w => [w] | None => [] end
  | String c s =>
      if is_code c 39 then words (negb quoted) (Some (default "" word)) s
      else if is_code c 32 && negb quoted then
        match word with Some w => w :: words false None s | None => words false None s end
      else words quoted (Some (default "" word +:+ String c "")) s
  end.
Definition shell_words : string → list string := words false None.

Definition stdout_line (o : frost.output) : option string :=
  match o with frost.Stdout line => Some line | _ => None end.

Definition usages : list (string * list frost.output) :=
  [("keygen", frost.keygen_usage); ("sign", frost.sign_usage); ("commit", frost.commit_usage);
   ("collect-commitments", frost.collect_commitments_usage);
   ("sign-share", frost.sign_share_usage); ("collect-shares", frost.collect_shares_usage);
   ("aggregate", frost.aggregate_usage); ("verify", frost.verify_usage)].

(** The lines of a text that begin like a command line. *)
Definition examples (usage : list frost.output) : list string :=
  filter (λ line, storage.HasPrefix line "  frost " = true) (omap stdout_line usage).

(** The commands of the list in [printUsage]: two spaces, then a name. *)
Definition listed : list string :=
  omap (λ line, if storage.HasPrefix line "  " then head (shell_words line) else None)
    (omap stdout_line frost.printUsage).

(** The usage texts say what the program does: each example is a command with
    its flags, [--help] prints a command's text and exits with zero, the
    commands listed are known ones, and flags that are left out have the
    defaults the texts show. *)
Theorem usage_accurate Version :
  Forall (λ u, frost.read_arguments Version ["frost"; u.1; "--help"] = frost.Exits 0 u.2 ∧
               examples u.2 ≠ [] ∧
               Forall (λ line, ∃ c, frost.read_arguments Version (shell_words line) = frost.Run [] c
                                    ∧ has_flags c) (examples u.2)) usages ∧
  Forall (λ name, name ∈ usages.*1 ∨ name ∈ ["version"; "help"]) listed ∧
  usages.*1 ⊆ listed ∧
  frost.keygen_values ∅ = keygen_defaults ∧ frost.sign_values ∅ = sign_defaults ∧
  frost.commit_values ∅ = commit_defaults ∧ frost.sign_share_values ∅ = sign_share_defaults ∧
  frost.aggregate_values ∅ = aggregate_defaults ∧ frost.verify_values ∅ = verify_defaults ∧
  frost.collect_values frost.collect_commitments_set ∅ = collect_commitments_defaults ∧
  frost.collect_values frost.collect_shares_set ∅ = collect_shares_defaults.
Proof.
  split_and!; try reflexivity.
  - repeat (apply Forall_cons; split); try apply Forall_nil_2;
      (split; [reflexivity |]; split; [by vm_compute |]).
    all: match goal with |- Forall _ ?l => let l' := eval vm_compute in l in change l with l' end;
      repeat (apply Forall_cons; split); try apply Forall_nil_2;
      (eexists; split; [vm_compute; reflexivity | by vm_compute]).
  - apply (bool_decide_unpack _). by vm_compute.
  - apply (bool_decide_unpack _). by vm_compute.
Qed.

(** What a process does before and after its command: refusing flags or
    printing help touches nothing, and the deferred [secmem.Purge] runs unless
    the process ends through [os.Exit], which every failing command does. *)
Theorem process_ends Version cwd {J : CliJson} suites argv st :
  let '(e, st') := frost.main Version cwd suites argv st in
  match frost.read_arguments Version argv with
  | frost.Exits s _ => st' = st ∧ frost.status e = s ∧ frost.purged e = false
  | frost.Run _ c =>
      st' = (cli.main cwd suites c st).2 ∧
      match (cli.main cwd suites c st).1 with
      | Ok _ => frost.status e = 0%Z ∧ frost.purged e = true
      | Fail _ => frost.status e = 1%Z ∧ frost.purged e = false
      | Panic => frost.status e = 2%Z ∧ frost.purged e = true
      end
  end.
Proof.
  unfold frost.main. destruct (frost.read_arguments Version argv) as [p c|s p]; [| done].
  by destruct (cli.main cwd suites c st) as [[[]|e|] st'].
Qed.

(** An argument that is not a flag ends the flags; the rest is ignored. *)
Lemma arguments_stop Version cmd a rest :
  classify a = NonFlag →
  frost.read_arguments Version ("frost" :: cmd :: a :: rest)
  = frost.read_arguments Version ["frost"; cmd].
Proof.
  intros Ha. unfold frost.read_arguments, frost.parse. rewrite !Parse_stops by done. reflexivity.
Qed.
