(* ===== verification/CLib.v ===== *)
(** * The C library: [cmd/libfrost/libfrost.go]

    The exported functions over values: a pointer with its length is an [option] of
    the bytes it points to, an output pointer a component of the result.  [Fail]
    carries the error code, [Ok] is [FROST_OK], and [Panic] ends the host process.
    Lengths are below 2^31; [frost_free_string] and [frost_free_bytes] only
    release memory.  encoding/json is a parameter.

    The theorems: what [frost_verify] accepts, and that it accepts what the service
    signs; and that [frost_sign] never signs, because encoding/json leaves the
    shares and keys of a package, which are interface values, nil. *)

From S2P Require Export Service.
From S2P Require Export Cli.

Module libfrost.
Import cli.

Inductive frost_error_t :=
  | FROST_ERR_INVALID_PARAMS
  | FROST_ERR_KEYGEN_FAILED
  | FROST_ERR_SIGN_FAILED
  | FROST_ERR_VERIFY_FAILED
  | FROST_ERR_SERIALIZE_FAILED
  | FROST_ERR_DESERIALIZE_FAILED
  | FROST_ERR_INTERNAL.

(** The numbers of [frost_ciphersuite_t]; any other number is the first. *)
Definition getCiphersuite (cs : Z) : suite_name :=
  match cs with
  | 0 => ristretto255
  | 1 => ed25519
  | 2 => ed448
  | 3 => p256
  | 4 => secp256k1
  | _ => ristretto255
  end%Z.

(** encoding/json on key packages. *)
Class PackageJson : Type := {
  marshal_packages {G : Group} : list KeyPackage → Res bytes;
  unmarshal_packages {G : Group} : bytes → Res (list KeyPackage);
}.

(** The services made so far, a service being its ciphersuite, and the random
    source. *)
Record State := { services : gmap Z suite_name; c_rng : Rng }.

Definition CRes (A : Type) : Type := Outcome frost_error_t A.
Definition CFun (A : Type) : Type := State → CRes A * State.

#[export] Instance cfun_mret : MRet CFun := λ A a st, (Ok a, st).
#[export] Instance cfun_mbind : MBind CFun := λ A B k m st,
  match m st with
  | (Ok a, st') => k a st'
  | (Fail e, st') => (Fail e, st')
  | (Panic, st') => (Panic, st')
  end.

(** [if err != nil { return code }] *)
Definition coded {A} (code : frost_error_t) (m : Res A) : CFun A := λ st,
  (match m with Ok a => Ok a | Fail _ => Fail code | Panic => Panic end, st).
Definition coded_rand {A} (code : frost_error_t) (m : Rand A) : CFun A := λ st,
  let '(r, rng) := m (c_rng st) in coded code r {| services := services st; c_rng := rng |}.
Definition require (b : bool) (code : frost_error_t) : CFun unit := λ st,
  (if b then Ok () else Fail code, st).
Definition fail {A} (code : frost_error_t) : CFun A := λ st, (Fail code, st).
Definition panic {A} : CFun A := λ st, (Panic, st).

Definition getService (cs : Z) : CFun suite_name := λ st,
  match services st !! cs with
  | Some svc => (Ok svc, st)
  | None =>
      let suite := getCiphersuite cs in
      (Ok suite, {| services := <[cs := suite]> (services st); c_rng := c_rng st |})
  end.

Section Functions.
Context {J : PackageJson} (suites : suite_name → AnySuite).

(** A computation over the service's group and suite; the code takes the group
    from [getCiphersuite] again, which is the same ([getService_suite]). *)
Definition over {A} (svc : suite_name) (body : ∀ {G : Group} {CS : Ciphersuite G}, A) : A :=
  body (G := any_Group (suites svc)) (CS := any_Suite (suites svc)).

Definition frost_version : string := "1.0.0".

Section Suite.
Context {G : Group} {CS : Ciphersuite G}.

Definition generate_keys_body (minSigners maxSigners : Z) : CFun (bytes * bytes) :=
  let config := {| cfg_MinSigners := minSigners; cfg_MaxSigners := maxSigners;
                   cfg_Group_set := true |} in
  let participantIDs := (λ i, (Z.of_nat i + 1) mod 2 ^ 32)%Z <$> seq 0 (Z.to_nat maxSigners) in
  '(keyPackages, groupPublicKey) ←
    coded_rand FROST_ERR_KEYGEN_FAILED (service.GenerateKeys config (Some participantIDs));
  keysJSON ← coded FROST_ERR_SERIALIZE_FAILED (marshal_packages keyPackages);
  mret (keysJSON, e_Bytes groupPublicKey).

(** The loop over the indices. *)
Definition select (keyPackages : list KeyPackage) (indices : list Z) : CFun (list KeyPackage) :=
  mapM (M := CFun) (λ idx, match keyPackages !! Z.to_nat idx with
                           | Some kp => mret kp
                           | None => fail FROST_ERR_INVALID_PARAMS
                           end) indices.

Definition sign_body (keysData : bytes) (signerIndices : option (list Z)) (msg : bytes)
  : CFun bytes :=
  keyPackages ← coded FROST_ERR_DESERIALIZE_FAILED (unmarshal_packages keysData);
  indices ← match signerIndices with Some l => mret l | None => panic end;
  signingPackages ← select keyPackages indices;
  signature ← coded_rand FROST_ERR_SIGN_FAILED (service.Sign (Some signingPackages) msg);
  match sig_R signature, sig_Z signature with
  | Some R, Some Z => mret (e_Bytes R ++ s_Bytes Z)
  | _, _ => panic
  end.

Definition verify_body (msg sigBytes pubKeyBytes : bytes) : CFun unit :=
  _ ← require (length sigBytes =? ElementLength + ScalarLength) FROST_ERR_INVALID_PARAMS;
  R ← coded FROST_ERR_DESERIALIZE_FAILED (DeserializeElement (take ElementLength sigBytes));
  Z ← coded FROST_ERR_DESERIALIZE_FAILED (DeserializeScalar (drop ElementLength sigBytes));
  let sig := {| sig_R := Some R; sig_Z := Some Z |} in
  groupPublicKey ← coded FROST_ERR_DESERIALIZE_FAILED (DeserializeElement pubKeyBytes);
  coded FROST_ERR_VERIFY_FAILED (service.Verify msg sig (Some groupPublicKey)).
End Suite.

(** The keys as JSON and the encoded public key. *)
Definition frost_generate_keys (cs minSigners maxSigners : Z) : CFun (bytes * bytes) :=
  _ ← require (negb ((minSigners <? 2)%Z || (maxSigners <? minSigners)%Z))
        FROST_ERR_INVALID_PARAMS;
  svc ← getService cs;
  over svc (λ G CS, generate_keys_body minSigners maxSigners).

(** The number of indices is given apart from the pointer to them. *)
Definition frost_sign (cs : Z) (keysJSON : option bytes) (signerIndices : option (list Z))
    (signerIndicesLen : Z) (message : option bytes) : CFun bytes :=
  match keysJSON, message with
  | Some keysData, Some msg =>
      _ ← require (negb (signerIndicesLen <? 2)%Z) FROST_ERR_INVALID_PARAMS;
      svc ← getService cs;
      over svc (λ G CS, sign_body keysData signerIndices msg)
  | _, _ => fail FROST_ERR_INVALID_PARAMS
  end.

Definition frost_verify (cs : Z) (message signature publicKey : option bytes) : CFun unit :=
  match message, signature, publicKey with
  | Some msg, Some sigBytes, Some pubKeyBytes =>
      svc ← getService cs;
      over svc (λ G CS, verify_body msg sigBytes pubKeyBytes)
  | _, _, _ => fail FROST_ERR_INVALID_PARAMS
  end.
End Functions.
End libfrost.

(** ** Theorems *)

Import libfrost.

(** encoding/json cannot decode into a non-empty interface: a JSON value other
    than null is an error, and null leaves the field nil. *)
Class PackageJsonLaws (J : PackageJson) : Prop :=
  interfaces_nil : ∀ (G : Group) b kps,
    unmarshal_packages b = Ok kps →
    Forall (λ kp : KeyPackage, SecretShare kp = None ∧ GroupPublicKey kp = None) kps.

Section CLibFacts.
Context {J : PackageJson} (suites : cli.suite_name → cli.AnySuite).

(** The cache only holds what [getCiphersuite] returns. *)
Definition cache_ok (st : State) : Prop :=
  ∀ cs svc, services st !! cs = Some svc → svc = getCiphersuite cs.

Lemma getService_suite cs st :
  cache_ok st → ∃ st', getService cs st = (Ok (getCiphersuite cs), st') ∧ cache_ok st' ∧
    c_rng st' = c_rng st.
Proof.
  intros Hst. unfold getService. destruct (services st !! cs) as [svc|] eqn:Hs.
  - rewrite (Hst _ _ Hs). eauto.
  - eexists. split; [done |]. split; [| done]. intros cs' svc Hc. cbn in Hc.
    apply lookup_insert_Some in Hc as [[<- <-]|[_ Hc]]; [done | by apply Hst].
Qed.

(** [frost_verify] on the encodings of a signature and a key that are not the
    identity is the service's [Verify], with every refusal as one code. *)
Theorem frost_verify_spec cs st msg
    (L : GroupLaws (cli.any_Group (suites (getCiphersuite cs)))) R z pk :
  let _ := cli.any_Suite (suites (getCiphersuite cs)) in
  cache_ok st → R ≠ Identity → pk ≠ Identity →
  ∃ st', cache_ok st' ∧
    frost_verify suites cs (Some msg) (Some (e_Bytes R ++ s_Bytes z)) (Some (e_Bytes pk)) st
    = (match service.Verify msg {| sig_R := Some R; sig_Z := Some z |} (Some pk) with
       | Ok _ => Ok ()
       | Fail _ => Fail FROST_ERR_VERIFY_FAILED
       | Panic => Panic
       end, st').
Proof.
  intros CS Hst HR Hpk. destruct (getService_suite cs st Hst) as (st' & Hs & Hst' & _).
  exists st'. split; [done |]. unfold frost_verify, mbind, cfun_mbind. rewrite Hs.
  unfold over, verify_body, require, mbind, cfun_mbind.
  rewrite length_app, law_e_Bytes_length, law_s_Bytes, law_SerializeScalar_length, Nat.eqb_refl by done.
  rewrite take_app_length', drop_app_length' by (symmetry; by apply law_e_Bytes_length).
  unfold coded. rewrite law_DeserializeElement, law_SerializeScalar, law_DeserializeElement by done.
  by destruct (service.Verify _ _ _) as [[]|e|].
Qed.

Context {JL : PackageJsonLaws J}.

Lemma cfun_bind_Ok {A B} (m : CFun A) (k : A → CFun B) st b st' :
  (m ≫= k) st = (Ok b, st') ↔ ∃ a st1, m st = (Ok a, st1) ∧ k a st1 = (Ok b, st').
Proof.
  unfold mbind, cfun_mbind. destruct (m st) as [[a|e|] st1]; [naive_solver | |];
    (split; [done | by intros (?&?&[=]&_)]).
Qed.

Lemma coded_Ok {A} code (m : Res A) st a st' : coded code m st = (Ok a, st') ↔ m = Ok a ∧ st' = st.
Proof. unfold coded. destruct m; naive_solver. Qed.

Lemma select_Ok {G : Group} kps indices st sel st' :
  select kps indices st = (Ok sel, st') → length sel = length indices ∧ sel ⊆ kps.
Proof.
  unfold select. revert st sel. induction indices as [|idx l IH]; intros st sel.
  - intros [= <- <-]. split; [done |]. by intros ? ?%not_elem_of_nil.
  - cbn [mapM]. intros H. apply cfun_bind_Ok in H as (kp & st1 & Hkp & H).
    apply cfun_bind_Ok in H as (sel' & st2 & Hsel & [= <- <-]).
    apply IH in Hsel as [Hl Hsub]. destruct (kps !! Z.to_nat idx) as [kp'|] eqn:Hidx; [| done].
    injection Hkp as <- _. split; [cbn; by rewrite Hl |].
    intros x [->|Hx]%elem_of_cons; [by eapply list_elem_of_lookup_2 | by apply Hsub].
Qed.

(** Two packages without a group key end the service's validation in a nil
    dereference. *)
Lemma Sign_nil_packages {G : Group} {CS : Ciphersuite G} kps msg r :
  2 ≤ length kps → Forall (λ kp, GroupPublicKey kp = None) kps →
  service.Sign (Some kps) msg r = (Panic, r).
Proof.
  intros Hl Hn. destruct kps as [|kp1 [|kp2 kps]]; cbn in Hl; [lia | lia |].
  apply Forall_cons in Hn as [_ Hn]. apply Forall_cons in Hn as [Hk _].
  assert (service.validateKeyPackages (Some (kp1 :: kp2 :: kps)) = Panic) as Hv.
  { cbn [service.validateKeyPackages imap range_loop]. unfold service.check_package. by rewrite Hk. }
  unfold service.Sign. by rewrite Hv.
Qed.

Lemma sign_body_never {G : Group} {CS : Ciphersuite G} keysData indices msg st sig st' :
  2 ≤ length indices → sign_body keysData (Some indices) msg st ≠ (Ok sig, st').
Proof.
  intros Hl H. unfold sign_body in H.
  apply cfun_bind_Ok in H as (kps & st1 & [Hkps _]%coded_Ok & H).
  apply cfun_bind_Ok in H as (l & st2 & [= <- <-] & H).
  apply cfun_bind_Ok in H as (sel & st3 & [Hlen Hsub]%select_Ok & H).
  apply cfun_bind_Ok in H as (sg & st4 & Hs & _). unfold coded_rand in Hs.
  rewrite Sign_nil_packages in Hs; [done | lia |].
  apply interfaces_nil in Hkps. rewrite Forall_forall in Hkps |- *.
  intros kp Hkp. by apply Hkps, Hsub.
Qed.

Lemma select_total {G : Group} kps indices st :
  Forall (λ idx, Z.to_nat idx < length kps) indices → ∃ sel, select kps indices st = (Ok sel, st).
Proof.
  induction 1 as [|idx l Hi _ (sel & IH)]; [by exists [] |].
  apply lookup_lt_is_Some in Hi as [kp Hkp]. exists (kp :: sel).
  unfold select in *. cbn [mapM]. unfold mbind, cfun_mbind in *. rewrite Hkp.
  unfold mret at 1, cfun_mret at 1. by rewrite IH.
Qed.

Lemma sign_body_panics {G : Group} {CS : Ciphersuite G} keysData indices msg kps st :
  2 ≤ length indices → unmarshal_packages keysData = Ok kps →
  Forall (λ idx, Z.to_nat idx < length kps) indices →
  ∃ st', sign_body keysData (Some indices) msg st = (Panic, st').
Proof.
  intros Hl Hu Hidx. destruct (select_total kps indices st Hidx) as (sel & Hsel).
  pose proof Hsel as [Hlen Hsub]%select_Ok.
  unfold sign_body, coded, mbind, cfun_mbind. rewrite Hu. unfold mret, cfun_mret. rewrite Hsel.
  unfold coded_rand. rewrite Sign_nil_packages; [eauto | lia |].
  apply interfaces_nil in Hu. rewrite Forall_forall in Hu |- *. intros kp Hkp. by apply Hu, Hsub.
Qed.

(** [frost_sign] never signs.  For JSON that decodes into packages and
    indices in range it does not return at all: the packages have no keys, and
    the service dereferences one. *)
Theorem frost_sign_never_signs cs keysJSON indices message st :
  cache_ok st →
  (∀ sig st', frost_sign suites cs keysJSON (Some indices) (Z.of_nat (length indices)) message st
              ≠ (Ok sig, st')) ∧
  ∀ keysData msg kps,
    keysJSON = Some keysData → message = Some msg → 2 ≤ length indices →
    @unmarshal_packages J (cli.any_Group (suites (getCiphersuite cs))) keysData = Ok kps →
    Forall (λ idx, Z.to_nat idx < length kps) indices →
    ∃ st', frost_sign suites cs keysJSON (Some indices) (Z.of_nat (length indices)) message st
           = (Panic, st').
Proof.
  intros Hst. destruct (getService_suite cs st Hst) as (st1 & Hs & _). split.
  - intros sig st' H. destruct keysJSON as [keysData|]; [| done]. destruct message as [msg|]; [| done].
    unfold frost_sign in H. apply cfun_bind_Ok in H as ([] & st2 & Hr & H).
    unfold require in Hr. destruct (Z.ltb_spec (Z.of_nat (length indices)) 2) as [|Hl]; [done |].
    injection Hr as <-. apply cfun_bind_Ok in H as (svc & st3 & _ & H).
    eapply sign_body_never, H. lia.
  - intros keysData msg kps -> -> Hl Hu Hidx.
    destruct (sign_body_panics (CS := cli.any_Suite (suites (getCiphersuite cs)))
      keysData indices msg kps st1 Hl Hu Hidx) as (st' & Hb).
    exists st'. unfold frost_sign, require, mbind, cfun_mbind.
    rewrite (proj2 (Z.ltb_ge _ _)) by lia. cbn [negb]. rewrite Hs. exact Hb.
Qed.
End CLibFacts.
