(* ===== verification/Witnesses.v ===== *)
(** * The theorems at concrete inputs

    Every theorem with hypotheses is applied here to a run of the definitions in
    the group of [ZGroup.v]: a dealer, a signing session of two out of three
    participants and a distributed key generation, all evaluated from fixed
    random sources.  The runs show that the hypotheses can hold together and
    that the definitions compute. *)

From Stdlib Require Import Zmod.
From S2P Require Import ZGroup.
From S2P Require Import Helpers.
From S2P Require Import Keygen.
From S2P Require Import Participant.
From S2P Require Import Aggregator.
From S2P Require Import Protocol.
From S2P Require Import Signing.
From S2P Require Import Preprocess.
From S2P Require Import Batch.
From S2P Require Import Rerandomized.
From S2P Require Import Dkg.
From S2P Require Import Refresh.
From S2P Require Import Repairable.

#[local] Instance DemoGroup : Group := ZGroup LittleEndian.
#[local] Instance DemoLaws : GroupLaws DemoGroup := ZGroup_laws LittleEndian.
#[local] Instance DemoSuite : Ciphersuite DemoGroup := ToySuite LittleEndian.
#[local] Instance DemoOrder : MapOrder := sorted_order.

Local Open Scope element_scope.

(** The value of a call that is known to succeed. *)
Definition ok_or {A} (d : A) (o : Res A) : A := match o with Ok a => a | _ => d end.

(** A randomised run is its result and the random source it leaves behind. *)
Lemma run_eq {A} (m : Res A * Rng) o : fst m = o → m = (o, snd m).
Proof. intros <-. apply surjective_pairing. Defined.

(** Evaluation by the virtual machine. *)
Ltac eval_eq := match goal with |- ?a = ?b => exact (@eq_refl _ b <: a = b) end.
Ltac run := apply run_eq; eval_eq.
Ltac decided := apply (bool_decide_eq_true_1 _); eval_eq.

(** ** The dealer *)

Definition demo_ids : list Z := [1%Z; 2%Z; 3%Z].

Definition demo_keygen := TrustedDealerKeygen 3 2 demo_ids (toy_rng 5).
Definition demo_kps : list KeyPackage :=
  fst (ok_or ([], {| pkp_GroupPublicKey := None; pkp_VerificationShares := [] |}) (fst demo_keygen)).
Definition demo_pkp : PublicKeyPackage :=
  snd (ok_or ([], {| pkp_GroupPublicKey := None; pkp_VerificationShares := [] |}) (fst demo_keygen)).
Definition demo_pk : Element := default Identity (pkp_GroupPublicKey demo_pkp).

Lemma demo_keygen_run : demo_keygen = (Ok (demo_kps, demo_pkp), snd demo_keygen).
Proof. run. Defined.

Lemma demo_ids_u32 : Forall is_uint32 demo_ids.
Proof. repeat constructor; done. Defined.

(** ** A session of participants 1 and 3 *)

Definition demo_quorum : list KeyPackage :=
  match demo_kps with [a; _; c] => [a; c] | _ => [] end.
Definition demo_msg : bytes := string_bytes "hello".
Definition demo_round1 := rand_map participant.RoundOne demo_quorum (snd demo_keygen).
Definition demo_rounds := ok_or [] (fst demo_round1).
Definition demo_list : CommitmentList := demo_rounds.*2.

Lemma demo_round1_run : demo_round1 = (Ok demo_rounds, snd demo_round1).
Proof. run. Defined.

Definition demo_shares : list SignatureShare :=
  ok_or [] (range_map (λ '(kp, nonces), participant.RoundTwo kp nonces demo_msg demo_list)
              (zip demo_quorum demo_rounds.*1)).

(** The nonces of the two signers, as found by evaluation. *)
Definition demo_n1 : SigningNonces := round_one_nonces 1 (sc 1943410628) (sc 1123525984).
Definition demo_n3 : SigningNonces := round_one_nonces 3 (sc 2058908545) (sc 1239023901).

Lemma demo_rounds_eq : demo_rounds = [(demo_n1, Commitments demo_n1); (demo_n3, Commitments demo_n3)].
Proof. decided. Defined.

Lemma demo_list_eq : demo_list = [Commitments demo_n1; Commitments demo_n3].
Proof. decided. Defined.

Lemma demo_list_wf : Forall commitment_wf demo_list.
Proof.
  rewrite demo_list_eq.
  repeat (apply Forall_cons; split; [apply round_one_wf; [decided | decided | decided] |]).
  constructor.
Defined.

Lemma demo_session_ok : session_ok demo_list.
Proof.
  split; [by rewrite demo_list_eq |]. split; [| apply demo_list_wf].
  rewrite demo_list_eq. repeat constructor.
Defined.

Definition demo_vs := pkp_VerificationShares demo_pkp.

Lemma demo_shares_eq :
  demo_shares = [{| share_Identifier := 1; share_value := Some (sc 3204242313) |};
                 {| share_Identifier := 3; share_value := Some (sc 768273072) |}].
Proof. decided. Defined.

Lemma demo_vs_eq :
  demo_vs = (λ '(id, s), {| vs_Identifier := id; VerificationKey := Some (g^(sc s)) |}) <$>
              [(1, 3037); (2, 5060); (3, 7083)]%Z.
Proof. decided. Defined.

Lemma demo_keys_ok : keys_ok demo_vs.
Proof. rewrite demo_vs_eq. split; [decided |]. repeat constructor; by eexists. Defined.

Lemma demo_aggregation_ok (shares : list SignatureShare) :
  shares_present shares → 2 ≤ length shares →
  aggregation_ok 2 demo_pk demo_list demo_msg demo_vs shares.
Proof.
  intros Hs Hl. split; [apply demo_session_ok |]. split; [decided |]. split; [decided |].
  split; [by rewrite demo_vs_eq |]. split; [lia | done].
Defined.

Lemma demo_shares_present : shares_present demo_shares.
Proof. rewrite demo_shares_eq. repeat constructor; cbn; try done; by eexists. Defined.

(** ** Identifiers, polynomials and commitment lists *)

Lemma DeriveIdentifier_valid_witness :
  ∃ id, DeriveIdentifier demo_msg = Ok id ∧ is_uint32 id ∧ IsValid id = true.
Proof. apply DeriveIdentifier_valid. done. Defined.

Definition demo_encoding : bytes := ok_or [] (commitmentListEncoder.Encode demo_list).

Lemma Encode_injective_witness : demo_list = [Commitments demo_n1; Commitments demo_n3].
Proof.
  apply (Encode_injective _ _ demo_encoding).
  - apply demo_list_wf.
  - rewrite <-demo_list_eq. apply demo_list_wf.
  - decided.
  - decided.
Defined.

(** ** Key generation *)

Definition demo_poly : Polynomial := {| Coefficients := [sc 1014; sc 2023] |}.
Definition demo_coms := ok_or [] (vss.CreateCommitments demo_poly).

Lemma VerifyShare_correct_witness :
  vss.VerifyShare 2 (Some (sc 5060)) demo_coms = Ok () ∧
  vss.VerifyShare 2 (Some (sc 5061)) demo_coms =
    Fail (NewVerificationError "share" "share verification failed" (Sentinel ErrInvalidKeyShare)).
Proof.
  assert (H2 : is_uint32 2) by decided.
  assert (H0 : 2%Z ≠ 0%Z) by done.
  assert (Hne : Coefficients demo_poly ≠ []) by done.
  assert (Hc : vss.CreateCommitments demo_poly = Ok demo_coms) by decided.
  destruct (VerifyShare_correct demo_poly demo_coms 2 (sc 5060) H2 H0 Hne Hc) as [Hgood _].
  destruct (VerifyShare_correct demo_poly demo_coms 2 (sc 5061) H2 H0 Hne Hc) as [_ Hbad].
  split; [apply Hgood; decided | apply Hbad; decided].
Defined.


Lemma GenerateShares_accepts_witness :
  (∃ kps pk r', dealer.GenerateShares None 2 3 demo_ids (toy_rng 5) = (Ok (kps, pk), r')) ∧
  ¬ (∃ kps pk r', dealer.GenerateShares None 2 3 [1; 2; 2]%Z (toy_rng 5) = (Ok (kps, pk), r')).
Proof.
  split.
  - apply (GenerateShares_accepts None 2 3 demo_ids (toy_rng 5));
      [apply ZGroup_samples | apply toy_rng_works | apply demo_ids_u32 | done |].
    unfold dealer_params_ok. decided.
  - rewrite (GenerateShares_accepts None 2 3 [1; 2; 2]%Z (toy_rng 5));
      [| apply ZGroup_samples | apply toy_rng_works | repeat constructor; done | done].
    unfold dealer_params_ok. decided.
Defined.

Definition demo_dealt := dealer.GenerateShares (Some (sc 77)) 2 3 demo_ids (toy_rng 5).
Definition demo_dealt_kps : list KeyPackage := fst (ok_or ([], Identity) (fst demo_dealt)).
Definition demo_dealt_pk : Element := snd (ok_or ([], Identity) (fst demo_dealt)).
Definition demo_sub : list KeyPackage :=
  match demo_dealt_kps with [_; b; c] => [c; b] | _ => [] end.

(** A sublist of distinct members of a computed list of packages. *)
Lemma sub_of_filter {A} `{EqDecision A} (l1 l2 : list A) : forallb (λ x, bool_decide (x ∈ l2)) l1 = true → l1 ⊆ l2.
Proof.
  rewrite forallb_forall. intros H x Hx. apply (bool_decide_eq_true_1 _), H.
  by apply list_elem_of_In.
Qed.

Lemma threshold_reconstruction_witness :
  ∃ s, Reconstruct (share_inputs demo_sub) = Ok s ∧
       VerifyReconstruction (Some s) (Some demo_dealt_pk) = Ok () ∧
       (∀ s0, Some (sc 77) = Some s0 → s = s0).
Proof.
  apply (threshold_reconstruction (Some (sc 77)) 2 3 demo_ids (toy_rng 5) demo_dealt_kps
           demo_dealt_pk (snd demo_dealt)).
  - apply demo_ids_u32.
  - change (demo_dealt = (Ok (demo_dealt_kps, demo_dealt_pk), snd demo_dealt)). run.
  - apply sub_of_filter. eval_eq.
  - decided.
  - decided.
Defined.

Lemma RecoverSecret_order_witness :
  ∃ s, dealer.RecoverSecret (Some {[ 3%Z := Some (sc 7083); 1%Z := Some (sc 3037) ]}) [3; 1]%Z = Ok s.
Proof.
  destruct (RecoverSecret_order {[ 3%Z := Some (sc 7083); 1%Z := Some (sc 3037) ]} [3; 1]%Z)
    as (s & Hs & _).
  - decided.
  - done.
  - decided.
  - by exists s.
Defined.

Lemma shares_hide_secret_witness :
  ∃ p', length (Coefficients p') = 2 ∧ polynomialHelper.Evaluate p' 0%S = sc 99 ∧
    ∀ id, id ∈ [3%Z] →
      polynomialHelper.Evaluate p' (sc id) = polynomialHelper.Evaluate demo_poly (sc id).
Proof.
  apply shares_hide_secret; [done | simpl; lia | | decided].
  split; [decided | repeat constructor; done].
Defined.

Lemma TrustedDealerKeygen_consistent_witness : kp_Identifier <$> demo_kps = demo_ids.
Proof.
  apply (TrustedDealerKeygen_consistent 3 2 demo_ids (toy_rng 5) demo_kps demo_pkp
           (snd demo_keygen) demo_ids_u32 demo_keygen_run).
Defined.

(** ** A signing session *)

Definition demo_kp1 : KeyPackage :=
  match demo_quorum with kp :: _ => kp | [] =>
    {| kp_Identifier := 0; SecretShare := None; GroupPublicKey := None;
       VerificationShares := []; MinSigners := 0; MaxSigners := 0 |} end.

Lemma demo_kp1_eq :
  demo_kp1 = {| kp_Identifier := 1; SecretShare := Some (sc 3037);
                GroupPublicKey := Some demo_pk; VerificationShares := demo_vs;
                MinSigners := 2; MaxSigners := 3 |}.
Proof. decided. Defined.

Lemma RoundOne_spec_witness :
  let r := snd demo_keygen in
  fst (participant.RoundOne demo_kp1 r) ≠ Panic ∧
  ∃ bs1, rng_read r (rng_calls r) 32 = Some bs1 ∧
         sc 1943410628 = H3 (bs1 ++ s_Bytes (sc 3037)).
Proof.
  intros r. destruct (RoundOne_spec demo_kp1 (sc 3037) r) as [Hp Hok]; [by rewrite demo_kp1_eq |].
  split; [done |].
  destruct (Hok demo_n1 (Commitments demo_n1) (snd (participant.RoundOne demo_kp1 r)))
    as (bs1 & bs2 & H1 & _ & H).
  - apply run_eq. decided.
  - exists bs1. split; [done |]. destruct H as (_ & _ & H & _).
    apply (inj Some). exact (f_equal HidingNonce H).
Defined.

Lemma RoundTwo_spec_witness :
  participant.RoundTwo demo_kp1 demo_n1 demo_msg demo_list =
    Ok {| share_Identifier := 1;
          share_value := Some (share_formula demo_pk demo_list demo_msg 1
                                 (sc 1943410628) (sc 1123525984) (sc 3037)) |}.
Proof.
  apply (RoundTwo_spec demo_kp1 demo_n1 demo_msg demo_list demo_pk
           (sc 1943410628) (sc 1123525984) (sc 3037)).
  - apply demo_list_wf.
  - by rewrite demo_kp1_eq.
  - by rewrite demo_kp1_eq.
  - by rewrite demo_kp1_eq.
  - done.
  - done.
  - split; [apply demo_session_ok |]. rewrite demo_kp1_eq. split; [| split; [decided |]].
    + intros _. decided.
    + split; [decided | done].
Defined.

(** Participant 3 replaces its share. *)
Definition demo_bad_share : SignatureShare :=
  {| share_Identifier := 3; share_value := Some (sc 7) |}.
Definition demo_bad : list SignatureShare := take 1 demo_shares ++ [demo_bad_share].

Lemma demo_bad_present : shares_present demo_bad.
Proof. unfold demo_bad. rewrite demo_shares_eq. repeat constructor; cbn; try done; by eexists. Defined.

Lemma demo_bad_ok : aggregation_ok 2 demo_pk demo_list demo_msg demo_vs demo_bad.
Proof. apply demo_aggregation_ok; [apply demo_bad_present | decided]. Defined.

Lemma demo_good_ok : aggregation_ok 2 demo_pk demo_list demo_msg demo_vs demo_shares.
Proof. apply demo_aggregation_ok; [apply demo_shares_present | decided]. Defined.

Lemma demo_bad_shares :
  bad_shares demo_pk demo_list demo_msg demo_vs demo_bad = [demo_bad_share].
Proof. decided. Defined.

Lemma demo_no_bad_shares : bad_shares demo_pk demo_list demo_msg demo_vs demo_shares = [].
Proof. decided. Defined.

Lemma AggregateWithVerification_spec_witness :
  aggregator.AggregateWithVerification 2 (Some demo_pk) demo_list demo_msg demo_shares demo_vs
    = Ok (assembled demo_pk demo_list demo_msg demo_shares) ∧
  ∃ e, aggregator.AggregateWithVerification 2 (Some demo_pk) demo_list demo_msg demo_bad demo_vs
       = Fail e ∧ GetCulprits e = [3%Z].
Proof.
  split.
  - pose proof (AggregateWithVerification_spec _ _ _ _ _ _ demo_good_ok) as H.
    by rewrite demo_no_bad_shares in H.
  - pose proof (AggregateWithVerification_spec _ _ _ _ _ _ demo_bad_ok) as H.
    by rewrite demo_bad_shares in H.
Defined.

Lemma aggregateWithAllCheaterDetection_spec_witness :
  ∃ e, strategy.aggregateWithAllCheaterDetection (Some demo_pk) demo_list demo_msg demo_bad demo_vs 2
       = Fail e ∧ GetCulprits e = [3%Z].
Proof.
  pose proof (aggregateWithAllCheaterDetection_spec _ _ _ _ _ _ demo_bad_ok demo_keys_ok) as H.
  rewrite demo_bad_shares in H. destruct H as (e & He & Hc & _).
  exists e. split; [exact He | exact Hc].
Defined.

Lemma strategies_agree_witness :
  strategy.AggregateWithStrategy (Some demo_pk) demo_list demo_msg demo_shares demo_vs
    CheaterDetectionDisabled 2 = Ok (assembled demo_pk demo_list demo_msg demo_shares).
Proof. exact (proj1 (strategies_agree _ _ _ _ _ _ demo_good_ok demo_keys_ok)). Defined.

Definition demo_coeffs : list Scalar := [sc 1014; sc 2023].

Lemma verified_aggregate_verifies_witness :
  aggregator.Verify demo_msg (assembled demo_pk demo_list demo_msg demo_shares) (Some demo_pk) = Ok ().
Proof.
  apply (verified_aggregate_verifies 2 demo_pk demo_list demo_msg demo_coeffs demo_vs demo_shares).
  - apply demo_good_ok.
  - decided.
  - decided.
  - decided.
  - intros id Hid. assert (id = 1%Z ∨ id = 3%Z) as [-> | ->].
    { rewrite demo_list_eq in Hid. change (id ∈ [1; 3]%Z) in Hid.
      apply elem_of_cons in Hid as [Hid | Hid]; [by left |].
      apply list_elem_of_singleton in Hid. by right. }
    all: decided.
  - decided.
  - decided.
Defined.

Definition demo_err : error :=
  match strategy.AggregateWithStrategy (Some demo_pk) demo_list demo_msg demo_bad demo_vs
          CheaterDetectionAllCheaters 2 with
  | Fail err => err
  | _ => OpaqueError EmptyString
  end.

Lemma honest_never_blamed_witness : GetCulprits demo_err = [3%Z] ∧ 1%Z ∉ GetCulprits demo_err.
Proof.
  split; [eval_eq |].
  apply (honest_never_blamed 2 demo_pk demo_list demo_msg demo_vs demo_bad
    {| kp_Identifier := 1; SecretShare := Some (sc 3037);
       GroupPublicKey := Some demo_pk; VerificationShares := demo_vs;
       MinSigners := 2; MaxSigners := 3 |}
    demo_n1 (Commitments demo_n1) (sc 1943410628) (sc 1123525984) (sc 3037)
    {| share_Identifier := 1; share_value := Some (sc 3204242313) |}
    CheaterDetectionAllCheaters demo_err).
  - apply demo_bad_ok.
  - apply demo_keys_ok.
  - reflexivity.
  - reflexivity.
  - rewrite demo_list_eq. apply list_elem_of_here.
  - reflexivity.
  - reflexivity.
  - decided.
  - decided.
  - unfold demo_bad. rewrite demo_shares_eq. intros sh'. cbn. unfold demo_bad_share.
    rewrite !elem_of_cons. intros [-> | [-> | []%not_elem_of_nil]].
    + reflexivity.
    + discriminate.
  - eval_eq.
Defined.

Lemma demo_quorum_eq :
  demo_quorum = (λ '(id, s), {| kp_Identifier := id; SecretShare := Some (sc s);
                   GroupPublicKey := Some demo_pk; VerificationShares := demo_vs;
                   MinSigners := 2; MaxSigners := 3 |}) <$> [(1, 3037); (3, 7083)]%Z.
Proof. decided. Defined.

Lemma demo_pk_eq : pkp_GroupPublicKey demo_pkp = Some demo_pk.
Proof. eval_eq. Defined.

Lemma threshold_signing_witness :
  ∃ shares sig,
    (∀ s, (0 ≤ s ≤ 2)%Z →
       strategy.AggregateWithStrategy (pkp_GroupPublicKey demo_pkp) demo_list demo_msg shares
         demo_vs s 2 = Ok sig) ∧
    aggregator.Verify demo_msg sig (pkp_GroupPublicKey demo_pkp) = Ok ().
Proof.
  destruct (threshold_signing 3 2 demo_ids (toy_rng 5) demo_kps demo_pkp (snd demo_keygen)
              demo_quorum demo_msg demo_rounds (snd demo_round1) demo_pk)
    as (shares & sig & _ & Hagg & Hv).
  - apply demo_ids_u32.
  - apply demo_keygen_run.
  - apply demo_pk_eq.
  - apply sub_of_filter. eval_eq.
  - rewrite demo_quorum_eq. repeat constructor.
  - rewrite demo_quorum_eq. done.
  - apply demo_round1_run.
  - decided.
  - decided.
  - decided.
  - exists shares, sig. split; [exact Hagg | exact Hv].
Defined.

Definition demo_np : signing.NoncePackage :=
  {| signing.np_Nonces := demo_n1; signing.np_Commitments := Commitments demo_n1 |}.

Lemma Sign_order_independent_witness :
  signing.Sign demo_msg demo_kp1 demo_np (Some <$> demo_list) =
  signing.Sign demo_msg demo_kp1 demo_np (reverse (Some <$> demo_list)).
Proof. apply Sign_order_independent. symmetry. apply reverse_Permutation. Defined.

(** ** Preprocessed nonces *)

Definition demo_pre := preprocess.Preprocess 2 1 (Some (sc 3037)) (toy_rng 11).
Definition demo_pn : preprocess.PreprocessedNonces :=
  ok_or {| preprocess.Nonces := []; preprocess.pn_Commitments := [] |} (fst demo_pre).

Lemma Preprocess_valid_witness : preprocessed_ok 2 1 demo_pn.
Proof. apply (Preprocess_valid 2 1 (Some (sc 3037)) (toy_rng 11) demo_pn (snd demo_pre)). run. Defined.

Lemma Next_hands_out_once_witness :
  ∃ out p', take_nonces 3 demo_pn = Ok (out, p') ∧ preprocess.Len p' = 0.
Proof.
  destruct (Next_hands_out_once 3 demo_pn) as (out & p' & H & _ & Hl & _); [eval_eq |].
  exists out, p'. split; [exact H | exact Hl].
Defined.

Lemma derive_input_injective_witness :
  preprocess.derive_input demo_msg 4294967295 "hiding" ≠
  preprocess.derive_input demo_msg 4294967295 "binding".
Proof.
  intros H.
  destruct (derive_input_injective demo_msg 4294967295 4294967295 "hiding" "binding")
    as [_ Hl]; [done | done | | | exact H | discriminate Hl].
  - apply elem_of_cons. by left.
  - apply elem_of_cons. right. by apply list_elem_of_singleton.
Defined.

(** ** Batch verification *)

Definition demo_item : item_view :=
  {| iv_vk := g^(sc 5); iv_R := g^(sc 8); iv_z := sc 23; iv_c := sc 3 |}.

Lemma batch_complete_witness :
  fst (batch.Verify {| batch.items := to_item <$> [demo_item; demo_item; demo_item] |} (toy_rng 3))
  = Ok ().
Proof.
  apply batch_complete; [apply ZGroup_samples | apply toy_rng_works | done |].
  repeat constructor; unfold item_valid; decided.
Defined.

(** Two invalid items whose errors cancel under the blinds of [toy_rng 3]: the
    one value of the first blind that the soundness theorem leaves. *)
Definition demo_bad_item : item_view :=
  {| iv_vk := g^(sc 5); iv_R := g^(sc 2021); iv_z := sc 0; iv_c := sc 0 |}.
Definition demo_cancelling : item_view :=
  {| iv_vk := g^(sc 5); iv_R := g^(sc (-1012)); iv_z := sc 0; iv_c := sc 0 |}.

Lemma batch_sound_witness :
  ∃ r, ¬ item_valid demo_bad_item ∧
    fst (batch.Verify {| batch.items := to_item <$> [demo_bad_item; demo_cancelling] |} r) = Ok () ∧
    ∀ r' b r2, rand_repeat 2 RandomScalar r' = (Ok [b; sc 2021], r2) →
      fst (batch.Verify {| batch.items := to_item <$> [demo_bad_item; demo_cancelling] |} r') = Ok () →
      b = sc 1012.
Proof.
  assert (Hbad : ¬ item_valid demo_bad_item) by (unfold item_valid; decided).
  assert (Hacc : fst (batch.Verify {| batch.items := to_item <$> [demo_bad_item; demo_cancelling] |}
                        (toy_rng 3)) = Ok ()) by eval_eq.
  exists (toy_rng 3). split; [exact Hbad |]. split; [exact Hacc |]. intros r' b r2 Hr' Hacc'.
  apply (batch_sound [] demo_bad_item [demo_cancelling] [] [sc 2021] b (sc 1012) r' r2 (toy_rng 3)
           (snd (rand_repeat 2 RandomScalar (toy_rng 3)))).
  - exact Hbad.
  - discriminate.
  - reflexivity.
  - exact Hr'.
  - apply run_eq. decided.
  - exact Hacc'.
  - exact Hacc.
Defined.

(** ** Rerandomized signing *)

Definition demo_params : rerandomized.RandomizedParams :=
  {| rerandomized.Randomizer := sc 40; rerandomized.RandomizerElement := g^(sc 40);
     rerandomized.RandomizedVerifyingKey := g^(sc 1054) |}.

Lemma demo_params_eq :
  rerandomized.NewRandomizedParams (Some (sc 40)) (pkp_GroupPublicKey demo_pkp) = Ok demo_params.
Proof. eval_eq. Defined.

Lemma rerandomized_signing_witness :
  ∃ shares sig,
    range_map (λ '(kp, nonces), rerandomized.RoundTwo
      (rerandomized.NewRerandomizedParticipant kp demo_params) nonces demo_msg demo_list)
      (zip demo_quorum demo_rounds.*1) = Ok shares ∧
    let agg := rerandomized.NewRerandomizedAggregator 2 demo_params in
    rerandomized.Aggregate agg demo_list demo_msg shares demo_vs = Ok sig ∧
    rerandomized.Verify agg demo_msg sig = Ok ().
Proof.
  apply (rerandomized_signing 3 2 demo_ids (toy_rng 5) demo_kps demo_pkp (snd demo_keygen)
           demo_quorum demo_msg demo_rounds (snd demo_round1) (sc 40)).
  - apply demo_ids_u32.
  - apply demo_keygen_run.
  - apply demo_params_eq.
  - apply sub_of_filter. eval_eq.
  - rewrite demo_quorum_eq. repeat constructor.
  - rewrite demo_quorum_eq. done.
  - apply demo_round1_run.
  - decided.
  - decided.
Defined.

(** ** Distributed key generation *)

Definition demo_C : Element := g^(sc 6).
Definition demo_R : Element := g^(sc 10).
Definition demo_answer (id : Z) : Scalar := (sc 10 + sc 6 * dkg_chal id demo_C demo_R)%S.

Lemma proof_of_knowledge_extracts_witness :
  demo_C = g^((demo_answer 1 - demo_answer 2) *
              sc_inverse (dkg_chal 1 demo_C demo_R - dkg_chal 2 demo_C demo_R))%S.
Proof.
  apply (proof_of_knowledge_extracts DemoSuite DemoSuite 1 2 demo_C demo_R
           (demo_answer 1) (demo_answer 2) [] []).
  - eval_eq.
  - eval_eq.
  - decided.
Defined.

(** Three participants with a threshold of two. *)
#[local] Abbreviation run := (dkg.Round1SecretPackage * dkg.Round1Package)%type.
Definition empty_run : run :=
  ({| dkg.s1_Identifier := 0; dkg.s1_Coefficients := []; dkg.s1_Commitment := [];
      dkg.s1_MinSigners := 0; dkg.s1_MaxSigners := 0 |},
   {| dkg.r1_Commitment := []; dkg.ProofOfKnowledge := {| dkg.R := None; dkg.Z := None |} |}).
Definition demo_part1 (id : Z) := dkg.Part1 id 3 2 (toy_rng (100 * id)).
Definition demo_run (id : Z) : run := ok_or empty_run (fst (demo_part1 id)).
Definition demo_runs : gmap Z run := <[1%Z := demo_run 1]> (<[2%Z := demo_run 2]> {[3%Z := demo_run 3]}).

Lemma demo_part1_run id : id = 1%Z ∨ id = 2%Z ∨ id = 3%Z →
  demo_part1 id = (Ok (demo_run id), snd (demo_part1 id)).
Proof. intros [-> | [-> | ->]]; run. Defined.

Lemma demo_runs_honest : map_Forall (λ id r, is_uint32 id ∧
  ∃ s s', dkg.Part1 id 3 2 s = (Ok r, s')) demo_runs.
Proof.
  intros id r. unfold demo_runs. rewrite !lookup_insert_Some, lookup_singleton_Some.
  intros H.
  assert ((id = 1 ∨ id = 2 ∨ id = 3) ∧ r = demo_run id)%Z as [Hid ->]
    by (destruct H as [[<- <-] | [_ [[<- <-] | [_ [<- <-]]]]]; tauto).
  split; [by destruct Hid as [-> | [-> | ->]] |].
  eexists (toy_rng (100 * id)), _. by apply demo_part1_run.
Defined.

Lemma Part1_proof_accepted_witness :
  dkg.VerifyProofOfKnowledge 1 (Some (snd (demo_run 1))) = Ok ().
Proof.
  apply (Part1_proof_accepted 1 3 2 (toy_rng 100) (fst (demo_run 1)) (snd (demo_run 1))
           (snd (demo_part1 1))).
  rewrite <-surjective_pairing. apply demo_part1_run. by left.
Defined.

Lemma dkg_agreement_witness :
  ∃ cs pkp, length cs = 2 ∧ dkg.VerifyingKey pkp = g^(peval cs 0%S) ∧
    ∀ j r, demo_runs !! j = Some r → ∃ s2 out r2 kp,
      dkg.Part2 (Some (fst r)) (others demo_runs j) = Ok (s2, out) ∧
      dkg.Part3 (Some s2) (others demo_runs j) r2 = Ok (kp, pkp) ∧
      SecretShare kp = Some (peval cs (sc j)).
Proof.
  destruct (dkg_agreement 3 2 demo_runs) as (cs & pkp & sent & Hl & Hk & _ & H).
  - done.
  - done.
  - decided.
  - apply demo_runs_honest.
  - exists cs, pkp. split; [exact Hl |]. split; [exact Hk |]. intros j r Hr.
    destruct (H j r Hr) as (s2 & kp & H2 & H3 & _ & Hs & _). by eexists s2, _, _, kp.
Defined.

(** Round three of participant 1, on honest shares and on a wrong one from 3. *)
Definition demo_r1 : gmap Z (option dkg.Round1Package) :=
  <[2%Z := Some (snd (demo_run 2))]> {[3%Z := Some (snd (demo_run 3))]}.
Definition demo_share (id : Z) : Scalar := peval (dkg.s1_Coefficients (fst (demo_run id))) (sc 1).
Definition demo_r2 (s2 s3 : Scalar) : gmap Z (option dkg.Round2Package) :=
  <[2%Z := Some {| dkg.SigningShare := Some s2 |}]> {[3%Z := Some {| dkg.SigningShare := Some s3 |}]}.
Definition demo_sp : dkg.Round2SecretPackage := round2_state (fst (demo_run 1)).

Lemma demo_r1_Forall (P : Z → option dkg.Round1Package → Prop) :
  P 2%Z (Some (snd (demo_run 2))) → P 3%Z (Some (snd (demo_run 3))) → map_Forall P demo_r1.
Proof.
  intros H2 H3 id o. unfold demo_r1. rewrite lookup_insert_Some, lookup_singleton_Some.
  intros [[<- <-] | [_ [<- <-]]]; done.
Defined.

Definition demo_part3 (s2 s3 : Scalar) := dkg.Part3 (Some demo_sp) demo_r1 (demo_r2 s2 s3).
Definition demo_part3_out : KeyPackage * dkg.PublicKeyPackage :=
  ok_or (demo_kp1, {| dkg.VerifyingShares := ∅; dkg.VerifyingKey := Identity |})
    (demo_part3 (demo_share 2) (demo_share 3)).

Lemma Part3_consistent_witness :
  GroupPublicKey (fst demo_part3_out) = Some (dkg.VerifyingKey (snd demo_part3_out)) ∧
  ∃ s, SecretShare (fst demo_part3_out) = Some s ∧
       dkg.VerifyingShares (snd demo_part3_out) !! 1%Z = Some (g^s).
Proof.
  destruct (Part3_consistent 1 3 2 (toy_rng 100) (fst (demo_run 1)) (snd (demo_run 1))
              (snd (demo_part1 1)) demo_r1 demo_sp (round2_shares (dkg.s1_Coefficients (fst (demo_run 1))) demo_r1)
              (demo_r2 (demo_share 2) (demo_share 3)) (fst demo_part3_out) (snd demo_part3_out))
    as (_ & Hk & Hs & _).
  - done.
  - by apply demo_r1_Forall.
  - eval_eq.
  - rewrite <-surjective_pairing. apply demo_part1_run. by left.
  - eval_eq.
  - eval_eq.
  - split; [exact Hk | exact Hs].
Defined.

(** Round three by itself does not look at the lengths: when it gets a longer
    commitment than round two has seen, the share is checked against all of it
    and the sum takes the first [t] entries, so that the secret share does not
    match its entry of the public package. *)
Definition long_package : dkg.Round1Package :=
  {| dkg.r1_Commitment := commits (dkg.s1_Coefficients (fst (demo_run 2)) ++ [sc 5]);
     dkg.ProofOfKnowledge := dkg.ProofOfKnowledge (snd (demo_run 2)) |}.
Definition long_r1 : gmap Z (option dkg.Round1Package) := <[2%Z := Some long_package]> demo_r1.

Lemma Part3_truncates :
  ∃ kp pkp s,
    dkg.Part3 (Some demo_sp) long_r1 (demo_r2 (demo_share 2 + sc 5)%S (demo_share 3)) = Ok (kp, pkp) ∧
    SecretShare kp = Some s ∧ dkg.VerifyingShares pkp !! 1%Z ≠ Some (g^s).
Proof.
  set (out := ok_or (demo_kp1, {| dkg.VerifyingShares := ∅; dkg.VerifyingKey := Identity |})
    (dkg.Part3 (Some demo_sp) long_r1 (demo_r2 (demo_share 2 + sc 5)%S (demo_share 3)))).
  exists (fst out), (snd out), (default (sc 0) (SecretShare (fst out))).
  split; [eval_eq |]. split; [eval_eq | decided].
Qed.

Definition demo_blame : Z * string * error :=
  match demo_part3 (demo_share 2) (sc 12) with
  | Fail (SecretShareError id reason (Some err)) => (id, reason, err)
  | _ => (0%Z, EmptyString, OpaqueError EmptyString)
  end.

Lemma Part3_blames_cheaters_witness :
  ∃ p1, demo_r1 !! 3%Z = Some (Some p1) ∧
    ∀ cs, dkg.r1_Commitment p1 = commits cs → cs ≠ [] → sc 12 ≠ peval cs (sc 1).
Proof.
  destruct (Part3_blames_cheaters demo_sp demo_r1 (demo_r2 (demo_share 2) (sc 12)) 3
              (snd (fst demo_blame)) (Some (snd demo_blame))) as (p1 & p2 & H1 & H2 & H).
  - decided.
  - eval_eq.
  - exists p1. split; [exact H1 |]. intros cs Hc Hne Hs. apply (H cs Hc Hne).
    injection H2 as <-. exact (f_equal Some Hs).
Defined.

Definition demo_part2_out : gmap Z dkg.Round2Package :=
  snd (ok_or (demo_sp, ∅) (dkg.Part2 (Some (fst (demo_run 1))) demo_r1)).

Lemma Part2_spec_witness :
  map_Forall (peer_accepted 2) demo_r1 ∧
  demo_part2_out = round2_shares (dkg.s1_Coefficients (fst (demo_run 1))) demo_r1.
Proof.
  destruct (proj1 (Part2_spec (fst (demo_run 1)) demo_r1 demo_sp demo_part2_out
    ltac:(decided) ltac:(apply demo_r1_Forall; done))) as (_ & Hp & _ & Ho).
  - eval_eq.
  - split; [exact Hp | exact Ho].
Defined.

(** ** Refreshing and repairing shares *)

Definition demo_current : dkg.PublicKeyPackage :=
  {| dkg.VerifyingShares := <[1%Z := g^(sc 3037)]> (<[2%Z := g^(sc 5060)]> {[3%Z := g^(sc 7083)]});
     dkg.VerifyingKey := demo_pk |}.
Definition demo_refresh := refresh.ComputeRefreshingShares (Some demo_current) 3 2 demo_ids (toy_rng 8).
Definition demo_refresh_shares := fst (ok_or ([], demo_current) (fst demo_refresh)).
Definition demo_refreshed := snd (ok_or ([], demo_current) (fst demo_refresh)).

Lemma refresh_keeps_secret_witness :
  ∃ cs', length cs' = 2 ∧ peval cs' 0%S = sc 1014 ∧ dkg.VerifyingKey demo_refreshed = demo_pk ∧
         refresh.rs_Identifier <$> demo_refresh_shares = demo_ids.
Proof.
  destruct (refresh_keeps_secret demo_current 3 2 demo_ids (toy_rng 8) demo_refresh_shares
              demo_refreshed (snd demo_refresh) demo_coeffs)
    as (cs' & Hl & H0 & Hk & _ & Hids & _).
  - apply demo_ids_u32.
  - reflexivity.
  - intros id Hid. assert (id = 1 ∨ id = 2 ∨ id = 3)%Z as [-> | [-> | ->]].
    { unfold demo_ids in Hid. rewrite !elem_of_cons in Hid.
      destruct Hid as [? | [? | [? | []%not_elem_of_nil]]]; auto. }
    all: decided.
  - run.
  - exists cs'. split; [exact Hl |]. split; [rewrite H0; decided |]. split; [exact Hk | exact Hids].
Defined.

Lemma ApplyRefreshShare_spec_witness :
  (∃ kp', refresh.ApplyRefreshShare (refresh_share [sc 9] 1) (Some demo_kp1) = Ok kp') ∧
  ∀ kp', refresh.ApplyRefreshShare
    {| refresh.rs_Identifier := 1; refresh.rs_Share := Some (sc 10);
       refresh.rs_Commitment := commits [sc 9] |} (Some demo_kp1) ≠ Ok kp'.
Proof.
  assert (Hs : SecretShare demo_kp1 = Some (sc 3037)) by (rewrite demo_kp1_eq; reflexivity).
  assert (H1 : is_uint32 1) by decided. split.
  - eexists.
    apply (proj2 (ApplyRefreshShare_spec (refresh_share [sc 9] 1) demo_kp1
      (peval [sc 0; sc 9] (sc 1)) [sc 9] (sc 3037) _ H1 eq_refl eq_refl Hs)).
    split; [eval_eq |]. split; [decided | reflexivity].
  - intros kp' H.
    destruct (proj1 (ApplyRefreshShare_spec
      {| refresh.rs_Identifier := 1; refresh.rs_Share := Some (sc 10);
         refresh.rs_Commitment := commits [sc 9] |} demo_kp1 (sc 10) [sc 9] (sc 3037) kp'
      H1 eq_refl eq_refl Hs) H) as (_ & Ha & _).
    revert Ha. decided.
Defined.

Definition demo_kp3 : KeyPackage := List.nth 1 demo_quorum demo_kp1.
Definition demo_helpers : list KeyPackage := [demo_kp1; demo_kp3].
Definition demo_helper (kp : KeyPackage) (seed : Z) :=
  repairable.RepairShareStep1 (kp_Identifier <$> demo_helpers) (Some kp) 2 (toy_rng seed).
Definition demo_deltas (kp : KeyPackage) (seed : Z) : repairable.Step1Result :=
  ok_or {| repairable.Deltas := ∅ |} (fst (demo_helper kp seed)).

Lemma demo_helper_run kp seed :
  fst (demo_helper kp seed) = Ok (demo_deltas kp seed) →
  ∃ r r', repairable.RepairShareStep1 (kp_Identifier <$> demo_helpers) (Some kp) 2 r
          = (Ok (demo_deltas kp seed), r').
Proof. intros H. eexists (toy_rng seed), _. by apply run_eq. Defined.

Lemma repair_recovers_share_witness :
  ∃ sigmas, repairable.RepairShareStep3 sigmas 2 (Some demo_pk) (commits demo_coeffs)
            = Ok (recovered 2 (Some demo_pk) (peval demo_coeffs (sc 2))).
Proof.
  destruct (repair_recovers_share demo_helpers [demo_deltas demo_kp1 3; demo_deltas demo_kp3 4] 2
              demo_coeffs (Some demo_pk)) as (sigmas & _ & H3).
  - decided.
  - decided.
  - discriminate.
  - reflexivity.
  - intros kp. unfold demo_helpers. rewrite !elem_of_cons.
    intros [-> | [-> | []%not_elem_of_nil]]; decided.
  - apply Forall2_cons. split; [apply demo_helper_run; eval_eq |].
    apply Forall2_cons. split; [apply demo_helper_run; eval_eq | apply Forall2_nil_2].
  - exists sigmas. exact H3.
Defined.

Lemma RepairShareStep3_spec_witness :
  ∃ e, repairable.RepairShareStep3 (Some <$> [sc 5000; sc 61]) 2 (Some demo_pk) (commits demo_coeffs)
       = Fail e ∧ errors_Is e ErrInvalidKeyShare = true.
Proof.
  apply (RepairShareStep3_spec [sc 5000; sc 61] 2 (Some demo_pk) demo_coeffs);
    [done | done | done | decided].
Defined.
