(* ===== verification/SystemWitnesses.v ===== *)
(** * The system theorems at concrete inputs

    The witnesses of the service, session and serialization theorems, in the
    same demonstration group as [Witnesses.v]. *)

From Stdlib Require Import Zmod.
From S2P Require Import ZGroup.
From S2P Require Import Witnesses.
From S2P Require Import Serialization.
From S2P Require Import Service.
From S2P Require Import Session.

#[local] Instance DemoGroup : Group := ZGroup LittleEndian.
#[local] Instance DemoLaws : GroupLaws DemoGroup := ZGroup_laws LittleEndian.
#[local] Instance DemoSuite : Ciphersuite DemoGroup := ToySuite LittleEndian.
#[local] Instance DemoOrder : MapOrder := sorted_order.

(** ** The service *)

Definition svc_config : Configuration :=
  {| cfg_MinSigners := 2; cfg_MaxSigners := 3; cfg_Group_set := true |}.
Definition svc_keys := service.GenerateKeys svc_config (Some demo_ids) (toy_rng 5).
Definition svc_kps : list KeyPackage := fst (ok_or ([], Identity) (fst svc_keys)).
Definition svc_pk : Element := snd (ok_or ([], Identity) (fst svc_keys)).

(** Participants 3 and 1, in this order. *)
Definition svc_quorum : list KeyPackage :=
  match svc_kps with [a; _; c] => [c; a] | _ => [] end.
Definition svc_round1 := rand_map participant.RoundOne svc_quorum (snd svc_keys).
Definition svc_rounds := ok_or [] (fst svc_round1).

Lemma svc_keys_run : svc_keys = (Ok (svc_kps, svc_pk), snd svc_keys).
Proof. run. Defined.

Lemma svc_round1_run : svc_round1 = (Ok svc_rounds, snd svc_round1).
Proof. run. Defined.

Lemma service_signs_witness :
  ∃ sig, service.Sign (Some svc_quorum) demo_msg (snd svc_keys) = (Ok sig, snd svc_round1) ∧
         service.Verify demo_msg sig (Some svc_pk) = Ok ().
Proof.
  apply (service_signs svc_config demo_ids (toy_rng 5) svc_kps svc_pk (snd svc_keys)
           svc_quorum demo_msg svc_rounds (snd svc_round1)).
  - apply demo_ids_u32.
  - decided.
  - apply svc_keys_run.
  - apply sub_of_filter. eval_eq.
  - decided.
  - decided.
  - apply svc_round1_run.
  - decided.
  - decided.
  - decided.
Defined.

Lemma Sign_refuses_dealer_quorum_witness :
  service.Sign (Some demo_quorum) demo_msg (snd demo_keygen)
    ≠ (Ok {| sig_R := Some demo_pk; sig_Z := Some (sc 1) |}, snd demo_keygen) ∧
  fst (service.Sign (Some demo_quorum) demo_msg (snd demo_keygen))
    = Fail (Sentinel ErrInsufficientParticipants).
Proof.
  split; [| eval_eq].
  apply (Sign_refuses_dealer_quorum 3 2 demo_ids (toy_rng 5) demo_kps demo_pkp (snd demo_keygen)).
  - apply demo_ids_u32.
  - decided.
  - apply demo_keygen_run.
  - apply sub_of_filter. eval_eq.
  - decided.
Defined.

(** ** Sessions *)

Import session.

Definition ses0 : signingSession := newSigningSession "s" [3; 1]%Z demo_msg.
Definition ses1 := (AddCommitment (Commitments demo_n3) ses0).2.
Definition ses2 := (AddCommitment (Commitments demo_n1) ses1).2.

Lemma ses1_step : step ses0 ses1.
Proof. apply step_AddCommitment. Defined.

Lemma ses2_step : step ses1 ses2.
Proof. apply step_AddCommitment. Defined.

Lemma GetCommitmentList_spec_witness :
  GetCommitmentList ses2 = Ok [Commitments demo_n1; Commitments demo_n3] ∧
  StronglySorted Z.lt (cm_Identifier <$> [Commitments demo_n1; Commitments demo_n3]) ∧
  commitmentListEncoder.ValidateCommitmentList [Commitments demo_n1; Commitments demo_n3] = Ok ().
Proof.
  assert (Hok : GetCommitmentList ses2 = Ok [Commitments demo_n1; Commitments demo_n3]) by eval_eq.
  assert (Hr : reachable ses2).
  { exists "s", [3; 1]%Z, demo_msg.
    exact (rtc_l _ _ _ _ ses1_step (rtc_once _ _ ses2_step)). }
  destruct (GetCommitmentList_spec ses2 [Commitments demo_n1; Commitments demo_n3] Hr)
    as (Hiff & Hval & _).
  split; [exact Hok |]. split; [exact (proj1 (proj2 (proj1 Hiff Hok))) |].
  apply (Hval Hok). discriminate.
Defined.

(** Participant 3 sends its commitment twice, a stranger sends one, participant 1
    comes last. *)
Lemma session_progress_witness :
  ∃ l, GetCommitmentList (submit_all [Commit (Commitments demo_n3);
          Commit {| cm_Identifier := 9; HidingNonceCommitment := None; BindingNonceCommitment := None |};
          Commit {| cm_Identifier := 3; HidingNonceCommitment := None; BindingNonceCommitment := None |};
          Commit (Commitments demo_n1)] ses0) = Ok l ∧ Commitments demo_n3 ∈ l.
Proof.
  destruct (session_progress ses0 [Commit (Commitments demo_n3);
          Commit {| cm_Identifier := 9; HidingNonceCommitment := None; BindingNonceCommitment := None |};
          Commit {| cm_Identifier := 3; HidingNonceCommitment := None; BindingNonceCommitment := None |};
          Commit (Commitments demo_n1)]) as (l & Hl & Hin).
  - exists "s", [3; 1]%Z, demo_msg. constructor.
  - reflexivity.
  - decided.
  - change (participantIDs ses0) with [3; 1]%Z. intros i Hi.
    repeat (apply elem_of_cons in Hi as [-> | Hi]; [eexists; reflexivity |]).
    by apply not_elem_of_nil in Hi.
  - exists l. split; [exact Hl |]. apply (Hin 3%Z); [by left | reflexivity].
Defined.

(** A second commitment under identifier 3 and a cancellation change nothing. *)
Definition ses_forged : SigningCommitments :=
  {| cm_Identifier := 3; HidingNonceCommitment := Some demo_pk;
     BindingNonceCommitment := Some demo_pk |}.

Lemma accepted_is_final_witness :
  (commitments ses2 !! 3%Z = Some (Commitments demo_n3) ∧
   ∃ e, AddCommitment ses_forged ses2 = (Fail e, ses2)) ∧
  (isCanceled (Cancel ses1).2 = true ∧
   ∃ e, GetCommitmentList (Cancel ses1).2 = Fail e ∧ GetSignature (Cancel ses1).2 = Fail e).
Proof.
  assert (Hok : (AddCommitment (Commitments demo_n3) ses0).1 = Ok ()) by eval_eq.
  split.
  - destruct (accepted_is_final ses0 (Commitments demo_n3) ses2 ses_forged Hok
      (rtc_once _ _ ses2_step)) as (H1 & H2 & _).
    split; [exact H1 | apply H2; reflexivity].
  - assert (Hcan : isCanceled (Cancel ses1).2 = true) by reflexivity.
    destruct (accepted_is_final ses0 (Commitments demo_n3) (Cancel ses1).2 ses_forged Hok
      (rtc_once _ _ (step_Cancel _))) as (_ & _ & H3).
    split; [exact Hcan |].
    exact (proj2 (H3 Hcan _ (rtc_refl _ _))).
Defined.

Definition mgr0 : manager := newSessionManager (toy_rng 5).
Definition mgr1 : manager := (CreateSession (Some [3; 1]%Z) demo_msg mgr0).2.
Definition mgr_session : signingSession :=
  default ses0 (heap mgr1 !! 0).
Definition mgr_share (i : Z) : SignatureShare :=
  {| share_Identifier := i; share_value := Some (sc i) |}.
Definition mgr_s1 : signingSession := (AddSignatureShare (mgr_share 1) mgr_session).2.
Definition mgr_s2 : signingSession := (AddSignatureShare (mgr_share 3) mgr_s1).2.
Definition mgr2 : manager := {| heap := <[0 := mgr_s1]> (heap mgr1); sessions := sessions mgr1; random := random mgr1 |}.
Definition mgr3 : manager := {| heap := <[0 := mgr_s2]> (heap mgr2); sessions := sessions mgr2; random := random mgr2 |}.

Lemma mgr_run : rtc manager_step mgr0 mgr3.
Proof.
  eapply rtc_l; [apply (step_CreateSession mgr0 (Some [3; 1]%Z) demo_msg) |]. fold mgr1.
  eapply rtc_l; [apply (step_session mgr1 0 mgr_session mgr_s1); [reflexivity | constructor] |].
  apply rtc_once. apply (step_session mgr2 0 mgr_s1 mgr_s2); [reflexivity | constructor].
Defined.

Lemma session_never_signs_witness :
  IsComplete mgr_s2 = false ∧
  ∃ e, GetSignature mgr_s2 = Fail e ∧ errors_Is e ErrInvalidConfiguration = true.
Proof.
  assert (Hp : heap mgr3 !! 0 = Some mgr_s2) by reflexivity.
  destruct (session_never_signs (toy_rng 5) mgr3 0 mgr_s2 mgr_run Hp) as (H1 & e & H2 & H3).
  split; [exact H1 |]. exists e. split; [exact H2 |]. apply H3; [reflexivity |]. decided.
Defined.

(** ** Wire formats *)

Import serialization.

Definition wire_s : Serializer := NewSerializer.
Definition wire_other : Serializer := {| ciphersuiteID := 7 |}.
Definition wire_v : wire_value := WCommitments (Commitments demo_n3).
Definition wire_data : bytes := ok_or [] (serialize wire_s wire_v).

Lemma deserialize_serialize_witness :
  deserialize wire_s KCommitments wire_data = Ok wire_v ∧
  deserialize wire_s KSignature wire_data = Fail ErrDataTypeMismatch ∧
  deserialize wire_other KCommitments wire_data = Fail ErrCiphersuiteMismatch.
Proof.
  assert (Hid : is_uint32 (ciphersuiteID wire_s)) by decided.
  assert (Hv : wire_ids_ok wire_v) by (unfold wire_ids_ok, wire_v; decided).
  assert (Hd : serialize wire_s wire_v = Ok wire_data) by eval_eq.
  split; [| split].
  - exact (deserialize_serialize wire_s wire_s wire_v KCommitments wire_data Hid Hv Hd).
  - exact (deserialize_serialize wire_s wire_s wire_v KSignature wire_data Hid Hv Hd).
  - exact (deserialize_serialize wire_s wire_other wire_v KCommitments wire_data Hid Hv Hd).
Defined.

Lemma deserialize_total_witness :
  deserialize wire_s KSignature [] ≠ Panic ∧ length wire_data = HeaderSize + payload_length KCommitments.
Proof.
  assert (He : ∀ bs, DeserializeElement bs ≠ Panic) by apply ZGroup_element_no_panic.
  assert (Hs : ∀ bs, DeserializeScalar bs ≠ Panic) by apply zdecode_no_panic.
  split.
  - apply (deserialize_total wire_s KSignature [] He Hs).
  - apply (deserialize_total wire_s KCommitments wire_data He Hs) with (v := wire_v). eval_eq.
Defined.
