(* ===== verification/SecurityWitnesses.v ===== *)
(** * The security theorems at concrete inputs

    The witnesses of the reputation, sanitizer, nonce-tracking, authentication
    and coordinator theorems, in the demonstration group of [Witnesses.v], with
    concrete stand-ins for Go's [regexp], [crypto/sha256] and [crypto/ed25519]. *)

From Stdlib Require Import Zmod.
From S2P Require Import ZGroup.
From S2P Require Import Witnesses.
From S2P Require Import Reputation.
From S2P Require Import CommitmentTracker.
From S2P Require Import Authenticator.
From S2P Require Import Coordinator.

#[local] Instance DemoGroup : Group := ZGroup LittleEndian.
#[local] Instance DemoLaws : GroupLaws DemoGroup := ZGroup_laws LittleEndian.
#[local] Instance DemoSuite : Ciphersuite DemoGroup := ToySuite LittleEndian.
#[local] Instance DemoOrder : MapOrder := sorted_order.

(** An engine that never matches, a digest that pads, and a transparent signature
    scheme. *)
#[local] Instance DemoRegexp : security.Regexp :=
  {| security.ReplaceAllString := λ _ s _, s; security.ReplaceAllStringFunc := λ _ s _, s;
     security.FindStringSubmatch := λ _ _, [] |}.
#[local] Instance DemoSHA : SHA256 := {| sha256 b := take 32 (b ++ zero_bytes 32) |}.
#[local] Instance DemoEd25519 : Ed25519 :=
  {| ed_Verify pk msg sig := bool_decide (sig = pk ++ msg);
     ed_Sign sk msg := take 32 (sk ++ zero_bytes 32) ++ msg |}.

(** ** Reputation *)

Import reputation.

Definition rep_evs : list event :=
  [Record_ 7 MisbehaviorInvalidShare "bad" 10 11; Record_ 8 MisbehaviorInvalidShare "bad" 12 13;
   Record_ 7 MisbehaviorInvalidShare "bad" 14 15].

Lemma exclusion_policy_witness :
  policy_excludes DefaultReputationConfig 7 rep_evs ∧
  ¬ policy_excludes DefaultReputationConfig 8 rep_evs.
Proof.
  assert (Hlen : (Z.of_nat (length rep_evs) < 2 ^ 63)%Z) by reflexivity.
  split.
  - destruct (exclusion_policy DefaultReputationConfig rep_evs 7 Hlen) as (b & Hb & Hiff).
    apply Hiff. assert (He : IsExcluded (run DefaultReputationConfig rep_evs) 7 = Ok true) by eval_eq.
    congruence.
  - destruct (exclusion_policy DefaultReputationConfig rep_evs 8 Hlen) as (b & Hb & Hiff).
    intros Hp. apply Hiff in Hp.
    assert (He : IsExcluded (run DefaultReputationConfig rep_evs) 8 = Ok false) by eval_eq.
    congruence.
Defined.

(** ** Sanitized errors *)

Definition san_err : error :=
  NewParticipantError 3 "public key not found" security.ErrAuthenticationFailed.

Lemma sanitize_discloses_witness :
  errors_Is_value (default san_err (security.Sanitize security.globalSanitizer (Some san_err)))
    security.ErrAuthenticationFailed = true ∧
  GetCulprits (default san_err (security.Sanitize security.globalSanitizer (Some san_err))) = [].
Proof.
  assert (Hm : security.Mode (security.config security.globalSanitizer)
               ≠ security.ErrorSanitizationDisabled) by discriminate.
  destruct (sanitize_discloses security.globalSanitizer san_err
    (default san_err (security.Sanitize security.globalSanitizer (Some san_err))) Hm eq_refl)
    as (H1 & _ & H3 & _).
  split; [| exact H3]. apply H1. reflexivity.
Defined.

(** ** Nonce tracking *)

Definition trk_pk2 : Element := ScalarBaseMult (sc 9).
Definition trk_c (h b : Element) : SigningCommitments :=
  {| cm_Identifier := 3; HidingNonceCommitment := Some h; BindingNonceCommitment := Some b |}.
Definition trk_san := security.globalSanitizer.
Definition trk_t0 : @ct_state (InMemoryCommitments trk_san) := memory.NewInMemoryCommitmentTracker.
Definition trk_a : Element := ScalarBaseMult (sc 5).
Definition trk_b : Element := ScalarBaseMult (sc 6).
Definition trk_c3 : Element := ScalarBaseMult (sc 7).

Lemma nonce_reuse_refused_witness :
  refused (nonce.RecordSigningCommitments (H := InMemoryCommitments trk_san) "s" 3
    (trk_c trk_c3 trk_b) 2
    (nonce.RecordSigningCommitments (H := InMemoryCommitments trk_san) "s" 3
       (trk_c trk_a trk_b) 1 trk_t0).2).1.
Proof.
  apply (nonce_reuse_refused (T := InMemoryCommitments trk_san) "s" 3 (trk_c trk_a trk_b) 1 trk_t0
    _ (trk_c trk_c3 trk_b) trk_a trk_b 2 2).
  - reflexivity.
  - reflexivity.
  - eval_eq.
  - constructor.
  - eexists. reflexivity.
  - right. reflexivity.
Defined.

(** The binding commitment of an earlier pair comes back with a new hiding one. *)
Definition trk_t1 : @ct_state (InMemoryCommitments trk_san) :=
  (nonce.RecordSigningCommitments (H := InMemoryCommitments trk_san) "s" 3
     (trk_c trk_a trk_b) 1 trk_t0).2.

Lemma failed_recording_stays_witness :
  refused (nonce.RecordSigningCommitments (H := InMemoryCommitments trk_san) "s" 3
    (trk_c trk_c3 trk_pk2) 3
    (nonce.RecordSigningCommitments (H := InMemoryCommitments trk_san) "s" 3
       (trk_c trk_c3 trk_b) 2 trk_t1).2).1.
Proof.
  apply (failed_recording_stays (T := InMemoryCommitments trk_san) "s" 3 (trk_c trk_c3 trk_b) 2
    trk_t1 trk_c3 trk_b (trk_c trk_c3 trk_pk2) 3).
  - reflexivity.
  - reflexivity.
  - reflexivity.
  - apply eq_None_not_Some. eval_eq.
  - change (is_Some (memory.commitments trk_t1 !! commitment_Hash (binding_of "s" 3 trk_b))). decided.
Defined.

Lemma sessions_confused_witness :
  refused (nonce.RecordSigningCommitments (H := InMemoryCommitments trk_san) "a1" 1
    (trk_c trk_a trk_b) 2
    (nonce.RecordSigningCommitments (H := InMemoryCommitments trk_san) "a" 11
       (trk_c trk_a trk_b) 1 trk_t0).2).1.
Proof.
  apply (sessions_confused trk_san "a" (trk_c trk_a trk_b) 1 2 trk_t0 trk_a trk_b).
  - reflexivity.
  - reflexivity.
  - eval_eq.
Defined.

(** ** Authentication *)

Definition auth_sk : bytes := zero_bytes 64.
Definition auth_keys : option (gmap Z bytes) := Some {[ 3%Z := zero_bytes 32 ]}.
Definition auth_proof : bytes :=
  ok_or [] (authenticator.SignCommitment 3 (trk_c trk_a trk_b) auth_sk).

Lemma authentication_sound_witness :
  ∃ pk msg, ed_Verify pk msg auth_proof = true ∧
    ∀ c', HidingNonceCommitment c' = Some trk_a → BindingNonceCommitment c' = Some trk_b →
      authenticator.ed_AuthenticateCommitment auth_keys 3 c' auth_proof = Ok ().
Proof.
  destruct (authentication_sound auth_keys 3 (trk_c trk_a trk_b) trk_a trk_b auth_proof)
    as (pk & msg & _ & Hv & _ & _ & Hl).
  - decided.
  - split; [reflexivity |]. split; [reflexivity |]. split; decided.
  - eval_eq.
  - exists pk, msg. split; [exact Hv | exact Hl].
Defined.

(** ** The coordinator *)

Import coordinator.

(** Participants 3 and 1, in this order. *)
Definition crd_quorum : list KeyPackage :=
  match demo_kps with [a; _; c] => [c; a] | _ => [] end.
Definition crd_c : coordinator.coordinator :=
  NewCoordinatorWithPublicKey
    (list_to_map ((λ kp, (kp_Identifier kp, NewParticipant kp)) <$> crd_quorum))
    (λ pk, aggregator.Aggregate 2 (Some pk)) (Some demo_pk).
Definition crd_round1 := rand_map participant.RoundOne crd_quorum (snd demo_keygen).
Definition crd_rounds := ok_or [] (fst crd_round1).
Definition crd_s : state :=
  new_state (Some (NewInMemoryReputationTracker DefaultReputationConfig)) (snd demo_keygen).

Lemma crd_round1_run : crd_round1 = (Ok crd_rounds, snd crd_round1).
Proof. run. Defined.

Lemma crd_participants kp :
  kp ∈ crd_quorum → participants crd_c !! kp_Identifier kp = Some (NewParticipant kp).
Proof.
  intros Hkp. apply elem_of_list_to_map_1; [decided |].
  apply list_elem_of_fmap. exists kp. split; [reflexivity | exact Hkp].
Defined.

Lemma coordinator_signs_witness :
  ∃ sig s', Sign crd_c 100 101 [3; 1]%Z demo_msg crd_s = (Ok sig, s') ∧
    aggregator.Verify demo_msg sig (Some demo_pk) = Ok () ∧ noncesMap s' = ∅.
Proof.
  assert (Hids : kp_Identifier <$> crd_quorum = [3; 1]%Z) by eval_eq.
  rewrite <-Hids.
  apply (coordinator_signs 3 2 demo_ids (toy_rng 5) demo_kps demo_pkp (snd demo_keygen) crd_c
    100 101 crd_quorum demo_msg crd_s crd_rounds (snd crd_round1) demo_pk).
  - apply demo_ids_u32.
  - apply demo_keygen_run.
  - apply demo_pk_eq.
  - reflexivity.
  - reflexivity.
  - apply crd_participants.
  - intros tr [= <-]. decided.
  - apply sub_of_filter. eval_eq.
  - decided.
  - decided.
  - apply crd_round1_run.
  - decided.
  - decided.
  - decided.
Defined.

(** Two uses of participant 3's nonces, with a new round one in between. *)
Definition crd_n : SigningNonces := demo_n3.
Definition crd_s1 : state := (store_nonces 3 crd_n crd_s).2.
Definition crd_s2 : state := (take_nonces 3 crd_s1).2.
Definition crd_s3 : state := (store_nonces 3 crd_n crd_s2).2.
Definition crd_s4 : state := (take_nonces 3 crd_s3).2.

Lemma crd_steps : rtc (step (T := InMemoryTracker)) crd_s crd_s4.
Proof.
  eapply rtc_l; [apply (step_store 3 crd_n) |]. eapply rtc_l; [apply (step_take 3) |].
  eapply rtc_l; [apply (step_store 3 crd_n) |]. apply rtc_once. apply (step_take 3).
Defined.

Lemma nonces_used_once_witness :
  StoredNonces 3 crd_n ∈ [StoredNonces 3 crd_n] ∧ used_once (log crd_s4).
Proof.
  destruct (nonces_used_once (T := InMemoryTracker)) as [_ Hall].
  destruct (Hall _ _ _ crd_steps) as [Hu Hb]. split; [| exact Hu].
  apply (Hb [StoredNonces 3 crd_n] 3%Z crd_n [StoredNonces 3 crd_n] crd_n []). reflexivity.
Defined.

(** Participant 3 was excluded by hand. *)
Definition crd_x : state :=
  new_state (Some (ExcludeParticipant (NewInMemoryReputationTracker DefaultReputationConfig)
    3 "by hand" 1 2).2) (snd demo_keygen).

Lemma crd_x_excluded : excluded crd_x 3.
Proof. eexists. split; [reflexivity |]. eval_eq. Defined.

Lemma excluded_not_asked_witness :
  excluded (after crd_c (CallSign 5 6 [1; 3]%Z demo_msg) crd_x) 3 ∧
  ∃ id' e, RequestCommitments crd_c 5 6 [1; 3]%Z crd_x = (Fail e, crd_x) ∧
    id' ∈ [1; 3]%Z ∧ excluded crd_x id' ∧ GetCulprits e = [id'].
Proof.
  destruct (excluded_not_asked crd_c [CallSign 5 6 [1; 3]%Z demo_msg] crd_x 3 crd_x_excluded)
    as [H1 H2].
  split; [exact (proj1 (H1 crd_x_excluded)) |].
  apply H2; [decided |]. intros t id' [= <-] _. eexists. apply IsExcluded_Ok.
Defined.

(** A participant whose round one fails is charged and named. *)
Definition crd_bad : coordinator.coordinator :=
  NewCoordinator {[ 3%Z := {| P_RoundOne := λ r, (Fail (Sentinel ErrInvalidNonce), r);
                              P_RoundTwo := λ _ _ _, Panic |} ]}
    (λ _ _ _ _, Panic).
Definition crd_strict : state :=
  new_state (Some (NewInMemoryReputationTracker
    {| MaxAuthenticationFailures := 1; MaxInvalidShares := 1; MaxTimeouts := 1;
       MaxNonceReuses := 1; MaxInvalidCommitments := 1; RecordRetention := 0 |}))
    (snd demo_keygen).

Lemma blame_is_local_witness :
  ∃ e, (RequestCommitments crd_bad 5 6 [3]%Z crd_strict).1 = Fail e ∧ GetCulprits e = [3%Z].
Proof.
  destruct (blame_is_local (LT := InMemoryTracker_laws) crd_bad 5 6 [3]%Z [] demo_msg) as [H _].
  apply (H crd_strict 3%Z).
  assert (H0 : standing crd_strict 3 = Some (Ok false)) by eval_eq.
  assert (H1 : standing (RequestCommitments crd_bad 5 6 [3]%Z crd_strict).2 3 = Some (Ok true))
    by eval_eq.
  rewrite H0, H1. discriminate.
Defined.
