(* ===== verification/SuiteWitnesses.v ===== *)
(** * The ciphersuites on concrete libraries

    Libraries that satisfy the laws the suites are proved against: scalars
    modulo the prime of [ZGroup.v], curves that are its additive group times a
    small cyclic group, with encodings of the lengths of the real ones, and
    polynomial hashes.  The theorems of [Hashing] and [SuiteLaws] are applied
    to them. *)

From Stdlib Require Import Zmod.
From S2P Require Import ZGroup.
From S2P Require Import Witnesses.
From S2P Require Import Oracles.

Local Open Scope Z_scope.

(** ** Scalars modulo [zp] *)

Definition in_zp (o : ByteOrder_t) (len : nat) (bs : bytes) : option (Zmod zp) :=
  if (length bs =? len)%nat && (decode_int o bs <? zp) then Some (Zmod.of_Z zp (decode_int o bs))
  else None.

Definition zscalars (o : ByteOrder_t) (len : nat) : ScalarLib := {|
  LScalar := Zmod zp; l_New := Zmod.zero; l_Add := Zmod.add; l_Subtract := Zmod.sub;
  l_Multiply := Zmod.mul; l_Negate := Zmod.opp; l_Invert := Zmod.inv; l_Equal := Zmod.eqb;
  l_Bytes x := encode_int o len (Zmod.unsigned x);
  l_SetCanonicalBytes := in_zp o len;
|}.

Lemma zval_of z : 0 ≤ z < zp → Zmod.unsigned (Zmod.of_Z zp z) = z.
Proof. intros Hz. rewrite Zmod.unsigned_of_Z. by apply Z.mod_small. Qed.

Lemma in_zp_val o len bs :
  Zmod.unsigned <$> in_zp o len bs
  = if (length bs =? len)%nat && (decode_int o bs <? zp) then Some (decode_int o bs) else None.
Proof.
  unfold in_zp. destruct (_ && _) eqn:E; [| done]. cbn. f_equal. apply zval_of.
  apply andb_true_iff in E as [_ E%Z.ltb_lt]. split; [apply decode_int_bound | done].
Qed.

Lemma zinv_l (x : Zmod zp) :
  Zmod.unsigned x ≠ 0 → (Zmod.unsigned (Zmod.inv x) * Zmod.unsigned x) mod zp = 1.
Proof.
  intros Hx. rewrite <-Zmod.unsigned_mul. change 1 with (Zmod.unsigned (Zmod.one : Zmod zp)).
  f_equal. apply (Finv_l zfield). intros ->. by apply Hx.
Qed.

Definition zscalars_laws o len (H : (5 ≤ len)%nat) : ScalarLaws (zscalars o len) o len zp.
Proof.
  refine {| lval := (Zmod.unsigned : @LScalar (zscalars o len) → Z) |}.
  - done.
  - split; [| lia]. etrans; [| apply (Z.pow_le_mono_r 2 40)]; [by vm_compute | done | lia].
  - apply zp_range.
  - apply Zmod.unsigned_inj.
  - done.
  - apply Zmod.unsigned_add.
  - apply Zmod.unsigned_sub.
  - apply Zmod.unsigned_mul.
  - apply Zmod.unsigned_opp.
  - apply zinv_l.
  - intros x y. apply eq_true_iff_eq. cbn. rewrite zmod_eqb_true, Z.eqb_eq.
    split; [by intros -> | apply Zmod.unsigned_inj].
  - done.
  - apply in_zp_val.
Defined.

(** ** Curves of [h * zp] points *)

Section Points.
Context (h : Z) (Hh : 0 < h) (prefix : bytes) (o : ByteOrder_t).

Add Ring zp_ring : (Zmod.ring_theory zp).
Add Ring h_ring : (Zmod.ring_theory h).

Definition zpoint : Type := Zmod zp * Zmod h.

Definition zp_add (x y : zpoint) : zpoint := (Zmod.add x.1 y.1, Zmod.add x.2 y.2).
Definition zp_zero : zpoint := (Zmod.zero, Zmod.zero).
Definition zp_neg (x : zpoint) : zpoint := (Zmod.opp x.1, Zmod.opp x.2).
Definition zp_gen : zpoint := (Zmod.one, Zmod.zero).
Definition zp_mult (k : Z) (x : zpoint) : zpoint :=
  (Zmod.mul (Zmod.of_Z zp k) x.1, Zmod.mul (Zmod.of_Z h k) x.2).
Definition zp_eqb (x y : zpoint) : bool := Zmod.eqb x.1 y.1 && Zmod.eqb x.2 y.2.
Definition zp_bytes (x : zpoint) : bytes :=
  prefix ++ encode_int o 32 (Zmod.unsigned x.1 + zp * Zmod.unsigned x.2).
Definition zp_point (v : Z) : zpoint := (Zmod.of_Z zp v, Zmod.of_Z h (v / zp)).
Definition zp_decode (bs : bytes) : option zpoint :=
  let body := drop (length prefix) bs in
  if bool_decide (take (length prefix) bs = prefix) && (length body =? 32)%nat
     && (decode_int o body <? zp * h)
  then Some (zp_point (decode_int o body)) else None.

Lemma zp_abelian : AbelianOn (λ _, True) zp_add zp_zero zp_neg.
Proof.
  split; try done; unfold zp_add, zp_zero, zp_neg; intros; cbn.
  - f_equal; ring.
  - f_equal; ring.
  - destruct x. cbn. f_equal; ring.
  - f_equal; ring.
Qed.

Lemma zp_nmul k x : 0 ≤ k → nmul zp_add zp_zero k x = zp_mult k x.
Proof.
  intros Hk. unfold nmul. rewrite <-(Z2Nat.id k Hk) at 2.
  induction (Z.to_nat k) as [|m IH].
  - unfold zp_mult. change (Z.of_nat 0) with 0. trans zp_zero; [done |]. change (Zmod.of_Z zp 0) with (Zmod.zero : Zmod zp).
    change (Zmod.of_Z h 0) with (Zmod.zero : Zmod h). unfold zp_zero. f_equal; ring.
  - rewrite Nat.iter_succ, IH. unfold zp_mult, zp_add. cbn [fst snd].
    rewrite Nat2Z.inj_succ, <-Z.add_1_l, !Zmod.of_Z_add.
    change (Zmod.of_Z zp 1) with (Zmod.one : Zmod zp).
    change (Zmod.of_Z h 1) with (Zmod.one : Zmod h). f_equal; ring.
Qed.

Lemma zp_decode_bytes x : zp * h ≤ 2 ^ 256 → zp_decode (zp_bytes x) = Some x.
Proof.
  intros Hb. unfold zp_decode, zp_bytes. rewrite drop_app_length, take_app_length.
  rewrite bool_decide_eq_true_2, length_encode_int, Nat.eqb_refl by done.
  pose proof (zp_range x.1) as H1. pose proof (Zmod.unsigned_pos_bound x.2 Hh) as H2.
  assert (0 ≤ Zmod.unsigned x.1 + zp * Zmod.unsigned x.2 < zp * h) as Hv by nia.
  rewrite decode_encode_int by (change (8 * Z.of_nat 32) with 256; lia).
  rewrite (proj2 (Z.ltb_lt _ _)) by lia. cbn [andb]. f_equal. unfold zp_point.
  rewrite (Z.mul_comm zp), Z.div_add, Z.div_small by (done || lia).
  rewrite Z.add_0_l, Zmod.of_Z_unsigned. destruct x as [a b]. cbn [fst snd]. f_equal.
  apply Zmod.unsigned_inj. rewrite Zmod.unsigned_of_Z, Z.mod_add by done. by apply Z.mod_small.
Qed.

Lemma zp_eqb_true x y : zp_eqb x y = true ↔ x = y.
Proof.
  unfold zp_eqb. rewrite andb_true_iff, !Zmod.eqb_eq. destruct x, y. cbn. naive_solver.
Qed.
End Points.

(** The curve as a library, and its laws. *)
Definition zcurve (h : Z) (prefix : bytes) (o : ByteOrder_t) (len : nat)
  : PointLib (zscalars o len) :=
  Build_PointLib (zscalars o len) (zpoint h) (zp_zero h) (zp_gen h) (zp_add h) (zp_neg h) (zp_eqb h)
    (zp_bytes h prefix o) (zp_decode h prefix o)
    (λ s x, zp_mult h (Zmod.unsigned s) x) (λ s, zp_mult h (Zmod.unsigned s) (zp_gen h)).

Lemma zp_mult_gen h k : 0 < k < zp → zp_mult h k (zp_gen h) ≠ zp_zero h.
Proof.
  intros Hk H. apply (f_equal (λ x : zpoint h, Zmod.unsigned x.1)) in H.
  unfold zp_mult, zp_gen, zp_zero in H. cbn [fst snd] in H.
  rewrite Zmod.unsigned_mul, zval_of in H by lia.
  change (Zmod.unsigned (Zmod.one : Zmod zp)) with 1 in H.
  change (Zmod.unsigned (Zmod.zero : Zmod zp)) with 0 in H.
  rewrite Z.mul_1_r, Z.mod_small in H; lia.
Qed.

Lemma zp_killed h k x : 0 < h → k mod zp = 0 → k mod h = 0 → zp_mult h k x = zp_zero h.
Proof.
  intros Hh H1 H2. unfold zp_mult, zp_zero. f_equal; apply Zmod.unsigned_inj;
    rewrite Zmod.unsigned_mul, Zmod.unsigned_of_Z, Zmod.unsigned_0, ?H1, ?H2, Z.mul_0_l;
    apply Z.mod_0_l; (done || lia).
Qed.

Lemma zcurve_laws h prefix o len (H : (5 ≤ len)%nat) :
  0 < h → zp * h ≤ 2 ^ 256 → PointLaws (zcurve h prefix o len) (zscalars_laws o len H)
                               (length prefix + 32) h.
Proof.
  intros Hh Hb. split; cbn; try done.
  - apply zp_abelian.
  - apply zp_eqb_true.
  - intros s X. symmetry. apply zp_nmul. apply zp_range.
  - intros X. rewrite zp_nmul by (unfold zp; lia).
    apply zp_killed; [done | apply Z.mod_mul; done |]. rewrite Z.mul_comm. apply Z.mod_mul. lia.
  - rewrite zp_nmul by done. unfold zp_mult, zp_zero, zp_gen. cbn [fst snd].
    assert (Zmod.of_Z zp zp = Zmod.zero) as ->.
    { apply Zmod.unsigned_inj. by rewrite Zmod.unsigned_of_Z, Z_mod_same_full, Zmod.unsigned_0. }
    f_equal; first [apply Zmod.mul_0_l | apply Zmod.mul_0_r].
  - intros k Hk. rewrite zp_nmul by lia. by apply zp_mult_gen.
  - intros X _. unfold zp_bytes. by rewrite length_app, length_encode_int.
  - intros X _. by apply zp_decode_bytes.
Qed.

(** ** The libraries of the suites *)

Definition zuniform (o : ByteOrder_t) (len : nat) : UniformLib (zscalars o len) :=
  Build_UniformLib (zscalars o len)
    (λ bs, if (length bs =? 64)%nat then Some (Zmod.of_Z zp (le_combine bs)) else None).

#[local] Instance zsecp : SecpLib := {|
  secp_Scalar := zscalars BigEndian 32;
  secp_Point := zcurve 1 [byte.of_Z 2] BigEndian 32;
  secp_IsZero x := (Zmod.unsigned x =? 0);
  secp_NewScalarFromBytes bs := (Zmod.of_Z zp (be_combine bs) : @LScalar (zscalars BigEndian 32));
|}.

#[local] Instance zristretto : RistrettoLib := {|
  ristretto_Scalar := zscalars LittleEndian 32;
  ristretto_Uniform := zuniform LittleEndian 32;
  ristretto_Point := zcurve 1 [] LittleEndian 32;
  ristretto_map bs := if (length bs =? 64)%nat
                      then Some (zp_mult 1 (le_combine bs) (zp_gen 1)
                                 : @LPoint _ (zcurve 1 [] LittleEndian 32))
                      else None;
|}.

#[local] Instance zedwards : Edwards25519Lib := {|
  edwards_Scalar := zscalars LittleEndian 32;
  edwards_Uniform := zuniform LittleEndian 32;
  edwards_Point := zcurve 8 [] LittleEndian 32;
|}.

Lemma five_le_32 : (5 ≤ 32)%nat.
Proof. lia. Qed.

Lemma zuniform_laws : UniformLaws (zuniform LittleEndian 32) (zscalars_laws LittleEndian 32 five_le_32).
Proof.
  split. intros bs. cbn [l_SetUniformBytes zuniform]. destruct (length bs =? 64)%nat; [| done].
  apply (f_equal Some), Zmod.unsigned_of_Z.
Qed.

#[local] Instance zsecp_laws : SecpLaws zsecp zp.
Proof.
  refine {| secp_ScalarLaws := zscalars_laws BigEndian 32 five_le_32 |}.
  - by apply (zcurve_laws 1 [byte.of_Z 2]).
  - done.
  - intros bs _. apply Zmod.unsigned_of_Z.
  - intros X _. cbn. unfold zp_bytes. do 2 eexists. split; [done | by left].
Defined.

#[local] Instance zristretto_laws : RistrettoLaws zristretto zp.
Proof.
  refine {| ristretto_ScalarLaws := zscalars_laws LittleEndian 32 five_le_32 |}.
  - apply zuniform_laws.
  - by apply (zcurve_laws 1 []).
  - by apply zp_decode_bytes.
  - intros bs. cbn. destruct (Nat.eqb_spec (length bs) 64); naive_solver.
Defined.

#[local] Instance zedwards_laws : Edwards25519Laws zedwards zp.
Proof.
  refine {| edwards_ScalarLaws := zscalars_laws LittleEndian 32 five_le_32 |}.
  - apply zuniform_laws.
  - by apply (zcurve_laws 8 []).
  - by apply zp_decode_bytes.
Defined.

(** *** bigmod and crypto/elliptic *)

#[local] Instance zbigmod : BigmodLib := {|
  BNat := Zmod zp; nat_Zero := Zmod.zero; nat_Add := Zmod.add; nat_Sub := Zmod.sub;
  nat_Mul := Zmod.mul;
  nat_InverseVarTime x := if Zmod.eqb x Zmod.zero then None else Some (Zmod.inv x);
  nat_IsZero x := Zmod.eqb x Zmod.zero; nat_Equal := Zmod.eqb;
  nat_Bytes x := encode_int BigEndian 32 (Zmod.unsigned x);
  nat_SetBytes bs := in_zp BigEndian (length bs) bs;
  nat_SetOverflowingBytes bs := in_zp BigEndian (length bs) bs;
|}.

Lemma zeqb_val (x y : Zmod zp) : Zmod.eqb x y = (Zmod.unsigned x =? Zmod.unsigned y).
Proof.
  apply eq_true_iff_eq. rewrite zmod_eqb_true, Z.eqb_eq.
  split; [by intros -> | apply Zmod.unsigned_inj].
Qed.

#[local] Instance zbigmod_laws : BigmodLaws zbigmod zp.
Proof.
  refine {| nval := (Zmod.unsigned : @BNat zbigmod → Z) |}.
  - done.
  - apply zp_range.
  - apply Zmod.unsigned_inj.
  - done.
  - apply Zmod.unsigned_add.
  - apply Zmod.unsigned_sub.
  - apply Zmod.unsigned_mul.
  - intros x Hx. exists (Zmod.inv x). cbn [nat_InverseVarTime zbigmod].
    rewrite zeqb_val, Zmod.unsigned_0, (proj2 (Z.eqb_neq _ _) Hx). split; [done | by apply zinv_l].
  - intros x. cbn [nat_IsZero zbigmod]. by rewrite zeqb_val, Zmod.unsigned_0.
  - apply zeqb_val.
  - done.
  - intros bs _ Hb. cbn. unfold in_zp. cbn [decode_int].
    rewrite Nat.eqb_refl, (proj2 (Z.ltb_lt _ _) Hb). done.
  - intros bs x Hx. pose proof (in_zp_val BigEndian (length bs) bs) as Hv.
    cbn in Hx. rewrite Hx in Hv. cbn in Hv. destruct (_ && _); [| done]. by injection Hv.
  - done.
Defined.

(** A curve over the field of three elements with [zp] points: the point [k] has
    the coordinates [(k, 1)] or, past the half, [(-k, 2)]. *)
Definition zcoords (X : Zmod zp) : option (Z * Z) :=
  let k := Zmod.unsigned X in
  if k =? 0 then None else if 2 * k <? zp then Some (k, 1) else Some (zp - k, 2).

Definition zpoint_at (x y : Z) : Zmod zp := Zmod.of_Z zp (if y =? 1 then x else - x).

#[local] Instance zelliptic : EllipticLib := {|
  c_Add x1 y1 x2 y2 := zcoords (Zmod.add (zpoint_at x1 y1) (zpoint_at x2 y2));
  c_ScalarMult x y k := zcoords (Zmod.mul (Zmod.of_Z zp (be_combine k)) (zpoint_at x y));
  c_ScalarBaseMult k := zcoords (Zmod.mul (Zmod.of_Z zp (be_combine k)) (zpoint_at 1 1));
  c_MarshalCompressed x y := byte.of_Z (1 + y) :: encode_int BigEndian 32 x;
  c_UnmarshalCompressed bs :=
    match bs with
    | b :: body =>
        let x := be_combine body in let y := byte.unsigned b - 1 in
        if (length body =? 32)%nat && (0 <? x) && (2 * x <? zp) && ((y =? 1) || (y =? 2))
        then Some (x, y) else None
    | [] => None
    end;
  c_IsOnCurve x y := (0 <? x) && (2 * x <? zp) && ((y =? 1) || (y =? 2));
  c_P := 3; c_N := zp; c_Gx := 1; c_Gy := 1;
|}.

Lemma zcoords_spec X x y :
  zcoords X = Some (x, y) ↔ zpoint_at x y = X ∧ 0 < x ∧ 2 * x < zp ∧ (y = 1 ∨ y = 2).
Proof.
  unfold zcoords, zpoint_at. pose proof (zp_range X) as HX.
  assert (zp mod 2 = 1) as Hodd by done. pose proof (Z.div_mod zp 2 ltac:(done)) as Hd.
  split.
  - destruct (Z.eqb_spec (Zmod.unsigned X) 0); [done |].
    destruct (Z.ltb_spec (2 * Zmod.unsigned X) zp); intros [= <- <-]; cbn [Z.eqb Pos.eqb].
    + split; [apply Zmod.of_Z_unsigned | lia].
    + split; [| lia]. apply Zmod.unsigned_inj. rewrite Zmod.unsigned_of_Z.
      replace (- (zp - Zmod.unsigned X)) with (Zmod.unsigned X + (-1) * zp) by lia.
      rewrite Z.mod_add by done. by apply Z.mod_small.
  - intros (<- & Hx & H2 & [-> | ->]); cbn [Z.eqb Pos.eqb].
    + rewrite zval_of by lia. rewrite (proj2 (Z.eqb_neq _ _)), (proj2 (Z.ltb_lt _ _)) by lia. done.
    + rewrite Zmod.unsigned_of_Z, Z_mod_nz_opp_full, Z.mod_small by (rewrite ?Z.mod_small; lia).
      rewrite (proj2 (Z.eqb_neq _ _)), (proj2 (Z.ltb_ge _ _)) by lia. do 2 f_equal. lia.
Qed.

Lemma zcoords_None X : zcoords X = None ↔ X = Zmod.zero.
Proof.
  unfold zcoords. rewrite <-Zmod.unsigned_0_iff.
  destruct (Z.eqb_spec (Zmod.unsigned X) 0); [done |]. by destruct (_ <? _).
Qed.

Lemma zcoords_at X x y : zcoords X = Some (x, y) → zpoint_at x y = X.
Proof. by intros (H & _)%zcoords_spec. Qed.

Lemma zp_scale k (X : Zmod zp) : 0 ≤ k → nmul Zmod.add Zmod.zero k X = Zmod.mul (Zmod.of_Z zp k) X.
Proof.
  intros Hk. unfold nmul. rewrite <-(Z2Nat.id k Hk) at 2.
  induction (Z.to_nat k) as [|m IH]; [symmetry; apply Zmod.mul_0_l |].
  rewrite Nat.iter_succ, IH, Nat2Z.inj_succ, <-Z.add_1_l, Zmod.of_Z_add.
  rewrite Zmod.mul_add_l. f_equal. symmetry. apply Zmod.mul_1_l.
Qed.

Lemma zp_abelian1 : AbelianOn (λ _ : Zmod zp, True) Zmod.add Zmod.zero Zmod.opp.
Proof.
  destruct zfield as [HR _ _ _]. split; try done; intros.
  - apply (ARadd_assoc (Rth_ARth (Eqsth _) (Eq_ext _ _ _) HR)).
  - apply (Radd_comm HR).
  - rewrite (Radd_comm HR). apply (Radd_0_l HR).
  - apply (Ropp_def HR).
Qed.

Lemma zcoords_neg X x y : zcoords X = Some (x, y) → zcoords (Zmod.opp X) = Some (x, (3 - y) mod 3).
Proof.
  intros (<- & Hx & H2 & Hy)%zcoords_spec. apply zcoords_spec.
  assert (∀ a, Zmod.opp (Zmod.of_Z zp a) = Zmod.of_Z zp (- a)) as Hopp.
  { intros a. apply Zmod.unsigned_inj.
    by rewrite Zmod.unsigned_opp, !Zmod.unsigned_of_Z, <-!Z.sub_0_l, Zminus_mod_idemp_r. }
  unfold zpoint_at. destruct Hy as [-> | ->]; cbn [Z.eqb Pos.eqb].
  - change ((3 - 1) mod 3) with 2. rewrite Hopp. split; [done | lia].
  - change ((3 - 2) mod 3) with 1. rewrite Hopp, Z.opp_involutive. split; [done | lia].
Qed.

#[local] Instance zelliptic_laws : EllipticLaws zelliptic zp.
Proof.
  refine {| Pt := Zmod zp; pt_add := Zmod.add; pt_zero := Zmod.zero; pt_neg := Zmod.opp;
            coords := zcoords; pt_gen := Zmod.of_Z zp 1 |}.
  - apply zp_abelian1.
  - done.
  - apply zcoords_None.
  - intros X Y H. destruct (zcoords X) as [[x y]|] eqn:HX.
    + apply zcoords_at in HX as <-. symmetry in H. by apply zcoords_at in H.
    + apply zcoords_None in HX as ->. symmetry in H. by apply zcoords_None in H.
  - apply zcoords_neg.
  - apply zcoords_spec. split_and!; [done | done | done | by left].
  - intros X (_ & H & _)%zcoords_spec. lia.
  - intros x y. cbn. rewrite !andb_true_iff, orb_true_iff, !Z.ltb_lt, !Z.eqb_eq.
    split; [intros [[H1 H2] H3]; exists (zpoint_at x y); by apply zcoords_spec |].
    by intros [X (_ & H1 & H2 & H3)%zcoords_spec].
  - intros X Y x1 y1 x2 y2 HX%zcoords_at HY%zcoords_at. left. cbn. by rewrite HX, HY.
  - intros X x y k HX%zcoords_at. left. cbn [c_ScalarMult zelliptic].
    rewrite zp_scale, HX by apply (decode_int_bound BigEndian). done.
  - done.
  - intros X. rewrite zp_scale by done.
    assert (Zmod.of_Z zp zp = Zmod.zero) as ->; [| apply Zmod.mul_0_l].
    apply Zmod.unsigned_inj. by rewrite Zmod.unsigned_of_Z, Z_mod_same_full, Zmod.unsigned_0.
  - intros k Hk H. rewrite zp_scale in H by lia. apply (f_equal Zmod.unsigned) in H.
    rewrite Zmod.unsigned_mul, zval_of, zval_of, Zmod.unsigned_0, Z.mul_1_r, Z.mod_small in H;
      first [lia | done].
  - intros X x y _. cbn [c_MarshalCompressed zelliptic length]. by rewrite length_encode_int.
  - intros X x y (_ & _ & _ & Hy)%zcoords_spec. do 2 eexists. split; [done |].
    destruct Hy as [-> | ->]; [by left | by right].
  - intros X x y (_ & H1 & H2 & Hy)%zcoords_spec.
    cbn [c_MarshalCompressed c_UnmarshalCompressed zelliptic].
    assert (be_combine (encode_int BigEndian 32 x) = x) as ->.
    { apply (decode_encode_int BigEndian). assert (zp < 2 ^ (8 * Z.of_nat 32)) by done. lia. }
    rewrite length_encode_int, (proj2 (Z.ltb_lt 0 x)), (proj2 (Z.ltb_lt _ _)) by lia.
    by destruct Hy as [-> | ->].
Defined.

(** *** goldilocks *)

(** The encoding of a point: the smaller of [k] and [-k], and a sign bit. *)
Definition zgold_encode (X : Zmod zp) : bytes :=
  let k := Zmod.unsigned X in
  if 2 * k <? zp then le_split 56 k ++ [byte.of_Z 0] else le_split 56 (zp - k) ++ [byte.of_Z 128].

Definition zgold_decode (bs : bytes) : option (Zmod zp) :=
  let x := le_combine (take 56 bs) in
  let sign := le_combine (drop 56 bs) in
  if (length bs =? 57)%nat && (2 * x <? zp) then
    if sign =? 0 then Some (Zmod.of_Z zp x)
    else if (sign =? 128) && negb (x =? 0) then Some (Zmod.of_Z zp (- x)) else None
  else None.

Definition zarray (z : Z) : bytes := le_split 56 (z mod zp).

#[local] Instance zgold : GoldilocksLib := {|
  gs_Add x y := zarray (le_combine x + le_combine y);
  gs_Sub x y := zarray (le_combine x - le_combine y);
  gs_Mul x y := zarray (le_combine x * le_combine y);
  gs_Neg x := zarray (- le_combine x);
  gs_IsZero x := le_combine x =? 0;
  gs_FromBytes bs := zarray (le_combine bs);
  GPoint := Zmod zp; g_Identity := Zmod.zero; g_Generator := Zmod.of_Z zp 1; g_Add := Zmod.add;
  g_Double x := Zmod.add x x;
  g_ScalarMult s x := Zmod.mul (Zmod.of_Z zp (le_combine s)) x;
  g_ScalarBaseMult s := Zmod.mul (Zmod.of_Z zp (le_combine s)) (Zmod.of_Z zp 1);
  g_IsOnCurve _ := true; g_MarshalBinary := zgold_encode; g_FromBytes := zgold_decode;
|}.

Lemma zarray_residue z : residue zp (zarray z) z.
Proof.
  split; [apply length_le_split |]. unfold zarray. rewrite le_combine_split. apply Z.mod_small.
  pose proof (Z.mod_pos_bound z zp ltac:(done)). assert (zp < 2 ^ (Z.of_nat 56 * 8)) by done. lia.
Qed.

(** Decoding [x] with a sign byte. *)
Lemma zgold_decode_parts x b : 0 ≤ x → 2 * x < zp →
  zgold_decode (le_split 56 x ++ [b])
  = if byte.unsigned b =? 0 then Some (Zmod.of_Z zp x)
    else if (byte.unsigned b =? 128) && negb (x =? 0) then Some (Zmod.of_Z zp (- x)) else None.
Proof.
  intros Hx H2. unfold zgold_decode.
  rewrite length_app, length_le_split, take_app_length', drop_app_length' by (by rewrite length_le_split).
  assert (zp < 2 ^ (Z.of_nat 56 * 8)) by done.
  rewrite le_combine_split, Z.mod_small, le_combine_1, (proj2 (Z.ltb_lt _ _)) by lia. done.
Qed.

Lemma flip_sign_snoc s b : flip_sign (s ++ [b]) = s ++ [byte.of_Z (Z.lxor (byte.unsigned b) 128)].
Proof.
  unfold flip_sign. rewrite length_app. cbn [length]. replace (length s + 1 - 1)%nat with (length s) by lia.
  rewrite <-(Nat.add_0_r (length s)). by rewrite alter_app_r.
Qed.

Lemma zopp_of (X : Zmod zp) : Zmod.of_Z zp (- Zmod.unsigned X) = Zmod.opp X.
Proof.
  apply Zmod.unsigned_inj. by rewrite Zmod.unsigned_of_Z, Zmod.unsigned_opp.
Qed.

Lemma zsub_of (X : Zmod zp) : Zmod.of_Z zp (zp - Zmod.unsigned X) = Zmod.opp X.
Proof.
  apply Zmod.unsigned_inj. rewrite Zmod.unsigned_of_Z, Zmod.unsigned_opp.
  by rewrite <-Zminus_mod_idemp_l, Z_mod_same_full, Z.sub_0_l.
Qed.

(** The point and the sign of an encoding. *)
Lemma zgold_encode_cases X :
  let k := Zmod.unsigned X in
  (2 * k < zp ∧ zgold_encode X = le_split 56 k ++ [byte.of_Z 0])
  ∨ (zp < 2 * k ∧ zgold_encode X = le_split 56 (zp - k) ++ [byte.of_Z 128]).
Proof.
  intros k. unfold zgold_encode. fold k. destruct (Z.ltb_spec (2 * k) zp); [by left | right].
  split; [| done]. assert (zp mod 2 = 1) by done. pose proof (Z.div_mod zp 2 ltac:(done)). lia.
Qed.

Lemma zgold_roundtrip X : zgold_decode (zgold_encode X) = Some X.
Proof.
  pose proof (zp_range X) as HX. destruct (zgold_encode_cases X) as [[H ->]|[H ->]].
  - rewrite zgold_decode_parts by lia. change (byte.unsigned (byte.of_Z 0) =? 0) with true.
    f_equal. apply Zmod.of_Z_unsigned.
  - rewrite zgold_decode_parts by lia. change (byte.unsigned (byte.of_Z 128) =? 0) with false.
    change (byte.unsigned (byte.of_Z 128) =? 128) with true.
    rewrite (proj2 (Z.eqb_neq (zp - _) 0)) by lia. cbn [negb andb]. f_equal.
    apply Zmod.unsigned_inj. rewrite Zmod.unsigned_of_Z.
    replace (- (zp - Zmod.unsigned X)) with (Zmod.unsigned X + (-1) * zp) by lia.
    rewrite Z.mod_add by done. by apply Z.mod_small.
Qed.

Lemma zgold_flip X :
  zgold_decode (flip_sign (zgold_encode X)) = Some (Zmod.opp X)
  ∨ zgold_decode (flip_sign (zgold_encode X)) = None ∧ Zmod.opp X = X.
Proof.
  pose proof (zp_range X) as HX.
  destruct (zgold_encode_cases X) as [[H ->]|[H ->]]; rewrite flip_sign_snoc.
  - change (byte.of_Z (Z.lxor (byte.unsigned (byte.of_Z 0)) 128)) with (byte.of_Z 128).
    rewrite zgold_decode_parts by lia. change (byte.unsigned (byte.of_Z 128) =? 0) with false.
    change (byte.unsigned (byte.of_Z 128) =? 128) with true.
    destruct (Z.eqb_spec (Zmod.unsigned X) 0) as [H0|H0]; cbn [negb andb].
    + right. split; [done |]. apply Zmod.unsigned_0_iff in H0 as ->. apply Zmod.unsigned_inj.
      by rewrite Zmod.unsigned_opp, Zmod.unsigned_0.
    + left. f_equal. apply zopp_of.
  - change (byte.of_Z (Z.lxor (byte.unsigned (byte.of_Z 128)) 128)) with (byte.of_Z 0).
    rewrite zgold_decode_parts by lia. change (byte.unsigned (byte.of_Z 0) =? 0) with true.
    left. f_equal. apply zsub_of.
Qed.

#[local] Instance zgold_laws : GoldilocksLaws zgold zp.
Proof.
  refine {| gl_neg := (Zmod.opp : @GPoint zgold → @GPoint zgold) |}.
  - apply zp_Zprime.
  - split; reflexivity || (by apply Z.leb_le).
  - intros x y _ _. apply zarray_residue.
  - intros x y _ _. apply zarray_residue.
  - intros x y _ _. apply zarray_residue.
  - intros x _. apply zarray_residue.
  - intros x _. reflexivity.
  - intros bs. apply zarray_residue.
  - apply zp_abelian1.
  - intros X. reflexivity.
  - intros s X _ _ _. symmetry. apply zp_scale, le_combine_bound.
  - intros s. reflexivity.
  - exact (@el_order zelliptic zp zelliptic_laws (Zmod.of_Z zp 1)).
  - exact (@el_gen_order zelliptic zp zelliptic_laws).
  - intros X. reflexivity.
  - intros X. cbn [g_MarshalBinary zgold].
    destruct (zgold_encode_cases X) as [[_ ->]|[_ ->]]; by rewrite length_app, length_le_split.
  - apply zgold_roundtrip.
  - apply zgold_flip.
Defined.

(** ** The theorems *)

#[local] Instance zsha256 : SHA256 := {| sha256 b := le_split 32 (toy_hash 9 b) |}.
#[local] Instance zsha512 : SHA512 := {| sha512 b := le_split 64 (toy_hash 9 b) |}.
#[local] Instance zshake256 : SHAKE256 := {| shake256 k b := le_split k (toy_hash 9 b) |}.

#[local] Instance zsha256_laws : SHA256Laws zsha256.
Proof. split. intros b. apply length_le_split. Qed.
#[local] Instance zsha512_laws : SHA512Laws zsha512.
Proof. split. intros b. apply length_le_split. Qed.
#[local] Instance zshake256_laws : SHAKE256Laws zshake256.
Proof. split. intros k b. apply length_le_split. Qed.

Definition zorder : bytes := encode_int LittleEndian 57 zp.

Lemma zorder_value : ed448.groupOrder zorder = zp.
Proof. vm_compute. reflexivity. Qed.

Lemma zorder_length : length zorder = 57%nat.
Proof. reflexivity. Qed.

Definition zdeployed_p256 :=
  deployed_p256 zsha256 zbigmod zelliptic zp 1 zbigmod_laws zelliptic_laws zsha256_laws.
Definition zdeployed_secp := deployed_secp256k1 zsha256 zsecp zp 1 zsecp_laws zsha256_laws.
Definition zdeployed_ristretto := deployed_ristretto255 zsha512 zristretto zp zristretto_laws zsha512_laws.
Definition zdeployed_ed25519 := deployed_ed25519 zsha512 zedwards zp zedwards_laws zsha512_laws.
Definition zdeployed_ed448 :=
  deployed_ed448 zshake256 zgold zp zgold_laws zorder zorder_value zorder_length zshake256_laws.

#[local] Instance zG256 : Group := p256.NewGroup (B := zbigmod) (C := zelliptic) 1.
#[local] Instance zL256 : AdapterLaws zG256 :=
  p256.laws (LB := zbigmod_laws) (LC := zelliptic_laws) 1.
#[local] Instance zG448 : Group := ed448.NewGroup (V := zgold) zorder.
#[local] Instance zL448 : AdapterLaws zG448 :=
  ed448.laws (L := zgold_laws) zorder zorder_value zorder_length.

Lemma deployed_contract_witness :
  @closed_operations zG256 zL256 ∧
  ∃ GL : GroupLaws (@restrict zG448 zL448), @order _ GL = zp ∧
    (∀ x y : @Scalar (@restrict zG448 zL448),
       @s_Compare (@restrict zG448 zL448) x y
       = big_Cmp (@sval zG448 zL448 (proj1_sig x)) (@sval zG448 zL448 (proj1_sig y))) ∧
    ∀ bs (P : @Element (@restrict zG448 zL448)),
      @DeserializeElement (@restrict zG448 zL448) bs = Ok P
      ↔ @DeserializeElement zG448 bs = Ok (proj1_sig P).
Proof.
  split.
  - exact (proj1 (deployed_contract _ _ zp zdeployed_p256)).
  - exact (proj2 (proj2 (deployed_contract _ _ zp zdeployed_ed448))).
Defined.

(** *** A session over the Ed25519 suite

    Participants 1 and 3 with packages of the sharing polynomial [7 + 5 x]. *)

Definition zG : Group := ed25519.NewGroup (V := zedwards).
Definition zL : AdapterLaws zG := ed25519.laws (L := zedwards_laws).
Definition zVG : Group := @restrict zG zL.
Definition zGL : GroupLaws zVG := restrict_laws zG.
Definition zCS : Ciphersuite zG := ed25519_sha512.New.
Definition zVCS : Ciphersuite zVG :=
  restrict_suite zCS zL (su_valid (SuiteLaws := deployed_laws zCS zL zp zdeployed_ed25519)).

#[local] Existing Instances zVG zGL zVCS.

Definition zcs : list (@Scalar zVG) := [sc 7; sc 5].
Definition zvs : list VerificationShare := public_shares zcs [1; 2; 3].
Definition zsigner (id d e : Z) : signer :=
  {| s_kp := dealt_package zcs zvs 2 3 id; s_d := sc d; s_e := sc e |}.
Definition zsigners : list signer := [zsigner 3 21 22; zsigner 1 11 12].
Definition zmsg : bytes := string_bytes "hello".

Lemma zsc_nonzero a : 0 < a ≤ uint32_max → @sc zVG zGL a ≠ sc 0.
Proof. apply sc_nonzero. Defined.

Definition zpk : @Element zVG := ScalarBaseMult (peval zcs (sc 0)).
Definition zR : @Element zVG := group_commitment zpk (run_list zsigners) zmsg.


(** Elements and scalars are told apart by their first coordinates. *)
Lemma zVG_ne (P Q : @Element zVG) :
  (Zmod.unsigned (proj1_sig P).1 =? Zmod.unsigned (proj1_sig Q).1) = false → P ≠ Q.
Proof. intros H ->. by rewrite Z.eqb_refl in H. Defined.

Lemma zVS_ne (x y : @Scalar zVG) :
  (Zmod.unsigned (proj1_sig x) =? Zmod.unsigned (proj1_sig y)) = false → x ≠ y.
Proof. intros H ->. by rewrite Z.eqb_refl in H. Defined.

Lemma zsession : honest_run zcs zvs 2 3 [1; 2; 3] zsigners zmsg.
Proof.
  split.
  - repeat constructor; done.
  - cbn. lia.
  - cbn. lia.
  - intros kp. cbn [fmap list_fmap s_kp zsigner zsigners]. rewrite !elem_of_cons.
    intros [-> | [-> | []%not_elem_of_nil]]; tauto.
  - apply (bool_decide_unpack _). by vm_compute.
  - repeat constructor; apply zsc_nonzero; done.
  - apply zVG_ne. vm_compute. reflexivity.
  - apply zVS_ne. vm_compute. reflexivity.
Defined.

Lemma deployed_signing_witness :
  zpk ≠ Identity ∧
  ∃ shares R z,
    range_map (λ p, participant.RoundTwo (s_kp p)
                 (round_one_nonces (signer_id p) (s_d p) (s_e p)) zmsg (run_list zsigners)) zsigners
    = Ok shares ∧
    aggregator.Aggregate 2 (Some zpk) (run_list zsigners) zmsg shares
    = Ok {| sig_R := Some R; sig_Z := Some z |} ∧
    ed25519_sha512.VerifySignature zmsg (signature_bytes (G := zG) (proj1_sig R) (proj1_sig z))
      (Some (proj1_sig zpk)) = Ok ().
Proof.
  assert (zpk ≠ Identity) as Hpk by (apply zVG_ne; vm_compute; reflexivity).
  split; [exact Hpk |].
  exact (deployed_signing zCS zL zp zdeployed_ed25519 zcs zvs 2 3 [1; 2; 3] zsigners zmsg
           zsession Hpk).
Defined.

Lemma verifiers_agree_witness :
  zR ≠ Identity ∧ zpk ≠ Identity ∧
  (aggregator.Verify zmsg {| sig_R := Some zR; sig_Z := Some (sc 1) |} (Some zpk) = Ok ()
   ↔ ed25519_sha512.VerifySignature zmsg
       (signature_bytes (G := zG) (proj1_sig zR) (proj1_sig (@sc zVG zGL 1)))
       (Some (proj1_sig zpk)) = Ok ()
     ∧ chal zR zpk zmsg ≠ sc 0).
Proof.
  assert (zR ≠ Identity) as HR by (apply zVG_ne; vm_compute; reflexivity).
  assert (zpk ≠ Identity) as Hpk by (apply zVG_ne; vm_compute; reflexivity).
  split; [exact HR |]. split; [exact Hpk |].
  exact (verifiers_agree zCS zL zp zdeployed_ed25519 zmsg zR zpk (sc 1) HR Hpk).
Defined.

Lemma suite_oracles_witness :
  (let b0 := sha256 (hash_input sP256 oRho zmsg) in
   answers (@nval zbigmod zp zbigmod_laws) zp (be_combine (uniform_48 b0 (dst_of sP256 oRho))) b0
     (ask (p256_sha256.New 1) oRho zmsg)) ∧
  (let h := shake256 114 (hash_input sEd448 oChal zmsg) in
   answers le_combine zp (le_combine h) h (ask (ed448_shake256.New zorder) oChal zmsg)) ∧
  hash_input sEd25519 oRho zmsg ≠ hash_input sEd448 oChal zmsg.
Proof.
  destruct (suite_oracles zbigmod_laws zelliptic_laws zsecp_laws zristretto_laws zedwards_laws
    zgold_laws 1 zorder) as [Ha Hs].
  split; [apply (Ha oRho zmsg) |]. split; [apply (Ha oChal zmsg) |].
  intros H. destruct (Hs sEd25519 oRho zmsg sEd448 oChal zmsg) as [E _]; [| | exact H | discriminate E].
  - intros [_ E]. discriminate E.
  - intros [E _]. discriminate E.
Defined.

Lemma rho_domain : "rho"%string ∈ domains.
Proof. apply (bool_decide_eq_true_1 _). vm_compute. reflexivity. Qed.

Lemma hash_to_field_witness :
  ∃ out x,
    expand_message_xmd zmsg
      (string_bytes p256_sha256.contextString ++ string_bytes "rho") 48 = Some out
    ∧ p256_sha256.hashToScalar 1 "rho" zmsg = Ok x
    ∧ @nval zbigmod zp zbigmod_laws x = be_combine out mod zp.
Proof. exact (proj1 (hash_to_field zbigmod_laws zelliptic_laws zsecp_laws 1 "rho" zmsg rho_domain)). Defined.

(** A source whose first read is zero and whose second read is 5. *)
Definition zreads : Rng :=
  {| rng_read k n := Some (encode_int BigEndian n (if (k =? 0)%nat then 0 else 5)); rng_calls := 0 |}.

Lemma random_scalar_returns_witness :
  ∃ x, @nval zbigmod zp zbigmod_laws x = 5 ∧
       p256.randomScalar 2 zreads = Some (Ok x, advance 2 zreads).
Proof.
  change 5 with (be_combine (encode_int BigEndian 32 5)).
  apply (random_scalar_returns zbigmod_laws zsecp_laws zreads 1 2).
  - lia.
  - split; [| reflexivity]. intros j Hj. exists (encode_int BigEndian 32 0).
    assert (j = 0%nat) as -> by lia. split; [reflexivity |]. vm_compute. intros [H _]. discriminate H.
  - reflexivity.
  - split; reflexivity.
Defined.

Lemma subgroup_checks_witness :
  (∀ X, X ≠ p_Identity → ed25519.Group_DeserializeElement (V := zedwards) (p_Bytes X) = Ok X) ∧
  ∃ X : zpoint 8, in_subgroup (P := zcurve 8 [] LittleEndian 32) LittleEndian 32 X = false.
Proof.
  split; [exact (proj1 (subgroup_checks zedwards_laws zgold_laws zorder zorder_value zorder_length)) |].
  exists (Zmod.zero, Zmod.one). vm_compute. reflexivity.
Defined.
