(* ===== verification/StoreWitnesses.v ===== *)
(** * The storage theorems at concrete inputs

    The witnesses of the secure-memory, signer, storage and key store theorems,
    with concrete stand-ins for memguard, encoding/json and crypto/ed25519: an
    enclave that holds its data in the clear, a binary encoding of the stored
    structs, and a transparent signature scheme. *)

From stdpp Require Import countable.
From Stdlib Require Import Zmod.
From Stdlib Require Strings.Byte.
From S2P Require Import ZGroup.
From S2P Require Import Witnesses.
From S2P Require Import Authenticator.
From S2P Require Import Participant.
From S2P Require Import Secmem.
From S2P Require Import Signer.
From S2P Require Import Storage.
From S2P Require Import FileBackend.
From S2P Require Import FileStore.
From S2P Require Import Keystore.
From S2P Require Import KeystoreFiles.

#[local] Instance DemoGroup : Group := ZGroup LittleEndian.
#[local] Instance DemoLaws : GroupLaws DemoGroup := ZGroup_laws LittleEndian.
#[local] Instance DemoSuite : Ciphersuite DemoGroup := ToySuite LittleEndian.
#[local] Instance DemoOrder : MapOrder := sorted_order.

#[local] Instance DemoMemguard : Memguard :=
  {| mg_Enclaves := {| Enclave := bytes |}; mg_Seal := λ b, b; mg_Open := λ b, Ok b |}.

#[local] Instance DemoMemguard_laws : MemguardLaws DemoMemguard.
Proof. split. reflexivity. Qed.

#[local] Instance DemoEd25519 : Ed25519 :=
  {| ed_Verify pk msg sig := bool_decide (sig = pk ++ msg);
     ed_Sign sk msg := take 32 (sk ++ zero_bytes 32) ++ msg |}.

#[local] Program Instance DemoEd25519_laws : Ed25519Laws DemoEd25519 :=
  {| ed_Public sk := take 32 (sk ++ zero_bytes 32) |}.
Next Obligation.
  intros sk. cbn beta. unfold zero_bytes. rewrite length_take, length_app, length_replicate. lia.
Qed.
Next Obligation. intros sk msg. cbn. by rewrite bool_decide_true. Qed.

#[local] Program Instance DemoEd25519_keys : Ed25519Keys DemoEd25519_laws :=
  {| ed_NewKeyFromSeed seed := seed ++ seed |}.
Next Obligation.
  intros seed Hs. cbn. rewrite length_app, drop_app_length', <-app_assoc, take_app_length' by done.
  split; [lia | done].
Qed.

(** ** encoding/json *)

Definition positive_bytes : positive → bytes :=
  fix go p := match p with
              | xH => []
              | xO p => byte.of_Z 0 :: go p
              | xI p => byte.of_Z 1 :: go p
              end.
Definition bytes_positive : bytes → positive :=
  fix go b := match b with
              | [] => xH
              | c :: b => if bool_decide (c = byte.of_Z 0) then xO (go b) else xI (go b)
              end.

Lemma bytes_positive_bytes p : bytes_positive (positive_bytes p) = p.
Proof. induction p as [p IH|p IH|]; cbn; by rewrite ?IH. Qed.

#[local] Instance byte_countable : Countable Init.Byte.byte :=
  inj_countable Strings.Byte.to_N Strings.Byte.of_N Strings.Byte.of_to_N.

Import stored.

Abbreviation metadata_tuple := (string * string * Z * Z * Z * Z * gmap string string)%type.
Abbreviation package_tuple := (Z * bytes * bytes * list (Z * bytes) * metadata_tuple)%type.
Abbreviation group_tuple := (string * bytes * Z * Z * Z)%type.

Definition metadata_to (m : KeyMetadata) : metadata_tuple :=
  (KeyID m, GroupID m, md_MinSigners m, md_MaxSigners m, CreatedAt m, UpdatedAt m, Tags m).
Definition metadata_of (t : metadata_tuple) : KeyMetadata :=
  let '(k, g, mn, mx, c, u, tags) := t in
  {| KeyID := k; GroupID := g; md_MinSigners := mn; md_MaxSigners := mx; CreatedAt := c;
     UpdatedAt := u; Tags := tags |}.

Definition package_to (s : StoredKeyPackage) : package_tuple :=
  (skp_Identifier s, skp_SecretShare s, skp_GroupPublicKey s,
   (λ v, (svs_Identifier v, svs_VerificationKey v)) <$> skp_VerificationShares s,
   metadata_to (skp_Metadata s)).
Definition package_of (t : package_tuple) : StoredKeyPackage :=
  let '(i, x, p, vs, m) := t in
  {| skp_Identifier := i; skp_SecretShare := x; SecretShareProtected := None;
     skp_GroupPublicKey := p;
     skp_VerificationShares :=
       (λ v, {| svs_Identifier := v.1; svs_VerificationKey := v.2 |}) <$> vs;
     skp_Metadata := metadata_of m |}.

Definition group_to (e : GroupPublicKeyEntry) : group_tuple :=
  (ge_GroupID e, ge_PublicKey e, ge_MinSigners e, ge_MaxSigners e, ge_CreatedAt e).
Definition group_of (t : group_tuple) : GroupPublicKeyEntry :=
  let '(g, p, mn, mx, c) := t in
  {| ge_GroupID := g; ge_PublicKey := p; ge_MinSigners := mn; ge_MaxSigners := mx;
     ge_CreatedAt := c |}.

Lemma package_of_to s : package_of (package_to s) = unprotected s.
Proof.
  destruct s as [i x prot p vs m]. unfold package_of, package_to, unprotected. cbn.
  f_equal; [| by destruct m].
  rewrite <-list_fmap_compose. induction vs as [|[] vs IH]; [done |]. cbn. by f_equal.
Qed.

Lemma group_of_to e : group_of (group_to e) = e.
Proof. by destruct e. Qed.

#[local] Instance DemoJson : Json := {|
  json_Marshal s := Ok (positive_bytes (encode (package_to s)));
  json_Unmarshal b := match decode (bytes_positive b) with
                      | Some t => Ok (package_of t)
                      | None => Fail (OpaqueError "unexpected end of JSON input")
                      end;
  json_MarshalGroup e := Ok (positive_bytes (encode (group_to e)));
  json_UnmarshalGroup b := match decode (bytes_positive b) with
                           | Some t => Ok (group_of t)
                           | None => Fail (OpaqueError "unexpected end of JSON input")
                           end;
|}.

#[local] Program Instance DemoJson_laws : JsonLaws DemoJson := {| utf8 := λ _, True |}.
Next Obligation.
  intros s _ _ _. cbn. unfold mbind, outcome_mbind, outcome_bind.
  by rewrite bytes_positive_bytes, decode_encode, package_of_to.
Qed.
Next Obligation.
  intros e _. cbn. unfold mbind, outcome_mbind, outcome_bind.
  by rewrite bytes_positive_bytes, decode_encode, group_of_to.
Qed.

(** ** Secure memory *)

Definition sec_data : bytes := [byte.of_Z 7; byte.of_Z 8].

(** A user who has the secret open. *)
Definition sec_open : secmem.world :=
  {| secmem.w_secret := secmem.w_secret (secmem.initial sec_data);
     secmem.w_buffers := {[ 0 := Some sec_data ]} |}.

Lemma sec_opened : rtc secmem.step (secmem.initial sec_data) sec_open.
Proof. apply rtc_once. by apply (secmem.step_Open (secmem.initial sec_data) 0 (Some sec_data)). Defined.

Lemma secret_lifecycle_witness :
  ∃ w', rtc secmem.step (secmem.destroyed sec_open) w' ∧
        secmem.Open (secmem.w_secret w') = Ok (Some sec_data).
Proof.
  destruct (secret_lifecycle sec_data sec_open) as (_ & _ & H).
  - discriminate.
  - apply sec_opened.
  - destruct H as (w' & H1 & H2 & _).
    + exists 0, sec_data. reflexivity.
    + exists w'. split; [exact H1 | exact H2].
Defined.

(** ** The signer *)

Definition sig_priv : bytes := ed_NewKeyFromSeed (replicate 32 (byte.of_Z 5)).

Lemma signer_authenticates_witness :
  ∃ s, (signer.NewEd25519Signer sig_priv).1 = Ok s ∧
    ∀ message, ∃ e, signer.SignBytes (signer.ed_Signer (signer.Destroy s)) message = Fail e ∧
                    errors_Is_value e secmem.ErrDestroyed = true.
Proof.
  destruct (signer_authenticates ∅ 3 sig_priv) as (s & Hs & _ & Hd & _).
  - reflexivity.
  - reflexivity.
  - exists s. split; [exact Hs | exact Hd].
Defined.

(** ** The in-memory backend *)

Definition mem_history : list event :=
  [EClean 5; EDelete "b"; EPut 3 "b" [byte.of_Z 2] None;
   EPut 2 "a" [byte.of_Z 1]
     (Some {| storage.Permissions := 384; storage.Metadata := ∅; storage.TTL := 1 |})]%Z.

Lemma memory_reads_witness :
  memory_backend.Get 1000000002 "a" (run mem_history) = Ok [byte.of_Z 1] ∧
  memory_backend.Get 1000000003 "a" (run mem_history) = Fail storage.ErrNotFound.
Proof.
  split.
  - destruct (memory_reads mem_history 1000000002) as [H _].
    + repeat constructor. discriminate.
    + rewrite H. reflexivity.
  - destruct (memory_reads mem_history 1000000003) as [H _].
    + repeat constructor. discriminate.
    + rewrite H. reflexivity.
Defined.

Lemma ttl_horizon_witness :
  memory_backend.Get 6 "a" (memory_backend.Put 5 "a" [byte.of_Z 1]
    (Some {| storage.Permissions := 384; storage.Metadata := ∅; storage.TTL := 9223372037 |})
    memory_backend.NewMemoryBackend).2 = Fail storage.ErrNotFound.
Proof.
  destruct (ttl_horizon 5 6 "a" [byte.of_Z 1] 9223372037 memory_backend.NewMemoryBackend)
    as (_ & _ & H & _).
  - discriminate.
  - reflexivity.
  - lia.
  - lia.
  - apply H. lia.
Defined.

(** ** The file backend *)

Definition fb : file_backend.FileBackend :=
  {| file_backend.basePath := "/base"; file_backend.closed := false |}.

Definition bytes1 : bytes := [byte.of_Z 1].
Definition bytes2 : bytes := [byte.of_Z 2; byte.of_Z 3].

(** The base with one file, and a file beside it. *)
Definition fb_disk (fault : nat → option (nat * error)) : os.Fs :=
  {| os.fs_nodes := <[["base"] := os.Dir]> (<[["base"; "k"] := os.File bytes1]>
                      {[ ["base.tmp"] := os.File bytes1 ]});
     os.fs_fault := fault; os.fs_calls := 0; os.fs_trace := [] |}.

Lemma keys_stay_below_base_witness :
  file_backend.Get "a/../../x" fb (fb_disk (λ _, None))
    = (Fail storage.ErrInvalidKey, fb_disk (λ _, None)) ∧
  steps (agree (below ["base"])) (file_backend.Delete "a/k" fb).
Proof.
  split.
  - destruct (keys_stay_below_base fb "a/../../x" [] None) as [H _].
    apply H. right. reflexivity.
  - destruct (keys_stay_below_base fb "a/k" [] None) as (_ & _ & H & _).
    apply H; [reflexivity | discriminate].
Defined.

(** The write of the temporary file fails after one byte: the file of the key is
    the old one, but the temporary one stays, with the first byte. *)
Definition fb_full : os.Fs := fb_disk (λ n, if n =? 1 then Some (1, os.EACCES) else None).

Lemma put_is_atomic_witness :
  os.fs_nodes (file_backend.Put "k" bytes2 None fb fb_full).2 !! ["base"; "k"]
    = Some (os.File bytes1) ∧
  os.fs_nodes (file_backend.Put "k" bytes2 None fb fb_full).2 !! ["base"; "k.tmp"]
    = Some (os.File [byte.of_Z 2]).
Proof.
  split; [| eval_eq].
  pose proof (put_is_atomic fb "k" bytes2 None fb_full) as [H _].
  assert (He : file_backend.Put "k" bytes2 None fb fb_full =
    (Fail (Errorf "storage: failed to write file" os.EACCES),
     (file_backend.Put "k" bytes2 None fb fb_full).2)).
  { apply injective_projections; [eval_eq | reflexivity]. }
  rewrite He in H. destruct H as [_ H]. exact H.
Defined.

(** The key [.] names the base directory itself: its temporary file is beside
    the base, where it overwrites and then removes the file of that name. *)
Lemma dot_key_escapes :
  (file_backend.Put "." bytes2 None fb (fb_disk (λ _, None))).1
    = Fail (Errorf "storage: failed to rename file" os.EISDIR) ∧
  os.fs_nodes (file_backend.Put "." bytes2 None fb (fb_disk (λ _, None))).2 !! ["base.tmp"] = None.
Proof. split; eval_eq. Defined.

(** An empty base directory, with a directory that the system made above it. *)
Definition fs_store : file_backend.FileBackend * os.Fs :=
  ({| file_backend.basePath := "/var/keys"; file_backend.closed := false |},
   {| os.fs_nodes := <[["var"] := os.Dir]> {[ ["var"; "keys"] := os.Dir ]};
      os.fs_fault := λ _, None; os.fs_calls := 0; os.fs_trace := [] |}).

Lemma fs_store_nodes q x :
  os.fs_nodes fs_store.2 !! q = Some x → (q = ["var"] ∨ q = ["var"; "keys"]) ∧ x = os.Dir.
Proof.
  cbn. intros [[<- <-]|[_ [<- <-]%lookup_singleton_Some]]%lookup_insert_Some; auto.
Qed.

Lemma fs_store_ok : store_ok fs_store.
Proof.
  split; [reflexivity | reflexivity | by intros i | | eval_eq |].
  - intros q x [[-> | ->] ->]%fs_store_nodes; (split; [discriminate | eval_eq]).
  - intros segs x Hne [Hq ->]%fs_store_nodes.
    assert (Hb : base_of fs_store = ["var"; "keys"]) by eval_eq. rewrite Hb in Hq.
    destruct Hq as [Hq|Hq]; [discriminate |]. by destruct segs.
Qed.

Lemma file_store_is_a_map_witness :
  let '(r, fs') := file_backend.Put "a/b/c" bytes1 None fs_store.1 fs_store.2 in
  r = Ok () ∧ live_files (fs_store.1, fs') !! "a/b/c" = Some bytes1.
Proof.
  assert (Hkey : file_key "a/b/c").
  { exists ["a"; "b"; "c"]. split; [reflexivity |]. split; [repeat constructor; discriminate |].
    split; [reflexivity |]. split; eval_eq. }
  destruct (file_store_is_a_map fs_store "a/b/c" bytes1 None fs_store_ok Hkey) as (_ & _ & H & _).
  destruct (file_backend.Put _ _ _ _ _) as [r fs']. destruct H as (H1 & _ & H2).
  split; [exact H1 |]. rewrite H2. apply lookup_insert_eq.
Defined.

(** ** The key store over the in-memory backend *)

Definition demo_kp : KeyPackage :=
  {| kp_Identifier := 1; SecretShare := Some (Group.sc 3037); GroupPublicKey := Some demo_pk;
     VerificationShares := demo_vs; MinSigners := 2; MaxSigners := 3 |}.
Definition demo_kp' : KeyPackage :=
  {| kp_Identifier := 2; SecretShare := Some (Group.sc 5060); GroupPublicKey := Some demo_pk;
     VerificationShares := demo_vs; MinSigners := 2; MaxSigners := 3 |}.

Lemma demo_usable : usable_element (Some demo_pk) ∧
  Forall (λ vs, usable_element (VerificationKey vs)) demo_vs.
Proof.
  split; [by exists demo_pk |]. rewrite demo_vs_eq.
  repeat constructor; eexists; (split; [reflexivity | decided]).
Defined.

Lemma demo_storable : storable demo_kp.
Proof. split; [by eexists | apply demo_usable]. Defined.

Lemma demo_storable' : storable demo_kp'.
Proof. split; [by eexists | apply demo_usable]. Defined.

Import memory_storage.

Abbreviation demo_store := MemoryStorage.

Definition demo_chain : keychain.KeychainStore :=
  {| keychain.config := {| keychain.Group_set := true; keychain.Storage_set := true;
                           keychain.cfg_Tags := {[ "env" := "test" ]} |} |}.

Definition demo_empty : b_state (Backend := demo_store) := NewMemoryStorage.

(** Another package and a group are stored in between. *)
Lemma keystore_roundtrip_witness :
  let '(_, s1) := keychain.StoreKeyPackage (S := demo_store) demo_chain 7 "k1" "g" (Some demo_kp)
                    2 3 demo_empty in
  let s2 := (keychain.StoreKeyPackage (S := demo_store) demo_chain 8 "k2" "g" (Some demo_kp')
               2 3 s1).2 in
  keychain.GetKeyPackage (S := demo_store) 9 "k1" s2
    = Ok (forget demo_kp, stored_metadata demo_chain 7 "k1" "g" 2 3).
Proof.
  pose proof (keystore_roundtrip (LB := memory_storage_laws) demo_chain 7 "k1" "g" demo_kp 2 3 demo_empty)
    as H.
  destruct (keychain.StoreKeyPackage _ _ _ _ _ _ _ _) as [r s1].
  destruct H as [_ H].
  - reflexivity.
  - discriminate.
  - reflexivity.
  - discriminate.
  - discriminate.
  - apply demo_storable.
  - exact I.
  - exact I.
  - intros x y _. by split.
  - destruct (H (keychain.StoreKeyPackage (S := demo_store) demo_chain 8 "k2" "g" (Some demo_kp')
                   2 3 s1).2) as [Hget _].
    + apply rtc_once. exists (CStore 8 "k2" "g" (Some demo_kp') 2 3).
      split; [discriminate |]. split; [intros [] | reflexivity].
    + apply Hget.
Defined.

Lemma concurrent_stores_witness :
  let first := keychain.store_put (S := demo_store) demo_chain 7 "k1" "g" (Some demo_kp) 2 3
                 demo_empty in
  let second := keychain.store_put (S := demo_store) demo_chain 7 "k1" "g" (Some demo_kp') 2 3
                  first.2 in
  first.1 = Ok () ∧ second.1 = Ok () ∧
  fst <$> keychain.GetKeyPackage (S := demo_store) 7 "k1" second.2 = Ok (forget demo_kp').
Proof.
  destruct (concurrent_stores (LB := memory_storage_laws) demo_chain 7 "k1" "g" demo_kp demo_kp' 2 3
              demo_empty) as [_ H].
  - reflexivity.
  - discriminate.
  - reflexivity.
  - discriminate.
  - discriminate.
  - apply demo_storable.
  - apply demo_storable'.
  - exact I.
  - exact I.
  - intros x y _. by split.
  - destruct H as (_ & _ & H). exact H.
Defined.

Lemma storage_keys_witness :
  keychain.keyPackageStorageKey "../etc/passwd" = "frost/keypackages/__etc_passwd.json" ∧
  storage.Contains (keychain.sanitize "../etc/passwd") ".." = false.
Proof. split; [reflexivity | apply (storage_keys "../etc/passwd")]. Defined.

Abbreviation demo_files := file_storage.FileStorage.

Lemma files_keep_packages_witness :
  (keychain.StoreKeyPackage (S := demo_files) demo_chain 7 "a." "g" (Some demo_kp) 2 3 fs_store).2
    = fs_store ∧
  (keychain.StoreKeyPackage (S := demo_files) demo_chain 7 "a" "g" (Some demo_kp) 2 3 fs_store).1 = Ok ().
Proof.
  split.
  - pose proof (files_keep_packages demo_chain 7 "a." "g" demo_kp 2 3 fs_store) as H.
    destruct (keychain.StoreKeyPackage _ _ _ _ _ _ _ _) as [r s1].
    apply H; try exact I; try discriminate.
    + apply fs_store_ok.
    + apply demo_storable.
    + intros x y _. by split.
    + eval_eq.
  - pose proof (files_keep_packages demo_chain 7 "a" "g" demo_kp 2 3 fs_store) as H.
    destruct (keychain.StoreKeyPackage _ _ _ _ _ _ _ _) as [r s1].
    apply H; try exact I; try discriminate.
    + apply fs_store_ok.
    + apply demo_storable.
    + intros x y _. by split.
    + eval_eq.
Defined.

(** With a threshold of two, the package refuses to sign alone; read back from
    the store, it has no threshold and does not. *)
Definition sign_alone (kp : KeyPackage) : bool :=
  match participant.RoundTwo kp demo_n1 demo_msg [Commitments demo_n1] with
  | Ok _ => true
  | _ => false
  end.

Lemma stored_package_signs_alone : sign_alone demo_kp = false ∧ sign_alone (forget demo_kp) = true.
Proof. split; eval_eq. Defined.
