(* ===== verification/CliWitnesses.v ===== *)
(** * The command line at concrete inputs

    The witnesses of the theorems of [Ceremony.v]: a suite over the group of
    [ZGroup.v] whose verifier is the deployed one, a binary encoding in the place of
    encoding/json, and a disk with one empty directory. *)

From stdpp Require Import countable pretty sorting.
From Stdlib Require Import Zmod.
From S2P Require Import ZGroup.
From S2P Require Import SuiteLaws.
From S2P Require Import Witnesses.
From S2P Require Import StoreWitnesses.
From S2P Require Import Ceremony.
From S2P Require Import CliMain.
From S2P Require Import CLib.

Import session cli.

#[local] Instance CliGroup : Group := ZGroup LittleEndian.
#[local] Instance CliGroupLaws : GroupLaws CliGroup := ZGroup_laws LittleEndian.

(** The toy suite with the verifier of the deployed suites. *)
#[local] Instance CliSuite : Ciphersuite CliGroup := {|
  ID := "TOY"; H1 := @H1 _ (ToySuite LittleEndian); H2 := @H2 _ (ToySuite LittleEndian);
  H3 := @H3 _ (ToySuite LittleEndian); H4 := @H4 _ (ToySuite LittleEndian);
  H5 := @H5 _ (ToySuite LittleEndian); HDKG := @HDKG _ (ToySuite LittleEndian);
  HID := @HID _ (ToySuite LittleEndian); HashToCurve := @HashToCurve _ (ToySuite LittleEndian);
  Hash := @Hash _ (ToySuite LittleEndian);
  VerifySignature m s P :=
    plain_verify CliGroup (@H2 _ (ToySuite LittleEndian)) ElementLength ScalarLength m s (Some P);
  ContextString := "TOY" |}.

#[local] Instance CliVerifier : VerifierLaw CliSuite.
Proof.
  intros msg R z PK HR HPK Hv.
  destruct (Verify_cases msg R z PK) as [Hiff _]. apply Hiff in Hv as (_ & _ & _ & He).
  cbn [VerifySignature CliSuite]. unfold plain_verify, parse_signature.
  rewrite e_IsIdentity_decide, bool_decide_eq_false_2 by done. step.
  rewrite length_app, law_e_Bytes_length, law_s_Bytes, law_SerializeScalar_length, Nat.eqb_refl by done.
  cbn [negb]. step. rewrite take_app_length', drop_app_length' by (symmetry; by apply law_e_Bytes_length).
  rewrite law_DeserializeElement, law_SerializeScalar by done. step.
  change (ScalarBaseMult z = e_Add R (ScalarMult PK (H2 (e_Bytes R ++ e_Bytes PK ++ msg)))) in He.
  by rewrite He, (proj2 (law_e_Equal _ _) eq_refl).
Qed.

(** ** encoding/json *)

Abbreviation entry_tuple := (Z * string * string)%type.

Definition entry_to (e : KeyPackageExport) : entry_tuple :=
  (kx_Identifier e, kx_SecretShare e, kx_PublicKey e).
Definition entry_of (x : entry_tuple) : KeyPackageExport :=
  {| kx_Identifier := x.1.1; kx_SecretShare := x.1.2; kx_PublicKey := x.2 |}.

Definition keys_to (k : KeysFile) : Z * Z * string * list entry_tuple :=
  (kf_MinSigners k, kf_MaxSigners k, kf_GroupPublicKey k, entry_to <$> kf_KeyPackages k).
Definition keys_of_tuple (x : Z * Z * string * list entry_tuple) : KeysFile :=
  {| kf_MinSigners := x.1.1.1; kf_MaxSigners := x.1.1.2; kf_GroupPublicKey := x.1.2;
     kf_KeyPackages := entry_of <$> x.2 |}.

Definition commitment_to (c : CommitmentFile) : entry_tuple :=
  (cf_Identifier c, cf_HidingCommitment c, cf_BindingCommitment c).
Definition commitment_of_tuple (x : entry_tuple) : CommitmentFile :=
  {| cf_Identifier := x.1.1; cf_HidingCommitment := x.1.2; cf_BindingCommitment := x.2 |}.

Definition nonces_to (n : NoncesFile) : entry_tuple :=
  (nf_Identifier n, nf_HidingNonce n, nf_BindingNonce n).
Definition nonces_of_tuple (x : entry_tuple) : NoncesFile :=
  {| nf_Identifier := x.1.1; nf_HidingNonce := x.1.2; nf_BindingNonce := x.2 |}.

Definition share_to (s : ShareFile) : entry_tuple := (sf_Identifier s, sf_Share s, "").
Definition share_of_tuple (x : entry_tuple) : ShareFile :=
  {| sf_Identifier := x.1.1; sf_Share := x.1.2 |}.

Definition signature_to (g : SignatureFile) : string * string * string :=
  (gf_Message g, gf_Signature g, gf_PublicKey g).
Definition signature_of_tuple (x : string * string * string) : SignatureFile :=
  {| gf_Message := x.1.1; gf_Signature := x.1.2; gf_PublicKey := x.2 |}.

Definition put_tuple `{Countable A} (x : A) : Res bytes := Ok (positive_bytes (encode x)).
Definition get_tuple `{Countable A} {B} (f : A → B) (b : bytes) : Res B :=
  match decode (bytes_positive b) with
  | Some x => Ok (f x)
  | None => Fail (OpaqueError "unexpected end of JSON input")
  end.

Lemma get_put `{Countable A} {B} (f : A → B) x b : put_tuple x = Ok b → get_tuple f b = Ok (f x).
Proof.
  intros [= <-]. unfold get_tuple. by rewrite bytes_positive_bytes, decode_encode.
Qed.

#[local] Instance CliDemoJson : CliJson := {|
  marshal_keys k := put_tuple (keys_to k);
  unmarshal_keys := get_tuple keys_of_tuple;
  marshal_commitment c := put_tuple (commitment_to c);
  unmarshal_commitments := get_tuple (fmap commitment_of_tuple);
  marshal_nonces n := put_tuple (nonces_to n);
  unmarshal_nonces := get_tuple nonces_of_tuple;
  marshal_share s := put_tuple (share_to s);
  unmarshal_shares := get_tuple (fmap share_of_tuple);
  marshal_signature g := put_tuple (signature_to g);
  unmarshal_signature := get_tuple signature_of_tuple;
  json_map := entry_tuple;
  unmarshal_map := get_tuple (λ x : entry_tuple, x);
  marshal_maps ms := put_tuple (ms : list entry_tuple);
|}.

(** A list of documents through maps. *)
Lemma maps_roundtrip {B} (to : B → entry_tuple) (from : entry_tuple → B) (l : list B) ms :
  (∀ x, from (to x) = x) →
  Forall2 (λ x m, ∃ b, put_tuple (to x) = Ok b ∧ get_tuple (λ x : entry_tuple, x) b = Ok m) l ms →
  ∃ b, put_tuple (ms : list entry_tuple) = Ok b ∧ get_tuple (fmap from) b = Ok l.
Proof.
  intros Hof Hl. exists (positive_bytes (encode (ms : list entry_tuple))). split; [done |].
  rewrite (get_put _ ms) by done. f_equal.
  induction Hl as [|x m l ms (b & Hb & Hm) _ IH]; [done |].
  rewrite (get_put (λ x : entry_tuple, x) (to x) b Hb) in Hm. injection Hm as <-. cbn. by rewrite Hof, IH.
Qed.

#[local] Program Instance CliDemoJson_laws : CliJsonLaws CliDemoJson := {| cli_utf8 := λ _, True |}.
Next Obligation. done. Qed.
Next Obligation.
  intros k _ _ _ _. eexists. split; [reflexivity |]. cbn. erewrite get_put by reflexivity.
  destruct k as [mn mx g ps]. unfold keys_of_tuple, keys_to. cbn. do 2 f_equal.
  rewrite <-list_fmap_compose. induction ps as [|[] ps IH]; [done |]. cbn. by f_equal.
Qed.
Next Obligation.
  intros [] _ _ _. eexists. split; [reflexivity |]. cbn. by erewrite get_put by reflexivity.
Qed.
Next Obligation.
  intros [] _ _ _. eexists. split; [reflexivity |]. cbn. by erewrite get_put by reflexivity.
Qed.
Next Obligation.
  intros c _ _ _. eexists _, _. split; [reflexivity |]. cbn. by erewrite get_put by reflexivity.
Qed.
Next Obligation.
  intros cs ms Hms _. apply (maps_roundtrip commitment_to); [by intros [] | done].
Qed.
Next Obligation.
  intros s _ _. eexists _, _. split; [reflexivity |]. cbn. by erewrite get_put by reflexivity.
Qed.
Next Obligation.
  intros ss ms Hms _. apply (maps_roundtrip share_to); [by intros [] | done].
Qed.

(** ** The disk *)

Definition cli_cwd : path := ["work"].

Definition cli_state : State :=
  {| st_fs := {| os.fs_nodes := {[ ["work"] := os.Dir ]}; os.fs_fault := λ _, None;
                 os.fs_calls := 0; os.fs_trace := [] |};
     st_rng := toy_rng 5 |}.

Lemma cli_world : world cli_cwd cli_state ∅ (toy_rng 5).
Proof.
  split; [by intros i | | eval_eq | | reflexivity].
  - intros q x Hq. cbn in Hq. apply lookup_singleton_Some in Hq as [<- <-].
    split; [discriminate | eval_eq].
  - intros name. cbn [st_fs cli_state os.fs_nodes]. rewrite node_at_snoc, lookup_empty.
    apply lookup_singleton_ne. discriminate.
Qed.

Definition cli_suites : suite_name → AnySuite :=
  λ _, {| any_Group := CliGroup; any_Suite := CliSuite |}.

(** A dealer for ten participants, and quorums in and out of lexical order. *)
Definition cli_secret : Scalar := default (Group.sc 0) (let '(o, _) := RandomScalar (toy_rng 5) in
  match o with Ok s => Some s | _ => None end).
Definition cli_rng1 : Rng := snd (RandomScalar (toy_rng 5)).
Definition cli_dealt := dealer.GenerateShares (Some cli_secret) 2 10 (all_ids 10) cli_rng1.
Definition cli_kps : list KeyPackage := fst (ok_or ([], Identity) (fst cli_dealt)).
Definition cli_pk : Element := snd (ok_or ([], Identity) (fst cli_dealt)).
Definition cli_quorum (ids : list Z) : list KeyPackage :=
  filter (λ kp, kp_Identifier kp ∈ ids) cli_kps.
Definition cli_rounds (ids : list Z) :=
  rand_map participant.RoundOne (cli_quorum ids) (snd cli_dealt).

Definition cli_session_rounds (ids : list Z) : list (SigningNonces * SigningCommitments) :=
  ok_or [] (fst (cli_rounds ids)).

Lemma cli_secret_run : RandomScalar (toy_rng 5) = (Ok cli_secret, cli_rng1).
Proof. run. Defined.
Lemma cli_dealt_run : cli_dealt = (Ok (cli_kps, cli_pk), snd cli_dealt).
Proof. run. Defined.

(** The hypotheses of a session, evaluated. *)
Ltac cli_hypothesis :=
  match goal with
  | |- world _ _ _ _ => apply cli_world
  | |- fresh_dir _ => by intros name' [b Hb]
  | |- RandomScalar _ = _ => apply cli_secret_run
  | |- dealer.GenerateShares _ _ _ _ _ = _ => apply cli_dealt_run
  | |- _ ⊆ _ => apply sub_of_filter; eval_eq
  | |- rand_map participant.RoundOne (cli_quorum ?ids) _ = _ =>
      change (cli_rounds ids = (Ok (cli_session_rounds ids), snd (cli_rounds ids))); run
  | |- cli_utf8 _ => exact I
  | |- _ = _ => eval_eq
  | |- _ => decided
  end.

(** The signers 1 and 3 sign; 2 and 10, whose files are collected in the other
    order, do not. *)
Lemma ceremony_signs_witness :
  (∃ st', script cli_cwd cli_suites (ceremony "toy" 2 10 [1; 3]%Z "hello") cli_state = (Ok (), st')) ∧
  (∃ id st1 e st', head [2; 10]%Z = Some id ∧
     script cli_cwd cli_suites (collecting "toy" 2 10 [2; 10]%Z) cli_state = (Ok (), st1) ∧
     main cli_cwd cli_suites (sign_share_of "toy" "hello" id) st1 = (Fail e, st')).
Proof.
  pose proof (λ ids, ceremony_signs cli_cwd cli_suites "toy" (L := CliGroupLaws) (VL := CliVerifier)
    cli_state ∅ (toy_rng 5) 2 10 cli_secret cli_rng1 cli_kps cli_pk (snd cli_dealt)
    (cli_quorum ids) (cli_session_rounds ids) (snd (cli_rounds ids)) "hello") as H.
  split.
  - destruct (H [1; 3]%Z) as [Hok _]; [cli_hypothesis.. |]. apply Hok. decided.
  - destruct (H [2; 10]%Z) as [_ Hfail]; [cli_hypothesis.. |]. apply Hfail. decided.
Defined.

(** Flags with two dashes and the value in the next argument. *)
Definition cli_style (_ : string) : style := {| two_dashes := true; same_argument := false |}.
Definition cli_argvs (ids : list Z) : list (list string) :=
  ceremony_argvs cli_style "toy" 2 10 ids "hello".

Lemma ceremony_by_arguments_witness :
  (∃ st', shell "dev" cli_cwd cli_suites (cli_argvs [1; 3]%Z) cli_state = (replicate 9 0%Z, st')) ∧
  (∃ st', shell "dev" cli_cwd cli_suites (cli_argvs [2; 10]%Z) cli_state
          = (replicate 4 0%Z ++ [1%Z], st')).
Proof.
  pose proof (λ ids, ceremony_by_arguments "dev" cli_style cli_cwd cli_suites "toy"
    (L := CliGroupLaws) (VL := CliVerifier)
    cli_state ∅ (toy_rng 5) 2 10 cli_secret cli_rng1 cli_kps cli_pk (snd cli_dealt)
    (cli_quorum ids) (cli_session_rounds ids) (snd (cli_rounds ids)) "hello") as H.
  split.
  - destruct (H [1; 3]%Z) as [Hok _]; [cli_hypothesis.. |]. apply Hok. decided.
  - destruct (H [2; 10]%Z) as [_ Hfail]; [cli_hypothesis.. |].
    destruct Hfail as (st' & Hrun & _); [decided |]. exists st'. exact Hrun.
Defined.

(** The session of the repository's README. *)
Definition readme : list (list string) :=
  shell_words <$>
  ["frost keygen --min 2 --max 3 --output keys.json";
   "frost commit --keys keys.json --id 1";
   "frost commit --keys keys.json --id 2";
   "frost collect-commitments --output commitments.json";
   "frost sign-share --keys keys.json --id 1 --commitments commitments.json --message 'Hello FROST'";
   "frost sign-share --keys keys.json --id 2 --commitments commitments.json --message 'Hello FROST'";
   "frost collect-shares --output shares.json";
   "frost aggregate --keys keys.json --commitments commitments.json --shares shares.json --message 'Hello FROST'";
   "frost verify --signature frost-signature.json"].

Example readme_session :
  (shell "dev" cli_cwd cli_suites readme cli_state).1 = replicate 9 0%Z.
Proof. vm_compute. reflexivity. Qed.

Lemma one_shot_signs_witness :
  ∃ st', script cli_cwd cli_suites [keygen_of "toy" 2 10; sign_of "toy" "2,10" "hello";
                                    verify_of "toy"] cli_state = (Ok (), st').
Proof.
  apply (one_shot_signs cli_cwd cli_suites "toy" (L := CliGroupLaws) (VL := CliVerifier)
    cli_state ∅ (toy_rng 5) 10 cli_secret cli_rng1 cli_kps cli_pk (snd cli_dealt)
    (cli_quorum [2; 10]%Z) (cli_session_rounds [2; 10]%Z) (snd (cli_rounds [2; 10]%Z)) "2,10" "hello");
    cli_hypothesis.
Defined.

(** The identifiers after the second one are ignored. *)
Definition cli_sign_flags : SignFlags :=
  {| sg_keys := "frost-keys.json"; sg_message := "hello"; sg_signers := "2,10,1";
     sg_output := "frost-signature.json"; sg_ciphersuite := "toy" |}.

Lemma cli_signs :
  ∃ st st', main cli_cwd cli_suites (keygen_of "toy" 2 10) cli_state = (Ok (), st) ∧
            signCommand cli_cwd cli_suites cli_sign_flags st = (Ok (), st').
Proof.
  destruct (one_shot_signs cli_cwd cli_suites "toy" (L := CliGroupLaws) (VL := CliVerifier)
    cli_state ∅ (toy_rng 5) 10 cli_secret cli_rng1 cli_kps cli_pk (snd cli_dealt)
    (cli_quorum [2; 10]%Z) (cli_session_rounds [2; 10]%Z) (snd (cli_rounds [2; 10]%Z))
    "2,10,1" "hello") as [st2 H]; [cli_hypothesis.. |].
  cbn [script] in H. apply cmd_bind_Ok in H as ([] & st & Hkeygen & H).
  apply cmd_bind_Ok in H as ([] & st' & Hsign & _). by exists st, st'.
Qed.

Lemma sign_takes_two_witness :
  ∃ st i j data keysInput,
    main cli_cwd cli_suites (keygen_of "toy" 2 10) cli_state = (Ok (), st) ∧
    parse_signers "2,10,1" = Some [i; j] ∧ (i < j)%Z ∧
    (os.ReadFile (path_of cli_cwd "frost-keys.json") (st_fs st)).1 = Ok data ∧
    unmarshal_keys data = Ok keysInput ∧ (kf_MinSigners keysInput ≤ 2)%Z.
Proof.
  destruct cli_signs as (st & st' & Hkeygen & Hsign).
  destruct (sign_takes_two cli_cwd cli_suites cli_sign_flags st st' Hsign)
    as (i & j & data & keysInput & H1 & H2 & _ & H3 & H4 & H5).
  exists st, i, j, data, keysInput. split; [exact Hkeygen |]. split; [exact H1 |].
  split; [apply H2 |]. split; [exact H3 |]. split; [exact H4 | exact H5].
Defined.

(** *** commit *)

Definition cli_entry : KeyPackageExport :=
  {| kx_Identifier := 1; kx_SecretShare := ""; kx_PublicKey := "" |}.
Definition cli_keys : KeysFile :=
  {| kf_MinSigners := 2; kf_MaxSigners := 2; kf_GroupPublicKey := "";
     kf_KeyPackages := [cli_entry] |}.
Definition cli_keys_data : bytes := ok_or [] (marshal_keys cli_keys).

Definition cli_key_state : State :=
  {| st_fs := {| os.fs_nodes := <[["work"; "frost-keys.json"] := os.File cli_keys_data]>
                                  {[ ["work"] := os.Dir ]};
                 os.fs_fault := λ _, None; os.fs_calls := 0; os.fs_trace := [] |};
     st_rng := toy_rng 5 |}.

Lemma cli_key_world :
  world cli_cwd cli_key_state {[ "frost-keys.json" := cli_keys_data ]} (toy_rng 5).
Proof.
  split; [by intros i | | eval_eq | | reflexivity].
  - apply tree_insert; [| done | eval_eq | right; decided].
    intros q x Hq. apply lookup_singleton_Some in Hq as [<- <-]. split; [discriminate | eval_eq].
  - intros name. cbn [st_fs cli_key_state os.fs_nodes]. rewrite node_at_insert by done.
    destruct (decide (name = "frost-keys.json")) as [->|Hne].
    + rewrite decide_True by done. by rewrite lookup_singleton_eq.
    + rewrite decide_False by (by intros [= ->]). rewrite lookup_singleton_ne by done.
      rewrite node_at_snoc. by apply lookup_singleton_ne.
Qed.

Definition cli_commit (i : Z) : CommitFlags :=
  {| ct_keys := "frost-keys.json"; ct_id := i; ct_output := ""; ct_nonces := "";
     ct_ciphersuite := "toy" |}.

Lemma commit_refuses_witness :
  (∃ e st', commitCommand cli_cwd cli_suites (cli_commit 3) cli_key_state = (Fail e, st')) ∧
  (∃ st', commitCommand cli_cwd cli_suites (cli_commit 65536) cli_key_state = (Panic, st')).
Proof.
  pose proof (λ i, commit_refuses cli_cwd cli_suites (cli_commit i) cli_key_state
    {[ "frost-keys.json" := cli_keys_data ]} (toy_rng 5) cli_keys_data cli_keys) as H.
  split.
  - destruct (H 3%Z) as (_ & Hmissing & _).
    + apply cli_key_world.
    + decided.
    + eval_eq.
    + eval_eq.
    + discriminate.
    + destruct Hmissing as (e & st' & Hrun & _); [decided | decided |]. exists e, st'. exact Hrun.
  - destruct (H 65536%Z) as (_ & _ & Hlarge).
    + apply cli_key_world.
    + decided.
    + eval_eq.
    + eval_eq.
    + discriminate.
    + destruct Hlarge as (st' & Hrun & _); [decided |]. exists st'. exact Hrun.
Defined.

(** ** The C library

    Packages lose their shares and keys on the way through JSON. *)

#[local] Instance CliPackageJson : libfrost.PackageJson := {|
  libfrost.marshal_packages G kps := put_tuple (kp_Identifier <$> kps);
  libfrost.unmarshal_packages G := get_tuple (fmap (λ i : Z,
    {| kp_Identifier := i; SecretShare := None; GroupPublicKey := None; VerificationShares := [];
       MinSigners := 0; MaxSigners := 0 |}));
|}.

#[local] Instance CliPackageJson_laws : PackageJsonLaws CliPackageJson.
Proof.
  intros G b kps. cbn. unfold get_tuple. destruct (decode _) as [ids|]; [| done].
  intros [= <-]. apply Forall_fmap, Forall_true. intros i. done.
Qed.

Definition c_state : libfrost.State := {| libfrost.services := ∅; libfrost.c_rng := toy_rng 5 |}.

(** The first two of the keys that [frost_generate_keys] writes. *)
Definition c_keys : bytes :=
  match fst (libfrost.frost_generate_keys cli_suites 0 2 3 c_state) with Ok (b, _) => b | _ => [] end.

Lemma frost_sign_never_signs_witness :
  ∃ st', libfrost.frost_sign cli_suites 0 (Some c_keys) (Some [0; 1]%Z) 2 (Some []) c_state
         = (Panic, st').
Proof.
  destruct (frost_sign_never_signs cli_suites 0 (Some c_keys) [0; 1]%Z (Some []) c_state) as [_ H].
  - intros cs svc Hs. cbn in Hs. by rewrite lookup_empty in Hs.
  - apply (H c_keys [] (ok_or [] (libfrost.unmarshal_packages c_keys))).
    + reflexivity.
    + reflexivity.
    + cbn. lia.
    + eval_eq.
    + decided.
Defined.

Lemma frost_verify_spec_witness :
  ∃ st', libfrost.frost_verify cli_suites 0 (Some []) (Some (e_Bytes cli_pk ++ s_Bytes cli_secret))
           (Some (e_Bytes cli_pk)) c_state
         = (Fail libfrost.FROST_ERR_VERIFY_FAILED, st').
Proof.
  destruct (frost_verify_spec cli_suites 0 c_state [] CliGroupLaws cli_pk cli_secret cli_pk)
    as (st' & _ & H).
  - intros cs svc Hs. cbn in Hs. by rewrite lookup_empty in Hs.
  - decided.
  - decided.
  - exists st'. exact H.
Defined.
